(* ===== verification/_CoqProject ===== *)
-Q . S2P
Prelude.v
Strseg.v
OrdIndex.v
RBTree.v
RBTreeRep.v
RBTreeAdd.v
RBTreeWalk.v
RBTreePrune.v
RBTreeIndex.v
RBTreeCost.v
Table.v
State.v
Log.v
Signal.v
SignalSpec.v
CtlOut.v
CtlOutSpec.v
SvcVars.v
PtrArray.v
Fd.v
FdSpec.v
FdThms.v
CtlObj.v
Service.v
Preserves.v
SvcFork.v
Dll.v
ServiceSpec.v
SvcRun.v
SvcActive.v
SvcNew.v
SvcThms.v
Walk.v
SvcLists.v
Sound.v
SoundSvc.v
CtlArg.v
CtlSock.v
Fatal.v
Options.v
CtlCmd.v
SoundFd.v
SoundArg.v
SoundSock.v
SoundCmd.v
CtlObjCmd.v
SoundObjCmd.v
SoundSvcCmd.v
CtlIn.v
CtlTable.v
Frame.v
CtlFrame.v
CtlFraming.v
CtlRun.v
SoundCtl.v
SoundDump.v
SoundThms.v
FatalThms.v
GuardThms.v
Main.v
Machine.v
MachineCtl.v
MachineParts.v
MachineThms.v
Startup.v
GuardLoop.v
Defects.v
