(* ===== verification/Prelude.v ===== *)
(** * daemonproxy: a verification library

    daemonproxy is a scriptable service supervisor: a single-threaded loop around
    [select] that starts daemons, reaps them, passes signals on as events, and takes
    its commands line by line from controllers (scripts on pipes or sockets).  This
    library models all of its C code that makes decisions and proves what makes the
    parts correct.  Names are those of the source, in src/src/.

    ** How the program is put together

    [main] (daemonproxy.c) parses the options, sets the parts up and repeats
    [main_iteration]: log, signals, zombies, services, new connections, controllers,
    then the wait.  The parts share global variables and nothing else:
    - the wake record says when and for which descriptors [select] wakes up;
    - the services (service.c) are kept in two red-black trees, by name and by process
      id, and in two doubly linked lists, those to look at now and those that a signal
      may start;
    - the named descriptors (fd.c) are kept in a third tree; both ends of a pipe point
      at each other;
    - signals arrive asynchronously in a small table that the main loop merges into its
      own (signal.c);
    - a controller (controller.c) has an input buffer, a state function, and an output
      buffer to which events are written, whole or not at all;
    - everything may write to the log (log.c), and a fatal error may arise anywhere
      (daemonproxy.c).

    ** The model

    A C function is a function in the monad [M]: from the state to an [outcome], which
    is a result and a new state, or [Fault] for undefined behaviour and failed
    assertions, or the end of the process ([Exited], [Execed]), or [OutOfFuel] for a
    loop whose fuel ran out.  The state [G] of file State.v is a record with one record
    per source file, the heap of tree nodes, the trace of system calls and [errno].
    Objects (services, descriptors) have addresses and live in finite maps, tree nodes in
    a heap with the parent, child and sentinel pointers of the source, so that aliasing,
    dangling pointers and broken links can be expressed; a missing object is a fault.
    The operating system is a parameter, [OS]: a function from the calls made so far and
    the next call to its answer.  No theorem assumes more of it than the classes
    [WriteOk] ([write] takes at most what it is given, and something), [ReadOk] (reads
    stay within the room given), [SocketOk], [AcceptOk] and [OpenOk] (descriptors fit an [fd_set]),
    [fork_in_parent] (the model follows the parent) and, for the end of [fatal],
    [setup_succeeds].  What scripts generate at build time (the table and
    hash of the commands, the table of options, the names of the signals, the version)
    and [inet_pton] are parameters too, with [CmdTableOk] the contract of the first.

    Conventions: [int] and [int64_t] are integers brought into range by [wrap32] and
    [wrap64] where the code may overflow.  Signed overflow is thus, besides the
    reading of uninitialised memory, the one kind of undefined behaviour that is not a
    [Fault]: digits that do not fit ([strseg_atoi]), times and counts
    wrap around, as they do in the build that its configure script makes by default, without
    optimisation.  The exception is [strseg_parse_size], whose test for overflow is itself
    an overflow that a compiler may drop: there it is a [Fault].  Buffers are lists up to
    their fill level, and the argument of a command is a window [Seg] into a copy of the
    input buffer, of which no byte outside may be read; C strings end at the first NUL;
    [malloc] succeeds when the system says so; [alloca] gives [alloca_cap n] bytes;
    uninitialised memory that is read counts as 0, and an uninitialised socket address as
    absent; a number outside 0..1023 in an [fd_set] faults; the sizes are those of an LP64
    system.  [log_trace] is compiled out, but the assertions and [svc_check] are kept, as
    faults; [svc_var_room] adds one bounds check of its own, where the code writes past
    [name_buf].  The format strings of [printf] are applied to their arguments by functions
    such as [tab_join] and [fmt_d].

    ** The files

    - Prelude: outcomes, the monad, machine integers, decimal numbers.  Strseg: strseg.c.
    - OrdIndex: ordered lists as the specification of an index.  RBTree: all of
      Contained_RBTree.c.  RBTreeRep, RBTreeAdd, RBTreeWalk, RBTreePrune: which heaps
      represent which trees, and what each function does to them, by zippers.
      RBTreeIndex: the interface that clients use, an ordered list in a heap ([index_at], a
      predicate on heaps that has no code).  RBTreeCost: trees made by any calls, the rounds
      of a search, and [RBTree_Clear].  Table: the same index for objects in a map that hold
      their nodes.
    - State: the data of all parts and the wake record.  Log: log.c.  Signal, SignalSpec:
      signal.c.  CtlOut, CtlOutSpec: the output side of controller.c.
    - SvcVars: the packed variables of a service, as an association list.  PtrArray: arrays
      of pointers.  Fd, FdSpec, FdThms: fd.c.  CtlObj: allocating controllers.
    - Service: all of service.c.  Preserves: relations that computations preserve.  SvcFork:
      which operations call [fork].  Dll: the linked lists of service.c.  ServiceSpec, SvcRun, SvcActive,
      SvcNew, SvcThms, SvcLists: the invariant [svc_ok] of the services, the state machine
      [svc_trans] that [svc_run] refines, and the operations one by one.  Walk: going through
      descriptors and services in order.
    - CtlArg, CtlSock, Fatal, Options, CtlCmd, CtlObjCmd, CtlIn: the rest of controller.c,
      control-socket.c, options.c, and the fatal errors.  CtlTable: the generated table of
      commands.  Frame: what operations leave alone.  CtlFrame, CtlFraming, CtlRun: from
      bytes to commands ([in_step], the steps of an input stream, is a specification; that a
      turn of [ctl_run] is made of them is [ctl_run_by_steps]).  Main: daemonproxy.c.
    - Sound and the files that start with it: the invariant [sound] of the whole daemon, and
      that each operation, each command and each state of a controller keeps it.  Machine,
      MachineCtl, MachineParts: that the operations of the main loop return from [ready]
      states and lead to [ready] states.  MachineThms: the main loop as a plan of them.
      Startup: from the first step of [main] to a [ready] state.
      FatalThms, GuardThms, GuardLoop: how the process ends.  Defects: runs that go wrong.

    ** What is shown

    - The index: insertion, removal, search and traversal of the red-black trees refine
      an ordered list and keep the balance; whatever calls a tree was made by, searches and
      descents take logarithmically many rounds.
    - No fault: whatever a line says and whatever the system answers, no state function of
      a controller faults or loops, and [sound] holds again ([ctl_state_safe]).  Excluded
      are lines with NUL bytes and the three arguments of [tame] on which the program does go
      wrong.  [fatal] never faults either, and ends unless exec and pipe keep failing.
    - The whole program ([main_never_faults]): once the options are read, without pools and
      not with both a terminate guard and exec-on-exit, [main] ends with an error code or
      enters its loop in a [ready] state, and never faults.
    - The daemon does not get stuck ([main_loop_type_safe]): the main loop goes from [ready]
      states to [ready] states, whatever the system answers, and ends only when it is asked
      to.  Besides the lines above, three situations are excepted: services with control
      descriptors ([controlled], where a fork opens a controller), signals with equal times
      or too many to count ([muddled]), and a log that [select] cannot wait for
      ([unwaitable]); the loops over bytes and zombies may use up their fuel.
    - Services (without control descriptors, while no two pending signals share a time):
      [svc_run] makes the transitions of [svc_trans] within five passes, forks exactly when a
      start is due and keeps the process id that [fork] returned; a pass over the active list
      leaves only services that wait.  An end is recorded once; starts, cancellations, names
      and variables do what they say, the variables of a service from a pool while they fit.
    - Signals: none is lost between handler and main loop, and clients see each pending one
      once, oldest first, if their times differ (which the handler does not ensure).  Events
      are written whole or not at all.  The commands carried out are the lines of a pipe or
      socket, once and in order, however the bytes arrive; files of commands are not covered.
    - The terminate guard: no other command than the two for it touches it or, under it, the
      end of the daemon, and the main loop, started under a guard, returns only after its code
      was given.
    - Defects: [RBTree_Clear] on any tree that is not empty, pipes with one name for both ends,
      services without a free controller, and [fatal] without programs and pipes.
    - Round trips, order and bounds of the string segments, the clock, the sizes.

    ** Fuel

    A loop that is bounded by a data structure gets that bound: the size of the map of
    objects for a traversal, the length of the buffer for a scan, the number of nodes for a
    tree.  The others are constants, shown to be enough where the theorems say that the
    function returns: 5 passes of the switch in [svc_run], 18 for the events of the 16 slots
    of signals, 2100 and 1100 writes to empty the output and log buffers ([WriteOk] makes
    each write take a byte).  [fatal] and [sig_init] call each other; [fatal_depth] is the
    depth of that stack.  The rounds of the main loop, the zombies of a round and the bytes
    in the signal pipe are bounded by arguments of [main], as only the system bounds them.

    ** Not modelled

    The test programs Contained_RBTree.test.c and ancillary_test.c, the Perl scripts and the
    manual are no part of the daemon.  The layout of messages with ancillary data (the
    [cmsg] macros) is reduced to the list of the descriptors received.  Handlers that run
    between two instructions of the main loop are modelled as arrivals between the steps in
    which the main loop reads or clears the shared table, as the code blocks the signals
    there; a signal in the middle of [log_write] is not. *)

From Stdlib Require Export ZArith Lia Ascii.
From stdpp Require Export base tactics option list gmap strings numbers.
Export stdpp.list.

#[export] Set Default Goal Selector "!".

Declare Scope dp_scope.
Delimit Scope dp_scope with dp.
#[global] Open Scope Z_scope.

(** ** Outcomes and the state monad

    A C function returns ([Done]), or runs into undefined behaviour (a load or a
    store through an invalid pointer, an access outside an array, a failed
    [assert], an [abort]: [Fault]), or ends the process with [exit] or a successful
    [exec], or is still running when the fuel of the model is used up. *)

Inductive outcome (A : Type) : Type :=
  | Done (a : A)
  | Fault
  | OutOfFuel
  | Exited (code : Z)
  | Execed (argv : list (list Z)).
Arguments Done {A} a.
Arguments Fault {A}.
Arguments OutOfFuel {A}.
Arguments Exited {A} code.
Arguments Execed {A} argv.

#[export] Instance outcome_ret : MRet outcome := @Done.
#[export] Instance outcome_bind : MBind outcome := λ A B f o,
  match o with
  | Done a => f a
  | Fault => Fault
  | OutOfFuel => OutOfFuel
  | Exited c => Exited c
  | Execed v => Execed v
  end.

(** A computation over a state [S] that can fault. *)
Definition M (S A : Type) : Type := S → outcome (A * S).

#[export] Instance M_ret {S} : MRet (M S) := λ A a s, Done (a, s).
#[export] Instance M_bind {S} : MBind (M S) := λ A B f m s,
  match m s with
  | Done (a, s') => f a s'
  | Fault => Fault
  | OutOfFuel => OutOfFuel
  | Exited c => Exited c
  | Execed v => Execed v
  end.

Definition fault {S A} : M S A := λ _, Fault.
Definition nofuel {S A} : M S A := λ _, OutOfFuel.
Definition gets {S A} (f : S → A) : M S A := λ s, Done (f s, s).
Definition modify {S} (f : S → S) : M S unit := λ s, Done (tt, f s).
Definition lift {S A} (o : outcome A) : M S A := λ s, a ← o; Done (a, s).

(** C's [assert(b)]. *)
Definition assert {S} (b : bool) : M S unit := if b then mret tt else fault.

(** C's [if (b) { ... }] without an [else]. *)
Definition when {S} (b : bool) (m : M S unit) : M S unit := if b then m else mret tt.

(** [m] run from [s] returns, and its result and final state satisfy [Q]. *)
Definition returns {S A} (m : M S A) (s : S) (Q : A → S → Prop) : Prop :=
  ∃ a s', m s = Done (a, s') ∧ Q a s'.

Lemma bind_done {S A B} (m : M S A) (f : A → M S B) s a s' :
  m s = Done (a, s') → (m ≫= f) s = f a s'.
Proof. intros H. unfold mbind, M_bind. by rewrite H. Qed.

Lemma bind_bind {S A B C} (m : M S A) (f : A → M S B) (g : B → M S C) s :
  ((m ≫= f) ≫= g) s = (m ≫= λ a, f a ≫= g) s.
Proof. unfold mbind, M_bind. by destruct (m s) as [[]| | | |]. Qed.

(** ** Arrays

    An array is a list; an index outside of it is a [Fault]. *)

(** The expression [a[i]] and the assignment [a[i]= v]. *)
Definition slot {A} (a : list A) (i : Z) : outcome A :=
  if i <? 0 then Fault else match a !! Z.to_nat i with Some x => Done x | None => Fault end.
Definition set_slot {A} (a : list A) (i : Z) (v : A) : outcome (list A) :=
  if (i <? 0) || (i >=? Z.of_nat (length a)) then Fault else Done (<[Z.to_nat i := v]> a).

Lemma slot_lookup {A} (a : list A) i x : a !! i = Some x → slot a (Z.of_nat i) = Done x.
Proof. intros Hi. unfold slot. rewrite (proj2 (Z.ltb_ge _ _)), Nat2Z.id, Hi by lia. done. Qed.

Lemma set_slot_insert {A} (a : list A) i x : (i < length a)%nat →
  set_slot a (Z.of_nat i) x = Done (<[i := x]> a).
Proof.
  intros Hi. unfold set_slot. rewrite (proj2 (Z.ltb_ge _ _)) by lia.
  destruct (Z.geb_spec (Z.of_nat i) (Z.of_nat (length a))); [lia|]. by rewrite Nat2Z.id.
Qed.

(** ** Machine integers

    A [w]-bit signed integer is a [Z]; arithmetic that can leave the range is
    brought back with [wrap], two's complement wrap-around. *)

Definition wrap (w x : Z) : Z := (x + 2 ^ (w - 1)) mod 2 ^ w - 2 ^ (w - 1).
Definition wrap64 (x : Z) : Z := wrap 64 x.
Definition wrap32 (x : Z) : Z := wrap 32 x.
Definition uwrap16 (x : Z) : Z := x mod 2 ^ 16.

Definition int64_min : Z := - 2 ^ 63.
Definition int64_max : Z := 2 ^ 63 - 1.
Definition in64 (x : Z) : Prop := int64_min ≤ x ≤ int64_max.
#[export] Instance in64_dec x : Decision (in64 x).
Proof. unfold in64. apply _. Defined.

Lemma wrap64_id x : in64 x → wrap64 x = x.
Proof.
  unfold in64, int64_min, int64_max, wrap64, wrap. intros H.
  rewrite Z.mod_small; lia.
Qed.

Lemma wrap64_in64 x : in64 (wrap64 x).
Proof.
  unfold in64, int64_min, int64_max, wrap64, wrap.
  pose proof (Z.mod_pos_bound (x + 2 ^ (64 - 1)) (2 ^ 64)). lia.
Qed.

(** [wrap64] changes a value by a multiple of 2^64. *)
Lemma wrap64_shift x : ∃ k, wrap64 x = x + k * 2 ^ 64.
Proof.
  unfold wrap64, wrap.
  exists (- ((x + 2 ^ (64 - 1)) / 2 ^ 64)).
  rewrite Z.mod_eq by lia. lia.
Qed.

Lemma wrap64_unique x y k : in64 y → y = x + k * 2 ^ 64 → wrap64 x = y.
Proof.
  intros Hy E. destruct (wrap64_shift x) as [j Ej].
  pose proof (wrap64_in64 x) as Hx.
  unfold in64, int64_min, int64_max in *. lia.
Qed.

Lemma wrap64_idemp_add x y : wrap64 (wrap64 x + y) = wrap64 (x + y).
Proof.
  destruct (wrap64_shift x) as [k ->].
  destruct (wrap64_shift (x + y)) as [j Ej].
  apply (wrap64_unique _ _ (j - k)); [apply wrap64_in64|]. lia.
Qed.

Lemma wrap64_idemp_mul x y : wrap64 (wrap64 x * y) = wrap64 (x * y).
Proof.
  destruct (wrap64_shift x) as [k ->].
  destruct (wrap64_shift (x * y)) as [j Ej].
  apply (wrap64_unique _ _ (j - k * y)); [apply wrap64_in64|]. lia.
Qed.

Definition in32 (x : Z) : Prop := - 2 ^ 31 ≤ x < 2 ^ 31.
#[export] Instance in32_dec x : Decision (in32 x).
Proof. unfold in32. apply _. Defined.

Lemma wrap32_in32 x : in32 (wrap32 x).
Proof.
  unfold in32, wrap32, wrap. pose proof (Z.mod_pos_bound (x + 2 ^ (32 - 1)) (2 ^ 32)). lia.
Qed.

Lemma wrap32_small x : in32 x → wrap32 x = x.
Proof. unfold in32, wrap32, wrap. intros H. rewrite Z.mod_small; lia. Qed.

(** Disjoint bits: [|] is [+]. *)
Lemma lor_shiftl_add s q n : 0 ≤ n → 0 ≤ q < 2 ^ n → Z.lor (Z.shiftl s n) q = s * 2 ^ n + q.
Proof.
  intros Hn Hq. assert (H0 : Z.land (Z.shiftl s n) q = 0).
  { apply Z.bits_inj'. intros i Hi. rewrite Z.land_spec, Z.bits_0.
    destruct (decide (i < n)) as [Hlt|Hge]; [by rewrite Z.shiftl_spec_low|].
    rewrite <-(Z.mod_small q (2 ^ n)), Z.mod_pow2_bits_high by lia. apply andb_false_r. }
  pose proof (Z.add_lor_land (Z.shiftl s n) q). rewrite Z.shiftl_mul_pow2 in * by lia. lia.
Qed.

(** ** Characters and literals

    [char] values are [Z]; a literal of the source is written [str "..."]. *)

Definition str (s : string) : list Z :=
  map (λ a, Z.of_nat (Ascii.nat_of_ascii a)) (String.list_ascii_of_string s).

Definition NUL : Z := 0.
Definition TAB : Z := 9.
Definition LF : Z := 10.
Definition ch (a : Ascii.ascii) : Z := Z.of_nat (Ascii.nat_of_ascii a).
Arguments ch _%_char_scope.

(** A C boolean as the integer the source compares or stores. *)
Definition zb (b : bool) : Z := if b then 1 else 0.

(** ** Three-way comparison functions

    The contract the ordered index asks of the comparison its client supplies:
    the sign of the result orders the keys. *)

Class TotalCmp {D : Type} (cmp : D → D → Z) : Prop := {
  cmp_refl a : cmp a a = 0;
  cmp_flip a b : Z.sgn (cmp a b) = - Z.sgn (cmp b a);
  cmp_trans a b c : cmp a b ≤ 0 → cmp b c ≤ 0 → cmp a c ≤ 0;
}.

Section total_cmp.
Context {D : Type} {cmp : D → D → Z} `{!TotalCmp cmp}.

Lemma cmp_lt_gt a b : cmp a b < 0 ↔ 0 < cmp b a.
Proof. pose proof (cmp_flip a b). lia. Qed.

Lemma cmp_le_ge a b : cmp a b ≤ 0 ↔ 0 ≤ cmp b a.
Proof. pose proof (cmp_flip a b). lia. Qed.

Lemma cmp_eq_sym a b : cmp a b = 0 ↔ cmp b a = 0.
Proof. pose proof (cmp_flip a b). lia. Qed.

Lemma cmp_le_lt_trans a b c : cmp a b ≤ 0 → cmp b c < 0 → cmp a c < 0.
Proof.
  intros H1 H2. destruct (decide (cmp a c < 0)) as [|H3]; [done|].
  assert (cmp c a ≤ 0) by (apply cmp_le_ge; lia).
  assert (cmp c b ≤ 0) by eauto using cmp_trans.
  apply cmp_lt_gt in H2. lia.
Qed.

Lemma cmp_lt_le_trans a b c : cmp a b < 0 → cmp b c ≤ 0 → cmp a c < 0.
Proof.
  intros H1 H2. destruct (decide (cmp a c < 0)) as [|H3]; [done|].
  assert (cmp c a ≤ 0) by (apply cmp_le_ge; lia).
  assert (cmp b a ≤ 0) by eauto using cmp_trans.
  apply cmp_lt_gt in H1. lia.
Qed.
End total_cmp.

(** ** Automation *)

Create HintDb dp.

(** Split the conjunctions of the context and the [if]s on integer tests. *)
Ltac bsplit :=
  repeat match goal with
  | H : _ ∧ _ |- _ => destruct H
  | H : Is_true _ |- _ => apply Is_true_eq_true in H
  | H : (_ && _)%bool = true |- _ => apply andb_prop in H
  | H : (_ || _)%bool = false |- _ => apply orb_false_elim in H
  | H : negb _ = true |- _ => apply negb_true_iff in H
  | H : negb _ = false |- _ => apply negb_false_iff in H
  end.

(** Run the monad one bind at a time. *)
Ltac mstep := unfold mbind, M_bind, outcome_bind, mret, M_ret, outcome_ret, gets, modify,
  lift, when, assert; cbn beta iota.

(** ** Decimal conversion, the [%d] of the printf family *)

Fixpoint dec_digits (fuel : nat) (n : Z) (acc : list Z) : list Z :=
  match fuel with
  | O => acc
  | S fuel =>
      let acc := (48 + n mod 10) :: acc in
      if n <? 10 then acc else dec_digits fuel (n / 10) acc
  end.

Definition dec_fuel (n : Z) : nat := S (Z.to_nat (Z.log2 n)).

Definition fmt_d (n : Z) : list Z :=
  if n <? 0 then ch "-" :: dec_digits (dec_fuel (- n)) (- n) []
  else dec_digits (dec_fuel n) n [].

Definition is_digit (c : Z) : bool := (48 <=? c) && (c <=? 57).

Fixpoint dec_value (acc : Z) (l : list Z) : Z :=
  match l with
  | [] => acc
  | c :: l => dec_value (acc * 10 + (c - 48)) l
  end.

Lemma dec_value_app acc l1 l2 : dec_value acc (l1 ++ l2) = dec_value (dec_value acc l1) l2.
Proof. revert acc; induction l1 as [|c l1 IH]; intros acc; cbn; [done|apply IH]. Qed.

Lemma dec_fuel_div n : 10 ≤ n → (dec_fuel (n / 10) < dec_fuel n)%nat.
Proof.
  intros Hn. unfold dec_fuel.
  assert (1 ≤ n / 10) by (apply Z.div_le_lower_bound; lia).
  assert (Z.log2 (n / 10) < Z.log2 n).
  { apply Z.log2_lt_pow2; [lia|]. apply Z.div_lt_upper_bound; [lia|].
    pose proof (Z.log2_spec n ltac:(lia)).
    assert (0 ≤ Z.log2 n) by apply Z.log2_nonneg.
    rewrite Z.pow_succ_r in * by lia. lia. }
  pose proof (Z.log2_nonneg (n / 10)). lia.
Qed.

(** With enough fuel the digits of [n] are digits, at least one, and denote [n]. *)
Lemma dec_digits_spec fuel n acc : 0 ≤ n → (dec_fuel n ≤ fuel)%nat →
  ∃ ds, dec_digits fuel n acc = ds ++ acc ∧ ds ≠ [] ∧
    forallb is_digit ds = true ∧ dec_value 0 ds = n.
Proof.
  revert n acc; induction fuel as [|fuel IH]; intros n acc Hn Hf.
  { unfold dec_fuel in Hf. lia. }
  cbn [dec_digits]. pose proof (Z.mod_pos_bound n 10 ltac:(lia)).
  assert (Hd : is_digit (48 + n mod 10) = true).
  { unfold is_digit. apply andb_true_intro.
    rewrite !Z.leb_le. lia. }
  destruct (Z.ltb_spec n 10).
  - exists [48 + n mod 10]. split_and!; [done|done|cbn; by rewrite Hd|cbn].
    rewrite Z.mod_small by lia. lia.
  - destruct (IH (n / 10) ((48 + n mod 10) :: acc)) as (ds & E & Hne & Hds & Hv).
    + apply Z.div_pos; lia.
    + pose proof (dec_fuel_div n ltac:(lia)). lia.
    + exists (ds ++ [48 + n mod 10]). rewrite E, <-app_assoc.
      split_and!; [done|by destruct ds| |].
      * rewrite forallb_app, Hds. cbn. by rewrite Hd.
      * rewrite dec_value_app, Hv. cbn. pose proof (Z.div_mod n 10). lia.
Qed.

Lemma dec_digits_length fuel n acc : (length (dec_digits fuel n acc) ≤ fuel + length acc)%nat.
Proof.
  revert n acc; induction fuel as [|fuel IH]; intros n acc; cbn [dec_digits]; [lia|].
  case_match; [cbn; lia|]. etransitivity; [apply IH|]. cbn. lia.
Qed.

Lemma fmt_d_length n : in32 n → (length (fmt_d n) ≤ 33)%nat.
Proof.
  intros Hn. assert (Hf : ∀ m, 0 ≤ m ≤ 2 ^ 31 → (dec_fuel m ≤ 32)%nat).
  { intros m Hm. unfold dec_fuel. assert (Z.log2 m ≤ Z.log2 (2 ^ 31)) by (apply Z.log2_le_mono; lia).
    replace (Z.log2 (2 ^ 31)) with 31 in * by done. lia. }
  unfold fmt_d, in32 in *. destruct (Z.ltb_spec n 0); cbn [length].
  - pose proof (dec_digits_length (dec_fuel (- n)) (- n) []). specialize (Hf (- n) ltac:(lia)). cbn [length] in *. lia.
  - pose proof (dec_digits_length (dec_fuel n) n []). specialize (Hf n ltac:(lia)). cbn [length] in *. lia.
Qed.
