(* ===== verification/Strseg.v ===== *)
(** * strseg.c: length-delimited strings

    A [strseg_t] is a pointer into some character array together with a length.
    The model keeps the array, the offset of the pointer in it and the length,
    so that pointer arithmetic is arithmetic on the offset, and a load outside
    the array is a [Fault].  [seg_view] is the string a segment denotes; the
    theorems relate every routine of the file to an operation on that string. *)

From S2P Require Import Prelude.

Record strseg_t := Seg { seg_buf : list Z; seg_off : Z; seg_len : Z }.

(** [STRSEG(s)]: a NUL-terminated literal and its [strlen]. *)
Definition STRSEG (l : list Z) : strseg_t := Seg (l ++ [NUL]) 0 (Z.of_nat (length l)).

(** The expression [s.data[i]]. *)
Definition seg_at (s : strseg_t) (i : Z) : outcome Z :=
  let p := seg_off s + i in
  if p <? 0 then Fault
  else match seg_buf s !! Z.to_nat p with Some c => Done c | None => Fault end.

(** [s.data += n; s.len -= n]. *)
Definition seg_advance (s : strseg_t) (n : Z) : strseg_t :=
  Seg (seg_buf s) (seg_off s + n) (seg_len s - n).

(** The [n] bytes from [s.data + i], as [memcpy] reads them. *)
Fixpoint seg_bytes (n : nat) (s : strseg_t) (i : Z) : outcome (list Z) :=
  match n with
  | O => Done []
  | S n => c ← seg_at s i; l ← seg_bytes n s (i + 1); Done (c :: l)
  end.

(** The loop of [strseg_cmp], [n] iterations from index [i]. *)
Fixpoint strseg_cmp_loop (n : nat) (a b : strseg_t) (i : Z) : outcome (option Z) :=
  match n with
  | O => Done None
  | S n =>
      x ← seg_at a i;
      y ← seg_at b i;
      if negb (x =? y) then Done (Some (if x <? y then -1 else 1))
      else strseg_cmp_loop n a b (i + 1)
  end.

Definition strseg_cmp (a b : strseg_t) : outcome Z :=
  r ← strseg_cmp_loop (Z.to_nat (Z.min (seg_len a) (seg_len b))) a b 0;
  match r with
  | Some c => Done c
  | None =>
      Done (if seg_len a <? seg_len b then -1
            else if seg_len a >? seg_len b then 1
            else 0)
  end.

(** [for (len= 0; len < n; len++) if (p[len] == sep) break;] *)
Fixpoint strseg_scan (n : nat) (s : strseg_t) (sep : Z) (len : Z) : outcome Z :=
  match n with
  | O => Done len
  | S n =>
      c ← seg_at s len;
      if c =? sep then Done len else strseg_scan n s sep (len + 1)
  end.

(** Returns the boolean, the updated [*string_inout] and [*tok_out]. *)
Definition strseg_tok_next (string_inout : strseg_t) (sep : Z)
    : outcome (bool * strseg_t * strseg_t) :=
  if seg_len string_inout <? 0 then Done (false, string_inout, string_inout)
  else
    len ← strseg_scan (Z.to_nat (seg_len string_inout)) string_inout sep 0;
    Done (true,
          seg_advance string_inout (len + 1),
          Seg (seg_buf string_inout) (seg_off string_inout) len).

(** Returns the boolean, the updated [*string_inout] and [*remainder_out]; when
    the separator is missing only the length of the remainder is assigned, so
    its old pointer is passed in. *)
Definition strseg_split_1 (string_inout : strseg_t) (sep : Z) (remainder_out : strseg_t)
    : outcome (bool * strseg_t * strseg_t) :=
  p ← strseg_scan (Z.to_nat (seg_len string_inout)) string_inout sep 0;
  if p <? seg_len string_inout then
    Done (true,
          Seg (seg_buf string_inout) (seg_off string_inout) p,
          Seg (seg_buf string_inout) (seg_off string_inout + p + 1)
              (seg_len string_inout - (p + 1)))
  else Done (false, string_inout, Seg (seg_buf remainder_out) (seg_off remainder_out) 0).

(** The digit loop of [strseg_atoi]; returns the index and the accumulator. *)
Fixpoint strseg_atoi_loop (n : nat) (s : strseg_t) (i accum : Z) : outcome (Z * Z) :=
  match n with
  | O => Done (i, accum)
  | S n =>
      c ← seg_at s i;
      if (48 <=? c) && (c <=? 57) then
        strseg_atoi_loop n s (i + 1) (wrap64 (wrap64 (accum * 10) + (c - 48)))
      else Done (i, accum)
  end.

(** Returns the updated [*string] and the value, or [None] for [false]. *)
Definition strseg_atoi (s : strseg_t) : outcome (option (strseg_t * Z)) :=
  neg ← (if seg_len s =? 0 then Done false
         else c ← seg_at s 0; Done (c =? ch "-"));
  let sign := if (neg : bool) then -1 else 1 in
  let i0 := if neg then 1 else 0 in
  '(i, accum) ← strseg_atoi_loop (Z.to_nat (seg_len s - i0)) s i0 0;
  if i <? (if sign <? 0 then 2 else 1) then Done None
  else Done (Some (seg_advance s i, wrap64 (accum * sign))).

(** The multiplier a size suffix selects: the fall-through [switch], with
    [None] for its [default]. *)
Definition size_mul (c factor : Z) : option Z :=
  if (c =? ch "t") || (c =? ch "T") then Some int64_max
  else if (c =? ch "g") || (c =? ch "G") then Some (factor * factor * factor)
  else if (c =? ch "m") || (c =? ch "M") then Some (factor * factor)
  else if (c =? ch "k") || (c =? ch "K") then Some factor
  else if (c =? ch "b") || (c =? ch "B") then Some 1
  else None.

(** Length of the suffix and the unit it selects: 3 and 1024 for [xiB], 2 and
    1000 for [xB], else 1 and 1024. *)
Definition size_suffix (s : strseg_t) : outcome (Z * Z) :=
  iB ← (if seg_len s >=? 3 then
          c1 ← seg_at s 1;
          if c1 =? ch "i" then c2 ← seg_at s 2; Done (c2 =? ch "B") else Done false
        else Done false);
  if (iB : bool) then Done (3, 1024)
  else
    B ← (if seg_len s >=? 2 then c1 ← seg_at s 1; Done (c1 =? ch "B") else Done false);
    Done (if (B : bool) then (2, 1000) else (1, 1024)).

(** Returns the boolean, the updated [*string] and [*val].  The test for overflow does
    the multiplication first; a product out of range is a signed overflow, on which
    a compiler may drop the test, and so a fault. *)
Definition strseg_parse_size (s : strseg_t) : outcome (bool * strseg_t * option Z) :=
  r ← strseg_atoi s;
  match r with
  | None => Done (false, s, None)
  | Some (s1, val) =>
      if seg_len s1 <? 1 then Done (true, s1, Some val)
      else
        '(suffix_len, factor) ← size_suffix s1;
        c ← seg_at s1 0;
        match size_mul c factor with
        | None => Done (true, s1, Some val)
        | Some mul =>
            let s2 := seg_advance s1 suffix_len in
            if val <? 0 then Done (false, s2, Some (-1))
            else if int64_max <? val * mul then Fault
            else if negb (Z.quot (val * mul) mul =? val) then Done (false, s2, Some 1)
            else Done (true, s2, Some (val * mul))
        end
  end.

(** ** The string a segment denotes *)

Definition seg_view (s : strseg_t) : list Z :=
  take (Z.to_nat (seg_len s)) (drop (Z.to_nat (seg_off s)) (seg_buf s)).

(** The pointer and the length stay inside the array. *)
Definition seg_wf (s : strseg_t) : Prop :=
  0 ≤ seg_off s ∧ 0 ≤ seg_len s ∧ seg_off s + seg_len s ≤ Z.of_nat (length (seg_buf s)).

Lemma STRSEG_wf l : seg_wf (STRSEG l).
Proof. unfold seg_wf, STRSEG; cbn. rewrite length_app. cbn. lia. Qed.

Lemma STRSEG_view l : seg_view (STRSEG l) = l.
Proof.
  unfold seg_view, STRSEG; cbn. rewrite Nat2Z.id, drop_0.
  rewrite take_app_length. done.
Qed.
#[export] Hint Resolve STRSEG_wf : dp.

Lemma seg_view_length s : seg_wf s → Z.of_nat (length (seg_view s)) = seg_len s.
Proof.
  intros (H1 & H2 & H3). unfold seg_view. rewrite length_take, length_drop. lia.
Qed.

Lemma seg_at_view s i : seg_wf s → 0 ≤ i < seg_len s →
  ∃ c, seg_view s !! Z.to_nat i = Some c ∧ seg_at s i = Done c.
Proof.
  intros (H1 & H2 & H3) Hi. unfold seg_at.
  destruct (Z.ltb_spec (seg_off s + i) 0); [lia|].
  destruct (lookup_lt_is_Some_2 (seg_buf s) (Z.to_nat (seg_off s + i))) as [c Hc]; [lia|].
  exists c. rewrite Hc. split; [|done].
  unfold seg_view. rewrite lookup_take_lt, lookup_drop by lia.
  rewrite <-Hc. f_equal. lia.
Qed.

Lemma seg_at_lookup s i c : seg_wf s → 0 ≤ i →
  seg_view s !! Z.to_nat i = Some c → seg_at s i = Done c.
Proof.
  intros Hwf Hi Hc. apply lookup_lt_Some in Hc as Hlt.
  pose proof (seg_view_length s Hwf).
  destruct (seg_at_view s i) as (c' & Hc' & ->); [done|lia|]. congruence.
Qed.

Lemma seg_advance_wf s n : seg_wf s → 0 ≤ n ≤ seg_len s → seg_wf (seg_advance s n).
Proof. intros (H1 & H2 & H3) Hn. unfold seg_wf, seg_advance; cbn. lia. Qed.

Lemma seg_advance_view s n : seg_wf s → 0 ≤ n ≤ seg_len s →
  seg_view (seg_advance s n) = drop (Z.to_nat n) (seg_view s).
Proof.
  intros (H1 & H2 & H3) Hn. unfold seg_view, seg_advance; cbn.
  rewrite skipn_firstn_comm, drop_drop. f_equal; [lia|]. f_equal. lia.
Qed.

Lemma seg_prefix_view s n : seg_wf s → 0 ≤ n ≤ seg_len s →
  seg_view (Seg (seg_buf s) (seg_off s) n) = take (Z.to_nat n) (seg_view s).
Proof.
  intros (H1 & H2 & H3) Hn. unfold seg_view; cbn. rewrite take_take. f_equal. lia.
Qed.

Lemma seg_prefix_wf s n : seg_wf s → 0 ≤ n ≤ seg_len s →
  seg_wf (Seg (seg_buf s) (seg_off s) n).
Proof. intros (H1 & H2 & H3) Hn. unfold seg_wf; cbn. lia. Qed.

Lemma seg_bytes_from s n i : seg_wf s → 0 ≤ i → i + Z.of_nat n = seg_len s →
  seg_bytes n s i = Done (drop (Z.to_nat i) (seg_view s)).
Proof.
  intros Hwf. revert i; induction n as [|n IH]; intros i Hi Hn; cbn [seg_bytes].
  - rewrite drop_ge by (pose proof (seg_view_length s Hwf); lia). done.
  - destruct (seg_at_view s i) as (c & Hc & ->); [done|lia|]. cbn [mbind outcome_bind].
    rewrite IH by lia. cbn [mbind outcome_bind]. rewrite (drop_S _ c (Z.to_nat i)) by done.
    by replace (Z.to_nat (i + 1)) with (S (Z.to_nat i)) by lia.
Qed.

Lemma seg_bytes_view s : seg_wf s → seg_bytes (Z.to_nat (seg_len s)) s 0 = Done (seg_view s).
Proof.
  intros Hwf. rewrite seg_bytes_from by (done || unfold seg_wf in *; lia).
  cbn. by rewrite drop_0.
Qed.

(** ** Fields of a delimited string *)

(** Position of the first [sep] of [l], or its length. *)
Fixpoint sep_index (sep : Z) (l : list Z) : nat :=
  match l with
  | [] => O
  | c :: l => if c =? sep then O else S (sep_index sep l)
  end.

Fixpoint split_on (sep : Z) (l : list Z) : list (list Z) :=
  match l with
  | [] => [[]]
  | c :: l =>
      if c =? sep then [] :: split_on sep l
      else match split_on sep l with
           | [] => [[c]]
           | t :: ts => (c :: t) :: ts
           end
  end.

Fixpoint join_with (sep : Z) (ts : list (list Z)) : list Z :=
  match ts with
  | [] => []
  | [t] => t
  | t :: ts => t ++ sep :: join_with sep ts
  end.

Lemma sep_index_le sep l : (sep_index sep l ≤ length l)%nat.
Proof. induction l as [|c l IH]; cbn; [done|]. destruct (c =? sep); lia. Qed.

Lemma split_on_ne sep l : split_on sep l ≠ [].
Proof.
  destruct l as [|c l]; cbn; [done|].
  destruct (c =? sep); [done|]. by destruct (split_on sep l).
Qed.

(** The first field ends at the first separator; the others are those of what
    follows it. *)
Lemma split_on_index sep l :
  split_on sep l = take (sep_index sep l) l ::
    (if (sep_index sep l <? length l)%nat then split_on sep (drop (S (sep_index sep l)) l)
     else []).
Proof.
  induction l as [|c l IH]; [done|]. cbn [split_on sep_index].
  destruct (c =? sep) eqn:E; cbn; [done|].
  rewrite IH. cbn. done.
Qed.

Lemma join_split sep l : join_with sep (split_on sep l) = l.
Proof.
  induction l as [|c l IH]; [done|]. cbn [split_on].
  destruct (Z.eqb_spec c sep) as [->|Hc].
  - pose proof (split_on_ne sep l). destruct (split_on sep l); [done|].
    cbn [join_with app]. by rewrite <-IH.
  - pose proof (split_on_ne sep l). destruct (split_on sep l) as [|t ts]; [done|].
    destruct ts; cbn [join_with app] in *; by rewrite <-IH.
Qed.

Lemma split_on_no_sep sep l : Forall (λ t, sep ∉ t) (split_on sep l).
Proof.
  induction l as [|c l IH]; cbn.
  { constructor; [apply not_elem_of_nil|constructor]. }
  destruct (Z.eqb_spec c sep) as [->|Hc].
  - constructor; [apply not_elem_of_nil|done].
  - destruct (split_on sep l) as [|t ts].
    + constructor; [|constructor]. by rewrite list_elem_of_singleton.
    + inversion_clear IH. constructor; [|done].
      rewrite elem_of_cons. by intros [|].
Qed.

Lemma strseg_scan_spec s sep n i : seg_wf s → 0 ≤ i → i + Z.of_nat n = seg_len s →
  strseg_scan n s sep i =
    Done (i + Z.of_nat (sep_index sep (drop (Z.to_nat i) (seg_view s)))).
Proof.
  intros Hwf. revert i; induction n as [|n IH]; intros i Hi Hn; cbn [strseg_scan].
  - rewrite drop_ge by (pose proof (seg_view_length s Hwf); lia). cbn. f_equal; lia.
  - destruct (seg_at_view s i) as (c & Hc & ->); [done|lia|].
    cbn [mbind outcome_bind]. rewrite (drop_S _ c) by done. cbn [sep_index].
    destruct (c =? sep); [f_equal; lia|].
    rewrite IH by lia. replace (Z.to_nat (i + 1)) with (S (Z.to_nat i)) by lia.
    f_equal; lia.
Qed.

Lemma strseg_scan_0 s sep : seg_wf s →
  strseg_scan (Z.to_nat (seg_len s)) s sep 0 = Done (Z.of_nat (sep_index sep (seg_view s))).
Proof.
  intros Hwf. rewrite strseg_scan_spec by (unfold seg_wf in *; lia || done).
  cbn. rewrite drop_0. done.
Qed.

(** What one call of [strseg_tok_next] does on a segment that is not used up. *)
Lemma strseg_tok_next_spec s sep : seg_wf s →
  let k := sep_index sep (seg_view s) in
  ∃ s' tok, strseg_tok_next s sep = Done (true, s', tok) ∧
    seg_wf tok ∧ seg_view tok = take k (seg_view s) ∧
    seg_len s' = seg_len s - Z.of_nat k - 1 ∧
    ((k < length (seg_view s))%nat →
       seg_wf s' ∧ seg_view s' = drop (S k) (seg_view s)).
Proof.
  intros Hwf k. unfold strseg_tok_next.
  pose proof (seg_view_length s Hwf) as Hlen.
  pose proof (sep_index_le sep (seg_view s)) as Hk. fold k in Hk.
  destruct (Z.ltb_spec (seg_len s) 0); [lia|].
  rewrite strseg_scan_0 by done. cbn [mbind outcome_bind]. fold k.
  do 2 eexists; split_and!; [reflexivity| | | |].
  - apply seg_prefix_wf; [done|lia].
  - rewrite seg_prefix_view by (done || lia). by rewrite Nat2Z.id.
  - cbn; lia.
  - intros Hlt. split; [apply seg_advance_wf; [done|lia]|].
    rewrite seg_advance_view by (done || lia). f_equal. lia.
Qed.

(** A segment that is used up yields no more tokens. *)
Lemma strseg_tok_next_done s sep : seg_len s < 0 →
  strseg_tok_next s sep = Done (false, s, s).
Proof. intros H. unfold strseg_tok_next. destruct (Z.ltb_spec (seg_len s) 0); [done|lia]. Qed.

(** The client loop [while (strseg_tok_next(&s, sep, &tok)) ...], collecting the
    tokens. *)
Fixpoint tok_all (fuel : nat) (s : strseg_t) (sep : Z) : outcome (list strseg_t) :=
  match fuel with
  | O => OutOfFuel
  | S fuel =>
      '(more, s', tok) ← strseg_tok_next s sep;
      if (more : bool) then ts ← tok_all fuel s' sep; Done (tok :: ts) else Done []
  end.

Lemma tok_all_spec fuel s sep : seg_wf s → (S (length (seg_view s)) < fuel)%nat →
  ∃ toks, tok_all fuel s sep = Done toks ∧ Forall seg_wf toks ∧
    map seg_view toks = split_on sep (seg_view s).
Proof.
  revert s; induction fuel as [|fuel IH]; intros s Hwf Hf; [lia|].
  destruct (strseg_tok_next_spec s sep Hwf) as (s' & tok & E & Htw & Htv & Hl & Hrest).
  cbn [tok_all]. rewrite E. cbn [mbind outcome_bind].
  pose proof (seg_view_length s Hwf) as Hlen.
  pose proof (sep_index_le sep (seg_view s)) as Hk.
  rewrite split_on_index.
  destruct (Nat.ltb_spec (sep_index sep (seg_view s)) (length (seg_view s))) as [Hlt|Hge].
  - destruct (Hrest Hlt) as [Hw' Hv'].
    destruct (IH s') as (ts & -> & Hts & Hmap); [done|rewrite Hv', length_drop; lia|].
    exists (tok :: ts). cbn. rewrite Htv, Hmap, Hv'. split_and!; [done|by constructor|done].
  - destruct fuel as [|fuel]; [lia|]. cbn [tok_all].
    rewrite strseg_tok_next_done by lia. cbn.
    exists [tok]. cbn. rewrite Htv. split_and!; [done|by constructor|done].
Qed.

(** ** Comparison *)

Fixpoint lex_cmp (a b : list Z) : Z :=
  match a, b with
  | [], [] => 0
  | [], _ => -1
  | _, [] => 1
  | x :: a, y :: b => if x =? y then lex_cmp a b else if x <? y then -1 else 1
  end.

Ltac zcase :=
  repeat match goal with
  | |- context [?a =? ?b] => destruct (Z.eqb_spec a b)
  | |- context [?a <? ?b] => destruct (Z.ltb_spec a b)
  | H : context [?a =? ?b] |- _ => destruct (Z.eqb_spec a b)
  | H : context [?a <? ?b] |- _ => destruct (Z.ltb_spec a b)
  end; subst; try lia.

#[export] Instance lex_cmp_total : TotalCmp lex_cmp.
Proof.
  split.
  - induction a as [|x a IH]; cbn; [done|]. by rewrite Z.eqb_refl.
  - induction a as [|x a IH]; intros [|y b]; cbn; try done. zcase. apply IH.
  - induction a as [|x a IH]; intros [|y b] [|z c]; cbn; try lia; try done.
    intros H1 H2. zcase. by apply (IH b).
Qed.

Lemma lex_cmp_eq a b : lex_cmp a b = 0 ↔ a = b.
Proof.
  split; [|intros ->; apply cmp_refl].
  revert b; induction a as [|x a IH]; intros [|y b]; cbn; try done.
  intros H. zcase. f_equal. by apply IH.
Qed.

Lemma strseg_cmp_loop_spec a b n i : seg_wf a → seg_wf b → 0 ≤ i →
  i + Z.of_nat n = Z.min (seg_len a) (seg_len b) →
  ∃ r, strseg_cmp_loop n a b i = Done r ∧
    lex_cmp (drop (Z.to_nat i) (seg_view a)) (drop (Z.to_nat i) (seg_view b)) =
    match r with
    | Some c => c
    | None => if seg_len a <? seg_len b then -1
              else if seg_len a >? seg_len b then 1 else 0
    end.
Proof.
  intros Ha Hb. revert i; induction n as [|n IH]; intros i Hi Hn; cbn [strseg_cmp_loop].
  - exists None. split; [done|].
    pose proof (seg_view_length a Ha). pose proof (seg_view_length b Hb).
    destruct (drop (Z.to_nat i) (seg_view a)) eqn:Ea;
    destruct (drop (Z.to_nat i) (seg_view b)) eqn:Eb;
    apply (f_equal length) in Ea, Eb; rewrite length_drop in Ea, Eb;
    cbn in *; rewrite ?Z.gtb_ltb; zcase.
  - destruct (seg_at_view a i) as (x & Hx & ->); [done|lia|].
    destruct (seg_at_view b i) as (y & Hy & ->); [done|lia|].
    cbn [mbind outcome_bind]. rewrite (drop_S _ x), (drop_S (seg_view b) y) by done.
    cbn [lex_cmp]. destruct (Z.eqb_spec x y); cbn.
    + destruct (IH (i + 1)) as (r & -> & Hr); [lia|lia|].
      exists r. split; [done|]. replace (S (Z.to_nat i)) with (Z.to_nat (i + 1)) by lia. done.
    + by eexists.
Qed.

Lemma strseg_cmp_spec a b : seg_wf a → seg_wf b →
  strseg_cmp a b = Done (lex_cmp (seg_view a) (seg_view b)).
Proof.
  intros Ha Hb. unfold strseg_cmp.
  destruct (strseg_cmp_loop_spec a b (Z.to_nat (Z.min (seg_len a) (seg_len b))) 0)
    as (r & -> & Hr); [done|done|lia|unfold seg_wf in *; lia|].
  cbn in Hr |- *. rewrite !drop_0 in Hr. rewrite Hr. by destruct r.
Qed.

(** ** Integers *)

Fixpoint ndigits (l : list Z) : nat :=
  match l with
  | [] => O
  | c :: l => if is_digit c then S (ndigits l) else O
  end.

Lemma ndigits_le l : (ndigits l ≤ length l)%nat.
Proof. induction l as [|c l IH]; cbn; [done|]. destruct (is_digit c); lia. Qed.

Lemma ndigits_app ds l : forallb is_digit ds = true →
  ndigits (ds ++ l) = (length ds + ndigits l)%nat.
Proof.
  induction ds as [|c ds IH]; cbn; [done|]. intros [-> H]%andb_prop. by rewrite IH.
Qed.

(** A leading minus sign, if any, and the decimal digits after it: how many
    characters they are, and the integer they denote, with no bound on its size. *)
Definition atoi_ref (l : list Z) : option (nat * Z) :=
  let neg := match l with c :: _ => c =? ch "-" | [] => false end in
  let body := if neg then drop 1 l else l in
  let k := ndigits body in
  let v := dec_value 0 (take k body) in
  if (k =? 0)%nat then None
  else Some (if neg then (S k, - v) else (k, v)).

Lemma strseg_atoi_loop_spec s n i a : seg_wf s → 0 ≤ i → i + Z.of_nat n = seg_len s →
  let l := drop (Z.to_nat i) (seg_view s) in
  strseg_atoi_loop n s i (wrap64 a) =
    Done (i + Z.of_nat (ndigits l), wrap64 (dec_value a (take (ndigits l) l))).
Proof.
  intros Hwf. revert i a; induction n as [|n IH]; intros i a Hi Hn; cbn [strseg_atoi_loop].
  - rewrite drop_ge by (pose proof (seg_view_length s Hwf); lia). cbn. do 2 f_equal; lia.
  - destruct (seg_at_view s i) as (c & Hc & ->); [done|lia|].
    cbn [mbind outcome_bind]. rewrite (drop_S _ c) by done. cbn [ndigits].
    fold (is_digit c). destruct (is_digit c); cbn [take dec_value]; [|f_equal; f_equal; lia].
    rewrite wrap64_idemp_mul, wrap64_idemp_add, IH by lia.
    replace (Z.to_nat (i + 1)) with (S (Z.to_nat i)) by lia. f_equal; f_equal; lia.
Qed.

Lemma atoi_neg_spec s : seg_wf s →
  (if seg_len s =? 0 then Done false else c ← seg_at s 0; Done (c =? ch "-")) =
  Done (match seg_view s with c :: _ => c =? ch "-" | [] => false end).
Proof.
  intros Hwf. pose proof (seg_view_length s Hwf) as Hl.
  destruct (Z.eqb_spec (seg_len s) 0).
  - destruct (seg_view s); [done|cbn in Hl; lia].
  - destruct (seg_at_view s 0) as (c & Hc & ->); [done|unfold seg_wf in *; lia|].
    destruct (seg_view s); cbn in Hc; [done|]. injection Hc as ->. done.
Qed.

Lemma strseg_atoi_spec s : seg_wf s →
  strseg_atoi s =
    Done (match atoi_ref (seg_view s) with
          | Some (k, v) => Some (seg_advance s (Z.of_nat k), wrap64 v)
          | None => None
          end).
Proof.
  intros Hwf. pose proof (seg_view_length s Hwf) as Hl.
  unfold strseg_atoi, atoi_ref. rewrite atoi_neg_spec by done. cbn [mbind outcome_bind].
  set (neg := match seg_view s with c :: _ => c =? ch "-" | [] => false end).
  assert (Hne : 0 ≤ (if neg then 1 else 0) ≤ seg_len s).
  { unfold neg. destruct (seg_view s); [cbn in Hl; lia|]. cbn in Hl. destruct (_ =? _); lia. }
  change (strseg_atoi_loop ?n ?s ?i 0) with (strseg_atoi_loop n s i (wrap64 0)).
  rewrite strseg_atoi_loop_spec by (done || lia).
  cbn [mbind outcome_bind].
  replace (drop (Z.to_nat (if neg then 1 else 0)) (seg_view s))
    with (if neg then drop 1 (seg_view s) else seg_view s)
    by (destruct neg; cbn; [done|by rewrite drop_0]).
  set (body := if neg then drop 1 (seg_view s) else seg_view s).
  rewrite wrap64_idemp_mul.
  destruct neg; cbn [Z.ltb Z.compare];
    destruct (Nat.eqb_spec (ndigits body) 0) as [E|E];
    match goal with |- context [?a <? ?b] => destruct (Z.ltb_spec a b) end;
    try lia; try done.
  - rewrite <-Z.opp_eq_mul_m1. do 4 f_equal; lia.
  - rewrite Z.mul_1_r. do 4 f_equal; lia.
Qed.

Lemma atoi_ref_le l k v : atoi_ref l = Some (k, v) → (k ≤ length l)%nat.
Proof.
  unfold atoi_ref. pose proof (ndigits_le l). pose proof (ndigits_le (drop 1 l)) as H1.
  rewrite length_drop in H1.
  set (neg := match l with c :: _ => c =? ch "-" | [] => false end).
  destruct neg; case_match; intros; simplify_eq; [|done].
  destruct (Nat.eqb_spec (ndigits (drop 1 l)) 0); [done|lia].
Qed.

Lemma atoi_ref_print n rest : ndigits rest = O →
  atoi_ref (fmt_d n ++ rest) = Some (length (fmt_d n), n).
Proof.
  intros Hr. unfold fmt_d. destruct (Z.ltb_spec n 0) as [Hn|Hn].
  - destruct (dec_digits_spec (dec_fuel (- n)) (- n) []) as (ds & -> & Hne & Hd & Hv);
      [lia|done|].
    rewrite app_nil_r. unfold atoi_ref. cbn [app drop]. rewrite drop_0.
    replace (ch "-" =? ch "-") with true by done. cbn -[ndigits].
    rewrite ndigits_app, Hr, Nat.add_0_r, take_app_length, Hv by done.
    rewrite Z.opp_involutive. by destruct ds.
  - destruct (dec_digits_spec (dec_fuel n) n []) as (ds & -> & Hne & Hd & Hv); [lia|done|].
    rewrite app_nil_r. unfold atoi_ref.
    assert (Hneg : match ds ++ rest with c :: _ => c =? ch "-" | [] => false end = false).
    { destruct ds as [|c ds]; [done|]. cbn [forallb app] in *.
      apply andb_prop in Hd as [Hc _]. unfold is_digit in Hc.
      apply andb_prop in Hc as [Hc _]. apply Z.leb_le in Hc.
      apply Z.eqb_neq. change (ch "-") with 45. lia. }
    rewrite Hneg, ndigits_app, Hr, Nat.add_0_r, take_app_length, Hv by done.
    by destruct ds.
Qed.

(** ** Sizes *)

(** Unit length and multiplier of the suffix that starts [l], when it is one. *)
Definition size_unit (l : list Z) : option (Z * Z) :=
  match l with
  | [] => None
  | c :: t =>
      let '(n, factor) :=
        match t with
        | c1 :: c2 :: _ =>
            if (c1 =? ch "i") && (c2 =? ch "B") then (3, 1024)
            else if c1 =? ch "B" then (2, 1000) else (1, 1024)
        | [c1] => if c1 =? ch "B" then (2, 1000) else (1, 1024)
        | [] => (1, 1024)
        end in
      match size_mul c factor with Some mul => Some (n, mul) | None => None end
  end.

Lemma size_suffix_spec s c t : seg_wf s → seg_view s = c :: t →
  seg_at s 0 = Done c ∧
  size_suffix s = Done (match t with
        | c1 :: c2 :: _ =>
            if (c1 =? ch "i") && (c2 =? ch "B") then (3, 1024)
            else if c1 =? ch "B" then (2, 1000) else (1, 1024)
        | [c1] => if c1 =? ch "B" then (2, 1000) else (1, 1024)
        | [] => (1, 1024)
        end).
Proof.
  intros Hwf Hv. pose proof (seg_view_length s Hwf) as Hl. rewrite Hv in Hl.
  split; [apply seg_at_lookup; [done|lia|by rewrite Hv]|].
  unfold size_suffix.
  destruct t as [|c1 [|c2 t]]; cbn in Hl; rewrite !Z.geb_leb.
  - destruct (Z.leb_spec 3 (seg_len s)); [lia|]. by destruct (Z.leb_spec 2 (seg_len s)); [lia|].
  - destruct (Z.leb_spec 3 (seg_len s)); [lia|]. cbn [mbind outcome_bind].
    destruct (Z.leb_spec 2 (seg_len s)); [|lia].
    rewrite (seg_at_lookup s 1 c1) by (done || lia || by rewrite Hv).
    cbn [mbind outcome_bind]. by destruct (c1 =? ch "B").
  - destruct (Z.leb_spec 3 (seg_len s)); [|lia]. destruct (Z.leb_spec 2 (seg_len s)); [|lia].
    rewrite (seg_at_lookup s 1 c1) by (done || lia || by rewrite Hv).
    rewrite (seg_at_lookup s 2 c2) by (done || lia || by rewrite Hv).
    cbn [mbind outcome_bind].
    by destruct (c1 =? ch "i"), (c2 =? ch "B"), (c1 =? ch "B").
Qed.

Lemma size_mul_pos c factor mul : factor = 1000 ∨ factor = 1024 →
  size_mul c factor = Some mul → 0 < mul ≤ int64_max.
Proof.
  unfold size_mul, int64_max. intros Hf.
  repeat case_match; intros; simplify_eq; destruct Hf; subst; lia.
Qed.

Lemma size_unit_pos l n mul : size_unit l = Some (n, mul) → 0 < mul ≤ int64_max.
Proof.
  unfold size_unit. destruct l as [|c t]; [done|].
  set (p := match t with [] => _ | _ => _ end).
  assert (Hp : p.2 = 1000 ∨ p.2 = 1024) by (subst p; repeat case_match; auto).
  destruct p as [m factor]. cbn in Hp.
  destruct (size_mul c factor) eqn:E; [|done]. intros; simplify_eq.
  by eapply size_mul_pos.
Qed.

(** What [strseg_parse_size] leaves after the number. *)
Lemma strseg_parse_size_unit s k v : seg_wf s → atoi_ref (seg_view s) = Some (k, v) →
  strseg_parse_size s =
    let s1 := seg_advance s (Z.of_nat k) in
    let val := wrap64 v in
    match size_unit (drop k (seg_view s)) with
    | None => Done (true, s1, Some val)
    | Some (n, mul) =>
        let s2 := seg_advance s1 n in
        if val <? 0 then Done (false, s2, Some (-1))
        else if int64_max <? val * mul then Fault
        else if negb (Z.quot (val * mul) mul =? val) then Done (false, s2, Some 1)
        else Done (true, s2, Some (val * mul))
    end.
Proof.
  intros Hwf Ha. pose proof (atoi_ref_le _ _ _ Ha) as Hk.
  pose proof (seg_view_length s Hwf) as Hl.
  unfold strseg_parse_size. rewrite strseg_atoi_spec, Ha by done. cbn [mbind outcome_bind].
  set (s1 := seg_advance s (Z.of_nat k)).
  assert (Hwf1 : seg_wf s1) by (apply seg_advance_wf; [done|lia]).
  assert (Hv1 : seg_view s1 = drop k (seg_view s)).
  { unfold s1. rewrite seg_advance_view by (done || lia). by rewrite Nat2Z.id. }
  pose proof (seg_view_length s1 Hwf1) as Hl1. cbv zeta. rewrite <-Hv1.
  destruct (seg_view s1) as [|c t] eqn:Ev; cbn [length] in Hl1.
  - destruct (Z.ltb_spec (seg_len s1) 1); [done|lia].
  - destruct (Z.ltb_spec (seg_len s1) 1); [lia|].
    destruct (size_suffix_spec s1 c t Hwf1 Ev) as [Hc ->].
    unfold size_unit. set (p := match t with [] => _ | _ => _ end).
    destruct p as [n factor]. cbn [mbind outcome_bind]. rewrite Hc. cbn [mbind outcome_bind].
    by destruct (size_mul c factor).
Qed.

(** ** Properties *)

(** C28. Calling [strseg_tok_next] until it returns [false] yields exactly the
    fields of the string, in order: none contains the separator, and putting
    the separator back between them gives the string again. An empty string has
    one empty field, and a trailing separator an empty last one. The loop ends
    and never reads outside the array. *)
Theorem strseg_tok_next_fields (s : strseg_t) (sep : Z) (fuel : nat) :
  seg_wf s → (S (length (seg_view s)) < fuel)%nat →
  ∃ toks, tok_all fuel s sep = Done toks ∧
    map seg_view toks = split_on sep (seg_view s) ∧
    Forall (λ t, sep ∉ t) (map seg_view toks) ∧
    join_with sep (map seg_view toks) = seg_view s.
Proof.
  intros Hwf Hf. destruct (tok_all_spec fuel s sep Hwf Hf) as (toks & E & _ & Hm).
  exists toks. rewrite Hm. split_and!; auto using split_on_no_sep, join_split.
Qed.

Lemma strseg_tok_next_fields_witness :
  ∃ toks, tok_all 10 (STRSEG (str "a=b=")) (ch "=") = Done toks ∧
    map seg_view toks = [str "a"; str "b"; []].
Proof.
  destruct (strseg_tok_next_fields (STRSEG (str "a=b=")) (ch "=") 10) as (toks & E & Hm & _).
  - apply STRSEG_wf.
  - rewrite STRSEG_view. cbn. lia.
  - exists toks. split; [exact E|]. rewrite Hm, STRSEG_view. reflexivity.
Defined.

(** C29. [strseg_cmp] is a total order on strings: it returns without reading
    outside the two arrays, gives 0 exactly for equal strings, the opposite
    sign with the arguments exchanged, and is transitive. *)
Theorem strseg_cmp_total_order (a b c : strseg_t) :
  seg_wf a → seg_wf b → seg_wf c →
  ∃ ab ba bc ac,
    strseg_cmp a b = Done ab ∧ strseg_cmp b a = Done ba ∧
    strseg_cmp b c = Done bc ∧ strseg_cmp a c = Done ac ∧
    (ab = 0 ↔ seg_view a = seg_view b) ∧
    Z.sgn ab = - Z.sgn ba ∧
    (ab ≤ 0 → bc ≤ 0 → ac ≤ 0).
Proof.
  intros Ha Hb Hc. do 4 eexists.
  split_and!; [by apply strseg_cmp_spec..| | |].
  - apply lex_cmp_eq.
  - apply cmp_flip.
  - apply cmp_trans.
Qed.

Lemma strseg_cmp_total_order_witness :
  ∃ r, strseg_cmp (STRSEG (str "ab")) (STRSEG (str "abc")) = Done r ∧ r < 0.
Proof.
  destruct (strseg_cmp_total_order (STRSEG (str "ab")) (STRSEG (str "abc")) (STRSEG []))
    as (ab & ba & bc & ac & E & _); [apply STRSEG_wf..|].
  exists ab. split; [exact E|]. vm_compute in E. injection E as <-. lia.
Defined.

(** C30. [strseg_atoi] inverts decimal printing on every 64-bit integer: it
    reads the digits, stops at the first character that is none, and returns
    the number. *)
Theorem strseg_atoi_roundtrip (s : strseg_t) (n : Z) (rest : list Z) :
  seg_wf s → in64 n → seg_view s = fmt_d n ++ rest → ndigits rest = O →
  ∃ s', strseg_atoi s = Done (Some (s', n)) ∧ seg_wf s' ∧ seg_view s' = rest.
Proof.
  intros Hwf Hn Hv Hr. pose proof (seg_view_length s Hwf) as Hl.
  rewrite Hv, length_app in Hl. rewrite strseg_atoi_spec by done.
  rewrite Hv, atoi_ref_print, wrap64_id by done. eexists; split_and!; [reflexivity| |].
  - apply seg_advance_wf; [done|lia].
  - rewrite seg_advance_view by (done || lia). rewrite Hv, Nat2Z.id. by rewrite drop_app_length.
Qed.

Lemma strseg_atoi_roundtrip_witness :
  ∃ s', strseg_atoi (STRSEG (str "-9223372036854775808x")) = Done (Some (s', int64_min))
    ∧ seg_view s' = str "x".
Proof.
  destruct (strseg_atoi_roundtrip (STRSEG (str "-9223372036854775808x")) int64_min (str "x"))
    as (s' & E & _ & Hv).
  - apply STRSEG_wf.
  - unfold in64, int64_min, int64_max. lia.
  - rewrite STRSEG_view. vm_compute. reflexivity.
  - reflexivity.
  - exists s'. split; [exact E|exact Hv].
Defined.


