(* ===== verification/OrdIndex.v ===== *)
(** * The ordered index: what the red/black tree promises to its clients

    The daemon looks services and file descriptors up through trees ordered by a
    comparison function.  Seen from outside such a tree is a list of nodes, each
    with the object it belongs to, in key order; equal keys stay in the order in
    which they were added.  This file defines the operations on that list; the
    pointer-level tree of [RBTree] is shown to implement them. *)

From Stdlib Require Import Sorted.
From S2P Require Import Prelude.

Section index.
Context {D : Type} (key : Z → D) (cmp : D → D → Z).

(** The comparison function the tree is created with. *)
Definition compare_key (d : D) (o : Z) : Z := cmp d (key o).

Definition key_le (x y : Z * Z) : Prop := cmp (key x.2) (key y.2) ≤ 0.

Definition ordered (l : list (Z * Z)) : Prop := StronglySorted key_le l.

(** Add [x] under the key [d]: after the entries whose key is not greater. *)
Fixpoint idx_add (d : D) (x : Z * Z) (l : list (Z * Z)) : list (Z * Z) :=
  match l with
  | [] => [x]
  | y :: l' => if compare_key d y.2 <? 0 then x :: l else y :: idx_add d x l'
  end.

(** The first entry with the key [d]. *)
Fixpoint idx_find (d : D) (l : list (Z * Z)) : option (Z * Z) :=
  match l with
  | [] => None
  | y :: l' => if compare_key d y.2 =? 0 then Some y else idx_find d l'
  end.

(** The list cut at the key [d]: what comes before, and what comes after. *)
Definition cut_at (d : D) (l1 l2 : list (Z * Z)) : Prop :=
  Forall (λ y, 0 ≤ compare_key d y.2) l1 ∧ Forall (λ y, compare_key d y.2 < 0) l2.

Lemma idx_add_cut d x l1 l2 : cut_at d l1 l2 → idx_add d x (l1 ++ l2) = l1 ++ x :: l2.
Proof.
  intros [H1 H2]. induction H1 as [|y l1 Hy H1 IH]; cbn.
  - destruct H2 as [|y l2 Hy H2]; cbn; [done|].
    by rewrite (proj2 (Z.ltb_lt _ _) Hy).
  - rewrite (proj2 (Z.ltb_ge _ _) Hy). by rewrite IH.
Qed.

Lemma idx_add_Permutation d x l : idx_add d x l ≡ₚ x :: l.
Proof.
  induction l as [|y l IH]; cbn; [done|]. case_match; [done|]. rewrite IH. by constructor.
Qed.

Context `{!TotalCmp cmp}.

Lemma ordered_app l1 l2 : ordered (l1 ++ l2) ↔
  ordered l1 ∧ ordered l2 ∧ ∀ x y, x ∈ l1 → y ∈ l2 → key_le x y.
Proof.
  unfold ordered. induction l1 as [|z l1 IH]; cbn.
  { split; [|tauto]. intros H. split_and!; [constructor|done|]. intros x y Hx. inversion Hx. }
  split.
  - intros [H1 H2]%StronglySorted_inv. apply IH in H1 as (H3 & H4 & H5).
    rewrite Forall_app in H2. destruct H2 as [H2 H2'].
    split_and!; [by constructor|done|]. intros x y [->|Hx]%elem_of_cons Hy; [|by auto].
    rewrite Forall_forall in H2'. auto.
  - intros (H1 & H2 & H3). apply StronglySorted_inv in H1 as [H1 H4]. constructor.
    + apply IH. split_and!; [done|done|]. intros x y Hx Hy. apply H3; [by right|done].
    + rewrite Forall_app. split; [done|]. apply Forall_forall. intros y Hy. apply H3; [by left|done].
Qed.

(** In an ordered list a negative comparison extends to the right, a
    non-negative one to the left. *)
Lemma cut_right d l1 y l2 : ordered (l1 ++ y :: l2) → compare_key d y.2 < 0 →
  Forall (λ y, compare_key d y.2 < 0) (y :: l2).
Proof.
  intros (_ & H & _)%ordered_app Hy. apply StronglySorted_inv in H as [_ H].
  constructor; [done|]. eapply Forall_impl; [done|]. intros z Hz. unfold compare_key in *. by eapply cmp_lt_le_trans.
Qed.

Lemma cut_left d l1 y l2 : ordered (l1 ++ y :: l2) → 0 ≤ compare_key d y.2 →
  Forall (λ y, 0 ≤ compare_key d y.2) (l1 ++ [y]).
Proof.
  intros (_ & _ & H)%ordered_app Hy. apply Forall_app; split; [|by constructor].
  apply Forall_forall. intros z Hz. specialize (H z y Hz ltac:(by left)).
  unfold compare_key, key_le in *. apply cmp_le_ge in Hy. apply cmp_le_ge. by eapply cmp_trans.
Qed.

(** The same, strictly. *)
Lemma cut_left_strict d l1 y l2 : ordered (l1 ++ y :: l2) → 0 < compare_key d y.2 →
  Forall (λ y, 0 < compare_key d y.2) (l1 ++ [y]).
Proof.
  intros (_ & _ & H)%ordered_app Hy. apply Forall_app; split; [|by constructor].
  apply Forall_forall. intros z Hz. specialize (H z y Hz ltac:(by left)).
  unfold compare_key, key_le in *. apply cmp_lt_gt in Hy. apply cmp_lt_gt.
  by eapply cmp_le_lt_trans.
Qed.

(** Every ordered list has a cut at every key. *)
Lemma cut_exists d l : ordered l → ∃ l1 l2, l = l1 ++ l2 ∧ cut_at d l1 l2.
Proof.
  induction l as [|y l IH]; intros Ho.
  { exists [], []. by repeat constructor. }
  destruct (decide (compare_key d y.2 < 0)) as [Hy|Hy].
  - exists [], (y :: l). split_and!; [done|]. split; [constructor|]. by apply (cut_right d []).
  - destruct IH as (l1 & l2 & -> & H1 & H2); [by apply StronglySorted_inv in Ho as [? _]|].
    exists (y :: l1), l2. split; [done|]. split; [|done]. constructor; [lia|done].
Qed.

Lemma idx_add_ordered x l : ordered l → ordered (idx_add (key x.2) x l).
Proof.
  intros Ho. destruct (cut_exists (key x.2) l Ho) as (l1 & l2 & -> & Hc).
  rewrite (idx_add_cut _ _ _ _ Hc). destruct Hc as [H1 H2]. rewrite Forall_forall in H1.
  apply ordered_app in Ho as (Ho1 & Ho2 & Ho3). apply ordered_app. split_and!; [done|..].
  - constructor; [done|]. eapply Forall_impl; [done|]. unfold key_le, compare_key. cbn. lia.
  - intros a b Ha [->|Hb]%elem_of_cons; [|by auto].
    unfold key_le. apply cmp_le_ge. by apply H1.
Qed.

Lemma ordered_remove l1 x l2 : ordered (l1 ++ x :: l2) → ordered (l1 ++ l2).
Proof.
  rewrite !ordered_app. intros (H1 & H2 & H3). split_and!; [done| |].
  - by apply StronglySorted_inv in H2 as [? _].
  - intros a b Ha Hb. apply H3; [done|by right].
Qed.
End index.
