(* ===== verification/RBTree.v ===== *)
(** * Contained_RBTree.c: the red/black tree, at the level of its pointers

    Nodes live in a heap, a finite map from addresses to the five fields of a
    [RBTreeNode]; loads and stores go through it, and dereferencing an address
    that holds no node (the null pointer, for one) is a [Fault].  The shared
    [Sentinel] node is an ordinary node of the heap: rotations write its
    [Parent] field, as the C code does.  The functions below are the C
    functions, statement by statement; loops take fuel. *)

From S2P Require Import Prelude.

Abbreviation ptr := Z (only parsing).
Definition NULL : ptr := 0.

(** The address of the global [Sentinel]. *)
Definition Sentinel : ptr := 1.

Definition RBTreeNode_Unassigned : Z := 0.
Definition RBTreeNode_Black : Z := 1.
Definition RBTreeNode_Red : Z := 2.

Record RBTreeNode := mkNode {
  Left : ptr;
  Right : ptr;
  Parent : ptr;
  Color : Z;
  Object : Z;
}.

Abbreviation heap := (gmap Z RBTreeNode).

(** The state of a function that works on nodes: the heap. *)
Abbreviation RB := (M heap).

Definition set_Left (p : ptr) (n : RBTreeNode) := mkNode p (Right n) (Parent n) (Color n) (Object n).
Definition set_Right (p : ptr) (n : RBTreeNode) := mkNode (Left n) p (Parent n) (Color n) (Object n).
Definition set_Parent (p : ptr) (n : RBTreeNode) := mkNode (Left n) (Right n) p (Color n) (Object n).
Definition set_Color (c : Z) (n : RBTreeNode) := mkNode (Left n) (Right n) (Parent n) c (Object n).
Definition set_Object (o : Z) (n : RBTreeNode) := mkNode (Left n) (Right n) (Parent n) (Color n) o.

(** The expression [p->f] and the statement [p->f= v]. *)
Definition load {A} (p : ptr) (f : RBTreeNode → A) : RB A := λ h,
  match h !! p with Some n => Done (f n, h) | None => Fault end.
Definition store (p : ptr) (upd : RBTreeNode → RBTreeNode) : RB unit := λ h,
  match h !! p with Some n => Done (tt, <[p := upd n]> h) | None => Fault end.

(** [RBTreeNode Sentinel= { &Sentinel, &Sentinel, &Sentinel, RBTreeNode_Black, 0 };] *)
Definition Sentinel_init : RBTreeNode :=
  mkNode Sentinel Sentinel Sentinel RBTreeNode_Black 0.

Definition RBTreeNode_IsSentinel (Node : ptr) : RB bool :=
  l ← load Node Left; mret (l =? Node).

Definition RBTreeNode_Init (Node : ptr) : RB unit :=
  store Node (set_Color RBTreeNode_Unassigned).

(** [Tree] is the address of the tree's [RootSentinel]; its comparison function
    is passed to the functions that call it. *)
Definition RBTree_Init (Tree : ptr) : RB unit :=
  store Tree (set_Color RBTreeNode_Black);;
  store Tree (set_Left Sentinel);;
  store Tree (set_Right Sentinel);;
  store Tree (set_Parent NULL);;
  store Tree (set_Object 0).

(** ** Rotations *)

Definition RBTreeNode_RightSide_RightRotate (Node : ptr) : RB unit :=
  temp ← load Node Parent;
  child ← load Node Left;
  store temp (set_Right child);;
  store child (set_Parent temp);;
  temp ← load child Right;
  store Node (set_Left temp);;
  store temp (set_Parent Node);;
  store child (set_Right Node);;
  store Node (set_Parent child).

Definition RBTreeNode_LeftSide_LeftRotate (Node : ptr) : RB unit :=
  temp ← load Node Parent;
  child ← load Node Right;
  store temp (set_Left child);;
  store child (set_Parent temp);;
  temp ← load child Left;
  store Node (set_Right temp);;
  store temp (set_Parent Node);;
  store child (set_Left Node);;
  store Node (set_Parent child).

Definition RBTreeNode_LeftSide_RightRotate (Node : ptr) : RB unit :=
  temp ← load Node Parent;
  child ← load Node Left;
  store temp (set_Left child);;
  store child (set_Parent temp);;
  temp ← load child Right;
  store Node (set_Left temp);;
  store temp (set_Parent Node);;
  store child (set_Right Node);;
  store Node (set_Parent child).

Definition RBTreeNode_RightSide_LeftRotate (Node : ptr) : RB unit :=
  temp ← load Node Parent;
  child ← load Node Right;
  store temp (set_Right child);;
  store child (set_Parent temp);;
  temp ← load child Left;
  store Node (set_Right temp);;
  store temp (set_Parent Node);;
  store child (set_Left Node);;
  store Node (set_Parent child).

Definition RBTreeNode_RightRotate (Node : ptr) : RB unit :=
  p ← load Node Parent;
  l ← load p Left;
  if l =? Node then RBTreeNode_LeftSide_RightRotate Node
  else RBTreeNode_RightSide_RightRotate Node.

Definition RBTreeNode_LeftRotate (Node : ptr) : RB unit :=
  p ← load Node Parent;
  l ← load p Left;
  if l =? Node then RBTreeNode_LeftSide_LeftRotate Node
  else RBTreeNode_RightSide_LeftRotate Node.

(** ** Insertion *)

Fixpoint RBTreeNode_Balance (fuel : nat) (Current : ptr) : RB unit :=
  match fuel with
  | O => nofuel
  | S fuel =>
      c ← load Current Color;
      if negb (c =? RBTreeNode_Black) then
        Parent_ ← load Current Parent;
        pr ← load Parent_ Right;
        if pr =? Current then
          pl ← load Parent_ Left;
          plc ← load pl Color;
          if plc =? RBTreeNode_Red then
            store pl (set_Color RBTreeNode_Black);;
            store Current (set_Color RBTreeNode_Black);;
            store Parent_ (set_Color RBTreeNode_Red);;
            Current ← load Parent_ Parent;
            RBTreeNode_Balance fuel Current
          else
            cl ← load Current Left;
            clc ← load cl Color;
            when (clc =? RBTreeNode_Red) (RBTreeNode_RightSide_RightRotate Current);;
            RBTreeNode_LeftRotate Parent_;;
            store Parent_ (set_Color RBTreeNode_Red);;
            pp ← load Parent_ Parent;
            store pp (set_Color RBTreeNode_Black)
        else
          prc ← load pr Color;
          if prc =? RBTreeNode_Red then
            store pr (set_Color RBTreeNode_Black);;
            store Current (set_Color RBTreeNode_Black);;
            store Parent_ (set_Color RBTreeNode_Red);;
            Current ← load Parent_ Parent;
            RBTreeNode_Balance fuel Current
          else
            cr ← load Current Right;
            crc ← load cr Color;
            when (crc =? RBTreeNode_Red) (RBTreeNode_LeftSide_LeftRotate Current);;
            RBTreeNode_RightRotate Parent_;;
            store Parent_ (set_Color RBTreeNode_Red);;
            pp ← load Parent_ Parent;
            store pp (set_Color RBTreeNode_Black)
      else mret tt
  end.

Section with_compare.
Context {D : Type}.
(** [Tree->Compare]: it looks at the [Object] of the node it is given. *)
Context (Compare : D → Z → Z).

(** The [do ... while (1)] of [RBTree_Add]: descend from [Current] and attach
    the new node; returns its parent. *)
Fixpoint RBTree_Add_descend (fuel : nat) (NewNode : ptr) (CompareData : D) (Current : ptr)
    : RB ptr :=
  match fuel with
  | O => nofuel
  | S fuel =>
      o ← load Current Object;
      if Compare CompareData o <? 0 then
        l ← load Current Left;
        if l =? Sentinel then
          store Current (set_Left NewNode);;
          store NewNode (set_Parent Current);;
          mret Current
        else RBTree_Add_descend fuel NewNode CompareData l
      else
        r ← load Current Right;
        if r =? Sentinel then
          store Current (set_Right NewNode);;
          store NewNode (set_Parent Current);;
          mret Current
        else RBTree_Add_descend fuel NewNode CompareData r
  end.

Definition RBTree_Add_fuel (fuel : nat) (Tree NewNode : ptr) (CompareData : D) : RB bool :=
  c ← load NewNode Color;
  if negb (c =? RBTreeNode_Unassigned) then mret false
  else
    store NewNode (set_Color RBTreeNode_Red);;
    store NewNode (set_Left Sentinel);;
    store NewNode (set_Right Sentinel);;
    Current ← load Tree Left;
    (if Current =? Sentinel then
       store Tree (set_Left NewNode);;
       store NewNode (set_Parent Tree)
     else
       Current ← RBTree_Add_descend fuel NewNode CompareData Current;
       RBTreeNode_Balance fuel Current);;
    root ← load Tree Left;
    store root (set_Color RBTreeNode_Black);;
    mret true.

(** No path of a tree is longer than the number of nodes of the heap. *)
Definition RBTree_Add (Tree NewNode : ptr) (CompareData : D) : RB bool :=
  λ h, RBTree_Add_fuel (S (size h)) Tree NewNode CompareData h.

Record RBTreeSearch := mkSearch { Nearest : ptr; Relation : Z }.

Fixpoint RBTree_Find_loop (fuel : nat) (CompareData : D) (Current : ptr) : RB RBTreeSearch :=
  match fuel with
  | O => nofuel
  | S fuel =>
      o ← load Current Object;
      let i := Compare CompareData o in
      if i <? 0 then
        l ← load Current Left;
        if l =? Sentinel then mret (mkSearch Current i)
        else RBTree_Find_loop fuel CompareData l
      else if i >? 0 then
        r ← load Current Right;
        if r =? Sentinel then mret (mkSearch Current i)
        else RBTree_Find_loop fuel CompareData r
      else mret (mkSearch Current 0)
  end.

Definition RBTree_Find (Tree : ptr) (CompareData : D) : RB RBTreeSearch := λ h,
  (Current ← load Tree Left;
   if Current =? Sentinel then mret (mkSearch NULL (-1))
   else RBTree_Find_loop (S (size h)) CompareData Current) h.
End with_compare.

(** ** Walking the tree *)

Fixpoint RBTreeNode_GetLeftmost_fuel (fuel : nat) (Node : ptr) : RB ptr :=
  match fuel with
  | O => nofuel
  | S fuel =>
      l ← load Node Left;
      if negb (l =? Sentinel) then RBTreeNode_GetLeftmost_fuel fuel l else mret Node
  end.

Definition RBTreeNode_GetLeftmost (Node : ptr) : RB ptr :=
  λ h, RBTreeNode_GetLeftmost_fuel (S (size h)) Node h.

Fixpoint RBTreeNode_GetRightmost_fuel (fuel : nat) (Node : ptr) : RB ptr :=
  match fuel with
  | O => nofuel
  | S fuel =>
      r ← load Node Right;
      if negb (r =? Sentinel) then RBTreeNode_GetRightmost_fuel fuel r else mret Node
  end.

Definition RBTreeNode_GetRightmost (Node : ptr) : RB ptr :=
  λ h, RBTreeNode_GetRightmost_fuel (S (size h)) Node h.

(** The [while (Parent->Left == Node)] of [RBTreeNode_GetPrev]. *)
Fixpoint GetPrev_up (fuel : nat) (Node Parent_ : ptr) : RB ptr :=
  match fuel with
  | O => nofuel
  | S fuel =>
      l ← load Parent_ Left;
      if l =? Node then
        up ← load Parent_ Parent;
        if up =? NULL then mret NULL else GetPrev_up fuel Parent_ up
      else mret Parent_
  end.

Definition RBTreeNode_GetPrev (Node : ptr) : RB ptr := λ h,
  (l ← load Node Left;
   if negb (l =? Sentinel) then RBTreeNode_GetRightmost_fuel (S (size h)) l
   else
     Parent_ ← load Node Parent;
     GetPrev_up (S (size h)) Node Parent_) h.

(** The [while (Parent->Right == Node)] of [RBTreeNode_GetNext]. *)
Fixpoint GetNext_up (fuel : nat) (Node Parent_ : ptr) : RB ptr :=
  match fuel with
  | O => nofuel
  | S fuel =>
      r ← load Parent_ Right;
      if r =? Node then
        up ← load Parent_ Parent;
        GetNext_up fuel Parent_ up
      else mret Parent_
  end.

Definition RBTreeNode_GetNext (Node : ptr) : RB ptr := λ h,
  (r ← load Node Right;
   if negb (r =? Sentinel) then RBTreeNode_GetLeftmost_fuel (S (size h)) r
   else
     Parent_ ← load Node Parent;
     p ← GetNext_up (S (size h)) Node Parent_;
     up ← load p Parent;
     if up =? NULL then mret NULL else mret p) h.

Definition RBTree_GetFirst (Tree : ptr) : RB ptr :=
  l ← load Tree Left;
  if l =? Sentinel then mret NULL else RBTreeNode_GetLeftmost l.

Definition RBTree_GetLast (Tree : ptr) : RB ptr :=
  l ← load Tree Left;
  if l =? Sentinel then mret NULL else RBTreeNode_GetRightmost l.

(** The [while] of [RBTree_Clear]. *)
Fixpoint RBTree_Clear_loop (fuel : nat) (Temp : ptr) : RB unit :=
  match fuel with
  | O => nofuel
  | S fuel =>
      if negb (Temp =? Sentinel) then
        store Temp (set_Color RBTreeNode_Unassigned);;
        Temp ← RBTreeNode_GetNext Temp;
        RBTree_Clear_loop fuel Temp
      else mret tt
  end.

Definition RBTree_Clear (Tree : ptr) : RB unit := λ h,
  (l ← load Tree Left;
   Temp ← RBTreeNode_GetLeftmost l;
   RBTree_Clear_loop (S (size h)) Temp;;
   store Tree (set_Left Sentinel)) h.

(** ** Removal *)

(** The [while] of [RBTreeNode_PruneLeaf] and the statement after it. *)
Fixpoint PruneLeaf_loop (fuel : nat) (Current Parent_ Sibling : ptr) (LeftSide : bool) : RB unit :=
  match fuel with
  | O => nofuel
  | S fuel =>
      cc ← load Current Color;
      pp ← load Parent_ Parent;
      if (cc =? RBTreeNode_Black) && negb (pp =? NULL) then
        sc ← load Sibling Color;
        if sc =? RBTreeNode_Red then
          store Parent_ (set_Color RBTreeNode_Red);;
          store Sibling (set_Color RBTreeNode_Black);;
          Sibling ←
            (if LeftSide then RBTreeNode_LeftRotate Parent_;; load Parent_ Right
             else RBTreeNode_RightRotate Parent_;; load Parent_ Left);
          PruneLeaf_loop fuel Current Parent_ Sibling LeftSide
        else
          sr ← load Sibling Right;
          src ← load sr Color;
          sl ← load Sibling Left;
          slc ← load sl Color;
          if (src =? RBTreeNode_Black) && (slc =? RBTreeNode_Black) then
            store Sibling (set_Color RBTreeNode_Red);;
            let Current := Parent_ in
            Parent_ ← load Current Parent;
            pl ← load Parent_ Left;
            let LeftSide := pl =? Current in
            Sibling ← (if LeftSide then load Parent_ Right else load Parent_ Left);
            PruneLeaf_loop fuel Current Parent_ Sibling LeftSide
          else if LeftSide then
            Sibling ←
              (if src =? RBTreeNode_Black then
                 RBTreeNode_RightSide_RightRotate Sibling;; load Parent_ Right
               else mret Sibling);
            sr ← load Sibling Right;
            store sr (set_Color RBTreeNode_Black);;
            pc ← load Parent_ Color;
            store Sibling (set_Color pc);;
            store Parent_ (set_Color RBTreeNode_Black);;
            let Current := Parent_ in
            Parent_ ← load Current Parent;
            pl ← load Parent_ Left;
            if pl =? Current then RBTreeNode_LeftSide_LeftRotate Current
            else RBTreeNode_RightSide_LeftRotate Current
          else
            Sibling ←
              (if slc =? RBTreeNode_Black then
                 RBTreeNode_LeftSide_LeftRotate Sibling;; load Parent_ Left
               else mret Sibling);
            sl ← load Sibling Left;
            store sl (set_Color RBTreeNode_Black);;
            pc ← load Parent_ Color;
            store Sibling (set_Color pc);;
            store Parent_ (set_Color RBTreeNode_Black);;
            let Current := Parent_ in
            Parent_ ← load Current Parent;
            pl ← load Parent_ Left;
            if pl =? Current then RBTreeNode_LeftSide_RightRotate Current
            else RBTreeNode_RightSide_RightRotate Current
      else store Current (set_Color RBTreeNode_Black)
  end.

(** [if (LeftSide) Parent->Left= v; else Parent->Right= v;] *)
Definition set_side (LeftSide : bool) (p v : ptr) : RB unit :=
  if LeftSide then store p (set_Left v) else store p (set_Right v).

Definition RBTreeNode_PruneLeaf_fuel (fuel : nat) (Node : ptr) : RB unit :=
  Parent_ ← load Node Parent;
  pl ← load Parent_ Left;
  let LeftSide := pl =? Node in
  c ← load Node Color;
  if c =? RBTreeNode_Red then set_side LeftSide Parent_ Sentinel
  else
    l ← load Node Left;
    if negb (l =? Sentinel) then
      store l (set_Color RBTreeNode_Black);;
      store l (set_Parent Parent_);;
      set_side LeftSide Parent_ l
    else
      r ← load Node Right;
      if negb (r =? Sentinel) then
        store r (set_Color RBTreeNode_Black);;
        store r (set_Parent Parent_);;
        set_side LeftSide Parent_ r
      else
        set_side LeftSide Parent_ Sentinel;;
        Sibling ← (if LeftSide then load Parent_ Right else load Parent_ Left);
        PruneLeaf_loop fuel Node Parent_ Sibling LeftSide.

(** Each iteration rotates once or climbs one level. *)
Definition RBTreeNode_PruneLeaf (Node : ptr) : RB unit :=
  λ h, RBTreeNode_PruneLeaf_fuel (2 * size h + 2) Node h.

Definition RBTreeNode_Prune (Current : ptr) : RB bool :=
  c ← load Current Color;
  if c =? RBTreeNode_Unassigned then mret false
  else
    l ← load Current Left;
    r ← load Current Right;
    (if (l =? Sentinel) || (r =? Sentinel) then RBTreeNode_PruneLeaf Current
     else
       Successor ← RBTreeNode_GetNext Current;
       sc ← load Successor Color;
       sl ← load Successor Left;
       sr ← load Successor Right;
       Successor ←
         (if (sc =? RBTreeNode_Black) && (sl =? Sentinel) && (sr =? Sentinel)
          then RBTreeNode_GetPrev Current else mret Successor);
       RBTreeNode_PruneLeaf Successor;;
       Temp ← load Current Right;
       store Successor (set_Right Temp);;
       store Temp (set_Parent Successor);;
       Temp ← load Current Left;
       store Successor (set_Left Temp);;
       store Temp (set_Parent Successor);;
       Temp ← load Current Parent;
       store Successor (set_Parent Temp);;
       tl ← load Temp Left;
       (if tl =? Current then store Temp (set_Left Successor)
        else store Temp (set_Right Successor));;
       cc ← load Current Color;
       store Successor (set_Color cc));;
    store Current (set_Color RBTreeNode_Unassigned);;
    mret true.
