(* ===== verification/RBTreeRep.v ===== *)
(** * The tree a heap of nodes represents

    An abstract tree carries the address of each node.  [tree_at Tree h t] says
    that the heap [h] holds [t] below the root sentinel at [Tree]: every pointer,
    colour and object is the one [t] prescribes, and all addresses differ.  A
    position in a tree is a context (a list of frames, innermost first) and the
    subtree at the hole, [fill k t].  The lemmas of this file say what each
    primitive step of the C code (a load, a colour store, a rotation, an unlink,
    a replacement of one node by another) does to the represented tree, at any
    position; the algorithms are then verified on abstract trees only. *)

From S2P Require Import Prelude RBTree.

Inductive color := Red | Black.

#[export] Instance color_eq_dec : EqDecision color.
Proof. solve_decision. Defined.

Definition colZ (c : color) : Z :=
  match c with Red => RBTreeNode_Red | Black => RBTreeNode_Black end.

Inductive tree :=
  | E
  | T (c : color) (l : tree) (a : ptr) (o : Z) (r : tree).

#[export] Instance tree_eq_dec : EqDecision tree.
Proof. solve_decision. Defined.

Inductive frame :=
  | FL (c : color) (a : ptr) (o : Z) (r : tree)   (**r the hole is the left child *)
  | FR (c : color) (l : tree) (a : ptr) (o : Z).  (**r the hole is the right child *)

Definition root (t : tree) : ptr := match t with E => Sentinel | T _ _ a _ _ => a end.
Definition tcolor (t : tree) : color := match t with E => Black | T c _ _ _ _ => c end.

Fixpoint fill (k : list frame) (t : tree) : tree :=
  match k with
  | [] => t
  | FL c a o r :: k => fill k (T c t a o r)
  | FR c l a o :: k => fill k (T c l a o t)
  end.

Fixpoint addrs (t : tree) : list ptr :=
  match t with E => [] | T _ l a _ r => addrs l ++ a :: addrs r end.

Fixpoint caddrs (k : list frame) : list ptr :=
  match k with
  | [] => []
  | FL _ a _ r :: k => a :: addrs r ++ caddrs k
  | FR _ l a _ :: k => a :: addrs l ++ caddrs k
  end.

(** The objects in key order, each with its node: what the index contains. *)
Fixpoint inorder (t : tree) : list (ptr * Z) :=
  match t with E => [] | T _ l a o r => inorder l ++ (a, o) :: inorder r end.

Fixpoint left_of (k : list frame) : list (ptr * Z) :=
  match k with
  | [] => []
  | FL _ _ _ _ :: k => left_of k
  | FR _ l a o :: k => left_of k ++ inorder l ++ [(a, o)]
  end.

Fixpoint right_of (k : list frame) : list (ptr * Z) :=
  match k with
  | [] => []
  | FL _ a o r :: k => (a, o) :: inorder r ++ right_of k
  | FR _ _ _ _ :: k => right_of k
  end.

Lemma inorder_fill k t : inorder (fill k t) = left_of k ++ inorder t ++ right_of k.
Proof.
  revert t; induction k as [|[c a o r|c l a o] k IH]; intros t; cbn.
  - by rewrite app_nil_r.
  - rewrite IH. cbn. by rewrite <-!app_assoc.
  - rewrite IH. cbn. by rewrite <-!app_assoc.
Qed.

Lemma addrs_inorder t : addrs t = (inorder t).*1.
Proof.
  induction t as [|c l IHl a o r IHr]; cbn; [done|].
  rewrite fmap_app. cbn. by rewrite IHl, IHr.
Qed.

Lemma addrs_fill k t : addrs (fill k t) ≡ₚ caddrs k ++ addrs t.
Proof.
  revert t; induction k as [|[c a o r|c l a o] k IH]; intros t; cbn; [done|..].
  - rewrite IH. cbn. rewrite <-!app_assoc. solve_Permutation.
  - rewrite IH. cbn. rewrite <-!app_assoc. solve_Permutation.
Qed.

(** ** Representation *)

(** Parent of the hole of a context, and whether the hole is its left child. *)
Definition up (Tree : ptr) (k : list frame) : ptr :=
  match k with [] => Tree | FL _ a _ _ :: _ | FR _ _ a _ :: _ => a end.
Definition on_left (k : list frame) : bool :=
  match k with [] | FL _ _ _ _ :: _ => true | FR _ _ _ _ :: _ => false end.

Fixpoint rep (h : heap) (par : ptr) (t : tree) : Prop :=
  match t with
  | E => True
  | T c l a o r =>
      h !! a = Some (mkNode (root l) (root r) par (colZ c) o) ∧ rep h a l ∧ rep h a r
  end.

Fixpoint crep (h : heap) (Tree : ptr) (hole : ptr) (k : list frame) : Prop :=
  match k with
  | [] => h !! Tree = Some (mkNode hole Sentinel NULL RBTreeNode_Black 0)
  | FL c a o r :: k =>
      h !! a = Some (mkNode hole (root r) (up Tree k) (colZ c) o) ∧ rep h a r ∧ crep h Tree a k
  | FR c l a o :: k =>
      h !! a = Some (mkNode (root l) hole (up Tree k) (colZ c) o) ∧ rep h a l ∧ crep h Tree a k
  end.

Definition sent_at (h : heap) : Prop :=
  ∃ p, h !! Sentinel = Some (mkNode Sentinel Sentinel p RBTreeNode_Black 0).

Record tree_at (Tree : ptr) (h : heap) (t : tree) : Prop := {
  ta_root : h !! Tree = Some (mkNode (root t) Sentinel NULL RBTreeNode_Black 0);
  ta_rep : rep h Tree t;
  ta_sent : sent_at h;
  ta_nodup : NoDup (Tree :: Sentinel :: NULL :: addrs t);
}.

(** The same split at a position. *)
Record focus (Tree : ptr) (h : heap) (k : list frame) (t : tree) : Prop := {
  fo_ctx : crep h Tree (root t) k;
  fo_rep : rep h (up Tree k) t;
  fo_sent : sent_at h;
  fo_nodup : NoDup (Tree :: Sentinel :: NULL :: caddrs k ++ addrs t);
}.

Lemma crep_rep_fill h Tree k t :
  (h !! Tree = Some (mkNode (root (fill k t)) Sentinel NULL RBTreeNode_Black 0) ∧
   rep h Tree (fill k t)) ↔ (crep h Tree (root t) k ∧ rep h (up Tree k) t).
Proof.
  revert t; induction k as [|[c a o r|c l a o] k IH]; intros t; cbn; [done|..];
    rewrite IH; cbn; tauto.
Qed.

Lemma focus_iff Tree h k t : tree_at Tree h (fill k t) ↔ focus Tree h k t.
Proof.
  split; intros [H1 H2 H3 H4].
  - pose proof (proj1 (crep_rep_fill h Tree k t) (conj H1 H2)) as [H5 H6].
    split; [done..|]. rewrite <-(addrs_fill k t). done.
  - pose proof (proj2 (crep_rep_fill h Tree k t) (conj H1 H2)) as [H5 H6].
    split; [done..|]. rewrite (addrs_fill k t). done.
Qed.

(** *** Framing *)

Lemma root_in t : t ≠ E → root t ∈ addrs t.
Proof. destruct t; [done|]. intros _. cbn. rewrite elem_of_app, elem_of_cons. auto. Qed.

Lemma rep_insert_ne h par t a n : a ∉ addrs t → rep h par t → rep (<[a := n]> h) par t.
Proof.
  revert par; induction t as [|c l IHl b o r IHr]; intros par Ha; cbn in *; [done|].
  rewrite elem_of_app, elem_of_cons in Ha. intros (H1 & H2 & H3).
  split_and!; [rewrite lookup_insert_ne; [done|]; intros ->; tauto|apply IHl; tauto|apply IHr; tauto].
Qed.

Lemma crep_insert_ne h Tree p k a n : a ≠ Tree → a ∉ caddrs k →
  crep h Tree p k → crep (<[a := n]> h) Tree p k.
Proof.
  intros Hne. revert p; induction k as [|[c b o r|c l b o] k IH]; intros p Ha; cbn in *.
  - by rewrite lookup_insert_ne.
  - rewrite elem_of_cons, elem_of_app in Ha. intros (H1 & H2 & H3).
    split_and!; [rewrite lookup_insert_ne; [done|]; intros ->; tauto
                |apply rep_insert_ne; tauto|apply IH; tauto].
  - rewrite elem_of_cons, elem_of_app in Ha. intros (H1 & H2 & H3).
    split_and!; [rewrite lookup_insert_ne; [done|]; intros ->; tauto
                |apply rep_insert_ne; tauto|apply IH; tauto].
Qed.

Lemma sent_insert_ne h a n : a ≠ Sentinel → sent_at h → sent_at (<[a := n]> h).
Proof. intros Hne [p Hp]. exists p. by rewrite lookup_insert_ne. Qed.

(** Giving a subtree a new parent: only the [Parent] of its root changes. *)
Lemma rep_reparent h par par' t n : NoDup (addrs t) → t ≠ E →
  rep h par t → h !! root t = Some n →
  rep (<[root t := set_Parent par' n]> h) par' t.
Proof.
  destruct t as [|c l a o r]; [done|]. intros Hnd _ (H1 & H2 & H3) Hn. cbn in *.
  apply NoDup_app in Hnd as (_ & Hl & Hr). apply NoDup_cons in Hr as [Hr _].
  assert (a ∉ addrs l) by (intros Hin; apply (Hl a Hin); constructor).
  simplify_eq. rewrite lookup_insert_eq.
  split_and!; [done|by apply rep_insert_ne|by apply rep_insert_ne].
Qed.

(** [if (left) p->Left= v; else p->Right= v;] on the node value. *)
Definition set_child (left : bool) (v : ptr) (n : RBTreeNode) : RBTreeNode :=
  if left then set_Left v n else set_Right v n.

(** Storing a new child pointer in the parent of the hole. *)
Lemma crep_set_hole h Tree p q k : NoDup (Tree :: caddrs k) → crep h Tree p k →
  ∃ n, h !! up Tree k = Some n ∧ (on_left k = true → Left n = p) ∧
    (on_left k = false → Right n = p) ∧
    crep (<[up Tree k := set_child (on_left k) q n]> h) Tree q k.
Proof.
  intros Hnd. apply NoDup_cons in Hnd as [HT Hnd].
  destruct k as [|[c a o r|c l a o] k]; cbn in *; intros H.
  - eexists; split_and!; [done|done|done|]. by rewrite lookup_insert_eq.
  - destruct H as (H1 & H2 & H3). apply NoDup_cons in Hnd as [Ha Hnd].
    rewrite elem_of_cons in HT. rewrite elem_of_app in Ha.
    eexists; split_and!; [done|done|done|by rewrite lookup_insert_eq|..].
    + apply rep_insert_ne; [tauto|done].
    + apply crep_insert_ne; [naive_solver|tauto|done].
  - destruct H as (H1 & H2 & H3). apply NoDup_cons in Hnd as [Ha Hnd].
    rewrite elem_of_cons in HT. rewrite elem_of_app in Ha.
    eexists; split_and!; [done|done|done|by rewrite lookup_insert_eq|..].
    + apply rep_insert_ne; [tauto|done].
    + apply crep_insert_ne; [naive_solver|tauto|done].
Qed.

(** ** Primitive steps *)

(** The nodes a tree owns. *)
Definition cells (Tree : ptr) (t : tree) : gset ptr :=
  {[Tree; Sentinel]} ∪ list_to_set (addrs t).

(** Nothing outside the tree changes. *)
Definition keeps (S : gset ptr) (h h' : heap) : Prop := ∀ a, a ∉ S → h' !! a = h !! a.

Lemma keeps_refl S h : keeps S h h.
Proof. done. Qed.

Lemma keeps_trans S h1 h2 h3 : keeps S h1 h2 → keeps S h2 h3 → keeps S h1 h3.
Proof. intros H1 H2 a Ha. by rewrite H2, H1. Qed.

Lemma keeps_insert S h h' a n : a ∈ S → keeps S h h' → keeps S h (<[a := n]> h').
Proof. intros Ha H b Hb. rewrite lookup_insert_ne by (intros ->; done). by apply H. Qed.
#[export] Hint Resolve keeps_refl keeps_insert : dp.

Lemma cells_perm Tree t t' : addrs t ≡ₚ addrs t' → cells Tree t = cells Tree t'.
Proof.
  intros H. unfold cells. f_equal.
  apply set_eq. intros x. rewrite !elem_of_list_to_set. by rewrite H.
Qed.

Lemma cells_fill Tree k t t' : addrs t ≡ₚ addrs t' → cells Tree (fill k t) = cells Tree (fill k t').
Proof. intros H. apply cells_perm. by rewrite !addrs_fill, H. Qed.

Lemma elem_of_cells Tree k t a :
  a ∈ cells Tree (fill k t) ↔ a = Tree ∨ a = Sentinel ∨ a ∈ caddrs k ∨ a ∈ addrs t.
Proof.
  unfold cells. rewrite elem_of_union, elem_of_list_to_set, addrs_fill, elem_of_app.
  set_solver.
Qed.

(** Facts about the addresses of a focused tree, in the form the framing lemmas
    want them. *)
Lemma focus_nodup Tree h k t : focus Tree h k t →
  NoDup (Tree :: caddrs k) ∧ NoDup (addrs t) ∧
  (∀ a, a ∈ addrs t → a ≠ Tree ∧ a ≠ Sentinel ∧ a ≠ NULL ∧ a ∉ caddrs k) ∧
  up Tree k ∉ addrs t ∧ up Tree k ≠ Sentinel ∧ up Tree k ≠ NULL ∧ Tree ≠ Sentinel ∧
  Sentinel ∉ caddrs k.
Proof.
  intros [_ _ _ Hnd]. rewrite !NoDup_cons, !NoDup_app, !elem_of_cons, !elem_of_app in Hnd.
  destruct Hnd as (H1 & H2 & H3 & Hk & Hkt & Ht).
  split_and!; [apply NoDup_cons; tauto|done| | | | | |tauto].
  - intros a Ha. split_and!; try (intros ->; tauto). intros Hin. by apply (Hkt a).
  - destruct k as [|[]]; cbn in *; [tauto|apply Hkt; constructor..].
  - destruct k as [|[]]; cbn in *; [naive_solver|..]; intros ->; apply H2; right; left; constructor.
  - destruct k as [|[]]; cbn in *; [naive_solver|..]; intros ->; apply H3; left; constructor.
  - intros ->. tauto.
Qed.

Lemma up_in_cells Tree k t : up Tree k ∈ cells Tree (fill k t).
Proof.
  rewrite elem_of_cells. destruct k as [|[]]; cbn; [by left|..]; right; right; left; constructor.
Qed.

(** The node of the root of a subtree, the sentinel's when it is empty. *)
Lemma root_lookup h par t : sent_at h → rep h par t → ∃ n, h !! root t = Some n ∧
  Color n = colZ (tcolor t).
Proof. intros [p Hp] H. destruct t; cbn in *; [by eexists|]. destruct H as [-> _]. by eexists. Qed.

(** What a rotation leaves alone: a subtree that keeps its parent. *)
Ltac frame_rep := repeat (apply rep_insert_ne; [solve [auto]|]); try assumption.

Definition rot_right (left : bool) (Node : ptr) : RB unit :=
  temp ← load Node Parent;
  child ← load Node Left;
  store temp (set_child left child);;
  store child (set_Parent temp);;
  temp ← load child Right;
  store Node (set_Left temp);;
  store temp (set_Parent Node);;
  store child (set_Right Node);;
  store Node (set_Parent child).

Definition rot_left (left : bool) (Node : ptr) : RB unit :=
  temp ← load Node Parent;
  child ← load Node Right;
  store temp (set_child left child);;
  store child (set_Parent temp);;
  temp ← load child Left;
  store Node (set_Right temp);;
  store temp (set_Parent Node);;
  store child (set_Left Node);;
  store Node (set_Parent child).

Lemma load_eq {A} h p (f : RBTreeNode → A) n : h !! p = Some n → load p f h = Done (f n, h).
Proof. intros H. unfold load. by rewrite H. Qed.

Lemma store_eq h p u n : h !! p = Some n → store p u h = Done (tt, <[p := u n]> h).
Proof. intros H. unfold store. by rewrite H. Qed.

(** Run one load or store whose address is known to hold a node. *)
Ltac lookup_tac :=
  repeat (rewrite lookup_insert_ne by (auto; congruence));
  first [eassumption | apply lookup_insert_eq].
Ltac run1 :=
  first
    [ erewrite bind_done; [|first [eapply load_eq | eapply store_eq]; lookup_tac]; cbn beta
    | erewrite load_eq; [|lookup_tac]
    | erewrite store_eq; [|lookup_tac] ].

Lemma NoDup_addrs_T c l a o r : NoDup (addrs (T c l a o r)) →
  NoDup (addrs l) ∧ NoDup (addrs r) ∧ a ∉ addrs l ∧ a ∉ addrs r ∧
  (∀ x, x ∈ addrs l → x ∉ addrs r).
Proof.
  cbn. rewrite NoDup_app, NoDup_cons. intros (Hl & Hlr & Har & Hr).
  split_and!; [done|done|intros H; apply (Hlr a H); constructor|done|].
  intros x Hx Hx'. apply (Hlr x Hx). by constructor.
Qed.

Lemma root_not_in t S : Sentinel ∉ S → (∀ x, x ∈ addrs t → x ∉ S) → root t ∉ (S : list ptr).
Proof. intros H1 H2. destruct t; [done|]. by apply H2, root_in. Qed.

(** The groups of a list without duplicates can be told apart by a number. *)
Lemma NoDup_tag (gs : list (list ptr)) : NoDup (concat gs) →
  ∃ tag : ptr → nat, ∀ i g x, gs !! i = Some g → x ∈ g → tag x = i.
Proof.
  induction gs as [|g0 gs IH]; cbn; [by exists (λ _, 0%nat)|].
  rewrite NoDup_app. intros (H0 & Hd & [tag Ht]%IH).
  exists (λ x, if decide (x ∈ g0) then 0%nat else S (tag x)). intros i g x Hi Hx.
  destruct i as [|i]; cbn in Hi; simplify_eq.
  - by rewrite decide_True.
  - rewrite decide_False; [f_equal; by eapply Ht|]. intros Hin. apply (Hd x Hin).
    rewrite list_elem_of_In, in_concat. exists g. rewrite <-!list_elem_of_In.
    split; [by eapply list_elem_of_lookup_2|done].
Qed.

(** The addresses a rotation at [y] with child [x] touches or must not touch; [A],
    [B] and [C] are the three subtrees, [u] the parent. *)
Record rot_addrs (Tree : ptr) (k : list frame) (A B C : tree) (x y u : ptr) : Prop := {
  ra_xy : x ≠ y; ra_ux : u ≠ x; ra_uy : u ≠ y; ra_uB : u ≠ root B;
  ra_Bx : root B ≠ x; ra_By : root B ≠ y;
  ra_uA : u ∉ addrs A; ra_uBs : u ∉ addrs B; ra_uC : u ∉ addrs C;
  ra_xA : x ∉ addrs A; ra_xB : x ∉ addrs B; ra_xC : x ∉ addrs C;
  ra_yA : y ∉ addrs A; ra_yB : y ∉ addrs B; ra_yC : y ∉ addrs C;
  ra_BA : root B ∉ addrs A; ra_BC : root B ∉ addrs C;
  ra_xS : x ≠ Sentinel; ra_yS : y ≠ Sentinel; ra_uS : u ≠ Sentinel;
  ra_xT : x ≠ Tree; ra_yT : y ≠ Tree; ra_BT : root B ≠ Tree;
  ra_xk : x ∉ caddrs k; ra_yk : y ∉ caddrs k; ra_Bk : root B ∉ caddrs k;
  ra_k : NoDup (Tree :: caddrs k); ra_B : NoDup (addrs B); ra_SB : Sentinel ∉ addrs B;
}.

Lemma rot_addrs_intro Tree k A B C x y :
  NoDup (Tree :: Sentinel :: NULL :: caddrs k ++ x :: y :: addrs A ++ addrs B ++ addrs C) →
  rot_addrs Tree k A B C x y (up Tree k).
Proof.
  intros Hnd.
  assert (Hk : NoDup (Tree :: caddrs k) ∧ NoDup (addrs B)).
  { repeat (rewrite NoDup_cons in Hnd || rewrite NoDup_app in Hnd).
    rewrite NoDup_cons. set_solver. }
  destruct (NoDup_tag [[Tree]; [Sentinel]; [NULL]; caddrs k; [x]; [y]; addrs A; addrs B; addrs C])
    as [tag Htag]; [by cbn; rewrite app_nil_r|].
  pose proof (λ z, Htag 3%nat _ z eq_refl) as Tk.
  pose proof (λ z, Htag 6%nat _ z eq_refl) as TA.
  pose proof (λ z, Htag 7%nat _ z eq_refl) as TB.
  pose proof (λ z, Htag 8%nat _ z eq_refl) as TC.
  assert (Hu : tag (up Tree k) = 0%nat ∨ tag (up Tree k) = 3%nat).
  { destruct k as [|[]]; cbn; [left; by apply (Htag 0%nat _ _ eq_refl), list_elem_of_singleton
                              |right; apply Tk; constructor..]. }
  assert (HB : tag (root B) = 1%nat ∨ tag (root B) = 7%nat).
  { destruct B; [left; by apply (Htag 1%nat _ _ eq_refl), list_elem_of_singleton|].
    right. by apply TB, root_in. }
  pose proof (Htag 0%nat _ Tree eq_refl ltac:(constructor)).
  pose proof (Htag 1%nat _ Sentinel eq_refl ltac:(constructor)).
  pose proof (Htag 4%nat _ x eq_refl ltac:(constructor)).
  pose proof (Htag 5%nat _ y eq_refl ltac:(constructor)).
  split; try tauto; intros Hin;
    first [apply (f_equal tag) in Hin | apply Tk in Hin | apply TA in Hin
          | apply TB in Hin | apply TC in Hin]; lia.
Qed.

(** The heap a right or left rotation leaves, store by store. *)
Section rotate.
Context (Tree : ptr) (k : list frame) (A B C : tree) (x y : ptr) (h : heap).
Context (nu nx ny ng : RBTreeNode).
Let u := up Tree k.

Definition rot_heap (upd_y_child upd_x_child : ptr → RBTreeNode → RBTreeNode) : heap :=
  let h1 := <[u := set_child (on_left k) x nu]> h in
  let h2 := <[x := set_Parent u nx]> h1 in
  let h3 := <[y := upd_y_child (root B) ny]> h2 in
  let h4 := <[root B := set_Parent y ng]> h3 in
  let h5 := <[x := upd_x_child y (set_Parent u nx)]> h4 in
  <[y := set_Parent x (upd_y_child (root B) ny)]> h5.

Context (Hra : rot_addrs Tree k A B C x y u).
Context (Hctx : crep h Tree y k) (Hnu : h !! u = Some nu).
Context (Hset : crep (<[u := set_child (on_left k) x nu]> h) Tree x k).
Context (Hsent : sent_at h) (Hng : h !! root B = Some ng).
Context (HA : rep h x A) (HB : rep h x B).

Lemma rot_heap_x uy ux : rot_heap uy ux !! x = Some (ux y (set_Parent u nx)).
Proof.
  destruct Hra. unfold rot_heap. by rewrite lookup_insert_ne, lookup_insert_eq by auto.
Qed.

Lemma rot_heap_y uy ux : rot_heap uy ux !! y = Some (set_Parent x (uy (root B) ny)).
Proof. unfold rot_heap. by rewrite lookup_insert_eq. Qed.

Lemma rot_heap_ctx uy ux : crep (rot_heap uy ux) Tree x k.
Proof.
  destruct Hra. unfold rot_heap.
  repeat (apply crep_insert_ne; [solve [auto]|solve [auto]|]). done.
Qed.

Lemma rot_heap_sent uy ux : sent_at (rot_heap uy ux).
Proof.
  destruct Hra. unfold rot_heap. do 2 (apply sent_insert_ne; [done|]).
  destruct B as [|cB lB b oB rB]; cbn.
  - destruct Hsent as [p Hp]. cbn in Hng. simplify_eq. exists y. by rewrite lookup_insert_eq.
  - assert (b ≠ Sentinel).
    { intros ->. apply ra_SB0. cbn. rewrite elem_of_app, elem_of_cons. auto. }
    cbn in *. repeat (apply sent_insert_ne; [done|]). done.
Qed.

(** [A] and [C] keep their parents, [B] moves from [x] to [y]. *)
Lemma rot_heap_keep uy ux p t : u ∉ addrs t → x ∉ addrs t → y ∉ addrs t →
  root B ∉ addrs t → rep h p t → rep (rot_heap uy ux) p t.
Proof. intros. unfold rot_heap. repeat (apply rep_insert_ne; [done|]). done. Qed.

Lemma rot_heap_B uy ux : rep (rot_heap uy ux) y B.
Proof.
  destruct Hra. unfold rot_heap.
  destruct (decide (B = E)) as [->|HBE]; [done|].
  do 2 (apply rep_insert_ne; [done|]).
  apply (rep_reparent _ x); [done|done|repeat (apply rep_insert_ne; [done|]); done|].
  by rewrite !lookup_insert_ne by auto.
Qed.

Lemma rot_heap_keeps uy ux S : u ∈ S → x ∈ S → y ∈ S → root B ∈ S → keeps S h (rot_heap uy ux).
Proof. intros. unfold rot_heap. auto 10 with dp. Qed.
End rotate.

Lemma root_in_cells Tree k t t' : (∀ a, a ∈ addrs t' → a ∈ addrs t) →
  root t' ∈ cells Tree (fill k t).
Proof.
  intros H. rewrite elem_of_cells. destruct t' as [|c l a o r]; [by right; left|].
  right; right; right. apply H. by apply root_in.
Qed.

Lemma NoDup_ctx Tree k (l l' : list ptr) : l ≡ₚ l' →
  NoDup (Tree :: Sentinel :: NULL :: caddrs k ++ l) →
  NoDup (Tree :: Sentinel :: NULL :: caddrs k ++ l').
Proof. intros Hp. by rewrite Hp. Qed.

(** A rotation at any position of the tree: the two nodes change places, the three
    subtrees keep their order. *)
Lemma rot_right_spec Tree h k cn cc A x ox B y oy C :
  tree_at Tree h (fill k (T cn (T cc A x ox B) y oy C)) →
  ∃ h', rot_right (on_left k) y h = Done (tt, h') ∧
    tree_at Tree h' (fill k (T cc A x ox (T cn B y oy C))) ∧
    keeps (cells Tree (fill k (T cn (T cc A x ox B) y oy C))) h h'.
Proof.
  intros [Hctx Hrep Hsent Hnd]%focus_iff. cbn in Hrep, Hctx.
  assert (Hra : rot_addrs Tree k A B C x y (up Tree k)).
  { apply rot_addrs_intro. revert Hnd. apply NoDup_ctx. cbn. solve_Permutation. }
  destruct (crep_set_hole h Tree y x k (ra_k _ _ _ _ _ _ _ _ Hra) Hctx)
    as (nu & Hnu & _ & _ & Hset).
  destruct Hrep as (Hy & (Hx & HA & HB) & HC).
  destruct (root_lookup h x B Hsent HB) as (ng & Hng & _).
  exists (rot_heap Tree k B x y h nu (mkNode (root A) (root B) y (colZ cc) ox)
            (mkNode x (root C) (up Tree k) (colZ cn) oy) ng set_Left set_Right).
  split_and!.
  - unfold rot_right. pose proof Hra as Hra'. destruct Hra'. do 8 run1. run1. reflexivity.
  - apply focus_iff. pose proof Hra as Hra'. destruct Hra'. split.
    + by eapply rot_heap_ctx.
    + cbn. split_and!; [by erewrite rot_heap_x|by apply rot_heap_keep| |
                        by eapply rot_heap_B|by apply rot_heap_keep].
      by rewrite rot_heap_y.
    + by eapply rot_heap_sent.
    + revert Hnd. apply NoDup_ctx. cbn. solve_Permutation.
  - apply rot_heap_keeps; [apply up_in_cells|..];
      [rewrite elem_of_cells; set_solver|rewrite elem_of_cells; set_solver|].
    apply root_in_cells. set_solver.
Qed.

Lemma rot_left_spec Tree h k cn cc A x ox B y oy C :
  tree_at Tree h (fill k (T cn C y oy (T cc B x ox A))) →
  ∃ h', rot_left (on_left k) y h = Done (tt, h') ∧
    tree_at Tree h' (fill k (T cc (T cn C y oy B) x ox A)) ∧
    keeps (cells Tree (fill k (T cn C y oy (T cc B x ox A)))) h h'.
Proof.
  intros [Hctx Hrep Hsent Hnd]%focus_iff. cbn in Hrep, Hctx.
  assert (Hra : rot_addrs Tree k A B C x y (up Tree k)).
  { apply rot_addrs_intro. revert Hnd. apply NoDup_ctx. cbn. solve_Permutation. }
  destruct (crep_set_hole h Tree y x k (ra_k _ _ _ _ _ _ _ _ Hra) Hctx)
    as (nu & Hnu & _ & _ & Hset).
  destruct Hrep as (Hy & HC & (Hx & HB & HA)).
  destruct (root_lookup h x B Hsent HB) as (ng & Hng & _).
  exists (rot_heap Tree k B x y h nu (mkNode (root B) (root A) y (colZ cc) ox)
            (mkNode (root C) x (up Tree k) (colZ cn) oy) ng set_Right set_Left).
  split_and!.
  - unfold rot_left. pose proof Hra as Hra'. destruct Hra'. do 8 run1. run1. reflexivity.
  - apply focus_iff. pose proof Hra as Hra'. destruct Hra'. split.
    + by eapply rot_heap_ctx.
    + cbn. split_and!; [by erewrite rot_heap_x| |by apply rot_heap_keep|
                        by eapply rot_heap_B|by apply rot_heap_keep].
      by rewrite rot_heap_y.
    + by eapply rot_heap_sent.
    + revert Hnd. apply NoDup_ctx. cbn. solve_Permutation.
  - apply rot_heap_keeps; [apply up_in_cells|..];
      [rewrite elem_of_cells; set_solver|rewrite elem_of_cells; set_solver|].
    apply root_in_cells. set_solver.
Qed.

(** The fields of the node at a position. *)
Lemma node_lookup Tree h k c l a o r : tree_at Tree h (fill k (T c l a o r)) →
  h !! a = Some (mkNode (root l) (root r) (up Tree k) (colZ c) o).
Proof. intros [_ Hrep _ _]%focus_iff. apply Hrep. Qed.

Lemma subtree_color Tree h k t : tree_at Tree h (fill k t) →
  load (root t) Color h = Done (colZ (tcolor t), h).
Proof.
  intros [_ Hrep Hsent _]%focus_iff.
  destruct (root_lookup _ _ _ Hsent Hrep) as (n & Hn & Hc). by rewrite (load_eq _ _ _ n), Hc.
Qed.

(** A parent sees on which side its child hangs. *)
Lemma parent_lookup Tree h k c l a o r : tree_at Tree h (fill k (T c l a o r)) →
  ∃ n, h !! up Tree k = Some n ∧ (Left n =? a) = on_left k ∧ (Right n =? a) = negb (on_left k).
Proof.
  intros Hf%focus_iff. pose proof (focus_nodup _ _ _ _ Hf) as (_ & _ & Hout & _).
  destruct (Hout a) as (HaT & HaS & _ & Hak); [by apply (root_in (T c l a o r))|].
  destruct Hf as [Hctx _ _ _]. cbn in Hctx.
  destruct k as [|[c' b o' r'|c' l' b o'] k]; cbn in *.
  - eexists; split; [done|]. cbn [Left Right]. rewrite Z.eqb_refl.
    destruct (Z.eqb_spec Sentinel a); [by subst|done].
  - destruct Hctx as (-> & _ & _). eexists; split; [done|]. cbn [Left Right]. rewrite Z.eqb_refl.
    destruct (Z.eqb_spec (root r') a) as [<-|]; [|done]. destruct Hak.
    apply elem_of_cons; right; apply elem_of_app; left. apply root_in. by intros ->.
  - destruct Hctx as (-> & _ & _). eexists; split; [done|]. cbn [Left Right]. rewrite Z.eqb_refl.
    destruct (Z.eqb_spec (root l') a) as [<-|]; [|done]. destruct Hak.
    apply elem_of_cons; right; apply elem_of_app; left. apply root_in. by intros ->.
Qed.

Lemma addr_ne Tree h k c l a o r : tree_at Tree h (fill k (T c l a o r)) →
  a ≠ Tree ∧ a ≠ Sentinel ∧ a ≠ NULL ∧ a ≠ up Tree k ∧ a ∈ cells Tree (fill k (T c l a o r)).
Proof.
  intros Hf%focus_iff. pose proof (focus_nodup _ _ _ _ Hf) as (_ & _ & Hout & Hu & _).
  assert (Ha : a ∈ addrs (T c l a o r)) by by apply (root_in (T c l a o r)).
  destruct (Hout a Ha) as (? & ? & ? & _).
  split_and!; [done..|by intros ->|]. rewrite elem_of_cells. auto.
Qed.

Lemma root_sentinel_iff Tree h k t : tree_at Tree h (fill k t) → (root t =? Sentinel) = true ↔ t = E.
Proof.
  intros Hta. destruct t as [|c l a o r]; [done|]. cbn.
  destruct (addr_ne _ _ _ _ _ _ _ _ Hta) as (_ & ? & _). by rewrite Z.eqb_eq.
Qed.

(** Changing the colour of a node. *)
Lemma recolor_spec Tree h k c c' l a o r : tree_at Tree h (fill k (T c l a o r)) →
  ∃ h', store a (set_Color (colZ c')) h = Done (tt, h') ∧
    tree_at Tree h' (fill k (T c' l a o r)) ∧ keeps (cells Tree (fill k (T c l a o r))) h h'.
Proof.
  intros Hta. pose proof (node_lookup _ _ _ _ _ _ _ _ Hta) as Hn.
  destruct (addr_ne _ _ _ _ _ _ _ _ Hta) as (HaT & HaS & _ & _ & Hcells).
  eexists; split_and!; [by apply store_eq| |by apply keeps_insert].
  apply focus_iff in Hta as Hf. pose proof (focus_nodup _ _ _ _ Hf) as (_ & Hnd & Hout & _).
  destruct (Hout a) as (_ & _ & _ & Hak); [by apply (root_in (T c l a o r))|].
  apply NoDup_addrs_T in Hnd as (_ & _ & Hal & Har & _).
  destruct Hf as [Hctx Hrep Hsent Hndall]. apply focus_iff. split; [..|done].
  - by apply crep_insert_ne.
  - destruct Hrep as (_ & Hl & Hr). cbn.
    rewrite lookup_insert_eq. split_and!; [done|by apply rep_insert_ne..].
  - by apply sent_insert_ne.
Qed.

(** Hanging another subtree at a position: the store in the parent. *)
Lemma graft_spec Tree h k p t' : crep h Tree p k → sent_at h → rep h (up Tree k) t' →
  NoDup (Tree :: Sentinel :: NULL :: caddrs k ++ addrs t') →
  ∃ h', store (up Tree k) (set_child (on_left k) (root t')) h = Done (tt, h') ∧
    tree_at Tree h' (fill k t') ∧ (∀ a, a ≠ up Tree k → h' !! a = h !! a).
Proof.
  intros Hctx Hsent Hrep' Hnd'.
  assert (Hu : up Tree k = Tree ∨ up Tree k ∈ caddrs k).
  { destruct k as [|[]]; cbn; [by left|right; constructor..]. }
  pose proof Hnd' as Hnd. rewrite !NoDup_cons, NoDup_app, !elem_of_cons, !elem_of_app in Hnd.
  destruct Hnd as (HT & HS & _ & Hk & Hd & _).
  destruct (crep_set_hole h Tree p (root t') k) as (nu & Hnu & _ & _ & Hset);
    [apply NoDup_cons; tauto|done|].
  eexists; split_and!; [by apply store_eq| |by intros; apply lookup_insert_ne].
  apply focus_iff. split; [done| | |done].
  - apply rep_insert_ne; [|done]. destruct Hu as [->|Hu]; [tauto|by apply Hd].
  - apply sent_insert_ne; [|done]. intros E. rewrite E in Hu. destruct Hu; subst; tauto.
Qed.

(** Removing a node without children; its own fields are left as they were. *)
Lemma unlink_spec Tree h k c a o : tree_at Tree h (fill k (T c E a o E)) →
  ∃ h', store (up Tree k) (set_child (on_left k) Sentinel) h = Done (tt, h') ∧
    tree_at Tree h' (fill k E) ∧ h' !! a = h !! a ∧
    keeps (cells Tree (fill k (T c E a o E))) h h'.
Proof.
  intros Hta. destruct (addr_ne _ _ _ _ _ _ _ _ Hta) as (_ & _ & _ & Hau & _).
  apply focus_iff in Hta as [Hctx _ Hsent Hnd].
  destruct (graft_spec Tree h k _ E Hctx Hsent) as (h' & Hs & Hta' & Hk); [done| |].
  - cbn in Hnd |- *. rewrite app_nil_r.
    rewrite !NoDup_cons, NoDup_app, !elem_of_cons, !elem_of_app in *. tauto.
  - exists h'. split_and!; [done|done|by apply Hk|].
    intros b Hb. apply Hk. intros ->. by apply Hb, up_in_cells.
Qed.

Lemma NoDup_ctx_drop Tree k a (l : list ptr) :
  NoDup (Tree :: Sentinel :: NULL :: caddrs k ++ a :: l) →
  NoDup (Tree :: Sentinel :: NULL :: caddrs k ++ l).
Proof.
  intros H. apply (NoDup_cons_1_2 a). revert H. apply NoDup_Permutation_proper.
  solve_Permutation.
Qed.

(** Replacing a node by its only child, which becomes black. *)
Lemma splice_spec Tree h k t t' c' l b ob r c a o :
  t' = T c' l b ob r → t = T c t' a o E ∨ t = T c E a o t' →
  tree_at Tree h (fill k t) →
  ∃ h1 h2 h3, store b (set_Color RBTreeNode_Black) h = Done (tt, h1) ∧
    store b (set_Parent (up Tree k)) h1 = Done (tt, h2) ∧
    store (up Tree k) (set_child (on_left k) b) h2 = Done (tt, h3) ∧
    tree_at Tree h3 (fill k (T Black l b ob r)) ∧ h3 !! a = h !! a ∧
    keeps (cells Tree (fill k t)) h h3.
Proof.
  intros -> Ht Hta. apply focus_iff in Hta as Hf.
  pose proof (focus_nodup _ _ _ _ Hf) as (HndT & Hnd & Hout & Hu & HuS & _).
  destruct Hf as [Hctx Hrep Hsent Hndall].
  assert (Hp : addrs t ≡ₚ a :: addrs (T c' l b ob r)).
  { destruct Ht as [->| ->]; cbn; [|done]. rewrite Permutation_app_comm. cbn. done. }
  assert (Hb : b ∈ addrs t).
  { rewrite Hp. constructor. by apply (root_in (T c' l b ob r)). }
  assert (Hin : ∀ z, z = a ∨ z = b → z ∈ cells Tree (fill k t)).
  { intros z Hz. rewrite elem_of_cells, Hp. destruct Hz as [-> | ->]; [|rewrite <-Hp; tauto].
    right; right; right. constructor. }
  rewrite Hp in Hnd, Hndall. apply NoDup_cons in Hnd as [Hab Hnd].
  assert (Hab' : a ≠ b) by (intros ->; by apply Hab, (root_in (T c' l b ob r))).
  apply NoDup_addrs_T in Hnd as (_ & _ & Hbl & Hbr & _).
  destruct (Hout b Hb) as (HbT & HbS & _ & Hbk).
  assert (Hbu : b ≠ up Tree k) by (intros ->; done).
  assert (Hau : a ≠ up Tree k) by (intros ->; apply Hu; rewrite Hp; constructor).
  assert (Hsub : h !! b = Some (mkNode (root l) (root r) a (colZ c') ob) ∧ rep h b l ∧ rep h b r).
  { destruct Ht as [->| ->]; cbn in Hrep; tauto. }
  destruct Hsub as (Hnb & Hl & Hr).
  set (n1 := mkNode (root l) (root r) a RBTreeNode_Black ob).
  set (n2 := mkNode (root l) (root r) (up Tree k) RBTreeNode_Black ob).
  destruct (graft_spec Tree (<[b := n2]> (<[b := n1]> h)) k (root t) (T Black l b ob r))
    as (h3 & Hs3 & Hta3 & Hk3).
  - do 2 (apply crep_insert_ne; [done|done|]). done.
  - do 2 (apply sent_insert_ne; [done|]). done.
  - cbn. rewrite lookup_insert_eq. split_and!; [done|do 2 (apply rep_insert_ne; [done|]); done..].
  - by apply (NoDup_ctx_drop Tree k a).
  - exists (<[b := n1]> h), (<[b := n2]> (<[b := n1]> h)), h3.
    split_and!; [by rewrite (store_eq _ _ _ _ Hnb)|
      by rewrite (store_eq _ _ _ n1) by apply lookup_insert_eq|done|done|..].
    + rewrite Hk3, !lookup_insert_ne by auto. done.
    + intros z Hz. rewrite Hk3 by (intros ->; by apply Hz, up_in_cells).
      rewrite !lookup_insert_ne by (intros ->; apply Hz, Hin; auto). done.
Qed.

(** Hanging a new red node at an empty position. *)
Lemma attach_spec Tree h k a p o : tree_at Tree h (fill k E) →
  a ∉ cells Tree (fill k E) → a ≠ NULL →
  h !! a = Some (mkNode Sentinel Sentinel p RBTreeNode_Red o) →
  ∃ h1 h2, store (up Tree k) (set_child (on_left k) a) h = Done (tt, h1) ∧
    store a (set_Parent (up Tree k)) h1 = Done (tt, h2) ∧
    tree_at Tree h2 (fill k (T Red E a o E)) ∧
    keeps (cells Tree (fill k (T Red E a o E))) h h2.
Proof.
  intros Hta Ha HaN Hn. rewrite elem_of_cells in Ha.
  pose proof (up_in_cells Tree k (T Red E a o E)) as Hucells.
  apply focus_iff in Hta as [Hctx _ Hsent Hnd]. cbn in Hnd. rewrite app_nil_r in Hnd.
  assert (Hu : up Tree k = Tree ∨ up Tree k ∈ caddrs k).
  { destruct k as [|[]]; cbn; [by left|right; constructor..]. }
  destruct (crep_set_hole h Tree Sentinel a k) as (nu & Hnu & _ & _ & Hset); [|done|].
  { rewrite !NoDup_cons, !elem_of_cons in *. tauto. }
  assert (Hua : up Tree k ≠ a) by (intros E; rewrite E in Hu; tauto).
  do 2 eexists. split_and!; [by apply store_eq|by eapply store_eq; rewrite lookup_insert_ne| |].
  - apply focus_iff. split.
    + apply crep_insert_ne; [tauto|tauto|done].
    + cbn. by rewrite lookup_insert_eq.
    + apply sent_insert_ne; [tauto|]. apply sent_insert_ne; [|done].
      intros E. rewrite E in Hu. rewrite !NoDup_cons, !elem_of_cons in Hnd. naive_solver.
    + cbn. rewrite (Permutation_app_comm (caddrs k)). cbn.
      rewrite !NoDup_cons, !elem_of_cons in *. naive_solver.
  - apply keeps_insert; [rewrite elem_of_cells; right; right; right; constructor|].
    by apply keeps_insert.
Qed.

Lemma rep_ext h h' p t : (∀ a, a ∈ addrs t → h' !! a = h !! a) → rep h p t → rep h' p t.
Proof.
  revert p; induction t as [|c l IHl a o r IHr]; intros p Hx; cbn in *; [done|].
  setoid_rewrite elem_of_app in Hx. setoid_rewrite elem_of_cons in Hx.
  intros (H1 & H2 & H3). split_and!; [rewrite Hx; auto|apply IHl; auto|apply IHr; auto].
Qed.

Lemma crep_ext h h' Tree p k : (∀ a, a = Tree ∨ a ∈ caddrs k → h' !! a = h !! a) →
  crep h Tree p k → crep h' Tree p k.
Proof.
  revert p; induction k as [|[c b o r|c l b o] k IH]; intros p Hx; cbn in *.
  - by rewrite Hx by auto.
  - setoid_rewrite elem_of_cons in Hx. setoid_rewrite elem_of_app in Hx.
    intros (H1 & H2 & H3). split_and!; [rewrite Hx; auto|eapply rep_ext; [|done]; auto|].
    apply IH; [|done]. naive_solver.
  - setoid_rewrite elem_of_cons in Hx. setoid_rewrite elem_of_app in Hx.
    intros (H1 & H2 & H3). split_and!; [rewrite Hx; auto|eapply rep_ext; [|done]; auto|].
    apply IH; [|done]. naive_solver.
Qed.

Lemma sent_ext h h' : h' !! Sentinel = h !! Sentinel → sent_at h → sent_at h'.
Proof. intros H [p Hp]. exists p. congruence. Qed.

(** [t->Parent= s], where an empty [t] is the sentinel. *)
Lemma reparent_spec h p t s : NoDup (addrs t) → Sentinel ∉ addrs t →
  rep h p t → sent_at h →
  ∃ h', store (root t) (set_Parent s) h = Done (tt, h') ∧ rep h' s t ∧ sent_at h' ∧
    (∀ a, a ≠ root t → h' !! a = h !! a).
Proof.
  intros Hnd HS Hrep Hsent. destruct (root_lookup _ _ _ Hsent Hrep) as (n & Hn & _).
  eexists. split_and!; [by apply store_eq|..].
  - destruct (decide (t = E)) as [->|Ht]; [done|]. by eapply rep_reparent.
  - destruct t as [|c l a o r].
    + destruct Hsent as [q Hq]. cbn in Hn. simplify_eq. exists s. cbn. by rewrite lookup_insert_eq.
    + apply sent_insert_ne; [|done]. intros E. apply HS. rewrite <-E. by apply root_in.
  - intros a Ha. by rewrite lookup_insert_ne.
Qed.

(** The second half of [RBTreeNode_Prune]: a node outside the tree takes the
    place, the links and the colour of a node of the tree. *)
Definition exchange (Current Successor : ptr) : RB unit :=
  Temp ← load Current Right;
  store Successor (set_Right Temp);;
  store Temp (set_Parent Successor);;
  Temp ← load Current Left;
  store Successor (set_Left Temp);;
  store Temp (set_Parent Successor);;
  Temp ← load Current Parent;
  store Successor (set_Parent Temp);;
  tl ← load Temp Left;
  (if tl =? Current then store Temp (set_Left Successor)
   else store Temp (set_Right Successor));;
  cc ← load Current Color;
  store Successor (set_Color cc).

Lemma store_child b p v h :
  (if b : bool then store p (set_Left v) else store p (set_Right v)) h =
  store p (set_child b v) h.
Proof. by destruct b. Qed.

(** Tell two addresses apart by their groups. *)
Ltac tag_ne tag :=
  let H := fresh in
  intros H; first
    [ apply (f_equal tag) in H; lia
    | match goal with Tg : ∀ z, z ∈ _ → tag z = _ |- _ => apply Tg in H; lia end ].

Record xch_addrs (Tree : ptr) (k : list frame) (l r : tree) (a s u : ptr) : Prop := {
  xa_us : u ≠ s; xa_ua : u ≠ a; xa_ul : u ≠ root l; xa_ur : u ≠ root r;
  xa_sa : s ≠ a; xa_sl : s ≠ root l; xa_sr : s ≠ root r; xa_al : a ≠ root l; xa_ar : a ≠ root r;
  xa_uls : u ∉ addrs l; xa_urs : u ∉ addrs r; xa_sls : s ∉ addrs l; xa_srs : s ∉ addrs r;
  xa_lr : root l ∉ addrs r; xa_rl : root r ∉ addrs l;
  xa_Sl : Sentinel ∉ addrs l; xa_Sr : Sentinel ∉ addrs r; xa_sS : s ≠ Sentinel; xa_uS : u ≠ Sentinel;
  xa_sT : s ≠ Tree; xa_lT : root l ≠ Tree; xa_rT : root r ≠ Tree;
  xa_sk : s ∉ caddrs k; xa_lk : root l ∉ caddrs k; xa_rk : root r ∉ caddrs k;
  xa_k : NoDup (Tree :: caddrs k); xa_l : NoDup (addrs l); xa_r : NoDup (addrs r);
}.

Lemma xch_addrs_intro Tree k l r a s :
  NoDup (Tree :: Sentinel :: NULL :: caddrs k ++ s :: a :: addrs l ++ addrs r) →
  xch_addrs Tree k l r a s (up Tree k).
Proof.
  intros Hnd.
  assert (Hk : NoDup (Tree :: caddrs k) ∧ NoDup (addrs l) ∧ NoDup (addrs r)).
  { repeat (rewrite NoDup_cons in Hnd || rewrite NoDup_app in Hnd).
    rewrite NoDup_cons. set_solver. }
  destruct (NoDup_tag [[Tree]; [Sentinel]; [NULL]; caddrs k; [s]; [a]; addrs l; addrs r])
    as [tag Htag]; [by cbn; rewrite app_nil_r|].
  pose proof (λ z, Htag 3%nat _ z eq_refl) as Tk.
  pose proof (λ z, Htag 6%nat _ z eq_refl) as Tl.
  pose proof (λ z, Htag 7%nat _ z eq_refl) as Tr.
  pose proof (Htag 0%nat _ Tree eq_refl ltac:(constructor)).
  pose proof (Htag 1%nat _ Sentinel eq_refl ltac:(constructor)).
  pose proof (Htag 4%nat _ s eq_refl ltac:(constructor)).
  pose proof (Htag 5%nat _ a eq_refl ltac:(constructor)).
  assert (Hu : tag (up Tree k) = 0%nat ∨ tag (up Tree k) = 3%nat).
  { destruct k as [|[]]; cbn; [by left|right; apply Tk; constructor..]. }
  assert (Hl : tag (root l) = 1%nat ∨ tag (root l) = 6%nat).
  { destruct l; [by left|]. right. by apply Tl, root_in. }
  assert (Hr : tag (root r) = 1%nat ∨ tag (root r) = 7%nat).
  { destruct r; [by left|]. right. by apply Tr, root_in. }
  split; try tauto; tag_ne tag.
Qed.

Lemma exchange_spec Tree h k c l a o r s ns : tree_at Tree h (fill k (T c l a o r)) →
  s ∉ cells Tree (fill k (T c l a o r)) → s ≠ NULL → h !! s = Some ns →
  ∃ h', exchange a s h = Done (tt, h') ∧
    tree_at Tree h' (fill k (T c l s (Object ns) r)) ∧ h' !! a = h !! a ∧
    keeps ({[s]} ∪ cells Tree (fill k (T c l a o r))) h h'.
Proof.
  intros Hta Hs HsN Hns. pose proof (node_lookup _ _ _ _ _ _ _ _ Hta) as Hna.
  destruct (parent_lookup _ _ _ _ _ _ _ _ Hta) as (nu & Hnu & Hside & _).
  rewrite elem_of_cells in Hs. apply focus_iff in Hta as [Hctx (_ & Hl & Hr) Hsent Hnd].
  assert (Hndx : NoDup (Tree :: Sentinel :: NULL :: caddrs k ++ s :: a :: addrs l ++ addrs r)).
  { apply (NoDup_Permutation_proper _ (s :: Tree :: Sentinel :: NULL :: caddrs k ++ addrs (T c l a o r)));
      [cbn; solve_Permutation|]. rewrite NoDup_cons, !elem_of_cons, elem_of_app. tauto. }
  destruct (xch_addrs_intro _ _ _ _ _ _ Hndx).
  destruct (reparent_spec (<[s := set_Right (root r) ns]> h) a r s) as (h2 & E2 & Hr2 & Hs2 & Hk2);
    [done|done|by apply rep_insert_ne|by apply sent_insert_ne|].
  assert (Hs2' : h2 !! s = Some (set_Right (root r) ns)) by (rewrite Hk2; [apply lookup_insert_eq|done]).
  destruct (reparent_spec (<[s := set_Left (root l) (set_Right (root r) ns)]> h2) a l s)
    as (h4 & E4 & Hl4 & Hs4 & Hk4); [done|done| |by apply sent_insert_ne|].
  { apply rep_insert_ne; [done|]. apply (rep_ext h); [|done]. intros z Hz.
    rewrite Hk2, lookup_insert_ne by (intros ->; done). done. }
  assert (Hs4' : h4 !! s = Some (set_Left (root l) (set_Right (root r) ns)))
    by (rewrite Hk4; [apply lookup_insert_eq|done]).
  assert (Hz : ∀ z, z ≠ s → z ≠ root l → z ≠ root r → h4 !! z = h !! z).
  { intros z ???. by rewrite Hk4, lookup_insert_ne, Hk2, lookup_insert_ne by auto. }
  destruct (crep_set_hole (<[s := set_Parent (up Tree k) (set_Left (root l) (set_Right (root r) ns))]> h4)
              Tree a s k) as (nu' & Hnu' & _ & _ & Hset); [done| |].
  { apply crep_insert_ne; [done|done|]. apply (crep_ext h); [|done].
    intros z Hzk. apply Hz; intros ->; tauto. }
  rewrite lookup_insert_ne, Hz, Hnu in Hnu' by auto. injection Hnu' as <-.
  set (h5 := <[s := _]> h4) in *. set (h6 := <[up Tree k := _]> h5) in *.
  set (n7 := mkNode (root l) (root r) (up Tree k) (colZ c) (Object ns)).
  assert (Hz7 : ∀ z, z ≠ s → z ≠ up Tree k → <[s := n7]> h6 !! z = h4 !! z).
  { intros z ??. unfold h6, h5. by rewrite !lookup_insert_ne by auto. }
  exists (<[s := n7]> h6). split_and!.
  - assert (Ha2 : h2 !! a = Some (mkNode (root l) (root r) (up Tree k) (colZ c) o))
      by (rewrite Hk2, lookup_insert_ne by auto; done).
    assert (Ha4 : h4 !! a = Some (mkNode (root l) (root r) (up Tree k) (colZ c) o))
      by (rewrite Hz by auto; done).
    assert (Hu4 : h4 !! up Tree k = Some nu) by (rewrite Hz by auto; done).
    unfold exchange. do 2 run1. rewrite (bind_done _ _ _ _ _ E2).
    do 2 run1. rewrite (bind_done _ _ _ _ _ E4). do 3 run1. rewrite Hside.
    erewrite bind_done by (rewrite store_child; eapply store_eq; lookup_tac).
    unfold h5. do 2 run1. reflexivity.
  - apply focus_iff. split.
    + cbn. by apply crep_insert_ne.
    + cbn. rewrite lookup_insert_eq. split_and!; [done|..].
      * apply (rep_ext h4); [|done]. intros z Hz'. apply Hz7; intros ->; done.
      * apply (rep_ext h2); [|done]. intros z Hz'. rewrite Hz7 by (intros ->; done).
        rewrite Hk4, lookup_insert_ne by (intros ->; done). done.
    + apply (sent_ext h4); [|done]. by apply Hz7.
    + apply NoDup_ctx_drop with a. revert Hndx. apply NoDup_ctx. cbn. solve_Permutation.
  - rewrite Hz7, Hz by auto. done.
  - intros z Hzc. rewrite not_elem_of_union, not_elem_of_singleton in Hzc.
    destruct Hzc as [Hzs Hzc].
    pose proof (up_in_cells Tree k (T c l a o r)) as Huc.
    pose proof (root_in_cells Tree k (T c l a o r) l ltac:(set_solver)) as Hlc.
    pose proof (root_in_cells Tree k (T c l a o r) r ltac:(set_solver)) as Hrc.
    rewrite Hz7, Hz by (intros ->; done). done.
Qed.

(** ** Running code on a represented tree

    [rb_step] runs the next load, colour store or rotation of the goal: it looks
    the address up in the tree that describes the current heap, applies the lemma
    of that primitive at that position, and leaves the description of the new
    heap in the context. *)

Lemma load_node {A} Tree h k c l a o r (f : RBTreeNode → A) :
  tree_at Tree h (fill k (T c l a o r)) →
  load a f h = Done (f (mkNode (root l) (root r) (up Tree k) (colZ c) o), h).
Proof. intros Hta. apply load_eq. by eapply node_lookup. Qed.

Lemma LeftRotate_eq Tree h k c l a o r : tree_at Tree h (fill k (T c l a o r)) →
  RBTreeNode_LeftRotate a h = rot_left (on_left k) a h.
Proof.
  intros Hta. destruct (parent_lookup _ _ _ _ _ _ _ _ Hta) as (n & Hn & Hl & _).
  unfold RBTreeNode_LeftRotate.
  erewrite bind_done by by eapply load_node. cbn [Parent].
  erewrite bind_done by by eapply load_eq. rewrite Hl. by destruct (on_left k).
Qed.

Lemma RightRotate_eq Tree h k c l a o r : tree_at Tree h (fill k (T c l a o r)) →
  RBTreeNode_RightRotate a h = rot_right (on_left k) a h.
Proof.
  intros Hta. destruct (parent_lookup _ _ _ _ _ _ _ _ Hta) as (n & Hn & Hl & _).
  unfold RBTreeNode_RightRotate.
  erewrite bind_done by by eapply load_node. cbn [Parent].
  erewrite bind_done by by eapply load_eq. rewrite Hl. by destruct (on_left k).
Qed.

Lemma LeftRotate_spec Tree h k cn cc A x ox B y oy C :
  tree_at Tree h (fill k (T cn C y oy (T cc B x ox A))) →
  ∃ h', RBTreeNode_LeftRotate y h = Done (tt, h') ∧
    tree_at Tree h' (fill k (T cc (T cn C y oy B) x ox A)) ∧
    keeps (cells Tree (fill k (T cn C y oy (T cc B x ox A)))) h h'.
Proof. intros Hta. erewrite LeftRotate_eq by done. by apply rot_left_spec. Qed.

Lemma RightRotate_spec Tree h k cn cc A x ox B y oy C :
  tree_at Tree h (fill k (T cn (T cc A x ox B) y oy C)) →
  ∃ h', RBTreeNode_RightRotate y h = Done (tt, h') ∧
    tree_at Tree h' (fill k (T cc A x ox (T cn B y oy C))) ∧
    keeps (cells Tree (fill k (T cn (T cc A x ox B) y oy C))) h h'.
Proof. intros Hta. erewrite RightRotate_eq by done. by apply rot_right_spec. Qed.

(** The two children of a node are different. *)
Lemma sibling_ne Tree h k c l a o r : tree_at Tree h (fill k (T c l a o r)) →
  (l ≠ E → (root r =? root l) = false) ∧ (r ≠ E → (root l =? root r) = false).
Proof.
  intros Hta. apply focus_iff in Hta as Hf.
  pose proof (focus_nodup _ _ _ _ Hf) as (_ & Hnd & Hout & _).
  apply NoDup_addrs_T in Hnd as (_ & _ & _ & _ & Hlr). cbn in Hout.
  setoid_rewrite elem_of_app in Hout. setoid_rewrite elem_of_cons in Hout.
  split; intros Hne; apply Z.eqb_neq; intros Eq.
  - pose proof (root_in l Hne) as Hl. destruct r as [|cr lr b ob rr].
    + cbn in Eq. destruct (Hout (root l)); [tauto|]. naive_solver.
    + apply (Hlr _ Hl). rewrite <-Eq. by apply root_in.
  - pose proof (root_in r Hne) as Hr. destruct l as [|cl ll b ob rl].
    + cbn in Eq. destruct (Hout (root r)); [tauto|]. naive_solver.
    + apply (Hlr (root r)); [|done]. rewrite <-Eq. by apply root_in.
Qed.

(** Find the context of the node with address [a], or of the subtree [s], in [t]. *)
Ltac find_node a k t cont :=
  match t with
  | T ?c ?l a ?o ?r => cont k
  | T ?c ?l ?b ?o ?r => find_node a constr:(FL c b o r :: k) l cont
  | T ?c ?l ?b ?o ?r => find_node a constr:(FR c l b o :: k) r cont
  end.
Ltac find_sub s k t cont :=
  match t with
  | s => cont k
  | T ?c ?l ?b ?o ?r => find_sub s constr:(FL c b o r :: k) l cont
  | T ?c ?l ?b ?o ?r => find_sub s constr:(FR c l b o :: k) r cont
  end.

Ltac color_of z :=
  lazymatch z with
  | RBTreeNode_Red => constr:(Red)
  | RBTreeNode_Black => constr:(Black)
  | colZ ?c => constr:(c)
  end.

(** Prove [m h = Done _] for the primitive [m] from [Hta : tree_at Tree h (fill k t)]. *)
Ltac rb_prim Hta :=
  lazymatch type of Hta with
  | tree_at ?Tree ?h (fill ?k ?t) =>
      lazymatch goal with
      | |- load (root ?s) Color h = _ =>
          find_sub s k t ltac:(fun k' => exact (subtree_color Tree h k' s Hta))
      | |- load ?a ?f h = _ =>
          find_node a k t ltac:(fun k' => exact (load_node Tree h k' _ _ a _ _ f Hta))
      end
  end.

(** The primitives that change the heap: name the new heap and its tree. *)
Ltac rb_change Hta m :=
  lazymatch type of Hta with
  | tree_at ?Tree ?h (fill ?k ?t) =>
      let h' := fresh "h" in let Hs := fresh "Hs" in let Hta' := fresh "Hta" in
      let Hk := fresh "Hk" in
      lazymatch m with
      | store ?a (set_Color ?z) =>
          let c' := color_of z in
          find_node a k t ltac:(fun k' =>
            destruct (recolor_spec Tree h k' _ c' _ a _ _ Hta) as (h' & Hs & Hta' & Hk))
      | RBTreeNode_LeftRotate ?a =>
          find_node a k t ltac:(fun k' =>
            destruct (LeftRotate_spec Tree h k' _ _ _ _ _ _ a _ _ Hta) as (h' & Hs & Hta' & Hk))
      | RBTreeNode_RightRotate ?a =>
          find_node a k t ltac:(fun k' =>
            destruct (RightRotate_spec Tree h k' _ _ _ _ _ _ a _ _ Hta) as (h' & Hs & Hta' & Hk))
      | (RBTreeNode_LeftSide_LeftRotate ?a) =>
          find_node a k t ltac:(fun k' =>
            destruct (rot_left_spec Tree h k' _ _ _ _ _ _ a _ _ Hta) as (h' & Hs & Hta' & Hk))
      | (RBTreeNode_RightSide_LeftRotate ?a) =>
          find_node a k t ltac:(fun k' =>
            destruct (rot_left_spec Tree h k' _ _ _ _ _ _ a _ _ Hta) as (h' & Hs & Hta' & Hk))
      | (RBTreeNode_LeftSide_RightRotate ?a) =>
          find_node a k t ltac:(fun k' =>
            destruct (rot_right_spec Tree h k' _ _ _ _ _ _ a _ _ Hta) as (h' & Hs & Hta' & Hk))
      | (RBTreeNode_RightSide_RightRotate ?a) =>
          find_node a k t ltac:(fun k' =>
            destruct (rot_right_spec Tree h k' _ _ _ _ _ _ a _ _ Hta) as (h' & Hs & Hta' & Hk))
      end; cbn [fill] in Hta', Hk
  end.

Lemma colZ_eqb c1 c2 : (colZ c1 =? colZ c2) = bool_decide (c1 = c2).
Proof. by destruct c1, c2. Qed.

(** Decide the tests on colours and on equal addresses. *)
Ltac rb_if :=
  repeat first
    [ progress change RBTreeNode_Red with (colZ Red)
    | progress change RBTreeNode_Black with (colZ Black)
    | progress (repeat match goal with
        | |- context [colZ ?a =? colZ ?b] =>
            lazymatch constr:((a, b)) with
            | (Red, Red) => change (colZ a =? colZ b) with true
            | (Black, Black) => change (colZ a =? colZ b) with true
            | (Red, Black) => change (colZ a =? colZ b) with false
            | (Black, Red) => change (colZ a =? colZ b) with false
            end
        end)
    | rewrite Z.eqb_refl ];
  unfold when; cbn [negb andb orb]; cbn beta iota zeta.

Ltac rb_step :=
  lazymatch goal with
  | |- context [mbind _ (mret ?x) ?h] => rewrite (bind_done (mret x) _ h x h) by done; cbn beta
  | Hta : tree_at _ ?h _ |- context [mbind _ (load ?a ?f) ?h] =>
      erewrite (bind_done (load a f)); [|rb_prim Hta];
      cbn beta iota zeta; cbn [Left Right Parent Color Object root up tcolor]
  | Hta : tree_at _ ?h _ |- context [mbind _ ?m ?h] =>
      rb_change Hta m;
      lazymatch goal with
      | Hs : _ = Done (tt, ?h') |- _ => erewrite (bind_done m); [|exact Hs]; clear Hs
      end; cbn beta iota zeta; clear Hta
  | Hta : tree_at _ ?h _ |- context [?m ?h = Done _] =>
      rb_change Hta m; clear Hta
  end; rb_if.
