(* ===== verification/RBTreeAdd.v ===== *)
(** * Red/black invariants, and RBTree_Add *)

From S2P Require Import Prelude OrdIndex RBTree RBTreeRep.

(** [rbt n c t]: [t] has a root of colour [c], no red node with a red child, and
    [n] black nodes on every path from the root to a leaf. *)
Inductive rbt : nat → color → tree → Prop :=
  | rbt_E : rbt 0 Black E
  | rbt_R n l a o r : rbt n Black l → rbt n Black r → rbt n Red (T Red l a o r)
  | rbt_B n cl cr l a o r : rbt n cl l → rbt n cr r → rbt (S n) Black (T Black l a o r).
#[export] Hint Constructors rbt : dp.

(** A red/black tree: the invariants hold and the root is black. *)
Definition is_rb (t : tree) : Prop := ∃ n, rbt n Black t.

(** [crb n c k]: a subtree of colour [c] and black height [n] fits at the hole. *)
Fixpoint crb (n : nat) (c : color) (k : list frame) : Prop :=
  match k with
  | [] => c = Black
  | FL Red _ _ s :: k | FR Red s _ _ :: k => c = Black ∧ rbt n Black s ∧ crb n Red k
  | FL Black _ _ s :: k | FR Black s _ _ :: k => (∃ cs, rbt n cs s) ∧ crb (S n) Black k
  end.

Lemma rbt_color n c t : rbt n c t → c = tcolor t.
Proof. by intros []. Qed.

Lemma rbt_fill n c k t : rbt n c t → crb n c k → is_rb (fill k t).
Proof.
  revert n c t; induction k as [|[[] a o s|[] s a o] k IH]; intros n c t Ht Hk; cbn in *;
    [subst; by exists n|..].
  - destruct Hk as (-> & Hs & Hk). eapply IH; [|done]. by constructor.
  - destruct Hk as ([cs Hs] & Hk). eapply IH; [|done]. by econstructor.
  - destruct Hk as (-> & Hs & Hk). eapply IH; [|done]. by constructor.
  - destruct Hk as ([cs Hs] & Hk). eapply IH; [|done]. by econstructor.
Qed.

Lemma rbt_fill_inv k t : is_rb (fill k t) → ∃ n c, rbt n c t ∧ crb n c k.
Proof.
  revert t; induction k as [|[fc a o s|fc s a o] k IH]; intros t H; cbn in H.
  { destruct H as [n H]. by exists n, Black. }
  all: destruct (IH _ H) as (n & c & Ht & Hk); inversion Ht; subst; eexists _, _; cbn; eauto 10.
Qed.

Lemma crb_any n c k : crb n Red k → crb n c k.
Proof. destruct k as [|[[] a o s|[] s a o] k]; cbn; [done|..]; intuition congruence. Qed.

(** What the loop of [RBTreeNode_Balance] establishes: the same nodes in the same
    order, and the invariants except that the root may have become red. *)
Definition balanced (Tree : ptr) (t0 : tree) (h0 h : heap) : Prop :=
  ∃ t c n, tree_at Tree h t ∧ rbt n c t ∧ inorder t = inorder t0 ∧
    keeps (cells Tree t0) h0 h.

Lemma cells_inorder Tree t t' : inorder t = inorder t' → cells Tree t = cells Tree t'.
Proof. intros H. apply cells_perm. by rewrite !addrs_inorder, H. Qed.

Lemma inorder_fill_eq k t t' : inorder t = inorder t' → inorder (fill k t) = inorder (fill k t').
Proof. intros H. by rewrite !inorder_fill, H. Qed.

Lemma balanced_done Tree h0 h k t n c t0 : tree_at Tree h (fill k t) → rbt n c t →
  crb n c k ∨ k = [] → inorder (fill k t) = inorder t0 → keeps (cells Tree t0) h0 h →
  balanced Tree t0 h0 h.
Proof.
  intros Hta Hr Hk Hin Hkeep. exists (fill k t).
  destruct Hk as [Hk| ->]; [|by exists c, n].
  destruct (rbt_fill _ _ _ _ Hr Hk) as [m Hm]. by exists Black, m.
Qed.

(** Equality of two in-order listings, up to associativity. *)
Ltac inorder_eq :=
  rewrite ?inorder_fill; cbn [inorder left_of right_of];
  repeat (progress (rewrite <-?app_assoc; cbn [app])); reflexivity.

(** Chain the [keeps] facts the steps have left, along the heaps. *)
Ltac chain_keeps :=
  repeat match goal with
  | H : keeps ?S ?h ?h' |- keeps ?S0 ?h ?h'' =>
      eapply keeps_trans; [replace S0 with S; [exact H|]; clear;
        apply cells_inorder; inorder_eq|]; clear H
  end; try apply keeps_refl.

Ltac balance_end :=
  eexists; split; [eassumption|]; eapply balanced_done;
  [eassumption|eauto using rbt|by left|inorder_eq|chain_keeps].

(** A red node below the red node [Current], whose sibling is black: one or two
    rotations and two colour changes repair the tree. *)
Lemma Balance_rotate fuel Tree h k f g l a o r n :
  tree_at Tree h (fill (f :: g :: k) (T Red l a o r)) → rbt n Red (T Red l a o r) →
  crb n Black (f :: g :: k) →
  (match f with FL c _ _ _ | FR c _ _ _ => c = Red end) →
  (match g with FL _ _ _ s | FR _ s _ _ => tcolor s = Black end) →
  ∃ h', RBTreeNode_Balance (S fuel) (up Tree (f :: g :: k)) h = Done (tt, h') ∧
    balanced Tree (fill (f :: g :: k) (T Red l a o r)) h h'.
Proof.
  intros Hta Hr Hk Hf Hg. inversion Hr as [|? ? ? ? ? Hl' Hr'|]; subst.
  destruct f as [c1 a1 o1 s1|c1 s1 a1 o1]; subst c1; destruct Hk as (_ & Hs1 & Hk);
    destruct g as [[] a2 o2 s2|[] s2 a2 o2]; cbn in Hk; try (by naive_solver);
    destruct Hk as [[cs Hs2] Hk]; cbn [fill up] in *;
    pose proof (rbt_color _ _ _ Hs1) as Hc1;
    assert (cs = Black) as -> by (by rewrite (rbt_color _ _ _ Hs2));
    destruct (sibling_ne _ _ _ _ _ _ _ _ Hta) as [HneL HneR]; cbn [root] in HneL, HneR;
    cbn [RBTreeNode_Balance].
  - (* Current on the left, the new node on its left *)
    do 3 rb_step. rewrite HneL by done. rb_step. rewrite Hg. rb_if.
    do 2 rb_step. rewrite <-Hc1. rb_if. do 5 rb_step. balance_end.
  - (* Current on the right, the new node on its left *)
    do 4 rb_step. rb_step. rewrite Hg. rb_if. do 7 rb_step. balance_end.
  - (* Current on the left, the new node on its right *)
    do 3 rb_step. rewrite HneL by done. rb_step. rewrite Hg. rb_if. do 7 rb_step. balance_end.
  - (* Current on the right, the new node on its right *)
    do 4 rb_step. rb_step. rewrite Hg. rb_if.
    do 2 rb_step. rewrite <-Hc1. rb_if. do 5 rb_step. balance_end.
Qed.

(** A red sibling: pull the black down from the parent and go on two levels up. *)
Lemma Balance_recolor fuel Tree h k f g l a o r n :
  tree_at Tree h (fill (f :: g :: k) (T Red l a o r)) → rbt n Red (T Red l a o r) →
  crb n Black (f :: g :: k) →
  (match f with FL c _ _ _ | FR c _ _ _ => c = Red end) →
  (match g with FL _ _ _ s | FR _ s _ _ => tcolor s = Red end) →
  ∃ h' l' a' o' r',
    RBTreeNode_Balance (S fuel) (up Tree (f :: g :: k)) h = RBTreeNode_Balance fuel (up Tree k) h' ∧
    tree_at Tree h' (fill k (T Red l' a' o' r')) ∧ rbt (S n) Red (T Red l' a' o' r') ∧
    crb (S n) Black k ∧
    inorder (fill k (T Red l' a' o' r')) = inorder (fill (f :: g :: k) (T Red l a o r)) ∧
    keeps (cells Tree (fill (f :: g :: k) (T Red l a o r))) h h'.
Proof.
  intros Hta Hr Hk Hf Hg. inversion Hr as [|? ? ? ? ? Hl' Hr'|]; subst.
  destruct f as [c1 a1 o1 s1|c1 s1 a1 o1]; subst c1; destruct Hk as (_ & Hs1 & Hk);
    destruct g as [[] a2 o2 s2|[] s2 a2 o2]; cbn in Hk; try (by naive_solver);
    destruct Hk as [[cs Hs2] Hk]; cbn [fill up] in *;
    (destruct s2 as [|[] l2 b2 ob2 r2]; cbn in Hg; [done| |done]);
    destruct (sibling_ne _ _ _ _ _ _ _ _ Hta) as [HneL HneR]; cbn [root] in HneL, HneR;
    cbn [RBTreeNode_Balance]; inversion Hs2; subst.
  - do 3 rb_step. rewrite HneL by done. do 5 rb_step. do 5 eexists.
    split_and!; [reflexivity|eassumption|eauto using rbt|done|inorder_eq|chain_keeps].
  - do 9 rb_step. do 5 eexists.
    split_and!; [reflexivity|eassumption|eauto using rbt|done|inorder_eq|chain_keeps].
  - do 3 rb_step. rewrite HneL by done. do 5 rb_step. do 5 eexists.
    split_and!; [reflexivity|eassumption|eauto using rbt|done|inorder_eq|chain_keeps].
  - do 9 rb_step. do 5 eexists.
    split_and!; [reflexivity|eassumption|eauto using rbt|done|inorder_eq|chain_keeps].
Qed.

Lemma balanced_trans Tree t0 t1 h0 h1 h : inorder t1 = inorder t0 →
  keeps (cells Tree t0) h0 h1 → balanced Tree t1 h1 h → balanced Tree t0 h0 h.
Proof.
  intros Hin Hk (t & c & n & Hta & Hr & Hin' & Hk'). exists t, c, n.
  split_and!; [done|done|congruence|]. eapply keeps_trans; [done|].
  by rewrite (cells_inorder Tree t0 t1).
Qed.

Lemma Balance_spec fuel Tree h k l a o r n :
  tree_at Tree h (fill k (T Red l a o r)) → rbt n Red (T Red l a o r) → crb n Black k →
  (length k < fuel)%nat →
  ∃ h', RBTreeNode_Balance fuel (up Tree k) h = Done (tt, h') ∧
    balanced Tree (fill k (T Red l a o r)) h h'.
Proof.
  revert h k l a o r n; induction fuel as [|fuel IH]; intros h k l a o r n Hta Hr Hk Hf; [lia|].
  destruct k as [|f k].
  { cbn [RBTreeNode_Balance up]. erewrite bind_done by (apply load_eq, Hta). rb_if.
    eexists; split; [done|]. eapply (balanced_done _ _ _ []); eauto using keeps_refl. }
  assert (Hcase : (match f with FL c _ _ _ | FR c _ _ _ => c = Black end) ∨
                  (match f with FL c _ _ _ | FR c _ _ _ => c = Red end)).
  { destruct f as [[]|[]]; auto. }
  destruct Hcase as [HB|HR].
  { (* Current is black *)
    destruct f as [c1 a1 o1 s1|c1 s1 a1 o1]; subst c1; cbn [fill up] in *;
      cbn [RBTreeNode_Balance]; rb_step; (eexists; split; [done|]).
    - eapply (balanced_done _ _ _ (FL Black a1 o1 s1 :: k)); eauto using keeps_refl.
    - eapply (balanced_done _ _ _ (FR Black s1 a1 o1 :: k)); eauto using keeps_refl. }
  destruct k as [|g k].
  { destruct f as [c1 a1 o1 s1|c1 s1 a1 o1]; subst c1; cbn in Hk; naive_solver. }
  destruct (match g with FL _ _ _ s | FR _ s _ _ => tcolor s end) eqn:Eg.
  - destruct (Balance_recolor fuel Tree h k f g l a o r n) as
      (h' & l' & a' & o' & r' & -> & Hta' & Hr' & Hk' & Hin & Hkp); [done..|by destruct g|].
    destruct (IH h' k l' a' o' r' (S n)) as (h'' & -> & Hb); [done..|cbn in Hf; lia|].
    eexists; split; [done|]. by eapply balanced_trans.
  - apply (Balance_rotate fuel Tree h k f g l a o r n); [done..|by destruct g].
Qed.

(** ** Fuel *)

Lemma rep_is_Some h p t a : rep h p t → a ∈ addrs t → is_Some (h !! a).
Proof.
  revert p; induction t as [|c l IHl b o r IHr]; intros p; cbn; [by intros _ []%elem_of_nil|].
  intros (Hb & Hl & Hr). rewrite elem_of_app, elem_of_cons. intros [H|[->|H]]; eauto.
Qed.

(** The nodes of a tree, its root sentinel and the sentinel are cells of the heap. *)
Lemma tree_at_size Tree h t : tree_at Tree h t → (length (addrs t) + 2 ≤ size h)%nat.
Proof.
  intros [H1 H2 [q H3] Hnd].
  assert (Hnd' : NoDup (Tree :: Sentinel :: addrs t)).
  { revert Hnd. rewrite !NoDup_cons, !elem_of_cons. tauto. }
  transitivity (size (list_to_set (Tree :: Sentinel :: addrs t) : gset Z)).
  - rewrite size_list_to_set by done. cbn. lia.
  - rewrite <-size_dom. apply subseteq_size. intros a.
    rewrite elem_of_list_to_set, !elem_of_cons, elem_of_dom.
    intros [->|[->|Ha]]; [by eexists..|]. by eapply rep_is_Some.
Qed.

Lemma length_caddrs k : (length k ≤ length (caddrs k))%nat.
Proof. induction k as [|[] k IH]; cbn; [lia|..]; rewrite ?length_app; lia. Qed.

Fixpoint depth (t : tree) : nat :=
  match t with E => 0 | T _ l _ _ r => S (Nat.max (depth l) (depth r)) end.

Lemma depth_addrs t : (depth t ≤ length (addrs t))%nat.
Proof. induction t as [|c l IHl a o r IHr]; cbn; [lia|]. rewrite length_app. cbn. lia. Qed.

Lemma path_size Tree h k t : tree_at Tree h (fill k t) → (length k + depth t + 2 ≤ size h)%nat.
Proof.
  intros H. pose proof (tree_at_size _ _ _ H) as Hs.
  rewrite (addrs_fill k t), length_app in Hs.
  pose proof (length_caddrs k). pose proof (depth_addrs t). lia.
Qed.

(** ** RBTree_Add *)

(** The last statement of [RBTree_Add]: the root becomes black. *)
Lemma blacken_root Tree h t c n : tree_at Tree h t → rbt n c t → t ≠ E →
  ∃ h' t', store (root t) (set_Color RBTreeNode_Black) h = Done (tt, h') ∧
    tree_at Tree h' t' ∧ is_rb t' ∧ inorder t' = inorder t ∧ keeps (cells Tree t) h h'.
Proof.
  intros Hta Hr Ht. destruct t as [|c' l a o r]; [done|].
  destruct (recolor_spec Tree h [] c' Black l a o r Hta) as (h' & E1 & Hta' & Hk).
  exists h', (T Black l a o r). split_and!; [done|done| |done|done].
  inversion Hr; subst; eexists; eauto with dp.
Qed.

Lemma tree_at_insert_ne Tree h t a n : a ∉ cells Tree t → tree_at Tree h t →
  tree_at Tree (<[a := n]> h) t.
Proof.
  intros Ha [H1 H2 H3 H4]. rewrite (elem_of_cells Tree [] t) in Ha.
  split; [rewrite lookup_insert_ne; [done|]; intros ->; tauto|..|done].
  - apply rep_insert_ne; [tauto|done].
  - apply sent_insert_ne; [tauto|done].
Qed.

Lemma cells_attach Tree k New c o :
  cells Tree (fill k (T c E New o E)) = {[New]} ∪ cells Tree (fill k E).
Proof.
  apply set_eq. intros z. rewrite elem_of_union, elem_of_singleton, !elem_of_cells. cbn.
  rewrite elem_of_cons, elem_of_nil. tauto.
Qed.

Section add.
Context {D : Type} (key : Z → D) (cmp : D → D → Z) `{!TotalCmp cmp}.

Local Abbreviation Compare := (compare_key key cmp).

(** The descent stops at the hole where the new node belongs, and attaches it. *)
Lemma Add_descend_spec fuel Tree h k t New d p o :
  tree_at Tree h (fill k t) → t ≠ E → (depth t ≤ fuel)%nat →
  New ∉ cells Tree (fill k t) → New ≠ NULL →
  h !! New = Some (mkNode Sentinel Sentinel p RBTreeNode_Red o) →
  ordered key cmp (inorder (fill k t)) → cut_at key cmp d (left_of k) (right_of k) →
  ∃ k' h', RBTree_Add_descend Compare fuel New d (root t) h = Done (up Tree k', h') ∧
    tree_at Tree h' (fill k' (T Red E New o E)) ∧ fill k' E = fill k t ∧
    cut_at key cmp d (left_of k') (right_of k') ∧
    keeps (cells Tree (fill k' (T Red E New o E))) h h'.
Proof.
  revert k t; induction fuel as [|fuel IH]; intros k t Hta Ht Hf Hnew Hnull Hn Ho [Hcl Hcr];
    (destruct t as [|c l a oa r]; [done|]); cbn [depth] in Hf; [lia|].
  rewrite inorder_fill in Ho. cbn [inorder] in Ho. rewrite <-app_assoc in Ho. cbn [app] in Ho.
  rewrite app_assoc in Ho. cbn [RBTree_Add_descend root].
  rb_step. destruct (Z.ltb_spec (Compare d oa) 0) as [Hlt|Hge]; rb_step.
  - set (k' := FL c a oa r :: k).
    assert (Hcut : cut_at key cmp d (left_of k') (right_of k')).
    { split; [done|]. cbn. by apply (cut_right key cmp d _ (a, oa) _ Ho). }
    destruct (root l =? Sentinel) eqn:El.
    + apply (root_sentinel_iff Tree h k') in El as ->; [|done].
      destruct (attach_spec Tree h k' New p o) as (h1 & h2 & E1 & E2 & Hta2 & Hk2); [done..|].
      exists k', h2. rewrite (bind_done _ _ _ _ _ E1), (bind_done _ _ _ _ _ E2).
      split_and!; done.
    + destruct (IH k' l) as (k2 & h' & E' & H2 & H3 & H4 & H5); [done| |lia|done|done|done| |done|].
      { intros ->. by rewrite (proj2 (root_sentinel_iff Tree h k' E Hta)) in El. }
      { rewrite inorder_fill. cbn [k' left_of right_of].
        rewrite <-app_assoc in Ho. exact Ho. }
      exists k2, h'. split_and!; done.
  - set (k' := FR c l a oa :: k).
    assert (Hcut : cut_at key cmp d (left_of k') (right_of k')).
    { split; [|done]. cbn. rewrite app_assoc. by apply (cut_left key cmp d _ (a, oa) _ Ho). }
    destruct (root r =? Sentinel) eqn:El.
    + apply (root_sentinel_iff Tree h k') in El as ->; [|done].
      destruct (attach_spec Tree h k' New p o) as (h1 & h2 & E1 & E2 & Hta2 & Hk2); [done..|].
      exists k', h2. rewrite (bind_done _ _ _ _ _ E1), (bind_done _ _ _ _ _ E2).
      split_and!; done.
    + destruct (IH k' r) as (k2 & h' & E' & H2 & H3 & H4 & H5); [done| |lia|done|done|done| |done|].
      { intros ->. by rewrite (proj2 (root_sentinel_iff Tree h k' E Hta)) in El. }
      { rewrite inorder_fill. cbn [k' left_of right_of].
        by rewrite <-!app_assoc in *. }
      exists k2, h'. split_and!; done.
Qed.

(** What a successful [RBTree_Add] establishes. *)
Definition added (Tree New : ptr) (d : D) (o : Z) (t : tree) (h h' : heap) : Prop :=
  ∃ t', tree_at Tree h' t' ∧ is_rb t' ∧
    inorder t' = idx_add key cmp d (New, o) (inorder t) ∧
    keeps ({[New]} ∪ cells Tree t) h h'.

(** Attached, balanced, and the root blackened. *)
Lemma Add_finish Tree h0 h k New o d t :
  balanced Tree (fill k (T Red E New o E)) h0 h → fill k E = t →
  cut_at key cmp d (left_of k) (right_of k) →
  ∃ h', (root ← load Tree Left; store root (set_Color RBTreeNode_Black);; mret true) h =
          Done (true, h') ∧ added Tree New d o t h0 h'.
Proof.
  intros (t1 & c & n & Hta & Hr & Hin & Hk) <- Hcut.
  assert (Hne : t1 ≠ E).
  { intros ->. rewrite inorder_fill in Hin. cbn in Hin.
    symmetry in Hin. by apply app_nil in Hin as [_ Hin]. }
  destruct (blacken_root _ _ _ _ _ Hta Hr Hne) as (h' & t' & E1 & Hta' & Hrb & Hin' & Hk').
  exists h'. split.
  - erewrite bind_done by (apply load_eq, Hta). cbn [Left]. by rewrite (bind_done _ _ _ _ _ E1).
  - exists t'. rewrite Hin', Hin, !inorder_fill. cbn [inorder app].
    split_and!; [done|done|by rewrite idx_add_cut|].
    rewrite <-(cells_attach _ _ _ Red o). eapply keeps_trans; [done|].
    by rewrite <-(cells_inorder _ _ _ Hin).
Qed.
(** [RBTree_Add] on an unassigned node adds it at its place in the order and
    keeps the red/black invariants; it always returns. *)
Lemma RBTree_Add_spec Tree h t New n d :
  tree_at Tree h t → is_rb t → ordered key cmp (inorder t) →
  New ∉ cells Tree t → New ≠ NULL → h !! New = Some n → Color n = RBTreeNode_Unassigned →
  ∃ h', RBTree_Add Compare Tree New d h = Done (true, h') ∧
    added Tree New d (Object n) t h h'.
Proof.
  intros Hta Hrb Ho Hnew Hnull Hn Hc.
  unfold RBTree_Add, RBTree_Add_fuel. run1. rewrite Hc, Z.eqb_refl. cbn [negb].
  do 3 run1. rewrite !insert_insert_eq.
  set (n1 := mkNode Sentinel Sentinel (Parent n) RBTreeNode_Red (Object n)).
  change (set_Right Sentinel _) with n1. set (h1 := <[New := n1]> h).
  assert (Hta1 : tree_at Tree h1 t) by by apply tree_at_insert_ne.
  assert (Hn1 : h1 !! New = Some n1) by apply lookup_insert_eq.
  assert (Hk1 : keeps ({[New]} ∪ cells Tree t) h h1).
  { apply keeps_insert; [|apply keeps_refl]. rewrite elem_of_union, elem_of_singleton. auto. }
  assert (Hend : ∀ h', added Tree New d (Object n) t h1 h' → added Tree New d (Object n) t h h').
  { intros h' (t' & ?&?&?&?). exists t'. split_and!; [done..|]. by eapply keeps_trans. }
  erewrite bind_done by (apply load_eq, Hta1). cbn [Left].
  destruct (root t =? Sentinel) eqn:Et.
  - apply (root_sentinel_iff Tree h1 []) in Et as ->; [|done].
    destruct (attach_spec Tree h1 [] New (Parent n) (Object n)) as (h2 & h3 & E2 & E3 & Hta3 & Hk3);
      [done..|]. cbn [on_left set_child up] in E2, E3.
    erewrite bind_done by (rewrite (bind_done _ _ _ _ _ E2); exact E3).
    destruct (Add_finish Tree h1 h3 [] New (Object n) d E) as (h' & E' & H'); [|done|by split; constructor|eauto].
    eapply (balanced_done _ _ _ [] _ 0%nat Red); [done|repeat constructor|by right|done|done].
  - assert (Hne : t ≠ E) by (by intros ->).
    pose proof (path_size Tree h [] t Hta) as Hsz. cbn [length] in Hsz.
    destruct (Add_descend_spec (S (size h)) Tree h1 [] t New d (Parent n) (Object n))
      as (k & h2 & E2 & Hta2 & Hfill & Hcut & Hk2); [done|done|lia|done|done|done|done|by split; constructor|].
    cbn [fill] in Hfill. rewrite <-Hfill in Hrb. apply rbt_fill_inv in Hrb as (m & c & HE & Hk).
    inversion HE; subst m c.
    pose proof (path_size _ _ _ _ Hta2) as Hsz2.
    destruct (Balance_spec (S (size h)) Tree h2 k E New (Object n) E 0) as (h3 & E3 & Hb);
      [done|repeat constructor|done| |].
    { rewrite <-Hfill in Hta. pose proof (path_size _ _ _ _ Hta). lia. }
    erewrite bind_done by (rewrite (bind_done _ _ _ _ _ E2); exact E3).
    destruct (Add_finish Tree h1 h3 k New (Object n) d t) as (h' & E' & H'); [|done|done|eauto].
    by eapply balanced_trans.
Qed.

(** A node that is in a tree already is refused. *)
Lemma RBTree_Add_assigned Tree h New n d :
  h !! New = Some n → Color n ≠ RBTreeNode_Unassigned →
  RBTree_Add Compare Tree New d h = Done (false, h).
Proof.
  intros Hn Hc. unfold RBTree_Add, RBTree_Add_fuel. run1.
  by rewrite (proj2 (Z.eqb_neq _ _) Hc).
Qed.
End add.
