(* ===== verification/RBTreeWalk.v ===== *)
(** * Searching and walking a tree

    [RBTree_Find], and the walk with [GetFirst], [GetLast], [GetNext] and
    [GetPrev], on a heap that represents a tree: each returns, changes nothing,
    and yields the node the in-order listing of the tree prescribes. *)

From S2P Require Import Prelude OrdIndex RBTree RBTreeRep RBTreeAdd.

(** The node a walk returns: the first, or the last, of a listing, or [NULL]. *)
Definition first_node (l : list (ptr * Z)) : ptr := from_option fst NULL (head l).
Definition last_node (l : list (ptr * Z)) : ptr := from_option fst NULL (last l).

(** Every entry of the listing is a position of the tree. *)
Lemma position_ctx k0 t l1 a o l2 : inorder t = l1 ++ (a, o) :: l2 →
  ∃ k c l r, fill k0 t = fill k (T c l a o r) ∧
    left_of k0 ++ l1 = left_of k ++ inorder l ∧ l2 ++ right_of k0 = inorder r ++ right_of k.
Proof.
  revert k0 l1 l2; induction t as [|c l IHl b ob r IHr]; intros k0 l1 l2 H; cbn in H.
  { symmetry in H. by apply app_nil in H as [_ H]. }
  apply app_eq_inv in H as [([|x m] & H1 & H2)|([|x m] & H1 & H2)]; cbn in H2;
    injection H2 as ? ?; simplify_eq; rewrite ?app_nil_r in *; simplify_eq.
  - by exists k0, c, l, r.
  - destruct (IHl (FL c b ob r :: k0) l1 m H1) as (k & c' & l' & r' & E1 & E2 & E3).
    exists k, c', l', r'. cbn in *. by rewrite <-app_assoc.
  - by exists k0, c, l, r.
  - destruct (IHr (FR c l b ob :: k0) m l2 H0) as (k & c' & l' & r' & E1 & E2 & E3).
    exists k, c', l', r'. cbn in *. by rewrite <-!app_assoc in E2.
Qed.

Lemma position t l1 a o l2 : inorder t = l1 ++ (a, o) :: l2 →
  ∃ k c l r, t = fill k (T c l a o r) ∧ l1 = left_of k ++ inorder l ∧ l2 = inorder r ++ right_of k.
Proof.
  intros H. destruct (position_ctx [] _ _ _ _ _ H) as (k & c & l & r & E1 & E2 & E3).
  exists k, c, l, r. cbn in *. by rewrite app_nil_r in E3.
Qed.

(** ** Extreme nodes of a subtree *)

(** The leftmost node of a subtree, as a position. *)
Lemma GetLeftmost_spec fuel Tree h k t : tree_at Tree h (fill k t) → t ≠ E → (depth t ≤ fuel)%nat →
  ∃ k' c a o r, RBTreeNode_GetLeftmost_fuel fuel (root t) h = Done (a, h) ∧
    fill k t = fill k' (T c E a o r) ∧ left_of k' = left_of k ∧
    first_node (inorder t) = a.
Proof.
  revert k t; induction fuel as [|fuel IH]; intros k [|c l a o r] Hta Ht Hf; cbn [depth] in Hf;
    [done|lia|done|].
  cbn [RBTreeNode_GetLeftmost_fuel root]. rb_step. destruct (root l =? Sentinel) eqn:El; cbn [negb].
  - apply (root_sentinel_iff Tree h (FL c a o r :: k)) in El as ->; [|done].
    by exists k, c, a, o, r.
  - destruct (IH (FL c a o r :: k) l) as (k' & c' & a' & o' & r' & E1 & E2 & E3 & E4);
      [done|by intros ->|lia|].
    exists k', c', a', o', r'. split_and!; [done..|]. cbn. rewrite <-E4.
    destruct l as [|cl ll b ob rl]; [done|]. cbn. by destruct (inorder ll).
Qed.

Lemma GetRightmost_spec fuel Tree h k t : tree_at Tree h (fill k t) → t ≠ E → (depth t ≤ fuel)%nat →
  ∃ k' c l a o, RBTreeNode_GetRightmost_fuel fuel (root t) h = Done (a, h) ∧
    fill k t = fill k' (T c l a o E) ∧ right_of k' = right_of k ∧
    last_node (inorder t) = a.
Proof.
  revert k t; induction fuel as [|fuel IH]; intros k [|c l a o r] Hta Ht Hf; cbn [depth] in Hf;
    [done|lia|done|].
  cbn [RBTreeNode_GetRightmost_fuel root]. rb_step. destruct (root r =? Sentinel) eqn:El; cbn [negb].
  - apply (root_sentinel_iff Tree h (FR c l a o :: k)) in El as ->; [|done].
    exists k, c, l, a, o. split_and!; [done..|]. cbn. unfold last_node. by rewrite last_snoc.
  - destruct (IH (FR c l a o :: k) r) as (k' & c' & l' & a' & o' & E1 & E2 & E3 & E4);
      [done|by intros ->|lia|].
    exists k', c', l', a', o'. split_and!; [done..|]. cbn. rewrite <-E4. unfold last_node.
    rewrite last_app_cons. f_equal. destruct r as [|cr lr b ob rr]; [done|]. cbn.
    by destruct (inorder lr).
Qed.

(** ** Next and previous *)

Lemma up_ne_NULL Tree h k t : tree_at Tree h (fill k t) → (up Tree k =? NULL) = false.
Proof.
  intros [_ _ _ Hnd]%focus_iff. apply Z.eqb_neq. intros E.
  rewrite !NoDup_cons, !elem_of_cons, elem_of_app in Hnd.
  destruct k as [|[] k]; cbn in E, Hnd; rewrite ?elem_of_cons, ?elem_of_app in Hnd; naive_solver.
Qed.

(** Climbing from a subtree to the nearest ancestor on its right. *)
Lemma GetNext_up_spec fuel Tree h k t : tree_at Tree h (fill k t) → t ≠ E → (length k < fuel)%nat →
  ∃ p q, GetNext_up fuel (root t) (up Tree k) h = Done (p, h) ∧
    load p Parent h = Done (q, h) ∧ first_node (right_of k) = if q =? NULL then NULL else p.
Proof.
  revert k t; induction fuel as [|fuel IH]; intros k [|c l a o r] Hta Ht Hf; [lia|lia|done|].
  destruct k as [|[c1 a1 o1 s1|c1 s1 a1 o1] k]; cbn [GetNext_up root up].
  - destruct (addr_ne Tree h [] c l a o r Hta) as (_ & Ha & _).
    exists Tree, NULL. erewrite bind_done by apply load_eq, Hta. cbn [Right].
    rewrite (proj2 (Z.eqb_neq _ _)) by congruence.
    split_and!; [done|by erewrite load_eq by apply Hta|done].
  - cbn [fill] in Hta. rb_step.
    destruct (sibling_ne Tree h k _ _ _ _ _ Hta) as [Hs _]. cbn [root] in Hs.
    rewrite Hs by done. exists a1, (up Tree k).
    split_and!; [done|by rewrite (load_node Tree h k _ _ _ _ _ _ Hta)|].
    by rewrite (up_ne_NULL Tree h k _ Hta).
  - cbn [fill] in Hta. do 2 rb_step.
    destruct (IH k (T c1 s1 a1 o1 (T c l a o r))) as (p & q & E1 & E2 & E3); [done..|cbn in Hf; lia|].
    by exists p, q.
Qed.

(** Climbing to the nearest ancestor on the left. *)
Lemma GetPrev_up_spec fuel Tree h k t : tree_at Tree h (fill k t) → t ≠ E → (length k < fuel)%nat →
  GetPrev_up fuel (root t) (up Tree k) h = Done (last_node (left_of k), h).
Proof.
  revert k t; induction fuel as [|fuel IH]; intros k [|c l a o r] Hta Ht Hf; [lia|lia|done|].
  destruct k as [|[c1 a1 o1 s1|c1 s1 a1 o1] k]; cbn [GetPrev_up root up].
  - do 2 (erewrite bind_done by apply load_eq, Hta; cbn [Left Parent]; rb_if). done.
  - cbn [fill] in Hta. do 2 rb_step. rewrite (up_ne_NULL Tree h k _ Hta).
    apply (IH k (T c1 (T c l a o r) a1 o1 s1)); [done..|cbn in Hf; lia].
  - cbn [fill] in Hta. rb_step.
    destruct (sibling_ne Tree h k _ _ _ _ _ Hta) as [_ Hs]. cbn [root] in Hs.
    rewrite Hs by done. cbn. unfold last_node. by rewrite app_assoc, last_snoc.
Qed.

Lemma first_node_app t l : t ≠ E → first_node (inorder t ++ l) = first_node (inorder t).
Proof. destruct t as [|c lt a o r]; [done|]. intros _. cbn. by destruct (inorder lt). Qed.

Lemma last_node_app t l : t ≠ E → last_node (l ++ inorder t) = last_node (inorder t).
Proof.
  destruct t as [|c lt a o r]; [done|]. intros _. cbn. unfold last_node.
  by rewrite app_assoc, !last_app_cons.
Qed.

(** [RBTreeNode_GetNext] yields the next entry of the listing. *)
Lemma GetNext_spec Tree h t l1 a o l2 : tree_at Tree h t → inorder t = l1 ++ (a, o) :: l2 →
  RBTreeNode_GetNext a h = Done (first_node l2, h).
Proof.
  intros Hta (k & c & l & r & -> & -> & ->)%position.
  pose proof (path_size _ _ _ _ Hta) as Hsz. cbn [depth] in Hsz.
  unfold RBTreeNode_GetNext. rb_step. destruct (root r =? Sentinel) eqn:Er; cbn [negb].
  - apply (root_sentinel_iff Tree h (FR c l a o :: k)) in Er as ->; [|done].
    rb_step. destruct (GetNext_up_spec (S (size h)) Tree h k (T c l a o E)) as (p & q & E1 & E2 & E3);
      [done..|lia|]. cbn [root] in E1. cbn [inorder app].
    rewrite (bind_done _ _ _ _ _ E1), (bind_done _ _ _ _ _ E2), E3. by case_match.
  - destruct (GetLeftmost_spec (S (size h)) Tree h (FR c l a o :: k) r)
      as (k' & c' & a' & o' & r' & E1 & _ & _ & E2); [done|by intros ->|lia|].
    rewrite E1, <-E2, first_node_app; [done|by intros ->].
Qed.

Lemma GetPrev_spec Tree h t l1 a o l2 : tree_at Tree h t → inorder t = l1 ++ (a, o) :: l2 →
  RBTreeNode_GetPrev a h = Done (last_node l1, h).
Proof.
  intros Hta (k & c & l & r & -> & -> & ->)%position.
  pose proof (path_size _ _ _ _ Hta) as Hsz. cbn [depth] in Hsz.
  unfold RBTreeNode_GetPrev. rb_step. destruct (root l =? Sentinel) eqn:Er; cbn [negb].
  - apply (root_sentinel_iff Tree h (FL c a o r :: k)) in Er as ->; [|done].
    rb_step. cbn [inorder]. rewrite app_nil_r.
    apply (GetPrev_up_spec (S (size h)) Tree h k (T c E a o r)); [done..|lia].
  - destruct (GetRightmost_spec (S (size h)) Tree h (FL c a o r :: k) l)
      as (k' & c' & l' & a' & o' & E1 & _ & _ & E2); [done|by intros ->|lia|].
    rewrite E1, <-E2, last_node_app; [done|by intros ->].
Qed.

Lemma GetFirst_spec Tree h t : tree_at Tree h t →
  RBTree_GetFirst Tree h = Done (first_node (inorder t), h).
Proof.
  intros Hta. pose proof (path_size Tree h [] t Hta) as Hsz. unfold RBTree_GetFirst.
  erewrite bind_done by apply load_eq, Hta. cbn [Left]. destruct (root t =? Sentinel) eqn:Et.
  - by apply (root_sentinel_iff Tree h []) in Et as ->.
  - destruct (GetLeftmost_spec (S (size h)) Tree h [] t) as (k' & c' & a' & o' & r' & E1 & _ & _ & E2);
      [done|by intros ->|lia|]. unfold RBTreeNode_GetLeftmost. by rewrite E1, E2.
Qed.

Lemma GetLast_spec Tree h t : tree_at Tree h t →
  RBTree_GetLast Tree h = Done (last_node (inorder t), h).
Proof.
  intros Hta. pose proof (path_size Tree h [] t Hta) as Hsz. unfold RBTree_GetLast.
  erewrite bind_done by apply load_eq, Hta. cbn [Left]. destruct (root t =? Sentinel) eqn:Et.
  - by apply (root_sentinel_iff Tree h []) in Et as ->.
  - destruct (GetRightmost_spec (S (size h)) Tree h [] t) as (k' & c' & l' & a' & o' & E1 & _ & _ & E2);
      [done|by intros ->|lia|]. unfold RBTreeNode_GetRightmost. by rewrite E1, E2.
Qed.

(** ** Searching *)

Section find.
Context {D : Type} (key : Z → D) (cmp : D → D → Z) `{!TotalCmp cmp}.

Local Abbreviation Compare := (compare_key key cmp).

(** What a search for [d] promises about the listing [l]: an entry with that
    key if there is one (relation 0); otherwise the entry just after the key
    (negative) or just before it (positive). *)
Definition found (d : D) (s : RBTreeSearch) (l : list (ptr * Z)) : Prop :=
  ∃ l1 o l2, l = l1 ++ (Nearest s, o) :: l2 ∧ Relation s = Compare d o ∧
    (Relation s = 0 ∨
     Relation s < 0 ∧ Forall (λ y, 0 < Compare d y.2) l1 ∨
     Relation s > 0 ∧ Forall (λ y, Compare d y.2 < 0) l2).

Lemma Find_loop_spec fuel Tree h k t d :
  tree_at Tree h (fill k t) → t ≠ E → (depth t ≤ fuel)%nat →
  ordered key cmp (inorder (fill k t)) →
  Forall (λ y, 0 < Compare d y.2) (left_of k) → Forall (λ y, Compare d y.2 < 0) (right_of k) →
  ∃ s, RBTree_Find_loop Compare fuel d (root t) h = Done (s, h) ∧
    found d s (inorder (fill k t)).
Proof.
  revert k t; induction fuel as [|fuel IH]; intros k t Hta Ht Hf Ho Hl Hr;
    (destruct t as [|c l a oa r]; [done|]); cbn [depth] in Hf; [lia|].
  rewrite inorder_fill in Ho |- *. cbn [inorder] in Ho |- *.
  rewrite <-app_assoc in Ho |- *. cbn [app] in Ho |- *. rewrite app_assoc in Ho |- *.
  cbn [RBTree_Find_loop root]. rb_step.
  destruct (Z.ltb_spec (Compare d oa) 0) as [Hlt|Hge]; [|destruct (Z.gtb_spec (Compare d oa) 0)].
  - rb_step. destruct (root l =? Sentinel) eqn:El.
    + apply (root_sentinel_iff Tree h (FL c a oa r :: k)) in El as ->; [|done].
      eexists; split; [done|]. eexists _, oa, _. split_and!; [done..|]. right; left.
      cbn. by rewrite app_nil_r.
    + destruct (IH (FL c a oa r :: k) l) as (s & E1 & Hs); [done|by intros ->|lia|..].
      * rewrite inorder_fill. cbn. by rewrite <-app_assoc in Ho.
      * done.
      * by apply (cut_right key cmp d _ (a, oa) _ Ho).
      * exists s. split; [done|]. rewrite inorder_fill in Hs. cbn in Hs. by rewrite <-app_assoc.
  - rb_step. destruct (root r =? Sentinel) eqn:El.
    + apply (root_sentinel_iff Tree h (FR c l a oa :: k)) in El as ->; [|done].
      eexists; split; [done|]. eexists _, oa, _. split_and!; [done..|]. right; right.
      cbn. split; [lia|done].
    + destruct (IH (FR c l a oa :: k) r) as (s & E1 & Hs); [done|by intros ->|lia|..].
      * rewrite inorder_fill. cbn. by rewrite <-!app_assoc in *.
      * cbn. rewrite app_assoc. by apply (cut_left_strict key cmp d _ (a, oa) _ Ho).
      * done.
      * exists s. split; [done|]. rewrite inorder_fill in Hs. cbn in Hs.
        by rewrite <-!app_assoc in *.
  - eexists; split; [done|]. eexists _, oa, _. split_and!; [done|cbn [Relation]; lia|by left].
Qed.

Lemma RBTree_Find_spec Tree h t d : tree_at Tree h t → ordered key cmp (inorder t) →
  ∃ s, RBTree_Find Compare Tree d h = Done (s, h) ∧
    (inorder t = [] ∧ s = mkSearch NULL (-1) ∨ found d s (inorder t)).
Proof.
  intros Hta Ho. pose proof (path_size Tree h [] t Hta) as Hsz. unfold RBTree_Find.
  erewrite bind_done by apply load_eq, Hta. cbn [Left]. destruct (root t =? Sentinel) eqn:Et.
  - apply (root_sentinel_iff Tree h []) in Et as ->; [|done]. eauto.
  - destruct (Find_loop_spec (S (size h)) Tree h [] t d) as (s & E1 & Hs);
      [done|by intros ->|lia|done|constructor|constructor|]. eauto.
Qed.

(** The relation is 0 exactly when the key is present. *)
Lemma found_iff d s l : ordered key cmp l → found d s l →
  Relation s = 0 ↔ ∃ x, x ∈ l ∧ Compare d x.2 = 0.
Proof.
  intros Ho (l1 & o & l2 & -> & Hr & Hs). split.
  - intros H0. exists (Nearest s, o). rewrite elem_of_app, elem_of_cons.
    split; [by auto|]. cbn. congruence.
  - intros (x & Hx & H0). destruct Hs as [?|[[Hlt Hf]|[Hgt Hf]]]; [done|exfalso..].
    + pose proof (cut_right key cmp d _ _ _ Ho ltac:(cbn [snd]; lia)) as Hf2.
      rewrite Forall_forall in Hf, Hf2. apply elem_of_app in Hx as [Hx|Hx].
      * apply Hf in Hx. cbn beta in Hx. lia.
      * apply Hf2 in Hx. cbn beta in Hx. lia.
    + pose proof (cut_left_strict key cmp d _ _ _ Ho ltac:(cbn [snd]; lia)) as Hf2.
      rewrite Forall_forall in Hf, Hf2. rewrite elem_of_app, elem_of_cons in Hx.
      destruct Hx as [Hx|[->|Hx]].
      * specialize (Hf2 x). rewrite elem_of_app in Hf2. specialize (Hf2 (or_introl Hx)). cbn beta in Hf2. lia.
      * cbn [snd] in *. lia.
      * apply Hf in Hx. cbn beta in Hx. lia.
Qed.
End find.

(** The loop [for (n= GetFirst(tree); n; n= GetNext(n))] of the clients. *)
Fixpoint walk (fuel : nat) (p : ptr) : RB (list ptr) :=
  match fuel with
  | O => nofuel
  | S fuel =>
      if p =? NULL then mret []
      else q ← RBTreeNode_GetNext p; rest ← walk fuel q; mret (p :: rest)
  end.

Lemma entry_ne_NULL Tree h t l1 a o l2 : tree_at Tree h t → inorder t = l1 ++ (a, o) :: l2 →
  (a =? NULL) = false.
Proof.
  intros Hta (k & c & l & r & -> & _)%position. apply Z.eqb_neq.
  by destruct (addr_ne _ _ _ _ _ _ _ _ Hta) as (_ & _ & ? & _).
Qed.

Lemma walk_from Tree h t l1 l2 fuel : tree_at Tree h t → inorder t = l1 ++ l2 →
  (length l2 < fuel)%nat → walk fuel (first_node l2) h = Done (l2.*1, h).
Proof.
  intros Hta. revert l1 l2; induction fuel as [|fuel IH]; intros l1 l2 Hin Hf; [lia|].
  destruct l2 as [|[a o] l2]; [done|]. cbn [first_node head from_option fst walk].
  rewrite (entry_ne_NULL _ _ _ _ _ _ _ Hta Hin : (_ =? _) = false).
  rewrite (bind_done _ _ _ _ _ (GetNext_spec _ _ _ _ _ _ _ Hta Hin)).
  rewrite (bind_done _ _ _ (l2.*1) h); [done|]. apply (IH (l1 ++ [(a, o)])).
  - by rewrite <-app_assoc.
  - cbn in Hf. lia.
Qed.
