(* ===== verification/RBTreePrune.v ===== *)
(** * RBTreeNode_Prune: removing a node

    Removing a black leaf leaves a subtree that is one black node short; the
    loop of [RBTreeNode_PruneLeaf] moves the shortage up the tree or ends it by
    rotations.  [short n t] at a hole that wants a black height of [S n] is its
    invariant. *)

From S2P Require Import Prelude OrdIndex RBTree RBTreeRep RBTreeAdd RBTreeWalk.

(** Black height [n], or a red node (whose children may be red) that becomes
    black height [S n] once it is blackened. *)
Definition short (n : nat) (t : tree) : Prop :=
  rbt n Black t ∨
  ∃ l a o r cl cr, t = T Red l a o r ∧ rbt n cl l ∧ rbt n cr r.

(** The node the loop calls [Current]: the root of the short subtree, or the
    removed leaf while the short subtree is empty. *)
Definition cur_at (Tree : ptr) (h : heap) (k : list frame) (t : tree) (Current : ptr) : Prop :=
  (t ≠ E ∧ Current = root t) ∨
  (t = E ∧ Current ∉ cells Tree (fill k E) ∧
   ∃ nd, h !! Current = Some nd ∧ Color nd = RBTreeNode_Black).

Definition sibling (k : list frame) : ptr :=
  match k with
  | [] => Sentinel
  | FL _ _ _ s :: _ | FR _ s _ _ :: _ => root s
  end.

(** What the loop establishes. *)
Definition repaired (Tree : ptr) (t0 : tree) (h0 h : heap) : Prop :=
  ∃ t, tree_at Tree h t ∧ is_rb t ∧ inorder t = inorder t0 ∧ keeps (cells Tree t0) h0 h.

Lemma cur_color Tree h k t Current : tree_at Tree h (fill k t) → cur_at Tree h k t Current →
  load Current Color h = Done (colZ (tcolor t), h).
Proof.
  intros Hta [[_ ->]|(-> & _ & nd & Hnd & Hc)]; [by eapply subtree_color|].
  by rewrite (load_eq _ _ _ _ Hnd), Hc.
Qed.

Lemma cur_at_keeps Tree h h' k k' t Current : cur_at Tree h k t Current →
  cells Tree (fill k' t) = cells Tree (fill k t) →
  keeps (cells Tree (fill k t)) h h' → cur_at Tree h' k' t Current.
Proof.
  intros [?|(-> & Hc & nd & Hnd & Hb)] Hcell Hk; [by left|right].
  split_and!; [done|by rewrite Hcell|]. exists nd. by rewrite Hk.
Qed.

Lemma repaired_done Tree h0 h k t n c t0 : tree_at Tree h (fill k t) → rbt n c t →
  crb n c k → inorder (fill k t) = inorder t0 → keeps (cells Tree t0) h0 h →
  repaired Tree t0 h0 h.
Proof. intros ?????. exists (fill k t). split_and!; eauto using rbt_fill. Qed.

Lemma repaired_trans Tree t0 t1 h0 h1 h : inorder t1 = inorder t0 →
  keeps (cells Tree t0) h0 h1 → repaired Tree t1 h1 h → repaired Tree t0 h0 h.
Proof.
  intros Hin Hk (t & Hta & Hr & Hin' & Hk'). exists t.
  split_and!; [done|done|congruence|]. eapply keeps_trans; [done|].
  by rewrite (cells_inorder Tree t0 t1).
Qed.

(** The loop ends: the short subtree is red, or it is the whole tree. *)
Lemma PruneLeaf_exit fuel Tree h k t n Current Sib side :
  tree_at Tree h (fill k t) → short n t → cur_at Tree h k t Current →
  crb (S n) Black k → tcolor t = Red ∨ k = [] →
  ∃ h', PruneLeaf_loop (S fuel) Current (up Tree k) Sib side h = Done (tt, h') ∧
    repaired Tree (fill k t) h h'.
Proof.
  intros Hta Hs Hc Hk Hend. cbn [PruneLeaf_loop].
  rewrite (bind_done _ _ _ _ _ (cur_color _ _ _ _ _ Hta Hc)).
  assert (Hp : ∃ q, load (up Tree k) Parent h = Done (q, h) ∧ (k = [] → q = NULL)).
  { destruct k as [|[] k]; cbn [fill up] in *.
    - exists NULL. split; [|done]. by erewrite load_eq by apply Hta.
    - eexists; split; [by eapply load_node|done].
    - eexists; split; [by eapply load_node|done]. }
  destruct Hp as (q & Eq & Hq). rewrite (bind_done _ _ _ _ _ Eq).
  assert (((colZ (tcolor t) =? RBTreeNode_Black) && negb (q =? NULL)) = false) as ->.
  { destruct Hend as [->| ->]; [done|]. rewrite Hq by done. by rewrite andb_false_r. }
  destruct Hc as [[Hne ->]|(-> & Hc & nd & Hnd & Hb)].
  - destruct t as [|c l a o r]; [done|]. cbn [root].
    destruct (recolor_spec Tree h k c Black l a o r Hta) as (h' & E1 & Hta' & Hkp).
    exists h'. split; [done|].
    destruct Hs as [Hs|(?&?&?&?&cl&cr&[= -> -> -> -> ->]&Hl&Hr)].
    + inversion Hs; subst. destruct Hend as [Hcol| ->]; [done|].
      eapply (repaired_done _ _ _ []); [done|done|done|done|done].
    + eapply (repaired_done _ _ _ k); [done|by econstructor|done| |done]. inorder_eq.
  - destruct Hend as [|Hend]; [done|]. subst k.
    exists h. split.
    + rewrite (store_eq _ _ _ _ Hnd). do 2 f_equal. apply insert_id. rewrite Hnd.
      destruct nd; cbn in *. by subst.
    + destruct Hs as [Hs|(?&?&?&?&?&?&?&_)]; [|done].
      by eapply (repaired_done _ _ _ []).
Qed.

(** The rotation of [Current] that looks at which side of its parent it is. *)
Lemma side_LeftRotate_spec Tree h k cn cc A x ox B y oy C :
  tree_at Tree h (fill k (T cn C y oy (T cc B x ox A))) →
  ∃ h', (pl ← load (up Tree k) Left;
         if pl =? y then RBTreeNode_LeftSide_LeftRotate y else RBTreeNode_RightSide_LeftRotate y) h =
        Done (tt, h') ∧
    tree_at Tree h' (fill k (T cc (T cn C y oy B) x ox A)) ∧
    keeps (cells Tree (fill k (T cn C y oy (T cc B x ox A)))) h h'.
Proof.
  intros Hta. destruct (parent_lookup _ _ _ _ _ _ _ _ Hta) as (np & Hnp & Hl & _).
  rewrite (bind_done _ _ _ _ _ (load_eq _ _ _ _ Hnp)), Hl.
  destruct (rot_left_spec Tree h k _ _ _ _ _ _ _ _ _ Hta) as (h' & E1 & H1).
  exists h'. split; [|done]. rewrite <-E1. by destruct (on_left k).
Qed.

Lemma side_RightRotate_spec Tree h k cn cc A x ox B y oy C :
  tree_at Tree h (fill k (T cn (T cc A x ox B) y oy C)) →
  ∃ h', (pl ← load (up Tree k) Left;
         if pl =? y then RBTreeNode_LeftSide_RightRotate y else RBTreeNode_RightSide_RightRotate y) h =
        Done (tt, h') ∧
    tree_at Tree h' (fill k (T cc A x ox (T cn B y oy C))) ∧
    keeps (cells Tree (fill k (T cn (T cc A x ox B) y oy C))) h h'.
Proof.
  intros Hta. destruct (parent_lookup _ _ _ _ _ _ _ _ Hta) as (np & Hnp & Hl & _).
  rewrite (bind_done _ _ _ _ _ (load_eq _ _ _ _ Hnp)), Hl.
  destruct (rot_right_spec Tree h k _ _ _ _ _ _ _ _ _ Hta) as (h' & E1 & H1).
  exists h'. split; [|done]. rewrite <-E1. by destruct (on_left k).
Qed.

Definition frame_color (f : frame) : color := match f with FL c _ _ _ | FR c _ _ _ => c end.
Definition frame_sibling (f : frame) : tree := match f with FL _ _ _ s | FR _ s _ _ => s end.

(** The sibling of a hole that wants [S n], and what fits in place of the parent. *)
Lemma crb_sibling n f k : crb (S n) Black (f :: k) →
  ∃ cs, rbt (S n) cs (frame_sibling f) ∧ (frame_color f = Red → cs = Black) ∧
    ∀ l x ox r, rbt (S n) Black l → rbt (S n) Black r →
      ∃ m, rbt m (frame_color f) (T (frame_color f) l x ox r) ∧ crb m (frame_color f) k.
Proof.
  destruct f as [[] a o s|[] s a o]; cbn; intros H; bsplit.
  - exists Black. split_and!; [done..|]. intros. exists (S n). eauto with dp.
  - destruct H as [cs Hs]. exists cs. split_and!; [done..|]. intros. exists (S (S n)). eauto with dp.
  - exists Black. split_and!; [done..|]. intros. exists (S n). eauto with dp.
  - destruct H as [cs Hs]. exists cs. split_and!; [done..|]. intros. exists (S (S n)). eauto with dp.
Qed.

(** The last rotation, and the tree it leaves. *)
Ltac rotate_end spec Hfit :=
  match goal with
  | H : tree_at _ _ _ |- _ =>
      let h5 := fresh "h" in let E5 := fresh in let H5 := fresh in let K5 := fresh in
      destruct (spec _ _ _ _ _ _ _ _ _ _ _ _ H) as (h5 & E5 & H5 & K5);
      exists h5; split; [exact E5|];
      repeat match goal with Hr : rbt _ _ (T _ _ _ _ _) |- _ => inversion Hr; clear Hr; subst end;
      let m := fresh "m" in let Hm := fresh "Hm" in let Hkm := fresh "Hkm" in
      edestruct Hfit as (m & Hm & Hkm);
      [| |eapply repaired_done; [exact H5|exact Hm|exact Hkm|inorder_eq|chain_keeps]];
      eauto with dp
  end.

(** A black sibling with a red child: one or two rotations end the shortage. *)
Lemma PruneLeaf_rotate fuel Tree h k f t n Current :
  tree_at Tree h (fill (f :: k) t) → rbt n Black t → cur_at Tree h (f :: k) t Current →
  crb (S n) Black (f :: k) →
  (match frame_sibling f with T Black l _ _ r => tcolor l = Red ∨ tcolor r = Red | _ => False end) →
  ∃ h', PruneLeaf_loop (S fuel) Current (up Tree (f :: k)) (sibling (f :: k)) (on_left (f :: k)) h =
          Done (tt, h') ∧ repaired Tree (fill (f :: k) t) h h'.
Proof.
  intros Hta Ht Hc (cs & Hsib & _ & Hfit)%crb_sibling Hs. cbn [PruneLeaf_loop].
  rewrite (bind_done _ _ _ _ _ (cur_color _ _ _ _ _ Hta Hc)), <-(rbt_color _ _ _ Ht).
  destruct f as [fc a o [|[] sl b ob sr]|fc [|[] sl b ob sr] a o]; try done;
    cbn [fill up sibling on_left root frame_color frame_sibling] in *; clear Hc;
    pose proof (up_ne_NULL Tree h k _ Hta) as Hnn; inversion Hsib; subst;
    rb_step; rewrite Hnn; rb_if; do 5 rb_step.
  - destruct (tcolor sr) eqn:Esr.
    + destruct sr as [|[] srl d od srr]; try done. rb_if. do 7 rb_step.
      rotate_end side_LeftRotate_spec Hfit.
    + destruct Hs as [Hs|]; [|done]. rewrite Hs. destruct sl as [|[] sll d od slr]; try done.
      rb_if. rewrite bind_bind. do 8 rb_step. rotate_end side_LeftRotate_spec Hfit.
  - destruct (tcolor sl) eqn:Esl.
    + destruct sl as [|[] sll d od slr]; try done. rb_if. rewrite andb_false_r. rb_if. do 7 rb_step.
      rotate_end side_RightRotate_spec Hfit.
    + destruct Hs as [|Hs]; [done|]. rewrite Hs. destruct sr as [|[] srl d od srr]; try done.
      rb_if. rewrite bind_bind. do 8 rb_step. rotate_end side_RightRotate_spec Hfit.
Qed.

(** The loads that find the parent, the side and the sibling of the new [Current]. *)
Lemma climb_loads {A} Tree h k c l a o r (cont : ptr → bool → ptr → RB A) :
  tree_at Tree h (fill k (T c l a o r)) →
  (Parent_ ← load a Parent; pl ← load Parent_ Left;
   Sib ← (if pl =? a then load Parent_ Right else load Parent_ Left);
   cont Parent_ (pl =? a) Sib) h =
  cont (up Tree k) (on_left k) (sibling k) h.
Proof.
  intros Hta. rewrite (bind_done _ _ _ _ _ (load_node _ _ _ _ _ _ _ _ _ Hta)). cbn [Parent].
  destruct (parent_lookup _ _ _ _ _ _ _ _ Hta) as (np & Hnp & Hl & _).
  rewrite (bind_done _ _ _ _ _ (load_eq _ _ _ _ Hnp)), Hl.
  destruct k as [|[c1 a1 o1 s1|c1 s1 a1 o1] k]; cbn [on_left up sibling fill] in *.
  - by erewrite bind_done by apply load_eq, Hta.
  - by rewrite (bind_done _ _ _ _ _ (load_node _ _ _ _ _ _ _ _ _ Hta)).
  - by rewrite (bind_done _ _ _ _ _ (load_node _ _ _ _ _ _ _ _ _ Hta)).
Qed.

(** A black sibling with black children: it turns red and the shortage moves up. *)
Lemma PruneLeaf_recolor fuel Tree h k f t n Current :
  tree_at Tree h (fill (f :: k) t) → rbt n Black t → cur_at Tree h (f :: k) t Current →
  crb (S n) Black (f :: k) →
  (match frame_sibling f with T Black l _ _ r => tcolor l = Black ∧ tcolor r = Black | _ => False end) →
  ∃ h' m l a o r,
    PruneLeaf_loop (S fuel) Current (up Tree (f :: k)) (sibling (f :: k)) (on_left (f :: k)) h =
    PruneLeaf_loop fuel a (up Tree k) (sibling k) (on_left k) h' ∧
    tree_at Tree h' (fill k (T (frame_color f) l a o r)) ∧ short m (T (frame_color f) l a o r) ∧
    crb (S m) Black k ∧
    inorder (fill k (T (frame_color f) l a o r)) = inorder (fill (f :: k) t) ∧
    keeps (cells Tree (fill (f :: k) t)) h h'.
Proof.
  intros Hta Ht Hc Hk Hs. cbn [PruneLeaf_loop].
  rewrite (bind_done _ _ _ _ _ (cur_color _ _ _ _ _ Hta Hc)), <-(rbt_color _ _ _ Ht).
  destruct (crb_sibling _ _ _ Hk) as (cs & Hsib & _ & _).
  destruct f as [fc a o [|[] sl b ob sr]|fc [|[] sl b ob sr] a o]; try done;
    cbn [fill up sibling on_left root frame_color frame_sibling] in *; clear Hc;
    pose proof (up_ne_NULL Tree h k _ Hta) as Hnn; inversion Hsib; subst;
    rb_step; rewrite Hnn; rb_if; do 5 rb_step; destruct Hs as [Hl Hr]; rewrite Hl, Hr; rb_if;
    rb_step.
  all: match goal with H : tree_at ?Tree ?h (fill ?k (T ?c ?l ?a ?o ?r)) |- _ =>
         rewrite (climb_loads Tree h k c l a o r
           (λ P side Sib, PruneLeaf_loop fuel a P Sib side) H);
         exists h, (if fc then n else S n), l, a, o, r end.
  all: split_and!; [done|done| | |inorder_eq|chain_keeps].
  all: repeat match goal with H : rbt _ _ _ |- _ => pose proof (rbt_color _ _ _ H); revert H end;
    intros; rewrite ?Hl, ?Hr in *; subst.
  all: destruct fc; cbn in Hk; bsplit; eauto using crb_any.
  all: try (left; econstructor; eauto with dp; fail).
  all: right; eexists _, _, _, _, _, _; split_and!; eauto with dp.
Qed.

(** A red sibling: a rotation gives a red parent and a black sibling. *)
Lemma PruneLeaf_red_sibling fuel Tree h k f t n Current :
  tree_at Tree h (fill (f :: k) t) → rbt n Black t → cur_at Tree h (f :: k) t Current →
  crb (S n) Black (f :: k) → tcolor (frame_sibling f) = Red →
  ∃ h' f1 f2,
    PruneLeaf_loop (S fuel) Current (up Tree (f :: k)) (sibling (f :: k)) (on_left (f :: k)) h =
    PruneLeaf_loop fuel Current (up Tree (f1 :: f2 :: k)) (sibling (f1 :: f2 :: k))
      (on_left (f1 :: f2 :: k)) h' ∧
    tree_at Tree h' (fill (f1 :: f2 :: k) t) ∧ cur_at Tree h' (f1 :: f2 :: k) t Current ∧
    crb (S n) Black (f1 :: f2 :: k) ∧ frame_color f1 = Red ∧
    inorder (fill (f1 :: f2 :: k) t) = inorder (fill (f :: k) t) ∧
    keeps (cells Tree (fill (f :: k) t)) h h'.
Proof.
  intros Hta Ht Hc Hk Hs. cbn [PruneLeaf_loop].
  rewrite (bind_done _ _ _ _ _ (cur_color _ _ _ _ _ Hta Hc)), <-(rbt_color _ _ _ Ht).
  destruct (crb_sibling _ _ _ Hk) as (cs & Hsib & Hfc & _).
  destruct f as [fc a o [|[] sl b ob sr]|fc [|[] sl b ob sr] a o]; try done;
    cbn [fill up sibling on_left root frame_color frame_sibling] in *;
    pose proof (up_ne_NULL Tree h k _ Hta) as Hnn; inversion Hsib; subst;
    (destruct fc; [by specialize (Hfc eq_refl)|]); cbn in Hk; destruct Hk as [_ Hk];
    rb_step; rewrite Hnn; rb_if; do 3 rb_step; rewrite bind_bind; do 2 rb_step;
    match goal with |- context [PruneLeaf_loop fuel _ _ _ _ ?h'] => exists h' end.
  - exists (FL Red a o sl), (FL Black b ob sr).
    split_and!; [done|done| |cbn; eauto|done|inorder_eq|chain_keeps].
    eapply cur_at_keeps; [exact Hc|apply cells_inorder; inorder_eq|chain_keeps].
  - exists (FR Red sr a o), (FR Black sl b ob).
    split_and!; [done|done| |cbn; eauto|done|inorder_eq|chain_keeps].
    eapply cur_at_keeps; [exact Hc|apply cells_inorder; inorder_eq|chain_keeps].
Qed.

(** With a black sibling: one more iteration, or the shortage one level up. *)
Lemma PruneLeaf_black_sibling fuel Tree h k f t n Current :
  tree_at Tree h (fill (f :: k) t) → rbt n Black t → cur_at Tree h (f :: k) t Current →
  crb (S n) Black (f :: k) → tcolor (frame_sibling f) = Black →
  (∀ h' m l a o r,
     tree_at Tree h' (fill k (T (frame_color f) l a o r)) → short m (T (frame_color f) l a o r) →
     crb (S m) Black k →
     ∃ h'', PruneLeaf_loop fuel a (up Tree k) (sibling k) (on_left k) h' = Done (tt, h'') ∧
       repaired Tree (fill k (T (frame_color f) l a o r)) h' h'') →
  ∃ h', PruneLeaf_loop (S fuel) Current (up Tree (f :: k)) (sibling (f :: k)) (on_left (f :: k)) h =
          Done (tt, h') ∧ repaired Tree (fill (f :: k) t) h h'.
Proof.
  intros Hta Ht Hc Hk Hb Hcont. destruct (crb_sibling _ _ _ Hk) as (cs & Hsib & _ & _).
  destruct (frame_sibling f) as [|[] l b ob r] eqn:Ef; [by inversion Hsib|done|].
  assert (Hcase : (tcolor l = Black ∧ tcolor r = Black) ∨ (tcolor l = Red ∨ tcolor r = Red)).
  { destruct (tcolor l), (tcolor r); auto. }
  destruct Hcase as [Hbb|Hrr].
  - destruct (PruneLeaf_recolor fuel Tree h k f t n Current) as
      (h' & m & l' & a & o & r' & E1 & Hta' & Hsh & Hk' & Hin & Hkp); [done..|by rewrite Ef|].
    rewrite E1. destruct (Hcont h' m l' a o r') as (h'' & E2 & Hr); [done..|].
    exists h''. split; [done|]. by eapply repaired_trans.
  - apply (PruneLeaf_rotate fuel Tree h k f t n Current); [done..|by rewrite Ef].
Qed.

(** The loop ends within three iterations more than the depth of the hole. *)
Lemma PruneLeaf_loop_spec fuel Tree h k t n Current :
  tree_at Tree h (fill k t) → short n t → cur_at Tree h k t Current → crb (S n) Black k →
  (length k + 3 ≤ fuel)%nat →
  ∃ h', PruneLeaf_loop fuel Current (up Tree k) (sibling k) (on_left k) h = Done (tt, h') ∧
    repaired Tree (fill k t) h h'.
Proof.
  revert fuel h t n Current; induction k as [|f k IH]; intros fuel h t n Current Hta Hs Hc Hk Hf.
  { destruct fuel as [|fuel]; [cbn in Hf; lia|]. eapply (PruneLeaf_exit _ _ _ []); eauto. }
  destruct fuel as [|[|fuel]]; [cbn in Hf; lia..|]. cbn [length] in Hf.
  destruct Hs as [Ht|Hs].
  2: { eapply PruneLeaf_exit; eauto; [by right|]. left. by destruct Hs as (?&?&?&?&?&?&->&_). }
  destruct (tcolor (frame_sibling f)) eqn:Es.
  - destruct (PruneLeaf_red_sibling (S fuel) Tree h k f t n Current)
      as (h' & f1 & f2 & -> & Hta' & Hc' & Hk' & Hf1 & Hin & Hkp); [done..|].
    destruct (PruneLeaf_black_sibling fuel Tree h' (f2 :: k) f1 t n Current) as (h'' & -> & Hr); [done..| | |].
    + destruct (crb_sibling _ _ _ Hk') as (cs & Hsib & Hcs & _).
      by rewrite <-(rbt_color _ _ _ Hsib), Hcs.
    + intros h2 m l a o r Hta2 Hs2 Hk2. rewrite Hf1 in *. destruct fuel as [|fuel]; [lia|].
      eapply PruneLeaf_exit; eauto; left; done.
    + exists h''. split; [done|]. by eapply repaired_trans.
  - apply (PruneLeaf_black_sibling (S fuel) Tree h k f t n Current); [done..|].
    intros h2 m l a o r Hta2 Hs2 Hk2. apply (IH (S fuel) h2 _ m); [done..| |done|lia].
    by left.
Qed.

(** ** RBTreeNode_PruneLeaf *)

Lemma load_sibling Tree h k t : tree_at Tree h (fill k t) →
  (if on_left k then load (up Tree k) Right else load (up Tree k) Left) h = Done (sibling k, h).
Proof.
  intros Hta. destruct k as [|[c1 a1 o1 s1|c1 s1 a1 o1] k]; cbn [on_left up sibling fill] in *.
  - by erewrite load_eq by apply Hta.
  - by erewrite load_node.
  - by erewrite load_node.
Qed.

(** What removing the node [a] from the position [k] establishes: the node itself
    is left as it was, outside the tree. *)
Definition unlinked (Tree : ptr) (a : ptr) (l : list (ptr * Z)) (t0 : tree) (h h' : heap) : Prop :=
  ∃ t', tree_at Tree h' t' ∧ is_rb t' ∧ inorder t' = l ∧ h' !! a = h !! a ∧
    keeps (cells Tree t0) h h'.

Lemma set_side_eq b p v h : set_side b p v h = store p (set_child b v) h.
Proof. by destruct b. Qed.

Lemma keeps_sub S S' h h' : S ⊆ S' → keeps S h h' → keeps S' h h'.
Proof. intros Hs Hk a Ha. apply Hk. intros ?. by apply Ha, Hs. Qed.

(** The leaf case: nothing below the node. *)
Lemma PruneLeaf_leaf Tree h k c a o fuel : tree_at Tree h (fill k (T c E a o E)) →
  is_rb (fill k (T c E a o E)) → (length k + 3 ≤ fuel)%nat →
  ∃ h', RBTreeNode_PruneLeaf_fuel fuel a h = Done (tt, h') ∧
    unlinked Tree a (left_of k ++ right_of k) (fill k (T c E a o E)) h h'.
Proof.
  intros Hta Hrb Hf. apply rbt_fill_inv in Hrb as (n & c' & Hr & Hk).
  destruct (unlink_spec _ _ _ _ _ _ Hta) as (h1 & E1 & Hta1 & Ha1 & Hk1).
  destruct (parent_lookup _ _ _ _ _ _ _ _ Hta) as (np & Hnp & Hl & _).
  assert (Hout : a ∉ cells Tree (fill k E)).
  { destruct Hta1 as [_ _ _ _]. apply focus_iff in Hta as [_ _ _ Hnd].
    rewrite elem_of_cells. cbn in Hnd. rewrite !NoDup_cons, NoDup_app in Hnd.
    setoid_rewrite elem_of_app in Hnd. setoid_rewrite elem_of_cons in Hnd.
    setoid_rewrite elem_of_app in Hnd. set_solver. }
  unfold RBTreeNode_PruneLeaf_fuel. rb_step.
  rewrite (bind_done _ _ _ _ _ (load_eq _ _ _ _ Hnp)), Hl. rb_step.
  inversion Hr; subst; rb_if.
  - rewrite set_side_eq, E1. exists h1. split; [done|]. exists (fill k E).
    split_and!; [done| |by rewrite inorder_fill|done|done].
    match goal with H : rbt _ _ E |- _ => inversion H; subst end.
    eapply rbt_fill; [constructor|]. by apply crb_any.
  - do 2 rb_step. rewrite (bind_done _ _ _ tt h1) by by rewrite set_side_eq.
    rewrite (bind_done _ _ _ _ _ (load_sibling _ _ _ _ Hta1)).
    match goal with H : rbt _ _ E |- _ => inversion H; subst end.
    destruct (PruneLeaf_loop_spec fuel Tree h1 k E 0 a) as (h2 & E2 & t2 & Hta2 & Hrb2 & Hin2 & Hk2);
      [done|left; constructor| |done|done|].
    + right. split_and!; [done|done|]. rewrite Ha1, (node_lookup _ _ _ _ _ _ _ _ Hta). by eexists.
    + exists h2. split; [done|]. exists t2. rewrite inorder_fill in Hin2.
      split_and!; [done..|by rewrite Hk2|]. eapply keeps_trans; [done|].
      eapply keeps_sub; [|done]. intros z. rewrite !elem_of_cells. cbn. rewrite elem_of_nil. tauto.
Qed.

Lemma node_ne_sentinel Tree h k c l a o r : tree_at Tree h (fill k (T c l a o r)) →
  (a =? Sentinel) = false.
Proof. intros Hta. apply Z.eqb_neq. by destruct (addr_ne _ _ _ _ _ _ _ _ Hta) as (_ & ? & _). Qed.

(** A node with one child is black and the child a red leaf. *)
Lemma only_child n c c' l a o r cs ll b ob lr : rbt n c' (T c l a o r) →
  (l = E ∧ r = T cs ll b ob lr) ∨ (l = T cs ll b ob lr ∧ r = E) →
  c = Black ∧ c' = Black ∧ n = 1%nat ∧ rbt 1 Black (T Black ll b ob lr).
Proof.
  intros Hr [[-> ->]|[-> ->]]; inversion Hr; subst; clear Hr;
    repeat match goal with H : rbt _ _ E |- _ => inversion H; clear H; subst end;
    match goal with H : rbt 0 _ (T _ _ _ _ _) |- _ => inversion H; subst end;
    split_and!; by econstructor.
Qed.

(** At most one child. *)
Lemma PruneLeaf_spec Tree h k c l a o r : tree_at Tree h (fill k (T c l a o r)) →
  is_rb (fill k (T c l a o r)) → l = E ∨ r = E →
  ∃ h', RBTreeNode_PruneLeaf a h = Done (tt, h') ∧
    unlinked Tree a (left_of k ++ inorder l ++ inorder r ++ right_of k) (fill k (T c l a o r)) h h'.
Proof.
  intros Hta Hrb Hlr. unfold RBTreeNode_PruneLeaf.
  pose proof (path_size _ _ _ _ Hta) as Hsz.
  destruct (decide (l = E ∧ r = E)) as [[-> ->]|Hne]; [apply PruneLeaf_leaf; [done..|lia]|].
  apply rbt_fill_inv in Hrb as (n & c' & Hr & Hk).
  destruct (parent_lookup _ _ _ _ _ _ _ _ Hta) as (np & Hnp & Hl & _).
  destruct l as [|cl ll b ob lr], r as [|cr rl d od rr]; [naive_solver| | |naive_solver].
  - destruct (splice_spec Tree h k _ _ _ rl d od rr c a o eq_refl (or_intror eq_refl) Hta)
      as (h1 & h2 & h3 & E1 & E2 & E3 & Hta3 & Ha3 & Hk3).
    eapply only_child in Hr as (-> & -> & -> & Hr'); [|by eauto]. exists h3. split.
    + unfold RBTreeNode_PruneLeaf_fuel. rb_step.
      rewrite (bind_done _ _ _ _ _ (load_eq _ _ _ _ Hnp)), Hl. do 3 rb_step.
      rewrite (node_ne_sentinel Tree h (FR Black E a o :: k) _ _ _ _ _ Hta). cbn [negb].
      rewrite (bind_done _ _ _ _ _ E1), (bind_done _ _ _ _ _ E2). by rewrite set_side_eq.
    + exists (fill k (T Black rl d od rr)). split_and!; [done|by eapply rbt_fill|inorder_eq|done|done].
  - destruct (splice_spec Tree h k _ _ _ ll b ob lr c a o eq_refl (or_introl eq_refl) Hta)
      as (h1 & h2 & h3 & E1 & E2 & E3 & Hta3 & Ha3 & Hk3).
    eapply only_child in Hr as (-> & -> & -> & Hr'); [|by eauto]. exists h3. split.
    + unfold RBTreeNode_PruneLeaf_fuel. rb_step.
      rewrite (bind_done _ _ _ _ _ (load_eq _ _ _ _ Hnp)), Hl. do 2 rb_step.
      rewrite (node_ne_sentinel Tree h (FL Black a o E :: k) _ _ _ _ _ Hta). cbn [negb].
      rewrite (bind_done _ _ _ _ _ E1), (bind_done _ _ _ _ _ E2). by rewrite set_side_eq.
    + exists (fill k (T Black ll b ob lr)). split_and!; [done|by eapply rbt_fill|inorder_eq|done|done].
Qed.

(** ** RBTreeNode_Prune *)

(** [a], of the tree [t0], is out of the tree, which lists [l] now. *)
Definition removed (Tree : ptr) (a : ptr) (o : Z) (l : list (ptr * Z)) (t0 : tree) (h h' : heap) : Prop :=
  ∃ t' n, tree_at Tree h' t' ∧ is_rb t' ∧ inorder t' = l ∧ h' !! a = Some n ∧ Object n = o ∧
    keeps (cells Tree t0) h h'.

Lemma in_cells Tree t z : z ∈ cells Tree t ↔ z = Tree ∨ z = Sentinel ∨ z ∈ (inorder t).*1.
Proof. rewrite (elem_of_cells Tree [] t), <-addrs_inorder. cbn. rewrite elem_of_nil. tauto. Qed.

(** An entry taken out of the listing is not a cell of the new tree. *)
Lemma entry_gone Tree h t t' l1 a o l2 : tree_at Tree h t → inorder t = l1 ++ (a, o) :: l2 →
  inorder t' = l1 ++ l2 → a ∉ cells Tree t'.
Proof.
  intros [_ _ _ Hnd] H1 H2. rewrite in_cells, H2, fmap_app, elem_of_app.
  rewrite addrs_inorder, H1, fmap_app, fmap_cons in Hnd. cbn [fst] in Hnd.
  assert (Hp : Tree :: Sentinel :: NULL :: l1.*1 ++ a :: l2.*1 ≡ₚ
               a :: Tree :: Sentinel :: NULL :: l1.*1 ++ l2.*1) by solve_Permutation.
  rewrite Hp, NoDup_cons, !elem_of_cons, elem_of_app in Hnd. tauto.
Qed.

Lemma rbt_relabel n c' c l a o r b ob : rbt n c' (T c l a o r) → rbt n c' (T c l b ob r).
Proof. inversion 1; subst; eauto with dp. Qed.

(** The successor is pruned and takes the place of the node. *)
Lemma Prune_exchange Tree h k c' ls s os rs a o m1 m2 :
  tree_at Tree h (fill k (T c' ls s os rs)) → is_rb (fill k (T c' ls s os rs)) → ls = E ∨ rs = E →
  left_of k ++ inorder ls ++ inorder rs ++ right_of k = m1 ++ (a, o) :: m2 →
  ∃ h', (RBTreeNode_PruneLeaf s;; exchange a s) h = Done (tt, h') ∧
    removed Tree a o (m1 ++ (s, os) :: m2) (fill k (T c' ls s os rs)) h h'.
Proof.
  intros Hta Hrb Hlr Hm. pose proof (node_lookup _ _ _ _ _ _ _ _ Hta) as Hs.
  destruct (PruneLeaf_spec _ _ _ _ _ _ _ _ Hta Hrb Hlr) as (h1 & E1 & t1 & Hta1 & Hrb1 & Hin1 & Hs1 & Hk1).
  assert (Hout : s ∉ cells Tree t1).
  { eapply (entry_gone Tree h _ _ (left_of k ++ inorder ls) s os (inorder rs ++ right_of k)); [done| |].
    - inorder_eq.
    - by rewrite Hin1, <-app_assoc. }
  assert (Hcells : cells Tree t1 ⊆ cells Tree (fill k (T c' ls s os rs))).
  { intros z. rewrite !in_cells, Hin1, inorder_fill. cbn. rewrite !fmap_app, !elem_of_app, fmap_cons, elem_of_cons.
    tauto. }
  rewrite Hm in Hin1. destruct (position _ _ _ _ _ Hin1) as (k3 & c3 & l3 & r3 & -> & -> & ->).
  destruct (addr_ne _ _ _ _ _ _ _ _ Hta) as (_ & _ & Hnull & _).
  destruct (exchange_spec Tree h1 k3 c3 l3 a o r3 s _ Hta1 Hout Hnull (eq_trans Hs1 Hs))
    as (h2 & E2 & Hta2 & Ha2 & Hk2). cbn [Object] in Hta2.
  exists h2. split; [by rewrite (bind_done _ _ _ _ _ E1)|].
  eexists _, _. split_and!; [exact Hta2| |inorder_eq|rewrite Ha2; by eapply node_lookup|done|].
  - apply rbt_fill_inv in Hrb1 as (n & c & Hr & Hk). eapply rbt_fill; [|done]. by eapply rbt_relabel.
  - eapply keeps_trans; [done|]. eapply keeps_sub; [|done]. intros z.
    rewrite elem_of_union, elem_of_singleton. intros [->|Hz]; [|by apply Hcells].
    by destruct (addr_ne _ _ _ _ _ _ _ _ Hta) as (_ & _ & _ & _ & ?).
Qed.

(** Two children: the next node is exchanged for the pruned one, or the previous
    one when the next is a black leaf. *)
Lemma Prune_two Tree h k c l a o r (rest : RB bool) :
  tree_at Tree h (fill k (T c l a o r)) → is_rb (fill k (T c l a o r)) → l ≠ E → r ≠ E →
  ∃ h1, removed Tree a o ((left_of k ++ inorder l) ++ inorder r ++ right_of k)
      (fill k (T c l a o r)) h h1 ∧
    ((Successor ← RBTreeNode_GetNext a;
      sc ← load Successor Color;
      sl ← load Successor Left;
      sr ← load Successor Right;
      Successor ←
        (if (sc =? RBTreeNode_Black) && (sl =? Sentinel) && (sr =? Sentinel)
         then RBTreeNode_GetPrev a else mret Successor);
      RBTreeNode_PruneLeaf Successor;; exchange a Successor);; rest) h = rest h1.
Proof.
  intros Hta Hrb Hl Hr. pose proof (path_size _ _ _ _ Hta) as Hsz. cbn [depth] in Hsz.
  assert (Hin : inorder (fill k (T c l a o r)) =
    (left_of k ++ inorder l) ++ (a, o) :: inorder r ++ right_of k) by inorder_eq.
  destruct (GetLeftmost_spec (size h) Tree h (FR c l a o :: k) r)
    as (k1 & c1 & s & os & r1 & _ & F1 & L1 & S1); [done|done|lia|]. cbn [fill left_of] in F1, L1.
  destruct (GetRightmost_spec (size h) Tree h (FL c a o r :: k) l)
    as (k2 & c2 & l2 & p & op & _ & F2 & L2 & S2); [done|done|lia|]. cbn [fill right_of] in F2, L2.
  assert (Hgo : ∀ s, (∃ h1, removed Tree a o ((left_of k ++ inorder l) ++ inorder r ++ right_of k)
            (fill k (T c l a o r)) h h1 ∧
          (RBTreeNode_PruneLeaf s;; exchange a s) h = Done (tt, h1)) →
      ∀ m, m h = (RBTreeNode_PruneLeaf s;; exchange a s) h →
      ∃ h1, removed Tree a o ((left_of k ++ inorder l) ++ inorder r ++ right_of k)
        (fill k (T c l a o r)) h h1 ∧ (m;; rest) h = rest h1).
  { intros s' (h1 & Hrem & E1) m Em. exists h1. split; [done|]. by rewrite (bind_done m _ _ tt h1) by congruence. }
  pose proof (GetNext_spec _ _ _ _ _ _ _ Hta Hin) as En. rewrite first_node_app, S1 in En by done.
  pose proof (GetPrev_spec _ _ _ _ _ _ _ Hta Hin) as Ep. rewrite last_node_app, S2 in Ep by done.
  pose proof Hta as Hta'. rewrite F1 in Hta'.
  destruct ((colZ c1 =? RBTreeNode_Black) && true && (root r1 =? Sentinel)) eqn:Eb.
  - apply (Hgo p).
    + rewrite F2 in Hta, Hrb, Hin |- *. rewrite inorder_fill, L2 in Hin. cbn [inorder app] in Hin.
      rewrite app_assoc in Hin. apply app_inv_tail in Hin.
      destruct (Prune_exchange Tree h k2 c2 l2 p op E a o (left_of k2 ++ inorder l2)
        (inorder r ++ right_of k)) as (h1 & E1 & Hrem); [done|done|by right| |].
      * cbn. by rewrite L2, <-app_assoc.
      * exists h1. split; [|done]. revert Hrem. rewrite <-Hin, <-!app_assoc. done.
    + rewrite (bind_done _ _ _ _ _ En). do 3 rb_step. change (colZ Black) with RBTreeNode_Black.
      rewrite Eb. by rewrite (bind_done _ _ _ _ _ Ep).
  - apply (Hgo s).
    + rewrite F1 in Hta, Hrb, Hin |- *. rewrite inorder_fill, L1 in Hin. cbn [inorder app] in Hin.
      rewrite <-!app_assoc in Hin. do 2 apply app_inv_head in Hin. injection Hin as Hin.
      destruct (Prune_exchange Tree h k1 c1 E s os r1 a o (left_of k ++ inorder l)
        (inorder r1 ++ right_of k1)) as (h1 & E1 & Hrem); [done|done|by left| |].
      * cbn. by rewrite L1, <-!app_assoc.
      * exists h1. split; [|done]. by rewrite <-Hin.
    + rewrite (bind_done _ _ _ _ _ En). do 3 rb_step. change (colZ Black) with RBTreeNode_Black.
      rewrite Eb. by rewrite (bind_done _ _ _ s h).
Qed.

Lemma RBTreeNode_Prune_spec Tree h t l1 a o l2 :
  tree_at Tree h t → is_rb t → inorder t = l1 ++ (a, o) :: l2 →
  ∃ h', RBTreeNode_Prune a h = Done (true, h') ∧ removed Tree a o (l1 ++ l2) t h h' ∧
    ∀ n, h' !! a = Some n → Color n = RBTreeNode_Unassigned.
Proof.
  intros Hta Hrb Hin.
  assert (Hend : ∀ h1, removed Tree a o (l1 ++ l2) t h h1 →
    ∃ h', store a (set_Color RBTreeNode_Unassigned) h1 = Done (tt, h') ∧
      removed Tree a o (l1 ++ l2) t h h' ∧
      ∀ n, h' !! a = Some n → Color n = RBTreeNode_Unassigned).
  { intros h1 (t' & n & Hta' & Hrb' & Hin' & Hn & Ho & Hk). eexists.
    split_and!; [by apply store_eq| |].
    - exists t', (set_Color RBTreeNode_Unassigned n).
      split_and!; [apply tree_at_insert_ne; [|done]|done|done|apply lookup_insert_eq|done|].
      + by eapply (entry_gone Tree h t).
      + apply keeps_insert; [|done]. rewrite in_cells, Hin, fmap_app, elem_of_app. right; right; right. by left.
    - intros n'. rewrite lookup_insert_eq. by intros [= <-]. }
  assert (Hgo : ∃ h1, removed Tree a o (l1 ++ l2) t h h1 ∧
    RBTreeNode_Prune a h = (store a (set_Color RBTreeNode_Unassigned);; mret true) h1).
  2: { destruct Hgo as (h1 & Hr & ->). destruct (Hend h1 Hr) as (h' & E' & H1 & H2).
       exists h'. by rewrite (bind_done _ _ _ _ _ E'). }
  clear Hend. pose proof Hin as Hin0.
  apply position in Hin as (k & c & l & r & -> & -> & ->).
  unfold RBTreeNode_Prune. rb_step.
  replace (colZ c =? RBTreeNode_Unassigned) with false by (by destruct c). do 2 rb_step.
  destruct (root l =? Sentinel) eqn:El; [|destruct (root r =? Sentinel) eqn:Er]; cbn [orb].
  - apply (root_sentinel_iff Tree h (FL c a o r :: k)) in El as ->; [|done].
    destruct (PruneLeaf_spec _ _ _ _ _ _ _ _ Hta Hrb (or_introl eq_refl))
      as (h1 & E1 & t' & Hta1 & Hrb1 & Hin1 & Ha1 & Hk1).
    exists h1. split; [|by rewrite (bind_done _ _ _ _ _ E1)].
    eexists _, _. split_and!; [done|done| |by rewrite Ha1; eapply node_lookup|done|done].
    rewrite Hin1. cbn. by rewrite app_nil_r.
  - apply (root_sentinel_iff Tree h (FR c l a o :: k)) in Er as ->; [|done].
    destruct (PruneLeaf_spec _ _ _ _ _ _ _ _ Hta Hrb (or_intror eq_refl))
      as (h1 & E1 & t' & Hta1 & Hrb1 & Hin1 & Ha1 & Hk1).
    exists h1. split; [|by rewrite (bind_done _ _ _ _ _ E1)].
    eexists _, _. split_and!; [done|done| |by rewrite Ha1; eapply node_lookup|done|done].
    rewrite Hin1. cbn. by rewrite <-app_assoc.
  - apply Prune_two; [done|done|by intros ->|by intros ->].
Qed.

(** A node that is in no tree is refused. *)
Lemma RBTreeNode_Prune_unassigned h a n : h !! a = Some n → Color n = RBTreeNode_Unassigned →
  RBTreeNode_Prune a h = Done (false, h).
Proof. intros Hn Hc. unfold RBTreeNode_Prune. run1. by rewrite Hc. Qed.
