(* ===== verification/RBTreeIndex.v ===== *)
(** * The red/black tree implements the ordered index

    [index_at key cmp Tree h l]: below the root sentinel at [Tree] the heap [h]
    holds a red/black tree whose in-order listing is [l], in key order.  The
    theorems of this file are the contract of Contained_RBTree.c: every function
    returns, and does to the listing what [OrdIndex] says. *)

From Stdlib Require Import Sorted.
From S2P Require Import Prelude OrdIndex RBTree RBTreeRep RBTreeAdd RBTreeWalk RBTreePrune.

Section index_at.
Context {D : Type} (key : Z → D) (cmp : D → D → Z).

Definition index_at (Tree : ptr) (h : heap) (l : list (ptr * Z)) : Prop :=
  ordered key cmp l ∧ ∃ t, tree_at Tree h t ∧ is_rb t ∧ inorder t = l.
End index_at.

(** The cells an index with the listing [l] occupies. *)
Definition index_cells (Tree : ptr) (l : list (ptr * Z)) : gset ptr :=
  {[Tree; Sentinel]} ∪ list_to_set (l.*1).

Lemma index_cells_tree Tree t : cells Tree t = index_cells Tree (inorder t).
Proof. unfold cells, index_cells. by rewrite addrs_inorder. Qed.

(** Integers compared by subtraction. *)
Definition zcmp (a b : Z) : Z := a - b.
#[export] Instance zcmp_total : TotalCmp zcmp.
Proof. unfold zcmp. split; lia. Qed.

(** ** Height *)

Lemma rbt_height n c t : rbt n c t →
  (depth t ≤ 2 * n + if c then 1 else 0)%nat ∧ (2 ^ n ≤ length (inorder t) + 1)%nat.
Proof.
  induction 1 as [|n l a o r _ [IHl IHl'] _ [IHr IHr']|n cl cr l a o r _ [IHl IHl'] _ [IHr IHr']];
    cbn [depth inorder length Nat.pow]; rewrite ?length_app; cbn [length]; [lia|lia|].
  destruct cl, cr; lia.
Qed.

(** ** A concrete index, for the examples: three nodes with the objects 10, 20
    and 30, each object its own key, and a free node with the object 20. *)

Definition ex_tree : tree := T Black (T Red E 101 10 E) 102 20 (T Red E 103 30 E).
Definition ex_heap : heap :=
  {[ 50 := mkNode 102 Sentinel NULL RBTreeNode_Black 0;
     Sentinel := Sentinel_init;
     101 := mkNode Sentinel Sentinel 102 RBTreeNode_Red 10;
     102 := mkNode 101 103 50 RBTreeNode_Black 20;
     103 := mkNode Sentinel Sentinel 102 RBTreeNode_Red 30;
     104 := mkNode 0 0 0 RBTreeNode_Unassigned 20 ]}.

Lemma ex_index : index_at id zcmp 50 ex_heap [(101, 10); (102, 20); (103, 30)].
Proof.
  split.
  - repeat (constructor; [|repeat constructor; cbv; congruence]). constructor.
  - exists ex_tree. split_and!; [|eexists; repeat econstructor|done].
    split; [done|done|by exists Sentinel|]. apply (bool_decide_unpack _). vm_compute. done.
Defined.

Section theorems.
Context {D : Type} (key : Z → D) (cmp : D → D → Z) `{!TotalCmp cmp}.

Local Abbreviation Compare := (compare_key key cmp).
Local Abbreviation index_at := (index_at key cmp).

Lemma index_ordered Tree h l : index_at Tree h l → ordered key cmp l.
Proof. by intros [? _]. Qed.

(** RBTree_Init makes an empty index. *)
Lemma RBTree_Init_empty Tree h n q : h !! Tree = Some n → Tree ≠ Sentinel → Tree ≠ NULL →
  h !! Sentinel = Some (mkNode Sentinel Sentinel q RBTreeNode_Black 0) →
  ∃ h', RBTree_Init Tree h = Done (tt, h') ∧ index_at Tree h' [] ∧
    (∀ a, a ≠ Tree → h' !! a = h !! a).
Proof.
  intros Hn HS HN Hs. eexists. split_and!; [by unfold RBTree_Init; do 4 run1; apply store_eq; lookup_tac|..].
  - split; [constructor|]. exists E. split_and!; [|by exists 0%nat; constructor|done].
    rewrite !insert_insert_eq. split; [by rewrite lookup_insert_eq|done| |].
    + exists q. by rewrite lookup_insert_ne.
    + cbn. rewrite !NoDup_cons, !elem_of_cons, !elem_of_nil. split_and!; try naive_solver; constructor.
  - intros a Ha. rewrite !insert_insert_eq. by rewrite lookup_insert_ne.
Qed.

(** C6. [RBTree_Add] of a free node always returns [true]; afterwards the tree is
    again a red/black tree, its listing is the old one with the node inserted
    after every entry whose key is not greater, and no other cell changes. *)
Theorem RBTree_Add_index Tree h l New n :
  index_at Tree h l → New ∉ index_cells Tree l → New ≠ NULL →
  h !! New = Some n → Color n = RBTreeNode_Unassigned →
  ∃ h', RBTree_Add Compare Tree New (key (Object n)) h = Done (true, h') ∧
    index_at Tree h' (idx_add key cmp (key (Object n)) (New, Object n) l) ∧
    keeps ({[New]} ∪ index_cells Tree l) h h'.
Proof.
  intros (Ho & t & Hta & Hrb & <-) Hout Hnull Hn Hc. rewrite <-index_cells_tree in *.
  destruct (RBTree_Add_spec key cmp Tree h t New n (key (Object n)))
    as (h' & E' & t' & Hta' & Hrb' & Hin' & Hk); [done..|].
  exists h'. split_and!; [done| |done]. split; [by apply (idx_add_ordered key cmp (New, Object n))|].
  by exists t'.
Qed.

(** C7. [RBTreeNode_Prune] of a node of the tree always returns [true]; afterwards
    the tree is again a red/black tree, the listing has lost exactly that node,
    the node is marked unassigned, and no cell outside the tree changes. *)
Theorem RBTreeNode_Prune_index Tree h l1 a o l2 :
  index_at Tree h (l1 ++ (a, o) :: l2) →
  ∃ h' n, RBTreeNode_Prune a h = Done (true, h') ∧ index_at Tree h' (l1 ++ l2) ∧
    h' !! a = Some n ∧ Color n = RBTreeNode_Unassigned ∧ Object n = o ∧
    keeps (index_cells Tree (l1 ++ (a, o) :: l2)) h h'.
Proof.
  intros (Ho & t & Hta & Hrb & Hin).
  destruct (RBTreeNode_Prune_spec Tree h t l1 a o l2) as
    (h' & E' & (t' & n & Hta' & Hrb' & Hin' & Hn & Hon & Hk) & Hc); [done..|].
  exists h', n. rewrite <-Hin, <-index_cells_tree. split_and!; [done| |done|by apply Hc|done|done].
  split; [by eapply ordered_remove|]. by exists t'.
Qed.

(** C8. [RBTree_Find] returns and changes nothing: on an empty tree it yields
    [NULL] and -1; otherwise it yields an entry and the result of comparing with
    it, which is 0 exactly when the key is present; a negative relation says that
    all entries before have smaller keys, a positive one that all after have greater. *)
Theorem RBTree_Find_index Tree h l d :
  index_at Tree h l →
  ∃ s, RBTree_Find Compare Tree d h = Done (s, h) ∧
    (l = [] → s = mkSearch NULL (-1)) ∧
    (l ≠ [] → ∃ l1 o l2, l = l1 ++ (Nearest s, o) :: l2 ∧ Relation s = Compare d o ∧
       (Relation s < 0 → Forall (λ y, 0 < Compare d y.2) l1) ∧
       (Relation s > 0 → Forall (λ y, Compare d y.2 < 0) l2)) ∧
    (Relation s = 0 ↔ ∃ x, x ∈ l ∧ Compare d x.2 = 0).
Proof.
  intros (Ho & t & Hta & Hrb & <-).
  destruct (RBTree_Find_spec key cmp Tree h t d) as (s & E1 & [[Hnil ->]|Hf]); [done..| |].
  - exists (mkSearch NULL (-1)). rewrite Hnil. split_and!; [done|done|done|]. cbn.
    split; [done|]. intros (x & Hx & _). by apply elem_of_nil in Hx.
  - exists s. split_and!; [done| | |by eapply found_iff].
    + intros Hnil. destruct Hf as (l1 & o & l2 & Hl & _). rewrite Hnil in Hl. by destruct l1.
    + intros _. destruct Hf as (l1 & o & l2 & Hl & Hr & Hs). exists l1, o, l2.
      split_and!; [done|done|..]; intros ?; destruct Hs as [?|[[]|[]]]; by (lia || auto).
Qed.

(** C9. Walking from [RBTree_GetFirst] with [RBTreeNode_GetNext] visits the nodes
    of the listing in order and ends; [RBTree_GetLast], [GetNext] and [GetPrev]
    yield the last, the next and the previous entry, [NULL] past the ends. *)
Theorem RBTree_walk_index Tree h l :
  index_at Tree h l →
  (p ← RBTree_GetFirst Tree; walk (S (size h)) p) h = Done (l.*1, h) ∧
  RBTree_GetLast Tree h = Done (last_node l, h) ∧
  ∀ l1 a o l2, l = l1 ++ (a, o) :: l2 →
    RBTreeNode_GetNext a h = Done (first_node l2, h) ∧
    RBTreeNode_GetPrev a h = Done (last_node l1, h).
Proof.
  intros (Ho & t & Hta & Hrb & <-). split_and!.
  - rewrite (bind_done _ _ _ _ _ (GetFirst_spec _ _ _ Hta)). apply (walk_from Tree h t []); [done|done|].
    pose proof (tree_at_size _ _ _ Hta) as Hs. rewrite addrs_inorder, length_fmap in Hs. lia.
  - by apply GetLast_spec.
  - intros l1 a o l2 Hin. split; [by eapply GetNext_spec|by eapply GetPrev_spec].
Qed.
End theorems.

Lemma RBTree_Add_index_witness :
  ∃ h', RBTree_Add (compare_key id zcmp) 50 104 20 ex_heap = Done (true, h') ∧
    index_at id zcmp 50 h' [(101, 10); (102, 20); (104, 20); (103, 30)] ∧
    keeps ({[104]} ∪ index_cells 50 [(101, 10); (102, 20); (103, 30)]) ex_heap h'.
Proof.
  apply (RBTree_Add_index id zcmp 50 ex_heap [(101, 10); (102, 20); (103, 30)] 104
    (mkNode 0 0 0 RBTreeNode_Unassigned 20)); [apply ex_index| |done|done|done].
  apply (bool_decide_unpack _). vm_compute. done.
Defined.

Lemma RBTreeNode_Prune_index_witness :
  ∃ h' n, RBTreeNode_Prune 102 ex_heap = Done (true, h') ∧
    index_at id zcmp 50 h' [(101, 10); (103, 30)] ∧
    h' !! 102 = Some n ∧ Color n = RBTreeNode_Unassigned ∧ Object n = 20 ∧
    keeps (index_cells 50 [(101, 10); (102, 20); (103, 30)]) ex_heap h'.
Proof. apply (RBTreeNode_Prune_index id zcmp 50 ex_heap [(101, 10)] 102 20 [(103, 30)]), ex_index. Defined.

Lemma RBTree_Find_index_witness :
  ∃ s, RBTree_Find (compare_key id zcmp) 50 25 ex_heap = Done (s, ex_heap) ∧
    s = mkSearch 103 (-5) ∧
    (Relation s = 0 ↔ ∃ x, x ∈ [(101, 10); (102, 20); (103, 30)] ∧ compare_key id zcmp 25 x.2 = 0).
Proof.
  destruct (RBTree_Find_index id zcmp 50 ex_heap [(101, 10); (102, 20); (103, 30)] 25 ex_index)
    as (s & E1 & _ & _ & H). exists s. split_and!; [done| |done].
  vm_compute in E1. by injection E1 as <-.
Defined.

Lemma RBTree_walk_index_witness :
  (p ← RBTree_GetFirst 50; walk (S (size ex_heap)) p) ex_heap = Done ([101; 102; 103], ex_heap).
Proof.
  exact (proj1 (RBTree_walk_index id zcmp 50 ex_heap [(101, 10); (102, 20); (103, 30)] ex_index)).
Defined.
