(* ===== verification/RBTreeCost.v ===== *)
(** * What a tree costs over its history, and clearing it

    [built Tree h S]: the heap [h] is the result of [RBTree_Init] on [Tree] and of
    any calls of [RBTree_Add] and [RBTreeNode_Prune], with any changes of other
    memory in between; [S] holds the nodes that were added and not pruned.  No
    invariant of the tree is assumed: that the calls keep it balanced is what the
    bound on the searches rests on.  The second part is about [RBTree_Clear]. *)

From S2P Require Import Prelude OrdIndex RBTree RBTreeRep RBTreeAdd RBTreeWalk RBTreePrune RBTreeIndex.

(** The number of rounds a loop down the tree may need with [n] nodes. *)
Definition log_rounds (n : nat) : nat := 2 * Nat.log2 (n + 1).

Section history.
Context {D : Type} (key : Z → D) (cmp : D → D → Z) `{!TotalCmp cmp}.

Local Abbreviation Compare := (compare_key key cmp).

Inductive built (Tree : ptr) : heap → gset ptr → Prop :=
  | built_init h h' n q :
      h !! Tree = Some n → Tree ≠ Sentinel → Tree ≠ NULL →
      h !! Sentinel = Some (mkNode Sentinel Sentinel q RBTreeNode_Black 0) →
      RBTree_Init Tree h = Done (tt, h') → built Tree h' ∅
  | built_add h h' S New n b :
      built Tree h S → New ≠ NULL → h !! New = Some n → Color n = RBTreeNode_Unassigned →
      RBTree_Add Compare Tree New (key (Object n)) h = Done (b, h') → built Tree h' ({[New]} ∪ S)
  | built_prune h h' S a b :
      built Tree h S → a ∈ S → RBTreeNode_Prune a h = Done (b, h') → built Tree h' (S ∖ {[a]})
  | built_other h h' S :
      built Tree h S → (∀ a, a ∈ {[Tree; Sentinel]} ∪ S → h' !! a = h !! a) → built Tree h' S.

(** ** Facts on the cells of an index *)

Lemma tree_cell_coloured h par t a : rep h par t → a ∈ addrs t →
  ∃ n, h !! a = Some n ∧ Color n ≠ RBTreeNode_Unassigned.
Proof.
  revert par; induction t as [|c l IHl b o r IHr]; intros par Ht Ha; cbn in *;
    [by apply elem_of_nil in Ha|]. destruct Ht as (Hb & Hl & Hr).
  apply elem_of_app in Ha as [Ha|[->|Ha]%elem_of_cons]; [by eapply IHl| |by eapply IHr].
  eexists; split; [done|]. by destruct c.
Qed.

Lemma index_cell_coloured Tree h l a n : index_at key cmp Tree h l →
  h !! a = Some n → Color n = RBTreeNode_Unassigned → a ∉ index_cells Tree l.
Proof.
  intros (_ & t & [Hroot Hrep [q Hs] _] & _ & <-) Hn Hc. unfold index_cells.
  rewrite <-addrs_inorder, !elem_of_union, !elem_of_singleton, elem_of_list_to_set.
  intros [[->| ->]|Ha]; [by simplify_eq..|].
  destruct (tree_cell_coloured _ _ _ _ Hrep Ha) as (n' & ? & ?). congruence.
Qed.

Lemma index_nodup Tree h l : index_at key cmp Tree h l → NoDup l.*1.
Proof.
  intros (_ & t & [_ _ _ Hnd] & _ & <-). rewrite <-addrs_inorder.
  by do 3 apply NoDup_cons in Hnd as [_ Hnd].
Qed.

Lemma index_agree Tree h h' l : index_at key cmp Tree h l →
  (∀ a, a ∈ index_cells Tree l → h' !! a = h !! a) → index_at key cmp Tree h' l.
Proof.
  intros (Ho & t & [Hroot Hrep [q Hs] Hnd] & Hrb & <-) Heq. split; [done|]. exists t.
  unfold index_cells in Heq. rewrite <-addrs_inorder in Heq. split_and!; [|done..]. split.
  - rewrite Heq; [done|set_solver].
  - apply (rep_ext h); [|done]. intros a Ha. apply Heq. set_solver.
  - exists q. rewrite Heq; [done|set_solver].
  - done.
Qed.

Lemma idx_add_addrs d (x : ptr * Z) l : (idx_add key cmp d x l).*1 ≡ₚ x.1 :: l.*1.
Proof.
  induction l as [|y l IH]; cbn; [done|]. destruct (_ <? _); cbn; [done|].
  rewrite IH. by apply perm_swap.
Qed.

(** ** The history keeps the index *)

Lemma built_index Tree h S : built Tree h S →
  ∃ l, index_at key cmp Tree h l ∧ S = list_to_set l.*1.
Proof.
  induction 1 as [h h' n q Hn HS HN Hs E1|h h' S New n b _ (l & Hl & ->) HN Hn Hc E1
                 |h h' S a b _ (l & Hl & ->) Ha E1|h h' S _ (l & Hl & ->) Heq].
  - destruct (RBTree_Init_empty key cmp Tree h n q Hn HS HN Hs) as (h2 & E2 & Hi & _).
    rewrite E1 in E2. injection E2 as <-. by exists [].
  - pose proof (index_cell_coloured _ _ _ _ _ Hl Hn Hc) as Hout.
    destruct (RBTree_Add_index key cmp Tree h l New n Hl Hout HN Hn Hc) as (h2 & E2 & Hi & _).
    rewrite E1 in E2. injection E2 as -> <-. eexists; split; [done|].
    by rewrite (list_to_set_perm_L _ _ (idx_add_addrs _ _ _)).
  - apply elem_of_list_to_set, list_elem_of_fmap in Ha as ([a' o] & -> & Ha).
    apply list_elem_of_split in Ha as (l1 & l2 & ->). pose proof (index_nodup _ _ _ Hl) as Hnd.
    destruct (RBTreeNode_Prune_index key cmp Tree h l1 a' o l2 Hl) as (h2 & ? & E2 & Hi & _).
    cbn [fst] in *. rewrite E1 in E2. injection E2 as -> <-. exists (l1 ++ l2). split; [done|].
    rewrite !fmap_app, fmap_cons in *. cbn [fst] in Hnd. apply NoDup_app in Hnd as (_ & H1 & [H2 _]%NoDup_cons).
    apply set_eq. intros y. specialize (H1 y). set_solver.
  - exists l. split; [|done]. apply (index_agree Tree h); done.
Qed.

(** ** Searches with a bounded number of rounds *)

Lemma bind_load {A B} p (f : RBTreeNode → A) (k : A → RB B) h r :
  (load p f ≫= k) h = Done r → ∃ n, h !! p = Some n ∧ k (f n) h = Done r.
Proof. unfold mbind, M_bind, load. destruct (h !! p) as [n|]; [|done]. eauto. Qed.

(** A search that ended gives the same result with more rounds. *)
Lemma Find_loop_more f1 f2 d p h r : (f1 ≤ f2)%nat →
  RBTree_Find_loop Compare f1 d p h = Done r → RBTree_Find_loop Compare f2 d p h = Done r.
Proof.
  revert f2 p; induction f1 as [|f1 IH]; intros [|f2] p Hle; [done..|lia|].
  cbn [RBTree_Find_loop]. intros (n & Hn & H)%bind_load.
  rewrite (bind_done _ _ _ _ _ (load_eq _ _ _ _ Hn)).
  destruct (_ <? 0); [|destruct (_ >? 0); [|done]]; apply bind_load in H as (n' & Hn' & H);
    rewrite (bind_done _ _ _ _ _ (load_eq _ _ _ _ Hn'));
    (destruct (_ =? Sentinel); [done|]); apply IH; (lia || done).
Qed.

Lemma log_depth t n : is_rb t → length (inorder t) = n → (depth t ≤ log_rounds n)%nat.
Proof.
  intros [m Hr] <-. destruct (rbt_height _ _ _ Hr) as [Hd Hs].
  apply Nat.log2_le_mono in Hs. rewrite Nat.log2_pow2 in Hs by lia. unfold log_rounds. lia.
Qed.

(** C10. However a tree came about by calls of [RBTree_Init], [RBTree_Add] and
    [RBTreeNode_Prune], with [n] nodes in it the loop of [RBTree_Find] and the
    descent of [RBTree_Add] end within [2 * log2 (n + 1)] rounds: with that fuel
    [RBTree_Find_loop] gives what [RBTree_Find] gives, and [RBTree_Add_descend]
    returns, for every key. *)
Theorem RBTree_rounds_logarithmic Tree h S : built Tree h S → S ≠ ∅ →
  (∀ d, ∃ s, RBTree_Find Compare Tree d h = Done (s, h) ∧
     (r ← load Tree Left; RBTree_Find_loop Compare (log_rounds (size S)) d r) h = Done (s, h)) ∧
  (∀ d New p o, New ∉ {[Tree; Sentinel; NULL]} ∪ S →
     h !! New = Some (mkNode Sentinel Sentinel p RBTreeNode_Red o) →
     ∃ c h', (r ← load Tree Left;
              RBTree_Add_descend Compare (log_rounds (size S)) New d r) h = Done (c, h')).
Proof.
  intros (l & Hl & ->)%built_index Hne. pose proof (index_nodup _ _ _ Hl) as Hnd.
  rewrite size_list_to_set, length_fmap by done.
  pose proof Hl as (Ho & t & Hta & Hrb & Hin). pose proof (log_depth t _ Hrb (f_equal length Hin)) as Hd.
  assert (Ht : t ≠ E) by (intros ->; cbn in Hin; by subst l). split.
  - intros d. destruct (RBTree_Find_spec key cmp Tree h t d Hta) as (s & E1 & _); [by rewrite Hin|].
    exists s. split; [done|]. unfold RBTree_Find in E1.
    erewrite bind_done in E1 |- * by apply load_eq, Hta. cbn [Left] in E1 |- *.
    destruct (root t =? Sentinel) eqn:Er; [by apply (root_sentinel_iff Tree h []) in Er|].
    destruct (Find_loop_spec key cmp (log_rounds (length l)) Tree h [] t d) as (s' & E2 & _);
      [done|done|done|by cbn [fill]; rewrite Hin|constructor|constructor|].
    rewrite E2. f_equal. f_equal.
    destruct (Nat.le_ge_cases (log_rounds (length l)) (Datatypes.S (size h))) as [Hle|Hle];
      apply (Find_loop_more _ _ _ _ _ _ Hle) in E1 || apply (Find_loop_more _ _ _ _ _ _ Hle) in E2; congruence.
  - intros d New p o HNew Hn. erewrite bind_done by apply load_eq, Hta. cbn [Left].
    destruct (Add_descend_spec key cmp (log_rounds (length l)) Tree h [] t New d p o) as (k' & h' & E1 & _);
      [done|done|done| | |done|by cbn [fill]; rewrite Hin| |].
    + cbn [fill]. unfold cells. rewrite addrs_inorder, Hin. set_solver.
    + set_solver.
    + split; constructor.
    + by exists (up Tree k'), h'.
Qed.
End history.

(** A tree built from raw memory: three nodes are added, one is removed. *)
Definition free_node (o : Z) : RBTreeNode := mkNode 0 0 0 RBTreeNode_Unassigned o.
Definition raw_heap : heap :=
  {[ 50 := mkNode 0 0 0 0 0; Sentinel := Sentinel_init;
     101 := free_node 10; 102 := free_node 20; 103 := free_node 30 ]}.

Lemma ex_built : ∃ h, built id zcmp 50 h (({[103]} ∪ ({[102]} ∪ ({[101]} ∪ ∅))) ∖ {[102]}).
Proof.
  eexists. eapply built_prune.
  - eapply (built_add id zcmp 50 _ _ _ 103).
    + eapply (built_add id zcmp 50 _ _ _ 102).
      * eapply (built_add id zcmp 50 _ _ _ 101).
        -- eapply (built_init id zcmp 50 raw_heap); [vm_compute; reflexivity|done|done|vm_compute; reflexivity|].
           vm_compute. reflexivity.
        -- done.
        -- vm_compute. reflexivity.
        -- done.
        -- vm_compute. reflexivity.
      * done.
      * vm_compute. reflexivity.
      * done.
      * vm_compute. reflexivity.
    + done.
    + vm_compute. reflexivity.
    + done.
    + vm_compute. reflexivity.
  - set_solver.
  - vm_compute. reflexivity.
Defined.

Lemma RBTree_rounds_logarithmic_witness : ∃ h s,
  (r ← load 50 Left; RBTree_Find_loop (compare_key id zcmp) 2 25 r) h = Done (s, h).
Proof.
  destruct ex_built as [h Hb]. exists h.
  destruct (proj1 (RBTree_rounds_logarithmic id zcmp 50 h _ Hb ltac:(apply (bool_decide_unpack _); vm_compute; done)) 25)
    as (s & _ & E1). exists s. exact E1.
Defined.

(** ** RBTree_Clear *)

(** Two heaps that differ in colours and objects only. *)
Definition same_links (h h' : heap) : Prop := ∀ a,
  match h !! a, h' !! a with
  | Some n, Some n' => Left n' = Left n ∧ Right n' = Right n ∧ Parent n' = Parent n
  | None, None => True
  | _, _ => False
  end.

Lemma same_links_size h h' : same_links h h' → size h' = size h.
Proof.
  intros H. rewrite <-!size_dom. f_equal. apply set_eq. intros a. rewrite !elem_of_dom.
  specialize (H a). destruct (h !! a), (h' !! a); rewrite <-?not_eq_None_Some; naive_solver.
Qed.

Lemma same_links_colour h h' a c n : same_links h h' → h' !! a = Some n →
  same_links h (<[a := set_Color c n]> h').
Proof.
  intros H Hn b. specialize (H b). destruct (decide (a = b)) as [<-|Hab].
  - rewrite lookup_insert_eq. rewrite Hn in H. by destruct (h !! a).
  - by rewrite lookup_insert_ne.
Qed.

(** A computation that follows links only. *)
Definition link_only {A} (m : RB A) : Prop := ∀ h h' x h2,
  same_links h h' → m h = Done (x, h2) → h2 = h ∧ m h' = Done (x, h').

Lemma link_ret {A} (a : A) : link_only (mret a).
Proof. intros h h' x h2 _ [= -> ->]. done. Qed.

Lemma link_bind {A B} (m : RB A) (k : A → RB B) :
  link_only m → (∀ a, link_only (k a)) → link_only (m ≫= k).
Proof.
  intros Hm Hk h h' x h2 H. unfold mbind, M_bind. destruct (m h) as [[a h1]| | | |] eqn:E1; [|done..].
  destruct (Hm _ _ _ _ H E1) as [-> ->]. by apply Hk.
Qed.

Lemma link_load (p : ptr) (f : RBTreeNode → ptr) : f = Left ∨ f = Right ∨ f = Parent → link_only (load p f).
Proof.
  intros Hf h h' x h2 H. specialize (H p). unfold load.
  destruct (h !! p), (h' !! p); try done. intros [= <- <-]. split; [done|].
  destruct H as (H1 & H2 & H3), Hf as [->|[->| ->]]; cbn; congruence.
Qed.

Lemma link_if {A} (b : bool) (m1 m2 : RB A) : link_only m1 → link_only m2 → link_only (if b then m1 else m2).
Proof. by destruct b. Qed.

Ltac link := repeat first
  [ apply link_ret | apply link_bind; [|intros ?] | apply link_load; tauto | apply link_if | done ].

Lemma link_Leftmost fuel p : link_only (RBTreeNode_GetLeftmost_fuel fuel p).
Proof. revert p; induction fuel; intros p; [done|]. cbn [RBTreeNode_GetLeftmost_fuel]. link. Qed.

Lemma link_GetNext_up fuel n p : link_only (GetNext_up fuel n p).
Proof. revert n p; induction fuel; intros n p; [done|]. cbn [GetNext_up]. link. Qed.

Lemma link_GetNext p : link_only (RBTreeNode_GetNext p).
Proof.
  intros h h' x h2 H. unfold RBTreeNode_GetNext. rewrite (same_links_size _ _ H).
  match goal with |- ?m h = _ → _ => assert (Hm : link_only m) end; [|by apply Hm].
  link; [apply link_Leftmost|apply link_GetNext_up].
Qed.

(** The loop marks the nodes of the listing one after the other, and then goes on
    with the [NULL] that [RBTreeNode_GetNext] returns after the last. *)
Lemma Clear_loop_faults Tree h t fuel l1 l2 h' :
  tree_at Tree h t → inorder t = l1 ++ l2 → (length l2 < fuel)%nat →
  same_links h h' → h !! NULL = None → RBTree_Clear_loop fuel (first_node l2) h' = Fault.
Proof.
  intros Hta. revert l1 l2 h'; induction fuel as [|fuel IH]; intros l1 l2 h' Hin Hf Hs HN; [lia|].
  cbn [RBTree_Clear_loop]. destruct l2 as [|[a o] l2]; cbn [first_node head from_option fst].
  - specialize (Hs NULL). rewrite HN in Hs. cbn. unfold mbind, M_bind, store. by destruct (h' !! NULL).
  - pose proof (GetNext_spec Tree h t l1 a o l2 Hta Hin) as En.
    destruct (a =? Sentinel) eqn:Ea; cbn [negb].
    { pose proof (ta_nodup _ _ _ Hta) as Hnd. rewrite addrs_inorder, Hin, fmap_app in Hnd. cbn [fmap list_fmap fst] in Hnd.
      apply NoDup_cons in Hnd as [_ [Hnd _]%NoDup_cons]. set_solver by lia. }
    pose proof (Hs a) as Ha. destruct (h' !! a) as [n|] eqn:Hn.
    + rewrite (bind_done _ _ _ _ _ (store_eq _ _ _ _ Hn)).
      pose proof (same_links_colour _ _ a RBTreeNode_Unassigned n Hs Hn) as Hs2.
      destruct (link_GetNext a _ _ _ _ Hs2 En) as [_ En2].
      rewrite (bind_done _ _ _ _ _ En2). apply (IH (l1 ++ [(a, o)])); [by rewrite <-app_assoc|cbn in Hf; lia|done..].
    + unfold mbind, M_bind, store. by rewrite Hn.
Qed.

Section clear.
Context {D : Type} (key : Z → D) (cmp : D → D → Z).

(** C35. [RBTree_Clear] dereferences a null pointer on every tree that is not
    empty: its loop ends at the sentinel, but [RBTreeNode_GetNext] ends the walk
    with [NULL], which is marked like a node. *)
Theorem RBTree_Clear_faults Tree h l :
  index_at key cmp Tree h l → l ≠ [] → h !! NULL = None → RBTree_Clear Tree h = Fault.
Proof.
  intros (_ & t & Hta & _ & <-) Hl HN. pose proof (tree_at_size _ _ _ Hta) as Hs.
  rewrite addrs_inorder, length_fmap in Hs. pose proof (GetFirst_spec _ _ _ Hta) as E1.
  pose proof (load_eq h Tree Left _ (ta_root _ _ _ Hta)) as Er. cbn [Left] in Er.
  unfold RBTree_GetFirst in E1. rewrite (bind_done _ _ _ _ _ Er) in E1.
  unfold RBTree_Clear. rewrite (bind_done _ _ _ _ _ Er). destruct (root t =? Sentinel) eqn:Et.
  { apply (root_sentinel_iff Tree h []) in Et as ->; [|done]. done. }
  rewrite (bind_done _ _ _ _ _ E1). unfold mbind at 1, M_bind at 1.
  rewrite (Clear_loop_faults Tree h t _ [] (inorder t)); [done|done|done|lia| |done].
  intros a. by destruct (h !! a).
Qed.
End clear.

Lemma RBTree_Clear_faults_witness : RBTree_Clear 50 ex_heap = Fault.
Proof. apply (RBTree_Clear_faults id zcmp 50 ex_heap [(101, 10); (102, 20); (103, 30)]); [apply ex_index|done..]. Defined.
