(* ===== verification/Table.v ===== *)
(** * Tables of objects

    The daemon has three tables: services by name, services by process id, and
    named descriptors by name.  Each is a red/black tree over nodes that are
    embedded in the objects.  [table_at] says that the tree at [Tree] indexes the
    objects [l], in key order; the lemmas are what fd.c and service.c rely on.  The
    trees share one heap and the sentinel node, so each lemma also says that the
    other tables are left alone. *)

From Stdlib Require Import Sorted.
From S2P Require Import Prelude OrdIndex RBTree RBTreeRep RBTreeAdd RBTreeWalk RBTreePrune RBTreeIndex.

(** ** The comparison matters only through its results *)

Section ext.
Context {D1 D2 : Type} (C1 : D1 → Z → Z) (C2 : D2 → Z → Z) (d1 : D1) (d2 : D2).
Hypothesis HC : ∀ o, C1 d1 o = C2 d2 o.

Lemma Find_loop_ext fuel cur h : RBTree_Find_loop C1 fuel d1 cur h = RBTree_Find_loop C2 fuel d2 cur h.
Proof.
  revert cur h; induction fuel as [|fuel IH]; intros cur h; [done|]. cbn [RBTree_Find_loop].
  mstep. destruct (load cur Object h) as [[o h1]| | | |]; [|done..]. rewrite HC.
  repeat case_match; try done; by rewrite ?IH.
Qed.

Lemma RBTree_Find_ext Tree h : RBTree_Find C1 Tree d1 h = RBTree_Find C2 Tree d2 h.
Proof.
  unfold RBTree_Find. mstep. destruct (load Tree Left h) as [[l h1]| | | |]; [|done..].
  case_match; [done|]. apply Find_loop_ext.
Qed.

Lemma Add_descend_ext fuel New cur h :
  RBTree_Add_descend C1 fuel New d1 cur h = RBTree_Add_descend C2 fuel New d2 cur h.
Proof.
  revert cur h; induction fuel as [|fuel IH]; intros cur h; [done|]. cbn [RBTree_Add_descend].
  mstep. destruct (load cur Object h) as [[o h1]| | | |]; [|done..]. rewrite HC.
  destruct (C2 d2 o <? 0);
    [destruct (load cur Left h1) as [[l h2]| | | |]|destruct (load cur Right h1) as [[l h2]| | | |]];
    try done; destruct (l =? Sentinel); try done; apply IH.
Qed.

Lemma RBTree_Add_ext Tree New h : RBTree_Add C1 Tree New d1 h = RBTree_Add C2 Tree New d2 h.
Proof.
  unfold RBTree_Add, RBTree_Add_fuel. mstep.
  destruct (load New Color h) as [[c h1]| | | |]; [|done..]. destruct (negb _); [done|].
  do 3 (destruct (store New _ _) as [[[] ?]| | | |]; [|done..]).
  destruct (load Tree Left _) as [[cur ?]| | | |]; [|done..]. destruct (cur =? Sentinel); [done|].
  rewrite Add_descend_ext. done.
Qed.
End ext.

Section table.
Context {D : Type} (cmp : D → D → Z) `{!TotalCmp cmp} (Tree : ptr) (node : Z → ptr).
Hypothesis cmp_eq : ∀ a b, cmp a b = 0 → a = b.

Definition ent (o : Z) : ptr * Z := (node o, o).

Definition table_at (key : Z → D) (h : heap) (l : list Z) : Prop :=
  index_at key cmp Tree h (ent <$> l).

(** The cells of the table but the sentinel. *)
Definition table_cells (l : list Z) : list ptr := Tree :: (node <$> l).

Lemma ent_fst l : (ent <$> l).*1 = node <$> l.
Proof. rewrite <-list_fmap_compose. done. Qed.
Lemma ent_snd l : (ent <$> l).*2 = l.
Proof. rewrite <-list_fmap_compose. by rewrite list_fmap_id. Qed.

Lemma table_cells_spec a l : a ∈ index_cells Tree (ent <$> l) ↔ a = Sentinel ∨ a ∈ table_cells l.
Proof.
  unfold index_cells, table_cells. rewrite ent_fst, elem_of_cons, !elem_of_union, !elem_of_singleton, elem_of_list_to_set.
  tauto.
Qed.

(** Only the keys of the listed objects matter. *)
Lemma table_ext key key' h l : (∀ o, o ∈ l → key o = key' o) → table_at key h l → table_at key' h l.
Proof.
  intros Hk [Ho Ht]. split; [|done]. clear Ht. unfold ordered in *. induction l as [|o l IH]; cbn in *; [constructor|].
  apply StronglySorted_inv in Ho as [Ho Hf]. constructor.
  - apply IH; [|done]. intros o' Ho'. apply Hk. by right.
  - rewrite Forall_forall in Hf |- *. intros x Hx. specialize (Hf x Hx). unfold key_le in *. cbn in *.
    apply list_elem_of_fmap in Hx as (o' & -> & Ho'). cbn in *.
    rewrite <-(Hk o), <-(Hk o'); [done|by right|by left].
Qed.

Lemma rep_agree h h' p t : (∀ a, a ∈ addrs t → h' !! a = h !! a) → rep h p t → rep h' p t.
Proof.
  revert p; induction t as [|c l IHl a o r IHr]; intros p Hd Hr; cbn in *; [done|].
  destruct Hr as (H1 & H2 & H3). rewrite Hd; [|rewrite elem_of_app, elem_of_cons; tauto]. split_and!; [done|..].
  - apply IHl; [|done]. intros b Hb. apply Hd. rewrite elem_of_app. tauto.
  - apply IHr; [|done]. intros b Hb. apply Hd. rewrite elem_of_app, elem_of_cons. tauto.
Qed.

(** A table is untouched by changes elsewhere and to the sentinel's [Parent]. *)
Lemma table_agree key h h' l : table_at key h l → (∀ a, a ∈ table_cells l → h' !! a = h !! a) → sent_at h' →
  table_at key h' l.
Proof.
  intros (Ho & t & [R1 R2 R3 R4] & Hrb & Hin) Hd Hsent. split; [done|].
  assert (Ha : addrs t = node <$> l) by by rewrite addrs_inorder, Hin, ent_fst.
  exists t. split_and!; [|done|done]. split; [|..|done|done].
  - rewrite Hd; [done|]. by left.
  - eapply rep_agree; [|done]. intros a Hin'. apply Hd. right. by rewrite <-Ha.
Qed.

Lemma table_frame key S h h' l : table_at key h l → keeps S h h' →
  (∀ a, a ∈ table_cells l → a ∉ S) → sent_at h' → table_at key h' l.
Proof. intros Ht HS Hd. apply (table_agree _ h); [done|]. intros a Ha. by apply HS, Hd. Qed.

Lemma table_sent key h l : table_at key h l → sent_at h.
Proof. intros (_ & t & Hta & _). apply Hta. Qed.

Lemma table_nodup key h l : table_at key h l → NoDup (Sentinel :: NULL :: table_cells l).
Proof.
  intros (_ & t & Hta & _ & Hin). pose proof (ta_nodup _ _ _ Hta) as Hn.
  rewrite addrs_inorder, Hin, ent_fst in Hn. unfold table_cells.
  rewrite !NoDup_cons, !not_elem_of_cons in Hn |- *. bsplit. split_and!; (done || congruence).
Qed.

(** The node of a listed object holds the object and is assigned. *)
Lemma table_node key h l o : table_at key h l → o ∈ l →
  ∃ n, h !! node o = Some n ∧ Object n = o ∧ (Color n = RBTreeNode_Black ∨ Color n = RBTreeNode_Red).
Proof.
  intros (_ & t & Hta & _ & Hin) Ho. apply list_elem_of_split in Ho as (l1 & l2 & ->).
  rewrite fmap_app in Hin. cbn in Hin. destruct (RBTreeWalk.position t (ent <$> l1) (node o) o (ent <$> l2) Hin) as (k & c & tl & tr & -> & _ & _).
  apply focus_iff in Hta. destruct Hta as [_ [Hn _] _ _]. eexists. split_and!; [exact Hn|done|].
  destruct c; [by right|by left].
Qed.

Lemma table_add key h l o n : table_at key h l → NULL ≠ node o → Sentinel ≠ node o → node o ∉ table_cells l →
  h !! node o = Some n → Object n = o → Color n = RBTreeNode_Unassigned →
  ∃ h' l1 l2, RBTree_Add (compare_key key cmp) Tree (node o) (key o) h = Done (true, h') ∧
    l = l1 ++ l2 ∧ table_at key h' (l1 ++ o :: l2) ∧
    keeps (list_to_set (Sentinel :: node o :: table_cells l)) h h'.
Proof.
  intros (Ho & t & Hta & Hrb & Hin) HN HS Hout Hn Hobj Hc.
  destruct (RBTree_Add_spec key cmp Tree h t (node o) n (key o)) as (h' & E1 & t' & Hta' & Hrb' & Hin' & Hk);
    [done|done|by rewrite Hin| |done|done|done|].
  { rewrite index_cells_tree, Hin, table_cells_spec. intros [?|?]; [congruence|done]. }
  destruct (cut_exists key cmp (key o) (ent <$> l)) as (m1 & m2 & Hm & Hcut); [done|].
  apply fmap_app_inv in Hm as (l1 & l2 & -> & -> & ->).
  exists h', l1, l2. split_and!; [done|done| |].
  - split.
    + pose proof (idx_add_ordered key cmp (ent o) (ent <$> (l1 ++ l2)) Ho) as Ho'. cbn [snd ent] in Ho'.
      rewrite fmap_app, (idx_add_cut key cmp _ _ _ _ Hcut) in Ho'. by rewrite fmap_app, fmap_cons.
    + exists t'. split_and!; [done|done|]. rewrite Hin', Hobj, Hin, fmap_app.
      rewrite (idx_add_cut key cmp _ _ _ _ Hcut). by rewrite fmap_app, fmap_cons.
  - intros a Ha. apply Hk. rewrite index_cells_tree, Hin, elem_of_union, elem_of_singleton, table_cells_spec.
    rewrite elem_of_list_to_set, !elem_of_cons in Ha. tauto.
Qed.

Lemma table_prune key h l1 o l2 : table_at key h (l1 ++ o :: l2) →
  ∃ h' n, RBTreeNode_Prune (node o) h = Done (true, h') ∧ table_at key h' (l1 ++ l2) ∧
    h' !! node o = Some n ∧ Color n = RBTreeNode_Unassigned ∧ Object n = o ∧
    keeps (list_to_set (Sentinel :: table_cells (l1 ++ o :: l2))) h h'.
Proof.
  intros (Ho & t & Hta & Hrb & Hin). rewrite fmap_app in Hin, Ho. cbn in Hin, Ho.
  destruct (RBTreeNode_Prune_spec Tree h t (ent <$> l1) (node o) o (ent <$> l2)) as
    (h' & E' & (t' & n & Hta' & Hrb' & Hin' & Hn & Hon & Hk) & Hc); [done..|].
  exists h', n. split_and!; [done| |done|by apply Hc|done|].
  - split; [rewrite fmap_app; by eapply ordered_remove|]. exists t'. by rewrite fmap_app.
  - intros a Ha. apply Hk. rewrite index_cells_tree, Hin. change (ent <$> l1 ++ _) with (ent <$> (l1 ++ o :: l2)).
    rewrite elem_of_list_to_set, elem_of_cons in Ha. 
    replace ((ent <$> l1) ++ (node o, o) :: (ent <$> l2)) with (ent <$> (l1 ++ o :: l2)) by by rewrite fmap_app.
    rewrite table_cells_spec. done.
Qed.

Lemma table_find key h l d : table_at key h l →
  ∃ s, RBTree_Find (compare_key key cmp) Tree d h = Done (s, h) ∧
    ((Relation s = 0 ∧ ∃ o, o ∈ l ∧ key o = d ∧ Nearest s = node o) ∨
     (Relation s ≠ 0 ∧ (∀ o, o ∈ l → key o ≠ d))).
Proof.
  intros (Ho & t & Hta & Hrb & Hin).
  destruct (RBTree_Find_spec key cmp Tree h t d) as (s & E1 & Hs); [done|by rewrite Hin|].
  exists s. split; [done|]. rewrite Hin in Hs. destruct Hs as [[Hnil ->]|Hf].
  - right. split; [done|]. intros o Hol. apply fmap_nil_inv in Hnil as ->. by apply elem_of_nil in Hol.
  - destruct (decide (Relation s = 0)) as [H0|H0].
    + left. split; [done|]. destruct Hf as (m1 & o & m2 & Hl & Hr & _). rewrite H0 in Hr.
      assert (Hx : (Nearest s, o) ∈ ent <$> l) by (rewrite Hl, elem_of_app, elem_of_cons; tauto).
      apply list_elem_of_fmap in Hx as (o' & Heq & Hol). injection Heq as Hn ->. exists o'. split_and!; [done| |done].
      symmetry. by apply cmp_eq.
    + right. split; [done|]. intros o Hol <-. apply H0. apply (found_iff key cmp (key o) s (ent <$> l)); [done|done|].
      exists (ent o). split; [by apply list_elem_of_fmap_2|]. unfold compare_key. cbn. apply cmp_refl.
Qed.

(** Where a walk that starts at the key [d] begins: the first object whose key is
    greater. *)
Lemma table_find_next key h l d : table_at key h l →
  ∃ s, RBTree_Find (compare_key key cmp) Tree d h = Done (s, h) ∧
    ((Nearest s = NULL ∧ l = []) ∨
     ∃ l1 o l2, l = l1 ++ o :: l2 ∧ Nearest s = node o ∧ Nearest s ≠ NULL ∧
       (Relation s < 0 → Forall (λ o, cmp d (key o) > 0) l1 ∧ cmp d (key o) < 0) ∧
       (Relation s > 0 → cmp d (key o) > 0 ∧ Forall (λ o, cmp d (key o) < 0) l2) ∧
       (Relation s = 0 → key o = d)).
Proof.
  intros Ht. pose proof Ht as (Ho & t & Hta & Hrb & Hin).
  destruct (RBTree_Find_spec key cmp Tree h t d) as (s & E1 & Hs); [done|by rewrite Hin|].
  exists s. split; [done|]. rewrite Hin in Hs. destruct Hs as [[Hnil ->]|(m1 & o & m2 & Hl & Hr & Hs)].
  - left. by apply fmap_nil_inv in Hnil.
  - right. pose proof Hl as Hl'. apply fmap_app_inv in Hl' as (l1 & l2' & -> & Hm2 & ->).
    destruct l2' as [|o' l2]; [done|]. cbn in Hm2. injection Hm2 as Hn <- ->.
    exists l1, o, l2. unfold compare_key in *. split_and!; [done|by symmetry| | | |].
    + rewrite Hn. pose proof (table_nodup _ _ _ Ht) as Hnd. unfold table_cells in Hnd. rewrite fmap_app in Hnd.
      cbn in Hnd. rewrite !NoDup_cons in Hnd. destruct Hnd as (_ & Hnd & _).
      intros E0. apply Hnd. rewrite <-E0. rewrite !elem_of_cons, elem_of_app, elem_of_cons. tauto.
    + intros Hlt. rewrite <-Hr. split; [|done]. destruct Hs as [?|[[_ Hs]|[? _]]]; [lia| |lia].
      rewrite Forall_fmap in Hs. eapply Forall_impl; [exact Hs|]. cbn. lia.
    + intros Hgt. rewrite <-Hr. split; [done|]. destruct Hs as [?|[[? _]|[_ Hs]]]; [lia|lia|].
      rewrite Forall_fmap in Hs. exact Hs.
    + intros H0. symmetry. apply cmp_eq. by rewrite <-Hr.
Qed.

Lemma table_next key h l1 o l2 : table_at key h (l1 ++ o :: l2) →
  RBTreeNode_GetNext (node o) h = Done (match l2 with [] => NULL | o' :: _ => node o' end, h).
Proof.
  intros (_ & t & Hta & _ & Hin). rewrite fmap_app in Hin. cbn in Hin.
  rewrite (GetNext_spec Tree h t (ent <$> l1) (node o) o (ent <$> l2)) by done.
  by destruct l2.
Qed.
End table.
