(* ===== verification/State.v ===== *)
(** * The state of the daemon, and its system calls

    One record per source file holds that file's variables; [G] puts them
    together.  A function of the daemon is a computation [DP A] over [G].  Objects
    (services and named descriptors) are known by their address, a number, and
    live in finite maps; the nodes by which the two trees index them live in the
    heap of [RBTree].  What the operating system answers to a call is a parameter,
    a function of the calls made so far. *)

From S2P Require Import Prelude Strseg RBTree.

(** ** Constants of config.h *)

Definition NAME_BUF_SIZE : Z := 32.
Definition FORK_RETRY_DELAY : Z := 3 * 2 ^ 32.
Definition CONTROLLER_WRITE_TIMEOUT : Z := 30 * 2 ^ 32.
Definition LOG_RETRY_DELAY : Z := 2 ^ 31.
Definition CONTROLLER_RECV_BUF_SIZE : Z := 1024.
Definition CONTROLLER_LARGEST_WRITE : Z := 1024.
Definition CONTROLLER_SEND_BUF_SIZE : Z := 2048.
Definition CONTROLLER_MAX_CLIENTS : nat := 2.
Definition FD_SETSIZE : Z := 1024.

(** ** System calls *)

(** The calls the daemon makes, with the arguments that matter.  [CMalloc] stands
    for [malloc] and [realloc]: the system says whether there is memory. *)
Inductive syscall :=
  | CWrite (fd : Z) (data : list Z)
  | CRead (fd n : Z)
  | CRecvmsg (fd n : Z)
  | CClose (fd : Z)
  | CGetfl (fd : Z)
  | CSetfl (fd fl : Z)
  | CSetfd (fd fl : Z)
  | CGetsockopt (fd : Z)
  | CGetsockname (fd : Z)
  | COpen (path : list Z) (flags : Z)
  | CDup (fd : Z)
  | CDup2 (fd to : Z)
  | CPipe
  | CSocketpair (domain type : Z)
  | CShutdown (fd how : Z)
  | CFork
  | CExec (argv : list (list Z))
  | CKill (pid sig : Z)
  | CKillpg (pid sig : Z)
  | CWaitpid
  | CGetpid
  | CClock
  | CTime
  | CSelect (max : Z) (r w e : gset Z) (timeout : Z)
  | CSigaction (sig : Z) (handler : Z)
  | CSigprocmask
  | CSocket (domain type : Z)
  | CBind (fd : Z) (addr : list Z)
  | CListen (fd n : Z)
  | CAccept (fd : Z)
  | CSetsockopt (fd : Z)
  | CStat (path : list Z)
  | CUnlink (path : list Z)
  | CMkdir (path : list Z)
  | CChdir (path : list Z)
  | CSetitimer (on : bool)
  | CSetsid
  | CGeteuid
  | CUmask (mask : Z)
  | CMlockall
  | CUsleep (usec : Z)
  | CSetenv (name value : list Z)
  | CMalloc (n : Z).

(** The answer: the return value, [errno] in case of failure, and what the call
    stores in memory (bytes read, or the numbers of a pair of descriptors). *)
Record sysret := mkRet { ret : Z; err : Z; out : list Z; fds : list Z }.

(** The operating system and the generated tables, as parameters. *)
Class OS := {
  os : list (syscall * sysret) → syscall → sysret;
  strerror : Z → list Z;
  (** The bytes that may be used at the address [alloca(n)] returns. *)
  alloca_cap : Z → Z;
  (** signal_data.autogen.c: signal numbers and names, without the closing 0. *)
  sig_list : list (Z * list Z);
}.

(** ** Data *)

(** The union [attr] of [fd_s]: all zero after [memset], then a path or a peer. *)
Inductive fd_attr_t :=
  | attr_null
  | attr_path (path : list Z)
  | attr_peer (peer : Z).

(** A pointer to the pointer that points here, in the doubly linked lists:
    null, the address of the list head, or of the [next] of a service. *)
Inductive prev_ptr_t :=
  | prev_null
  | prev_head
  | prev_next (svc : Z).

#[export] Instance prev_ptr_eq_dec : EqDecision prev_ptr_t.
Proof. solve_decision. Defined.

(** The states of a controller, and the commands that have a state of their own. *)
Inductive ctl_state_fn_t :=
  | ctl_state_next_command
  | ctl_state_run_command
  | ctl_state_end_command
  | ctl_state_close
  | ctl_state_free
  | ctl_state_dump_fds
  | ctl_state_dump_services
  | ctl_state_dump_signals.

#[export] Instance ctl_state_fn_eq_dec : EqDecision ctl_state_fn_t.
Proof. solve_decision. Defined.

(** [wake_s]: what wakes the main loop; an [fd_set] is a set of descriptor numbers. *)
Record wake_t := mkWake {
  wake_fd_read : gset Z;
  wake_fd_write : gset Z;
  wake_fd_err : gset Z;
  wake_fd_ready_read : gset Z;
  wake_fd_ready_write : gset Z;
  wake_fd_ready_err : gset Z;
  wake_max_fd : Z;
  wake_now : Z;
  wake_next : Z;
}.
Definition set_wake_fd_read (v : gset Z) (r : wake_t) : wake_t :=
  mkWake v (wake_fd_write r) (wake_fd_err r) (wake_fd_ready_read r) (wake_fd_ready_write r)
    (wake_fd_ready_err r) (wake_max_fd r) (wake_now r) (wake_next r).
Definition set_wake_fd_write (v : gset Z) (r : wake_t) : wake_t :=
  mkWake (wake_fd_read r) v (wake_fd_err r) (wake_fd_ready_read r) (wake_fd_ready_write r)
    (wake_fd_ready_err r) (wake_max_fd r) (wake_now r) (wake_next r).
Definition set_wake_fd_err (v : gset Z) (r : wake_t) : wake_t :=
  mkWake (wake_fd_read r) (wake_fd_write r) v (wake_fd_ready_read r) (wake_fd_ready_write r)
    (wake_fd_ready_err r) (wake_max_fd r) (wake_now r) (wake_next r).
Definition set_wake_fd_ready_read (v : gset Z) (r : wake_t) : wake_t :=
  mkWake (wake_fd_read r) (wake_fd_write r) (wake_fd_err r) v (wake_fd_ready_write r)
    (wake_fd_ready_err r) (wake_max_fd r) (wake_now r) (wake_next r).
Definition set_wake_fd_ready_write (v : gset Z) (r : wake_t) : wake_t :=
  mkWake (wake_fd_read r) (wake_fd_write r) (wake_fd_err r) (wake_fd_ready_read r) v
    (wake_fd_ready_err r) (wake_max_fd r) (wake_now r) (wake_next r).
Definition set_wake_fd_ready_err (v : gset Z) (r : wake_t) : wake_t :=
  mkWake (wake_fd_read r) (wake_fd_write r) (wake_fd_err r) (wake_fd_ready_read r)
    (wake_fd_ready_write r) v (wake_max_fd r) (wake_now r) (wake_next r).
Definition set_wake_max_fd (v : Z) (r : wake_t) : wake_t :=
  mkWake (wake_fd_read r) (wake_fd_write r) (wake_fd_err r) (wake_fd_ready_read r)
    (wake_fd_ready_write r) (wake_fd_ready_err r) v (wake_now r) (wake_next r).
Definition set_wake_now (v : Z) (r : wake_t) : wake_t :=
  mkWake (wake_fd_read r) (wake_fd_write r) (wake_fd_err r) (wake_fd_ready_read r)
    (wake_fd_ready_write r) (wake_fd_ready_err r) (wake_max_fd r) v (wake_next r).
Definition set_wake_next (v : Z) (r : wake_t) : wake_t :=
  mkWake (wake_fd_read r) (wake_fd_write r) (wake_fd_err r) (wake_fd_ready_read r)
    (wake_fd_ready_write r) (wake_fd_ready_err r) (wake_max_fd r) (wake_now r) v.

(** The variables of log.c; [log_buffer] is the array up to [log_buf_pos]. *)
Record log_t := mkLog {
  log_filter : Z;
  log_dest_fd_name : list Z;
  log_buffer : list Z;
  log_fd : Z;
  log_msg_lost : Z;
  log_blocked : bool;
  log_blocked_next_attempt : Z;
}.
Definition set_log_filter (v : Z) (r : log_t) : log_t :=
  mkLog v (log_dest_fd_name r) (log_buffer r) (log_fd r) (log_msg_lost r) (log_blocked r)
    (log_blocked_next_attempt r).
Definition set_log_dest_fd_name (v : list Z) (r : log_t) : log_t :=
  mkLog (log_filter r) v (log_buffer r) (log_fd r) (log_msg_lost r) (log_blocked r)
    (log_blocked_next_attempt r).
Definition set_log_buffer (v : list Z) (r : log_t) : log_t :=
  mkLog (log_filter r) (log_dest_fd_name r) v (log_fd r) (log_msg_lost r) (log_blocked r)
    (log_blocked_next_attempt r).
Definition set_log_fd (v : Z) (r : log_t) : log_t :=
  mkLog (log_filter r) (log_dest_fd_name r) (log_buffer r) v (log_msg_lost r) (log_blocked r)
    (log_blocked_next_attempt r).
Definition set_log_msg_lost (v : Z) (r : log_t) : log_t :=
  mkLog (log_filter r) (log_dest_fd_name r) (log_buffer r) (log_fd r) v (log_blocked r)
    (log_blocked_next_attempt r).
Definition set_log_blocked (v : bool) (r : log_t) : log_t :=
  mkLog (log_filter r) (log_dest_fd_name r) (log_buffer r) (log_fd r) (log_msg_lost r) v
    (log_blocked_next_attempt r).
Definition set_log_blocked_next_attempt (v : Z) (r : log_t) : log_t :=
  mkLog (log_filter r) (log_dest_fd_name r) (log_buffer r) (log_fd r) (log_msg_lost r)
    (log_blocked r) v.

(** [sig_status_s]. *)
Record sig_status_t := mkSigStatus {
  signum : Z;
  last_received_ts : Z;
  number_pending : Z;
}.
Definition set_signum (v : Z) (r : sig_status_t) : sig_status_t :=
  mkSigStatus v (last_received_ts r) (number_pending r).
Definition set_last_received_ts (v : Z) (r : sig_status_t) : sig_status_t :=
  mkSigStatus (signum r) v (number_pending r).
Definition set_number_pending (v : Z) (r : sig_status_t) : sig_status_t :=
  mkSigStatus (signum r) (last_received_ts r) v.

(** The variables of signal.c; [sig_prev] is the static [prev] of [sig_handler]. *)
Record sig_t := mkSig {
  sig_main_pid : Z;
  sig_wake_rd : Z;
  sig_wake_wr : Z;
  signals : list sig_status_t;
  new_signals : list sig_status_t;
  signal_error : Z;
  sig_prev : Z;
}.
Definition set_sig_main_pid (v : Z) (r : sig_t) : sig_t :=
  mkSig v (sig_wake_rd r) (sig_wake_wr r) (signals r) (new_signals r) (signal_error r) (sig_prev
    r).
Definition set_sig_wake_rd (v : Z) (r : sig_t) : sig_t :=
  mkSig (sig_main_pid r) v (sig_wake_wr r) (signals r) (new_signals r) (signal_error r) (sig_prev
    r).
Definition set_sig_wake_wr (v : Z) (r : sig_t) : sig_t :=
  mkSig (sig_main_pid r) (sig_wake_rd r) v (signals r) (new_signals r) (signal_error r) (sig_prev
    r).
Definition set_signals (v : list sig_status_t) (r : sig_t) : sig_t :=
  mkSig (sig_main_pid r) (sig_wake_rd r) (sig_wake_wr r) v (new_signals r) (signal_error r)
    (sig_prev r).
Definition set_new_signals (v : list sig_status_t) (r : sig_t) : sig_t :=
  mkSig (sig_main_pid r) (sig_wake_rd r) (sig_wake_wr r) (signals r) v (signal_error r) (sig_prev
    r).
Definition set_signal_error (v : Z) (r : sig_t) : sig_t :=
  mkSig (sig_main_pid r) (sig_wake_rd r) (sig_wake_wr r) (signals r) (new_signals r) v (sig_prev
    r).
Definition set_sig_prev (v : Z) (r : sig_t) : sig_t :=
  mkSig (sig_main_pid r) (sig_wake_rd r) (sig_wake_wr r) (signals r) (new_signals r) (signal_error
    r) v.

(** [fd_flags_s]. *)
Record fd_flags_t := mkFlags {
  fl_read : bool;
  fl_write : bool;
  fl_create : bool;
  fl_append : bool;
  fl_mkdir : bool;
  fl_trunc : bool;
  fl_nonblock : bool;
  fl_pipe : bool;
  fl_socket : bool;
  fl_sock_inet : bool;
  fl_sock_inet6 : bool;
  fl_sock_dgram : bool;
  fl_sock_seq : bool;
  fl_bind : bool;
  fl_special : bool;
  fl_is_const : bool;
  fl_listen : Z;
}.
Definition set_fl_read (v : bool) (r : fd_flags_t) : fd_flags_t :=
  mkFlags v (fl_write r) (fl_create r) (fl_append r) (fl_mkdir r) (fl_trunc r) (fl_nonblock r)
    (fl_pipe r) (fl_socket r) (fl_sock_inet r) (fl_sock_inet6 r) (fl_sock_dgram r) (fl_sock_seq r)
    (fl_bind r) (fl_special r) (fl_is_const r) (fl_listen r).
Definition set_fl_write (v : bool) (r : fd_flags_t) : fd_flags_t :=
  mkFlags (fl_read r) v (fl_create r) (fl_append r) (fl_mkdir r) (fl_trunc r) (fl_nonblock r)
    (fl_pipe r) (fl_socket r) (fl_sock_inet r) (fl_sock_inet6 r) (fl_sock_dgram r) (fl_sock_seq r)
    (fl_bind r) (fl_special r) (fl_is_const r) (fl_listen r).
Definition set_fl_create (v : bool) (r : fd_flags_t) : fd_flags_t :=
  mkFlags (fl_read r) (fl_write r) v (fl_append r) (fl_mkdir r) (fl_trunc r) (fl_nonblock r)
    (fl_pipe r) (fl_socket r) (fl_sock_inet r) (fl_sock_inet6 r) (fl_sock_dgram r) (fl_sock_seq r)
    (fl_bind r) (fl_special r) (fl_is_const r) (fl_listen r).
Definition set_fl_append (v : bool) (r : fd_flags_t) : fd_flags_t :=
  mkFlags (fl_read r) (fl_write r) (fl_create r) v (fl_mkdir r) (fl_trunc r) (fl_nonblock r)
    (fl_pipe r) (fl_socket r) (fl_sock_inet r) (fl_sock_inet6 r) (fl_sock_dgram r) (fl_sock_seq r)
    (fl_bind r) (fl_special r) (fl_is_const r) (fl_listen r).
Definition set_fl_mkdir (v : bool) (r : fd_flags_t) : fd_flags_t :=
  mkFlags (fl_read r) (fl_write r) (fl_create r) (fl_append r) v (fl_trunc r) (fl_nonblock r)
    (fl_pipe r) (fl_socket r) (fl_sock_inet r) (fl_sock_inet6 r) (fl_sock_dgram r) (fl_sock_seq r)
    (fl_bind r) (fl_special r) (fl_is_const r) (fl_listen r).
Definition set_fl_trunc (v : bool) (r : fd_flags_t) : fd_flags_t :=
  mkFlags (fl_read r) (fl_write r) (fl_create r) (fl_append r) (fl_mkdir r) v (fl_nonblock r)
    (fl_pipe r) (fl_socket r) (fl_sock_inet r) (fl_sock_inet6 r) (fl_sock_dgram r) (fl_sock_seq r)
    (fl_bind r) (fl_special r) (fl_is_const r) (fl_listen r).
Definition set_fl_nonblock (v : bool) (r : fd_flags_t) : fd_flags_t :=
  mkFlags (fl_read r) (fl_write r) (fl_create r) (fl_append r) (fl_mkdir r) (fl_trunc r) v
    (fl_pipe r) (fl_socket r) (fl_sock_inet r) (fl_sock_inet6 r) (fl_sock_dgram r) (fl_sock_seq r)
    (fl_bind r) (fl_special r) (fl_is_const r) (fl_listen r).
Definition set_fl_pipe (v : bool) (r : fd_flags_t) : fd_flags_t :=
  mkFlags (fl_read r) (fl_write r) (fl_create r) (fl_append r) (fl_mkdir r) (fl_trunc r)
    (fl_nonblock r) v (fl_socket r) (fl_sock_inet r) (fl_sock_inet6 r) (fl_sock_dgram r)
    (fl_sock_seq r) (fl_bind r) (fl_special r) (fl_is_const r) (fl_listen r).
Definition set_fl_socket (v : bool) (r : fd_flags_t) : fd_flags_t :=
  mkFlags (fl_read r) (fl_write r) (fl_create r) (fl_append r) (fl_mkdir r) (fl_trunc r)
    (fl_nonblock r) (fl_pipe r) v (fl_sock_inet r) (fl_sock_inet6 r) (fl_sock_dgram r) (fl_sock_seq
    r) (fl_bind r) (fl_special r) (fl_is_const r) (fl_listen r).
Definition set_fl_sock_inet (v : bool) (r : fd_flags_t) : fd_flags_t :=
  mkFlags (fl_read r) (fl_write r) (fl_create r) (fl_append r) (fl_mkdir r) (fl_trunc r)
    (fl_nonblock r) (fl_pipe r) (fl_socket r) v (fl_sock_inet6 r) (fl_sock_dgram r) (fl_sock_seq r)
    (fl_bind r) (fl_special r) (fl_is_const r) (fl_listen r).
Definition set_fl_sock_inet6 (v : bool) (r : fd_flags_t) : fd_flags_t :=
  mkFlags (fl_read r) (fl_write r) (fl_create r) (fl_append r) (fl_mkdir r) (fl_trunc r)
    (fl_nonblock r) (fl_pipe r) (fl_socket r) (fl_sock_inet r) v (fl_sock_dgram r) (fl_sock_seq r)
    (fl_bind r) (fl_special r) (fl_is_const r) (fl_listen r).
Definition set_fl_sock_dgram (v : bool) (r : fd_flags_t) : fd_flags_t :=
  mkFlags (fl_read r) (fl_write r) (fl_create r) (fl_append r) (fl_mkdir r) (fl_trunc r)
    (fl_nonblock r) (fl_pipe r) (fl_socket r) (fl_sock_inet r) (fl_sock_inet6 r) v (fl_sock_seq r)
    (fl_bind r) (fl_special r) (fl_is_const r) (fl_listen r).
Definition set_fl_sock_seq (v : bool) (r : fd_flags_t) : fd_flags_t :=
  mkFlags (fl_read r) (fl_write r) (fl_create r) (fl_append r) (fl_mkdir r) (fl_trunc r)
    (fl_nonblock r) (fl_pipe r) (fl_socket r) (fl_sock_inet r) (fl_sock_inet6 r) (fl_sock_dgram r) v
    (fl_bind r) (fl_special r) (fl_is_const r) (fl_listen r).
Definition set_fl_bind (v : bool) (r : fd_flags_t) : fd_flags_t :=
  mkFlags (fl_read r) (fl_write r) (fl_create r) (fl_append r) (fl_mkdir r) (fl_trunc r)
    (fl_nonblock r) (fl_pipe r) (fl_socket r) (fl_sock_inet r) (fl_sock_inet6 r) (fl_sock_dgram r)
    (fl_sock_seq r) v (fl_special r) (fl_is_const r) (fl_listen r).
Definition set_fl_special (v : bool) (r : fd_flags_t) : fd_flags_t :=
  mkFlags (fl_read r) (fl_write r) (fl_create r) (fl_append r) (fl_mkdir r) (fl_trunc r)
    (fl_nonblock r) (fl_pipe r) (fl_socket r) (fl_sock_inet r) (fl_sock_inet6 r) (fl_sock_dgram r)
    (fl_sock_seq r) (fl_bind r) v (fl_is_const r) (fl_listen r).
Definition set_fl_is_const (v : bool) (r : fd_flags_t) : fd_flags_t :=
  mkFlags (fl_read r) (fl_write r) (fl_create r) (fl_append r) (fl_mkdir r) (fl_trunc r)
    (fl_nonblock r) (fl_pipe r) (fl_socket r) (fl_sock_inet r) (fl_sock_inet6 r) (fl_sock_dgram r)
    (fl_sock_seq r) (fl_bind r) (fl_special r) v (fl_listen r).
Definition set_fl_listen (v : Z) (r : fd_flags_t) : fd_flags_t :=
  mkFlags (fl_read r) (fl_write r) (fl_create r) (fl_append r) (fl_mkdir r) (fl_trunc r)
    (fl_nonblock r) (fl_pipe r) (fl_socket r) (fl_sock_inet r) (fl_sock_inet6 r) (fl_sock_dgram r)
    (fl_sock_seq r) (fl_bind r) (fl_special r) (fl_is_const r) v.

(** [fd_s]; [fd_name] is the start of [buffer], [fd_attr] the union. *)
Record fd_t := mkFd {
  fd_size : Z;
  fd_flags : fd_flags_t;
  fd_fd : Z;
  fd_attr : fd_attr_t;
  fd_name : list Z;
}.
Definition set_fd_size (v : Z) (r : fd_t) : fd_t :=
  mkFd v (fd_flags r) (fd_fd r) (fd_attr r) (fd_name r).
Definition set_fd_flags (v : fd_flags_t) (r : fd_t) : fd_t :=
  mkFd (fd_size r) v (fd_fd r) (fd_attr r) (fd_name r).
Definition set_fd_fd (v : Z) (r : fd_t) : fd_t :=
  mkFd (fd_size r) (fd_flags r) v (fd_attr r) (fd_name r).
Definition set_fd_attr (v : fd_attr_t) (r : fd_t) : fd_t :=
  mkFd (fd_size r) (fd_flags r) (fd_fd r) v (fd_name r).
Definition set_fd_name (v : list Z) (r : fd_t) : fd_t :=
  mkFd (fd_size r) (fd_flags r) (fd_fd r) (fd_attr r) v.

(** The variables of fd.c; [fd_objs] holds the allocated objects. *)
Record fdmod_t := mkFdmod {
  fd_list : list Z;
  fd_list_count : Z;
  fd_list_limit : Z;
  fd_obj_pool : bool;
  fd_obj_pool_size_each : Z;
  fd_dev_null : Z;
  fd_objs : gmap Z fd_t;
}.
Definition set_fd_list (v : list Z) (r : fdmod_t) : fdmod_t :=
  mkFdmod v (fd_list_count r) (fd_list_limit r) (fd_obj_pool r) (fd_obj_pool_size_each r)
    (fd_dev_null r) (fd_objs r).
Definition set_fd_list_count (v : Z) (r : fdmod_t) : fdmod_t :=
  mkFdmod (fd_list r) v (fd_list_limit r) (fd_obj_pool r) (fd_obj_pool_size_each r) (fd_dev_null
    r) (fd_objs r).
Definition set_fd_list_limit (v : Z) (r : fdmod_t) : fdmod_t :=
  mkFdmod (fd_list r) (fd_list_count r) v (fd_obj_pool r) (fd_obj_pool_size_each r) (fd_dev_null
    r) (fd_objs r).
Definition set_fd_obj_pool (v : bool) (r : fdmod_t) : fdmod_t :=
  mkFdmod (fd_list r) (fd_list_count r) (fd_list_limit r) v (fd_obj_pool_size_each r) (fd_dev_null
    r) (fd_objs r).
Definition set_fd_obj_pool_size_each (v : Z) (r : fdmod_t) : fdmod_t :=
  mkFdmod (fd_list r) (fd_list_count r) (fd_list_limit r) (fd_obj_pool r) v (fd_dev_null r)
    (fd_objs r).
Definition set_fd_dev_null (v : Z) (r : fdmod_t) : fdmod_t :=
  mkFdmod (fd_list r) (fd_list_count r) (fd_list_limit r) (fd_obj_pool r) (fd_obj_pool_size_each
    r) v (fd_objs r).
Definition set_fd_objs (v : gmap Z fd_t) (r : fdmod_t) : fdmod_t :=
  mkFdmod (fd_list r) (fd_list_count r) (fd_list_limit r) (fd_obj_pool r) (fd_obj_pool_size_each
    r) (fd_dev_null r) v.

(** [service_s]; the two tree nodes live in the tree heap, at addresses made from the
    address of the service. *)
Record service_t := mkService {
  svc_state : Z;
  svc_name : list Z;
  svc_vars : list Z;
  active_prev_ptr : prev_ptr_t;
  active_next : Z;
  sigwake_prev_ptr : prev_ptr_t;
  sigwake_next : Z;
  svc_pid : Z;
  auto_restart : bool;
  svc_sigwake : bool;
  uses_control_event : bool;
  uses_control_cmd : bool;
  uses_control_socket : bool;
  wait_status : Z;
  start_time : Z;
  reap_time : Z;
  restart_interval : Z;
  autostart_signals : gset Z;
}.
Definition set_svc_state (v : Z) (r : service_t) : service_t :=
  mkService v (svc_name r) (svc_vars r) (active_prev_ptr r) (active_next r) (sigwake_prev_ptr r)
    (sigwake_next r) (svc_pid r) (auto_restart r) (svc_sigwake r) (uses_control_event r)
    (uses_control_cmd r) (uses_control_socket r) (wait_status r) (start_time r) (reap_time r)
    (restart_interval r) (autostart_signals r).
Definition set_svc_name (v : list Z) (r : service_t) : service_t :=
  mkService (svc_state r) v (svc_vars r) (active_prev_ptr r) (active_next r) (sigwake_prev_ptr r)
    (sigwake_next r) (svc_pid r) (auto_restart r) (svc_sigwake r) (uses_control_event r)
    (uses_control_cmd r) (uses_control_socket r) (wait_status r) (start_time r) (reap_time r)
    (restart_interval r) (autostart_signals r).
Definition set_svc_vars (v : list Z) (r : service_t) : service_t :=
  mkService (svc_state r) (svc_name r) v (active_prev_ptr r) (active_next r) (sigwake_prev_ptr r)
    (sigwake_next r) (svc_pid r) (auto_restart r) (svc_sigwake r) (uses_control_event r)
    (uses_control_cmd r) (uses_control_socket r) (wait_status r) (start_time r) (reap_time r)
    (restart_interval r) (autostart_signals r).
Definition set_active_prev_ptr (v : prev_ptr_t) (r : service_t) : service_t :=
  mkService (svc_state r) (svc_name r) (svc_vars r) v (active_next r) (sigwake_prev_ptr r)
    (sigwake_next r) (svc_pid r) (auto_restart r) (svc_sigwake r) (uses_control_event r)
    (uses_control_cmd r) (uses_control_socket r) (wait_status r) (start_time r) (reap_time r)
    (restart_interval r) (autostart_signals r).
Definition set_active_next (v : Z) (r : service_t) : service_t :=
  mkService (svc_state r) (svc_name r) (svc_vars r) (active_prev_ptr r) v (sigwake_prev_ptr r)
    (sigwake_next r) (svc_pid r) (auto_restart r) (svc_sigwake r) (uses_control_event r)
    (uses_control_cmd r) (uses_control_socket r) (wait_status r) (start_time r) (reap_time r)
    (restart_interval r) (autostart_signals r).
Definition set_sigwake_prev_ptr (v : prev_ptr_t) (r : service_t) : service_t :=
  mkService (svc_state r) (svc_name r) (svc_vars r) (active_prev_ptr r) (active_next r) v
    (sigwake_next r) (svc_pid r) (auto_restart r) (svc_sigwake r) (uses_control_event r)
    (uses_control_cmd r) (uses_control_socket r) (wait_status r) (start_time r) (reap_time r)
    (restart_interval r) (autostart_signals r).
Definition set_sigwake_next (v : Z) (r : service_t) : service_t :=
  mkService (svc_state r) (svc_name r) (svc_vars r) (active_prev_ptr r) (active_next r)
    (sigwake_prev_ptr r) v (svc_pid r) (auto_restart r) (svc_sigwake r) (uses_control_event r)
    (uses_control_cmd r) (uses_control_socket r) (wait_status r) (start_time r) (reap_time r)
    (restart_interval r) (autostart_signals r).
Definition set_svc_pid (v : Z) (r : service_t) : service_t :=
  mkService (svc_state r) (svc_name r) (svc_vars r) (active_prev_ptr r) (active_next r)
    (sigwake_prev_ptr r) (sigwake_next r) v (auto_restart r) (svc_sigwake r) (uses_control_event r)
    (uses_control_cmd r) (uses_control_socket r) (wait_status r) (start_time r) (reap_time r)
    (restart_interval r) (autostart_signals r).
Definition set_auto_restart (v : bool) (r : service_t) : service_t :=
  mkService (svc_state r) (svc_name r) (svc_vars r) (active_prev_ptr r) (active_next r)
    (sigwake_prev_ptr r) (sigwake_next r) (svc_pid r) v (svc_sigwake r) (uses_control_event r)
    (uses_control_cmd r) (uses_control_socket r) (wait_status r) (start_time r) (reap_time r)
    (restart_interval r) (autostart_signals r).
Definition set_svc_sigwake (v : bool) (r : service_t) : service_t :=
  mkService (svc_state r) (svc_name r) (svc_vars r) (active_prev_ptr r) (active_next r)
    (sigwake_prev_ptr r) (sigwake_next r) (svc_pid r) (auto_restart r) v (uses_control_event r)
    (uses_control_cmd r) (uses_control_socket r) (wait_status r) (start_time r) (reap_time r)
    (restart_interval r) (autostart_signals r).
Definition set_uses_control_event (v : bool) (r : service_t) : service_t :=
  mkService (svc_state r) (svc_name r) (svc_vars r) (active_prev_ptr r) (active_next r)
    (sigwake_prev_ptr r) (sigwake_next r) (svc_pid r) (auto_restart r) (svc_sigwake r) v
    (uses_control_cmd r) (uses_control_socket r) (wait_status r) (start_time r) (reap_time r)
    (restart_interval r) (autostart_signals r).
Definition set_uses_control_cmd (v : bool) (r : service_t) : service_t :=
  mkService (svc_state r) (svc_name r) (svc_vars r) (active_prev_ptr r) (active_next r)
    (sigwake_prev_ptr r) (sigwake_next r) (svc_pid r) (auto_restart r) (svc_sigwake r)
    (uses_control_event r) v (uses_control_socket r) (wait_status r) (start_time r) (reap_time r)
    (restart_interval r) (autostart_signals r).
Definition set_uses_control_socket (v : bool) (r : service_t) : service_t :=
  mkService (svc_state r) (svc_name r) (svc_vars r) (active_prev_ptr r) (active_next r)
    (sigwake_prev_ptr r) (sigwake_next r) (svc_pid r) (auto_restart r) (svc_sigwake r)
    (uses_control_event r) (uses_control_cmd r) v (wait_status r) (start_time r) (reap_time r)
    (restart_interval r) (autostart_signals r).
Definition set_wait_status (v : Z) (r : service_t) : service_t :=
  mkService (svc_state r) (svc_name r) (svc_vars r) (active_prev_ptr r) (active_next r)
    (sigwake_prev_ptr r) (sigwake_next r) (svc_pid r) (auto_restart r) (svc_sigwake r)
    (uses_control_event r) (uses_control_cmd r) (uses_control_socket r) v (start_time r) (reap_time
    r) (restart_interval r) (autostart_signals r).
Definition set_start_time (v : Z) (r : service_t) : service_t :=
  mkService (svc_state r) (svc_name r) (svc_vars r) (active_prev_ptr r) (active_next r)
    (sigwake_prev_ptr r) (sigwake_next r) (svc_pid r) (auto_restart r) (svc_sigwake r)
    (uses_control_event r) (uses_control_cmd r) (uses_control_socket r) (wait_status r) v (reap_time
    r) (restart_interval r) (autostart_signals r).
Definition set_reap_time (v : Z) (r : service_t) : service_t :=
  mkService (svc_state r) (svc_name r) (svc_vars r) (active_prev_ptr r) (active_next r)
    (sigwake_prev_ptr r) (sigwake_next r) (svc_pid r) (auto_restart r) (svc_sigwake r)
    (uses_control_event r) (uses_control_cmd r) (uses_control_socket r) (wait_status r) (start_time
    r) v (restart_interval r) (autostart_signals r).
Definition set_restart_interval (v : Z) (r : service_t) : service_t :=
  mkService (svc_state r) (svc_name r) (svc_vars r) (active_prev_ptr r) (active_next r)
    (sigwake_prev_ptr r) (sigwake_next r) (svc_pid r) (auto_restart r) (svc_sigwake r)
    (uses_control_event r) (uses_control_cmd r) (uses_control_socket r) (wait_status r) (start_time
    r) (reap_time r) v (autostart_signals r).
Definition set_autostart_signals (v : gset Z) (r : service_t) : service_t :=
  mkService (svc_state r) (svc_name r) (svc_vars r) (active_prev_ptr r) (active_next r)
    (sigwake_prev_ptr r) (sigwake_next r) (svc_pid r) (auto_restart r) (svc_sigwake r)
    (uses_control_event r) (uses_control_cmd r) (uses_control_socket r) (wait_status r) (start_time
    r) (reap_time r) (restart_interval r) v.

(** The variables of service.c; [svc_objs] holds the allocated services. *)
Record svcmod_t := mkSvcmod {
  svc_list : list Z;
  svc_list_count : Z;
  svc_list_limit : Z;
  svc_pool : bool;
  svc_pool_size_each : Z;
  svc_active_list : Z;
  svc_sigwake_list : Z;
  svc_last_signal_ts : Z;
  svc_objs : gmap Z service_t;
}.
Definition set_svc_list (v : list Z) (r : svcmod_t) : svcmod_t :=
  mkSvcmod v (svc_list_count r) (svc_list_limit r) (svc_pool r) (svc_pool_size_each r)
    (svc_active_list r) (svc_sigwake_list r) (svc_last_signal_ts r) (svc_objs r).
Definition set_svc_list_count (v : Z) (r : svcmod_t) : svcmod_t :=
  mkSvcmod (svc_list r) v (svc_list_limit r) (svc_pool r) (svc_pool_size_each r) (svc_active_list
    r) (svc_sigwake_list r) (svc_last_signal_ts r) (svc_objs r).
Definition set_svc_list_limit (v : Z) (r : svcmod_t) : svcmod_t :=
  mkSvcmod (svc_list r) (svc_list_count r) v (svc_pool r) (svc_pool_size_each r) (svc_active_list
    r) (svc_sigwake_list r) (svc_last_signal_ts r) (svc_objs r).
Definition set_svc_pool (v : bool) (r : svcmod_t) : svcmod_t :=
  mkSvcmod (svc_list r) (svc_list_count r) (svc_list_limit r) v (svc_pool_size_each r)
    (svc_active_list r) (svc_sigwake_list r) (svc_last_signal_ts r) (svc_objs r).
Definition set_svc_pool_size_each (v : Z) (r : svcmod_t) : svcmod_t :=
  mkSvcmod (svc_list r) (svc_list_count r) (svc_list_limit r) (svc_pool r) v (svc_active_list r)
    (svc_sigwake_list r) (svc_last_signal_ts r) (svc_objs r).
Definition set_svc_active_list (v : Z) (r : svcmod_t) : svcmod_t :=
  mkSvcmod (svc_list r) (svc_list_count r) (svc_list_limit r) (svc_pool r) (svc_pool_size_each r)
    v (svc_sigwake_list r) (svc_last_signal_ts r) (svc_objs r).
Definition set_svc_sigwake_list (v : Z) (r : svcmod_t) : svcmod_t :=
  mkSvcmod (svc_list r) (svc_list_count r) (svc_list_limit r) (svc_pool r) (svc_pool_size_each r)
    (svc_active_list r) v (svc_last_signal_ts r) (svc_objs r).
Definition set_svc_last_signal_ts (v : Z) (r : svcmod_t) : svcmod_t :=
  mkSvcmod (svc_list r) (svc_list_count r) (svc_list_limit r) (svc_pool r) (svc_pool_size_each r)
    (svc_active_list r) (svc_sigwake_list r) v (svc_objs r).
Definition set_svc_objs (v : gmap Z service_t) (r : svcmod_t) : svcmod_t :=
  mkSvcmod (svc_list r) (svc_list_count r) (svc_list_limit r) (svc_pool r) (svc_pool_size_each r)
    (svc_active_list r) (svc_sigwake_list r) (svc_last_signal_ts r) v.

(** [controller_s]; [recv_buf] and [send_buf] are the arrays up to [recv_buf_pos] and
    [send_buf_pos], [recv_ancillary_fd] up to its count. *)
Record controller_t := mkController {
  state_fn : option ctl_state_fn_t;
  ctl_id : Z;
  recv_fd : Z;
  recv_is_socket : bool;
  append_final_newline : bool;
  recv_buf : list Z;
  recv_overflow : bool;
  recv_ancillary_fd : list Z;
  send_fd : Z;
  send_buf : list Z;
  send_overflow : bool;
  write_timeout_reset : Z;
  write_timeout_close : Z;
  send_blocked_ts : Z;
  last_signal_ts : Z;
  line_len : Z;
  command_name : strseg_t;
  command : strseg_t;
  command_error : list Z;
  command_substate : Z;
  statedump_current : list Z;
  statedump_ts : Z;
}.
Definition set_state_fn (v : option ctl_state_fn_t) (r : controller_t) : controller_t :=
  mkController v (ctl_id r) (recv_fd r) (recv_is_socket r) (append_final_newline r) (recv_buf r)
    (recv_overflow r) (recv_ancillary_fd r) (send_fd r) (send_buf r) (send_overflow r)
    (write_timeout_reset r) (write_timeout_close r) (send_blocked_ts r) (last_signal_ts r) (line_len
    r) (command_name r) (command r) (command_error r) (command_substate r) (statedump_current r)
    (statedump_ts r).
Definition set_ctl_id (v : Z) (r : controller_t) : controller_t :=
  mkController (state_fn r) v (recv_fd r) (recv_is_socket r) (append_final_newline r) (recv_buf r)
    (recv_overflow r) (recv_ancillary_fd r) (send_fd r) (send_buf r) (send_overflow r)
    (write_timeout_reset r) (write_timeout_close r) (send_blocked_ts r) (last_signal_ts r) (line_len
    r) (command_name r) (command r) (command_error r) (command_substate r) (statedump_current r)
    (statedump_ts r).
Definition set_recv_fd (v : Z) (r : controller_t) : controller_t :=
  mkController (state_fn r) (ctl_id r) v (recv_is_socket r) (append_final_newline r) (recv_buf r)
    (recv_overflow r) (recv_ancillary_fd r) (send_fd r) (send_buf r) (send_overflow r)
    (write_timeout_reset r) (write_timeout_close r) (send_blocked_ts r) (last_signal_ts r) (line_len
    r) (command_name r) (command r) (command_error r) (command_substate r) (statedump_current r)
    (statedump_ts r).
Definition set_recv_is_socket (v : bool) (r : controller_t) : controller_t :=
  mkController (state_fn r) (ctl_id r) (recv_fd r) v (append_final_newline r) (recv_buf r)
    (recv_overflow r) (recv_ancillary_fd r) (send_fd r) (send_buf r) (send_overflow r)
    (write_timeout_reset r) (write_timeout_close r) (send_blocked_ts r) (last_signal_ts r) (line_len
    r) (command_name r) (command r) (command_error r) (command_substate r) (statedump_current r)
    (statedump_ts r).
Definition set_append_final_newline (v : bool) (r : controller_t) : controller_t :=
  mkController (state_fn r) (ctl_id r) (recv_fd r) (recv_is_socket r) v (recv_buf r)
    (recv_overflow r) (recv_ancillary_fd r) (send_fd r) (send_buf r) (send_overflow r)
    (write_timeout_reset r) (write_timeout_close r) (send_blocked_ts r) (last_signal_ts r) (line_len
    r) (command_name r) (command r) (command_error r) (command_substate r) (statedump_current r)
    (statedump_ts r).
Definition set_recv_buf (v : list Z) (r : controller_t) : controller_t :=
  mkController (state_fn r) (ctl_id r) (recv_fd r) (recv_is_socket r) (append_final_newline r) v
    (recv_overflow r) (recv_ancillary_fd r) (send_fd r) (send_buf r) (send_overflow r)
    (write_timeout_reset r) (write_timeout_close r) (send_blocked_ts r) (last_signal_ts r) (line_len
    r) (command_name r) (command r) (command_error r) (command_substate r) (statedump_current r)
    (statedump_ts r).
Definition set_recv_overflow (v : bool) (r : controller_t) : controller_t :=
  mkController (state_fn r) (ctl_id r) (recv_fd r) (recv_is_socket r) (append_final_newline r)
    (recv_buf r) v (recv_ancillary_fd r) (send_fd r) (send_buf r) (send_overflow r)
    (write_timeout_reset r) (write_timeout_close r) (send_blocked_ts r) (last_signal_ts r) (line_len
    r) (command_name r) (command r) (command_error r) (command_substate r) (statedump_current r)
    (statedump_ts r).
Definition set_recv_ancillary_fd (v : list Z) (r : controller_t) : controller_t :=
  mkController (state_fn r) (ctl_id r) (recv_fd r) (recv_is_socket r) (append_final_newline r)
    (recv_buf r) (recv_overflow r) v (send_fd r) (send_buf r) (send_overflow r) (write_timeout_reset
    r) (write_timeout_close r) (send_blocked_ts r) (last_signal_ts r) (line_len r) (command_name r)
    (command r) (command_error r) (command_substate r) (statedump_current r) (statedump_ts r).
Definition set_send_fd (v : Z) (r : controller_t) : controller_t :=
  mkController (state_fn r) (ctl_id r) (recv_fd r) (recv_is_socket r) (append_final_newline r)
    (recv_buf r) (recv_overflow r) (recv_ancillary_fd r) v (send_buf r) (send_overflow r)
    (write_timeout_reset r) (write_timeout_close r) (send_blocked_ts r) (last_signal_ts r) (line_len
    r) (command_name r) (command r) (command_error r) (command_substate r) (statedump_current r)
    (statedump_ts r).
Definition set_send_buf (v : list Z) (r : controller_t) : controller_t :=
  mkController (state_fn r) (ctl_id r) (recv_fd r) (recv_is_socket r) (append_final_newline r)
    (recv_buf r) (recv_overflow r) (recv_ancillary_fd r) (send_fd r) v (send_overflow r)
    (write_timeout_reset r) (write_timeout_close r) (send_blocked_ts r) (last_signal_ts r) (line_len
    r) (command_name r) (command r) (command_error r) (command_substate r) (statedump_current r)
    (statedump_ts r).
Definition set_send_overflow (v : bool) (r : controller_t) : controller_t :=
  mkController (state_fn r) (ctl_id r) (recv_fd r) (recv_is_socket r) (append_final_newline r)
    (recv_buf r) (recv_overflow r) (recv_ancillary_fd r) (send_fd r) (send_buf r) v
    (write_timeout_reset r) (write_timeout_close r) (send_blocked_ts r) (last_signal_ts r) (line_len
    r) (command_name r) (command r) (command_error r) (command_substate r) (statedump_current r)
    (statedump_ts r).
Definition set_write_timeout_reset (v : Z) (r : controller_t) : controller_t :=
  mkController (state_fn r) (ctl_id r) (recv_fd r) (recv_is_socket r) (append_final_newline r)
    (recv_buf r) (recv_overflow r) (recv_ancillary_fd r) (send_fd r) (send_buf r) (send_overflow r)
    v (write_timeout_close r) (send_blocked_ts r) (last_signal_ts r) (line_len r) (command_name r)
    (command r) (command_error r) (command_substate r) (statedump_current r) (statedump_ts r).
Definition set_write_timeout_close (v : Z) (r : controller_t) : controller_t :=
  mkController (state_fn r) (ctl_id r) (recv_fd r) (recv_is_socket r) (append_final_newline r)
    (recv_buf r) (recv_overflow r) (recv_ancillary_fd r) (send_fd r) (send_buf r) (send_overflow r)
    (write_timeout_reset r) v (send_blocked_ts r) (last_signal_ts r) (line_len r) (command_name r)
    (command r) (command_error r) (command_substate r) (statedump_current r) (statedump_ts r).
Definition set_send_blocked_ts (v : Z) (r : controller_t) : controller_t :=
  mkController (state_fn r) (ctl_id r) (recv_fd r) (recv_is_socket r) (append_final_newline r)
    (recv_buf r) (recv_overflow r) (recv_ancillary_fd r) (send_fd r) (send_buf r) (send_overflow r)
    (write_timeout_reset r) (write_timeout_close r) v (last_signal_ts r) (line_len r) (command_name
    r) (command r) (command_error r) (command_substate r) (statedump_current r) (statedump_ts r).
Definition set_last_signal_ts (v : Z) (r : controller_t) : controller_t :=
  mkController (state_fn r) (ctl_id r) (recv_fd r) (recv_is_socket r) (append_final_newline r)
    (recv_buf r) (recv_overflow r) (recv_ancillary_fd r) (send_fd r) (send_buf r) (send_overflow r)
    (write_timeout_reset r) (write_timeout_close r) (send_blocked_ts r) v (line_len r) (command_name
    r) (command r) (command_error r) (command_substate r) (statedump_current r) (statedump_ts r).
Definition set_line_len (v : Z) (r : controller_t) : controller_t :=
  mkController (state_fn r) (ctl_id r) (recv_fd r) (recv_is_socket r) (append_final_newline r)
    (recv_buf r) (recv_overflow r) (recv_ancillary_fd r) (send_fd r) (send_buf r) (send_overflow r)
    (write_timeout_reset r) (write_timeout_close r) (send_blocked_ts r) (last_signal_ts r) v
    (command_name r) (command r) (command_error r) (command_substate r) (statedump_current r)
    (statedump_ts r).
Definition set_command_name (v : strseg_t) (r : controller_t) : controller_t :=
  mkController (state_fn r) (ctl_id r) (recv_fd r) (recv_is_socket r) (append_final_newline r)
    (recv_buf r) (recv_overflow r) (recv_ancillary_fd r) (send_fd r) (send_buf r) (send_overflow r)
    (write_timeout_reset r) (write_timeout_close r) (send_blocked_ts r) (last_signal_ts r) (line_len
    r) v (command r) (command_error r) (command_substate r) (statedump_current r) (statedump_ts r).
Definition set_command (v : strseg_t) (r : controller_t) : controller_t :=
  mkController (state_fn r) (ctl_id r) (recv_fd r) (recv_is_socket r) (append_final_newline r)
    (recv_buf r) (recv_overflow r) (recv_ancillary_fd r) (send_fd r) (send_buf r) (send_overflow r)
    (write_timeout_reset r) (write_timeout_close r) (send_blocked_ts r) (last_signal_ts r) (line_len
    r) (command_name r) v (command_error r) (command_substate r) (statedump_current r) (statedump_ts
    r).
Definition set_command_error (v : list Z) (r : controller_t) : controller_t :=
  mkController (state_fn r) (ctl_id r) (recv_fd r) (recv_is_socket r) (append_final_newline r)
    (recv_buf r) (recv_overflow r) (recv_ancillary_fd r) (send_fd r) (send_buf r) (send_overflow r)
    (write_timeout_reset r) (write_timeout_close r) (send_blocked_ts r) (last_signal_ts r) (line_len
    r) (command_name r) (command r) v (command_substate r) (statedump_current r) (statedump_ts r).
Definition set_command_substate (v : Z) (r : controller_t) : controller_t :=
  mkController (state_fn r) (ctl_id r) (recv_fd r) (recv_is_socket r) (append_final_newline r)
    (recv_buf r) (recv_overflow r) (recv_ancillary_fd r) (send_fd r) (send_buf r) (send_overflow r)
    (write_timeout_reset r) (write_timeout_close r) (send_blocked_ts r) (last_signal_ts r) (line_len
    r) (command_name r) (command r) (command_error r) v (statedump_current r) (statedump_ts r).
Definition set_statedump_current (v : list Z) (r : controller_t) : controller_t :=
  mkController (state_fn r) (ctl_id r) (recv_fd r) (recv_is_socket r) (append_final_newline r)
    (recv_buf r) (recv_overflow r) (recv_ancillary_fd r) (send_fd r) (send_buf r) (send_overflow r)
    (write_timeout_reset r) (write_timeout_close r) (send_blocked_ts r) (last_signal_ts r) (line_len
    r) (command_name r) (command r) (command_error r) (command_substate r) v (statedump_ts r).
Definition set_statedump_ts (v : Z) (r : controller_t) : controller_t :=
  mkController (state_fn r) (ctl_id r) (recv_fd r) (recv_is_socket r) (append_final_newline r)
    (recv_buf r) (recv_overflow r) (recv_ancillary_fd r) (send_fd r) (send_buf r) (send_overflow r)
    (write_timeout_reset r) (write_timeout_close r) (send_blocked_ts r) (last_signal_ts r) (line_len
    r) (command_name r) (command r) (command_error r) (command_substate r) (statedump_current r) v.

(** The variables of options.c. *)
Record opt_t := mkOpt {
  opt_daemonize : bool;
  opt_fd_pool_count : Z;
  opt_fd_pool_size_each : Z;
  opt_svc_pool_count : Z;
  opt_svc_pool_size_each : Z;
  opt_socket_path : option (list Z);
  opt_config_file : option (list Z);
  opt_exec_on_exit : bool;
  opt_exec_on_exit_args : list Z;
  opt_interactive : bool;
  opt_mlockall : bool;
  opt_terminate_guard : Z;
}.
Definition set_opt_daemonize (v : bool) (r : opt_t) : opt_t :=
  mkOpt v (opt_fd_pool_count r) (opt_fd_pool_size_each r) (opt_svc_pool_count r)
    (opt_svc_pool_size_each r) (opt_socket_path r) (opt_config_file r) (opt_exec_on_exit r)
    (opt_exec_on_exit_args r) (opt_interactive r) (opt_mlockall r) (opt_terminate_guard r).
Definition set_opt_fd_pool_count (v : Z) (r : opt_t) : opt_t :=
  mkOpt (opt_daemonize r) v (opt_fd_pool_size_each r) (opt_svc_pool_count r)
    (opt_svc_pool_size_each r) (opt_socket_path r) (opt_config_file r) (opt_exec_on_exit r)
    (opt_exec_on_exit_args r) (opt_interactive r) (opt_mlockall r) (opt_terminate_guard r).
Definition set_opt_fd_pool_size_each (v : Z) (r : opt_t) : opt_t :=
  mkOpt (opt_daemonize r) (opt_fd_pool_count r) v (opt_svc_pool_count r) (opt_svc_pool_size_each
    r) (opt_socket_path r) (opt_config_file r) (opt_exec_on_exit r) (opt_exec_on_exit_args r)
    (opt_interactive r) (opt_mlockall r) (opt_terminate_guard r).
Definition set_opt_svc_pool_count (v : Z) (r : opt_t) : opt_t :=
  mkOpt (opt_daemonize r) (opt_fd_pool_count r) (opt_fd_pool_size_each r) v
    (opt_svc_pool_size_each r) (opt_socket_path r) (opt_config_file r) (opt_exec_on_exit r)
    (opt_exec_on_exit_args r) (opt_interactive r) (opt_mlockall r) (opt_terminate_guard r).
Definition set_opt_svc_pool_size_each (v : Z) (r : opt_t) : opt_t :=
  mkOpt (opt_daemonize r) (opt_fd_pool_count r) (opt_fd_pool_size_each r) (opt_svc_pool_count r) v
    (opt_socket_path r) (opt_config_file r) (opt_exec_on_exit r) (opt_exec_on_exit_args r)
    (opt_interactive r) (opt_mlockall r) (opt_terminate_guard r).
Definition set_opt_socket_path (v : option (list Z)) (r : opt_t) : opt_t :=
  mkOpt (opt_daemonize r) (opt_fd_pool_count r) (opt_fd_pool_size_each r) (opt_svc_pool_count r)
    (opt_svc_pool_size_each r) v (opt_config_file r) (opt_exec_on_exit r) (opt_exec_on_exit_args r)
    (opt_interactive r) (opt_mlockall r) (opt_terminate_guard r).
Definition set_opt_config_file (v : option (list Z)) (r : opt_t) : opt_t :=
  mkOpt (opt_daemonize r) (opt_fd_pool_count r) (opt_fd_pool_size_each r) (opt_svc_pool_count r)
    (opt_svc_pool_size_each r) (opt_socket_path r) v (opt_exec_on_exit r) (opt_exec_on_exit_args r)
    (opt_interactive r) (opt_mlockall r) (opt_terminate_guard r).
Definition set_opt_exec_on_exit (v : bool) (r : opt_t) : opt_t :=
  mkOpt (opt_daemonize r) (opt_fd_pool_count r) (opt_fd_pool_size_each r) (opt_svc_pool_count r)
    (opt_svc_pool_size_each r) (opt_socket_path r) (opt_config_file r) v (opt_exec_on_exit_args r)
    (opt_interactive r) (opt_mlockall r) (opt_terminate_guard r).
Definition set_opt_exec_on_exit_args (v : list Z) (r : opt_t) : opt_t :=
  mkOpt (opt_daemonize r) (opt_fd_pool_count r) (opt_fd_pool_size_each r) (opt_svc_pool_count r)
    (opt_svc_pool_size_each r) (opt_socket_path r) (opt_config_file r) (opt_exec_on_exit r) v
    (opt_interactive r) (opt_mlockall r) (opt_terminate_guard r).
Definition set_opt_interactive (v : bool) (r : opt_t) : opt_t :=
  mkOpt (opt_daemonize r) (opt_fd_pool_count r) (opt_fd_pool_size_each r) (opt_svc_pool_count r)
    (opt_svc_pool_size_each r) (opt_socket_path r) (opt_config_file r) (opt_exec_on_exit r)
    (opt_exec_on_exit_args r) v (opt_mlockall r) (opt_terminate_guard r).
Definition set_opt_mlockall (v : bool) (r : opt_t) : opt_t :=
  mkOpt (opt_daemonize r) (opt_fd_pool_count r) (opt_fd_pool_size_each r) (opt_svc_pool_count r)
    (opt_svc_pool_size_each r) (opt_socket_path r) (opt_config_file r) (opt_exec_on_exit r)
    (opt_exec_on_exit_args r) (opt_interactive r) v (opt_terminate_guard r).
Definition set_opt_terminate_guard (v : Z) (r : opt_t) : opt_t :=
  mkOpt (opt_daemonize r) (opt_fd_pool_count r) (opt_fd_pool_size_each r) (opt_svc_pool_count r)
    (opt_svc_pool_size_each r) (opt_socket_path r) (opt_config_file r) (opt_exec_on_exit r)
    (opt_exec_on_exit_args r) (opt_interactive r) (opt_mlockall r) v.

(** The variables of daemonproxy.c and control-socket.c. *)
Record main_t := mkMain {
  main_terminate : bool;
  main_exitcode : Z;
  interactive_controller : option nat;
  control_socket : Z;
  control_socket_path : list Z;
}.
Definition set_main_terminate (v : bool) (r : main_t) : main_t :=
  mkMain v (main_exitcode r) (interactive_controller r) (control_socket r) (control_socket_path r).
Definition set_main_exitcode (v : Z) (r : main_t) : main_t :=
  mkMain (main_terminate r) v (interactive_controller r) (control_socket r) (control_socket_path
    r).
Definition set_interactive_controller (v : option nat) (r : main_t) : main_t :=
  mkMain (main_terminate r) (main_exitcode r) v (control_socket r) (control_socket_path r).
Definition set_control_socket (v : Z) (r : main_t) : main_t :=
  mkMain (main_terminate r) (main_exitcode r) (interactive_controller r) v (control_socket_path r).
Definition set_control_socket_path (v : list Z) (r : main_t) : main_t :=
  mkMain (main_terminate r) (main_exitcode r) (interactive_controller r) (control_socket r) v.

(** The state of the daemon: the variables of each file, the tree nodes, [errno], the
    system calls made so far (latest first) and the next free address. *)
Record G := mkG {
  g_wake : wake_t;
  g_log : log_t;
  g_sig : sig_t;
  g_rb : heap;
  g_fd : fdmod_t;
  g_svc : svcmod_t;
  g_ctl : list controller_t;
  g_opt : opt_t;
  g_main : main_t;
  g_errno : Z;
  g_trace : list (syscall * sysret);
  g_next : Z;
}.
Definition set_g_wake (v : wake_t) (r : G) : G :=
  mkG v (g_log r) (g_sig r) (g_rb r) (g_fd r) (g_svc r) (g_ctl r) (g_opt r) (g_main r) (g_errno r)
    (g_trace r) (g_next r).
Definition set_g_log (v : log_t) (r : G) : G :=
  mkG (g_wake r) v (g_sig r) (g_rb r) (g_fd r) (g_svc r) (g_ctl r) (g_opt r) (g_main r) (g_errno
    r) (g_trace r) (g_next r).
Definition set_g_sig (v : sig_t) (r : G) : G :=
  mkG (g_wake r) (g_log r) v (g_rb r) (g_fd r) (g_svc r) (g_ctl r) (g_opt r) (g_main r) (g_errno
    r) (g_trace r) (g_next r).
Definition set_g_rb (v : heap) (r : G) : G :=
  mkG (g_wake r) (g_log r) (g_sig r) v (g_fd r) (g_svc r) (g_ctl r) (g_opt r) (g_main r) (g_errno
    r) (g_trace r) (g_next r).
Definition set_g_fd (v : fdmod_t) (r : G) : G :=
  mkG (g_wake r) (g_log r) (g_sig r) (g_rb r) v (g_svc r) (g_ctl r) (g_opt r) (g_main r) (g_errno
    r) (g_trace r) (g_next r).
Definition set_g_svc (v : svcmod_t) (r : G) : G :=
  mkG (g_wake r) (g_log r) (g_sig r) (g_rb r) (g_fd r) v (g_ctl r) (g_opt r) (g_main r) (g_errno
    r) (g_trace r) (g_next r).
Definition set_g_ctl (v : list controller_t) (r : G) : G :=
  mkG (g_wake r) (g_log r) (g_sig r) (g_rb r) (g_fd r) (g_svc r) v (g_opt r) (g_main r) (g_errno
    r) (g_trace r) (g_next r).
Definition set_g_opt (v : opt_t) (r : G) : G :=
  mkG (g_wake r) (g_log r) (g_sig r) (g_rb r) (g_fd r) (g_svc r) (g_ctl r) v (g_main r) (g_errno
    r) (g_trace r) (g_next r).
Definition set_g_main (v : main_t) (r : G) : G :=
  mkG (g_wake r) (g_log r) (g_sig r) (g_rb r) (g_fd r) (g_svc r) (g_ctl r) (g_opt r) v (g_errno r)
    (g_trace r) (g_next r).
Definition set_g_errno (v : Z) (r : G) : G :=
  mkG (g_wake r) (g_log r) (g_sig r) (g_rb r) (g_fd r) (g_svc r) (g_ctl r) (g_opt r) (g_main r) v
    (g_trace r) (g_next r).
Definition set_g_trace (v : list (syscall * sysret)) (r : G) : G :=
  mkG (g_wake r) (g_log r) (g_sig r) (g_rb r) (g_fd r) (g_svc r) (g_ctl r) (g_opt r) (g_main r)
    (g_errno r) v (g_next r).
Definition set_g_next (v : Z) (r : G) : G :=
  mkG (g_wake r) (g_log r) (g_sig r) (g_rb r) (g_fd r) (g_svc r) (g_ctl r) (g_opt r) (g_main r)
    (g_errno r) (g_trace r) v.

(** ** Computations *)

Abbreviation DP := (M G).

(** Change one part of the state. *)
Definition on_wake (f : wake_t → wake_t) (g : G) : G := set_g_wake (f (g_wake g)) g.
Definition on_log (f : log_t → log_t) (g : G) : G := set_g_log (f (g_log g)) g.
Definition on_sig (f : sig_t → sig_t) (g : G) : G := set_g_sig (f (g_sig g)) g.
Definition on_fd (f : fdmod_t → fdmod_t) (g : G) : G := set_g_fd (f (g_fd g)) g.
Definition on_svc (f : svcmod_t → svcmod_t) (g : G) : G := set_g_svc (f (g_svc g)) g.
Definition on_opt (f : opt_t → opt_t) (g : G) : G := set_g_opt (f (g_opt g)) g.
Definition on_main (f : main_t → main_t) (g : G) : G := set_g_main (f (g_main g)) g.

(** A system call: the answer is recorded, and a failure sets [errno]. *)
Definition sys `{OS} (c : syscall) : DP sysret := λ g,
  let r := os (g_trace g) c in
  Done (r, set_g_errno (if ret r <? 0 then err r else g_errno g)
             (set_g_trace ((c, r) :: g_trace g) g)).

(** A function of the tree library, run on the tree nodes of the daemon. *)
Definition rb {A} (m : RB A) : DP A := λ g,
  match m (g_rb g) with
  | Done (a, h) => Done (a, set_g_rb h g)
  | Fault => Fault
  | OutOfFuel => OutOfFuel
  | Exited c => Exited c
  | Execed v => Execed v
  end.

(** ** The inline functions of daemonproxy.h on [wake]

    A descriptor number that does not fit an [fd_set] makes [FD_SET] and
    [FD_ISSET] access memory outside of it. *)

Definition fd_fits (fd : Z) : bool := (0 <=? fd) && (fd <? FD_SETSIZE).

Definition FD_SET_max (fd : Z) (w : wake_t) : wake_t :=
  if fd >? wake_max_fd w then set_wake_max_fd fd w else w.

Definition wake_on_readable (fd : Z) : DP unit :=
  assert (fd_fits fd);;
  modify (on_wake (λ w, FD_SET_max fd
    (set_wake_fd_err ({[fd]} ∪ wake_fd_err w) (set_wake_fd_read ({[fd]} ∪ wake_fd_read w) w)))).

Definition wake_on_writeable (fd : Z) : DP unit :=
  assert (fd_fits fd);;
  modify (on_wake (λ w, FD_SET_max fd
    (set_wake_fd_err ({[fd]} ∪ wake_fd_err w) (set_wake_fd_write ({[fd]} ∪ wake_fd_write w) w)))).

Definition wake_on_writeable_only (fd : Z) : DP unit :=
  assert (fd_fits fd);;
  modify (on_wake (λ w, FD_SET_max fd (set_wake_fd_write ({[fd]} ∪ wake_fd_write w) w))).

Definition wake_cancel_fd (fd : Z) : DP unit :=
  assert (fd_fits fd);;
  modify (on_wake (λ w, set_wake_fd_err (wake_fd_err w ∖ {[fd]})
    (set_wake_fd_write (wake_fd_write w ∖ {[fd]}) (set_wake_fd_read (wake_fd_read w ∖ {[fd]}) w)))).

Definition woke_on_readable (fd : Z) : DP bool :=
  assert (fd_fits fd);;
  gets (λ g, bool_decide (fd ∈ wake_fd_ready_read (g_wake g)) ||
             bool_decide (fd ∈ wake_fd_ready_err (g_wake g))).

Definition woke_on_writeable (fd : Z) : DP bool :=
  assert (fd_fits fd);;
  gets (λ g, bool_decide (fd ∈ wake_fd_ready_write (g_wake g)) ||
             bool_decide (fd ∈ wake_fd_ready_err (g_wake g))).

Definition woke_on_writeable_only (fd : Z) : DP bool :=
  assert (fd_fits fd);;
  gets (λ g, bool_decide (fd ∈ wake_fd_ready_write (g_wake g))).

Definition wake_at_time (ts : Z) : DP unit :=
  modify (on_wake (λ w, if wrap64 (wake_next w - ts) >? 0 then set_wake_next ts w else w)).

(** [wake->next= wake->now]. *)
Definition wake_now_again : DP unit := modify (on_wake (λ w, set_wake_next (wake_now w) w)).

(** ** The state before [main]: the initialisers of the global variables *)

Definition controller_0 : controller_t :=
  mkController None 0 0 false false [] false [] 0 [] false 0 0 0 0 0
    (STRSEG []) (STRSEG []) [] 0 [] 0.

Definition wake_0 : wake_t := mkWake ∅ ∅ ∅ ∅ ∅ ∅ 0 0 0.

(** The trees' root sentinels and the shared sentinel have fixed addresses. *)
Definition svc_by_name_index : ptr := 2.
Definition svc_by_pid_index : ptr := 3.
Definition fd_by_name_index : ptr := 4.

Definition rb_0 : heap :=
  {[ Sentinel := Sentinel_init;
     svc_by_name_index := mkNode 0 0 0 0 0;
     svc_by_pid_index := mkNode 0 0 0 0 0;
     fd_by_name_index := mkNode 0 0 0 0 0 ]}.

Definition G_0 : G :=
  mkG wake_0
      (mkLog (-1) [] [] 2 0 false 0)
      (mkSig 0 (-1) (-1) (replicate 16 (mkSigStatus 0 0 0)) (replicate 16 (mkSigStatus 0 0 0)) 0 0)
      rb_0
      (mkFdmod [] 0 0 false 0 0 ∅)
      (mkSvcmod [] 0 0 false 0 0 0 0 ∅)
      (replicate CONTROLLER_MAX_CLIENTS controller_0)
      (mkOpt false 0 0 0 0 None None false [] false false 0)
      (mkMain false 0 None (-1) [])
      0 [] 1.

(** A system in which every write is taken whole and every other call succeeds
    with the value 0, with a few of the signals of Linux: it shows that the
    assumptions about the system can hold. *)
Definition ideal_os : OS := {|
  os _ c := match c with
            | CWrite _ data => mkRet (Z.of_nat (length data)) 0 [] []
            | _ => mkRet 0 0 [] []
            end;
  strerror e := str "error " ++ fmt_d e;
  alloca_cap n := 16 * n;
  sig_list := [(1, str "HUP"); (2, str "INT"); (3, str "QUIT"); (10, str "USR1");
               (12, str "USR2"); (15, str "TERM"); (17, str "CHLD")];
|}.
