(* ===== verification/Log.v ===== *)
(** * log.c: the log buffer

    [log_write] appends one line to a fixed buffer and tries to write the buffer
    out; [log_flush] writes until the buffer is empty or a write fails.  Messages
    that do not fit are counted and reported as soon as there is room again.  The
    functions that look the log descriptor up by name are in [Fd]. *)

From S2P Require Import Prelude Strseg State.

Definition LOG_LEVEL_FATAL : Z := 3.
Definition LOG_LEVEL_ERROR : Z := 2.
Definition LOG_LEVEL_WARN : Z := 1.
Definition LOG_LEVEL_INFO : Z := 0.
Definition LOG_LEVEL_DEBUG : Z := -1.
Definition LOG_LEVEL_TRACE : Z := -2.
Definition LOG_FILTER_NONE : Z := -3.

Definition log_buffer_size : Z := 1024.

Definition log_level_names : list (list Z) :=
  [str "none"; str "trace"; str "debug"; str "info"; str "warning"; str "error"; str "fatal"].

Definition log_level_name (level : Z) : list Z :=
  if (level >=? LOG_FILTER_NONE) && (level <=? LOG_LEVEL_FATAL)
  then default [] (log_level_names !! Z.to_nat (level - LOG_FILTER_NONE))
  else str "unknown".

(** The loop of [log_level_by_name], from the level [i]. *)
Fixpoint log_level_by_name_loop (names : list (list Z)) (i : Z) (name : strseg_t) : outcome (option Z) :=
  match names with
  | [] => Done None
  | n :: names =>
      c ← strseg_cmp name (STRSEG n);
      if c =? 0 then Done (Some i) else log_level_by_name_loop names (i + 1) name
  end.

Definition log_level_by_name (name : strseg_t) : outcome (option Z) :=
  log_level_by_name_loop log_level_names LOG_FILTER_NONE name.

Definition log_set_filter (value : Z) : DP unit :=
  modify (on_log (set_log_filter
    (if value >? LOG_LEVEL_FATAL then LOG_LEVEL_FATAL
     else if value <? LOG_FILTER_NONE then LOG_FILTER_NONE else value))).

Definition log_get_fd : DP Z := gets (λ g, log_fd (g_log g)).

Definition log_fd_reset : DP unit :=
  modify (on_log (λ l, set_log_blocked_next_attempt 0 (set_log_blocked true (set_log_fd (-1) l)))).

(** ["warning: lost %d log messages\n"] *)
Definition lost_message (n : Z) : list Z :=
  str "warning: lost " ++ fmt_d n ++ str " log messages" ++ [LF].

Section log.
Context `{OS}.

(** The body of the loop of [log_flush] after a write of [n] bytes. *)
Definition log_written (n : Z) (l : log_t) : log_t :=
  let l := set_log_buffer (drop (Z.to_nat n) (log_buffer l)) l in
  if negb (log_msg_lost l =? 0) then
    let m := lost_message (log_msg_lost l) in
    if Z.of_nat (length m) <? log_buffer_size - Z.of_nat (length (log_buffer l))
    then set_log_msg_lost 0 (set_log_buffer (log_buffer l ++ m) l)
    else l
  else l.

Fixpoint log_flush_loop (fuel : nat) : DP bool :=
  match fuel with
  | O => nofuel
  | S fuel =>
      buf ← gets (λ g, log_buffer (g_log g));
      if 0 <? Z.of_nat (length buf) then
        fd ← log_get_fd;
        sys (CSetitimer true);;
        n ← sys (CWrite fd buf);
        sys (CSetitimer false);;
        if ret n <? 0 then
          modify (on_log (set_log_blocked true));;
          mret false
        else
          modify (on_log (log_written (ret n)));;
          log_flush_loop fuel
      else mret true
  end.

(** Every successful write takes a byte at least, and the report of lost
    messages is added at most once. *)
Definition log_flush_fuel : nat := 1100.

Definition log_flush : DP bool :=
  l ← gets g_log;
  if (log_fd l <? 0) || log_blocked l then mret false
  else log_flush_loop log_flush_fuel.

(** [msg] is the message with its arguments printed. *)
Definition log_write (level : Z) (msg : list Z) : DP bool :=
  l ← gets g_log;
  if log_filter l >=? level then mret true
  else if negb (log_msg_lost l =? 0) then
    modify (on_log (set_log_msg_lost (wrap32 (log_msg_lost l + 1))));;
    mret false
  else
    let lim := log_buffer_size - Z.of_nat (length (log_buffer l)) in
    let prefix := log_level_name level ++ str ": " in
    let n := Z.of_nat (length prefix) in
    if n >=? lim then
      modify (on_log (set_log_msg_lost (wrap32 (log_msg_lost l + 1))));;
      mret false
    else
      let lim := lim - n in
      let n := Z.of_nat (length msg) in
      if n >=? lim then
        modify (on_log (set_log_msg_lost (wrap32 (log_msg_lost l + 1))));;
        mret false
      else
        modify (on_log (set_log_buffer (log_buffer l ++ prefix ++ msg ++ [LF])));;
        log_flush;;
        mret true.

Definition log_error (msg : list Z) : DP unit := log_write LOG_LEVEL_ERROR msg;; mret tt.
Definition log_warn (msg : list Z) : DP unit := log_write LOG_LEVEL_WARN msg;; mret tt.
Definition log_info (msg : list Z) : DP unit := log_write LOG_LEVEL_INFO msg;; mret tt.
Definition log_debug (msg : list Z) : DP unit := log_write LOG_LEVEL_DEBUG msg;; mret tt.
End log.

(** ** What the system promises of [write] *)

(** [write] returns at most the number of bytes it was given; and, for the log,
    it takes something or fails. *)
Class WriteOk `{OS} : Prop := {
  write_le tr fd data : ret (os tr (CWrite fd data)) ≤ Z.of_nat (length data);
  write_progress tr fd data : data ≠ [] → ret (os tr (CWrite fd data)) ≠ 0;
}.

#[export] Instance ideal_write_ok : @WriteOk ideal_os.
Proof. split; intros; cbn; [lia|]. destruct data; cbn; [done|lia]. Qed.

(** The bytes the system accepted in the calls [tr] (latest first). *)
Fixpoint accepted (tr : list (syscall * sysret)) : list Z :=
  match tr with
  | [] => []
  | (CWrite fd data, r) :: tr => accepted tr ++ take (Z.to_nat (ret r)) data
  | _ :: tr => accepted tr
  end.

Lemma accepted_app tr1 tr2 : accepted (tr1 ++ tr2) = accepted tr2 ++ accepted tr1.
Proof.
  induction tr1 as [|[c r] tr1 IH]; cbn; [by rewrite app_nil_r|].
  destruct c; rewrite ?IH; by rewrite ?app_assoc.
Qed.

(** ** Invariants *)

(** The buffer is not longer than the array, and the count is an [int]. *)
Definition log_ok (l : log_t) : Prop :=
  Z.of_nat (length (log_buffer l)) ≤ log_buffer_size ∧ in32 (log_msg_lost l).

(** Only the log, [errno] and the calls made differ, the calls only by new ones. *)
Record log_frame (g g' : G) : Prop := {
  lf_wake : g_wake g' = g_wake g;
  lf_sig : g_sig g' = g_sig g;
  lf_rb : g_rb g' = g_rb g;
  lf_fd : g_fd g' = g_fd g;
  lf_svc : g_svc g' = g_svc g;
  lf_ctl : g_ctl g' = g_ctl g;
  lf_opt : g_opt g' = g_opt g;
  lf_main : g_main g' = g_main g;
  lf_next : g_next g' = g_next g;
}.

#[export] Instance log_frame_preorder : PreOrder log_frame.
Proof.
  split; [by split|]. intros g1 g2 g3 [] []. split; congruence.
Qed.

(** The calls the log makes: writes to its descriptor, and the timer around them. *)
Definition log_call (fd : Z) (e : syscall * sysret) : Prop :=
  match e.1 with CWrite fd' _ => fd' = fd | CSetitimer _ => True | _ => False end.

(** What a flush does: [tr] are the calls it makes. *)
Record flushed (g g' : G) (tr : list (syscall * sysret)) : Prop := {
  fl_frame : log_frame g g';
  fl_trace : g_trace g' = tr ++ g_trace g;
  fl_ok : log_ok (g_log g');
  fl_fd : log_fd (g_log g') = log_fd (g_log g);
  fl_filter : log_filter (g_log g') = log_filter (g_log g);
  fl_calls : Forall (log_call (log_fd (g_log g))) tr;
  (** nothing is lost, duplicated or reordered *)
  fl_bytes : log_msg_lost (g_log g') = log_msg_lost (g_log g) ∧
             accepted tr ++ log_buffer (g_log g') = log_buffer (g_log g) ∨
             log_msg_lost (g_log g) ≠ 0 ∧ log_msg_lost (g_log g') = 0 ∧
             accepted tr ++ log_buffer (g_log g') =
               log_buffer (g_log g) ++ lost_message (log_msg_lost (g_log g));
}.

Lemma lost_message_length n : in32 n → (0 < length (lost_message n) ≤ 61)%nat.
Proof. intros Hn. apply fmt_d_length in Hn. unfold lost_message. rewrite !length_app. cbn in *. lia. Qed.

Lemma log_written_ok n l : log_ok l → log_ok (log_written n l).
Proof.
  unfold log_ok, log_written. cbn [log_msg_lost set_log_buffer log_buffer]. intros [Hb Hl].
  destruct (negb _); [|cbn [log_msg_lost log_buffer set_log_buffer]; rewrite length_drop; split; [lia|done]].
  destruct (Z.ltb_spec (Z.of_nat (length (lost_message (log_msg_lost l))))
    (log_buffer_size - Z.of_nat (length (drop (Z.to_nat n) (log_buffer l)))));
    cbn [log_msg_lost log_buffer set_log_buffer set_log_msg_lost]; rewrite ?length_app, ?length_drop in *;
    (split; [lia|done]).
Qed.

Lemma log_written_cases n l :
  log_msg_lost (log_written n l) = log_msg_lost l ∧
    log_buffer (log_written n l) = drop (Z.to_nat n) (log_buffer l) ∨
  log_msg_lost l ≠ 0 ∧ log_msg_lost (log_written n l) = 0 ∧
    log_buffer (log_written n l) = drop (Z.to_nat n) (log_buffer l) ++ lost_message (log_msg_lost l).
Proof.
  unfold log_written. cbn [log_msg_lost set_log_buffer log_buffer].
  destruct (Z.eqb_spec (log_msg_lost l) 0); cbn [negb]; [by left|].
  case_match; [by right|by left].
Qed.

Lemma log_written_rest n l : log_fd (log_written n l) = log_fd l ∧
  log_filter (log_written n l) = log_filter l ∧ log_blocked (log_written n l) = log_blocked l.
Proof. unfold log_written. cbn zeta. destruct (negb _); [destruct (_ <? _)|]; done. Qed.

(** The calls of one round of the loop. *)
Definition round (fd : Z) (buf : list Z) (r1 r2 r3 : sysret) : list (syscall * sysret) :=
  [(CSetitimer false, r3); (CWrite fd buf, r2); (CSetitimer true, r1)].

Section flush.
Context `{OS} `{!WriteOk}.

Definition flush_measure (l : log_t) : nat :=
  length (log_buffer l) + (if log_msg_lost l =? 0 then 0 else 61).

Lemma log_written_measure n l : log_ok l → 0 < n ≤ Z.of_nat (length (log_buffer l)) →
  (flush_measure (log_written n l) < flush_measure l)%nat.
Proof.
  intros [Hb Hl] Hn. unfold flush_measure, log_written. cbn [log_msg_lost set_log_buffer log_buffer].
  pose proof (lost_message_length _ Hl).
  destruct (log_msg_lost l =? 0) eqn:E0; cbn [negb log_msg_lost set_log_buffer log_buffer].
  - rewrite E0, length_drop. lia.
  - case_match; cbn [log_msg_lost log_buffer set_log_buffer set_log_msg_lost];
      rewrite ?E0, ?length_app, ?length_drop; cbn [Z.eqb]; lia.
Qed.

(** The state after the calls of one round, the write having returned [n]. *)
Lemma log_flush_round fuel g : log_buffer (g_log g) ≠ [] →
  ∃ r1 r2 r3 e, let buf := log_buffer (g_log g) in let fd := log_fd (g_log g) in
    let g1 := set_g_errno e (set_g_trace (round fd buf r1 r2 r3 ++ g_trace g) g) in
    ret r2 ≤ Z.of_nat (length buf) ∧ ret r2 ≠ 0 ∧
    log_flush_loop (S fuel) g =
      if ret r2 <? 0 then Done (false, on_log (set_log_blocked true) g1)
      else log_flush_loop fuel (on_log (log_written (ret r2)) g1).
Proof.
  intros Hne. set (r1 := os (g_trace g) (CSetitimer true)).
  set (tr1 := (CSetitimer true, r1) :: g_trace g).
  set (r2 := os tr1 (CWrite (log_fd (g_log g)) (log_buffer (g_log g)))).
  set (tr2 := (CWrite (log_fd (g_log g)) (log_buffer (g_log g)), r2) :: tr1).
  exists r1, r2, (os tr2 (CSetitimer false)).
  destruct (ret r2 <? 0) eqn:Er; eexists; cbn zeta;
    (split_and!; [apply write_le|by apply write_progress|]);
    cbn [log_flush_loop]; mstep;
    (rewrite (proj2 (Z.ltb_lt _ _)) by (destruct (log_buffer _); [done|cbn; lia]));
    unfold log_get_fd; mstep; do 3 (unfold sys at 1; mstep);
    cbn [set_g_trace set_g_errno g_trace]; fold r1 tr1 r2 tr2; rewrite Er; reflexivity.
Qed.

Lemma log_flush_loop_spec fuel g : log_ok (g_log g) → (flush_measure (g_log g) < fuel)%nat →
  ∃ b g' tr, log_flush_loop fuel g = Done (b, g') ∧ flushed g g' tr ∧
    (b = true → log_buffer (g_log g') = [] ∧ log_blocked (g_log g') = log_blocked (g_log g)) ∧
    (b = false → log_blocked (g_log g') = true).
Proof.
  revert g; induction fuel as [|fuel IH]; intros g Hok Hf; [lia|].
  destruct (decide (log_buffer (g_log g) = [])) as [Hnil|Hne].
  { cbn [log_flush_loop]. mstep. rewrite Hnil. cbn. exists true, g, []. split_and!; [done| |done|done].
    split; [done|done|done|done|done|constructor|]. left. by rewrite Hnil. }
  destruct (log_flush_round fuel g Hne) as (r1 & r2 & r3 & e & Hle & Hn0 & ->). cbn zeta in *.
  set (buf := log_buffer (g_log g)) in *. set (fd := log_fd (g_log g)).
  set (g1 := set_g_errno _ _).
  assert (Hround : accepted (round fd buf r1 r2 r3) = take (Z.to_nat (ret r2)) buf) by done.
  destruct (Z.ltb_spec (ret r2) 0) as [Hneg|Hpos].
  - exists false, (on_log (set_log_blocked true) g1), (round fd buf r1 r2 r3).
    split_and!; [done| |done|done]. split; [by split|done|done|done|done|by repeat constructor|]. left.
    rewrite Hround. replace (Z.to_nat (ret r2)) with 0%nat by lia. done.
  - set (g2 := on_log (log_written (ret r2)) g1).
    destruct (IH g2) as (b & g' & tr & E' & Hfl & Hb1 & Hb2).
    + by apply log_written_ok.
    + pose proof (log_written_measure (ret r2) (g_log g) Hok ltac:(split; [lia|exact Hle])). cbn. lia.
    + exists b, g', (tr ++ round fd buf r1 r2 r3). split_and!; [done| | |done].
      * destruct Hfl as [F1 F2 F3 F4 F5 F7 F6].
        destruct (log_written_rest (ret r2) (g_log g)) as (Hl1 & Hl2 & _).
        split; [by etransitivity; [|exact F1]; split|by rewrite F2, <-app_assoc|done|..].
        -- by rewrite F4.
        -- by rewrite F5.
        -- apply Forall_app. split; [|by repeat constructor].
           change (log_fd (g_log g2)) with (log_fd (log_written (ret r2) (g_log g))) in F7. by rewrite <-Hl1.
        -- rewrite accepted_app, Hround, <-app_assoc. subst buf.
           pose proof (take_drop (Z.to_nat (ret r2)) (log_buffer (g_log g))) as Htd.
           change (g_log g2) with (log_written (ret r2) (g_log g)) in F6.
           destruct (log_written_cases (ret r2) (g_log g)) as [[C1 C2]|(C1 & C2 & C3)].
           ++ rewrite C1, C2 in F6. destruct F6 as [[? ->]|(? & ? & ->)]; [by left|right].
              by rewrite app_assoc, Htd.
           ++ rewrite C2, C3 in F6. destruct F6 as [[? ->]|(? & _)]; [right|done].
              by rewrite app_assoc, Htd.
      * intros Hbt. destruct (Hb1 Hbt) as [? ->]. split; [done|]. apply log_written_rest.
Qed.

Lemma flush_measure_bound l : log_ok l → (flush_measure l < log_flush_fuel)%nat.
Proof.
  intros [Hb _]. unfold flush_measure, log_flush_fuel, log_buffer_size in *. case_match; lia.
Qed.

Lemma flushed_refl g : log_ok (g_log g) → flushed g g [].
Proof. intros Hok. split; [done|done|done|done|done|constructor|]. by left. Qed.

(** [log_flush] returns, whatever the system answers. *)
Lemma log_flush_spec g : log_ok (g_log g) →
  ∃ b g' tr, log_flush g = Done (b, g') ∧ flushed g g' tr ∧
    (b = true → log_buffer (g_log g') = [] ∧ log_blocked (g_log g') = false) ∧
    (b = false → log_fd (g_log g) < 0 ∨ log_blocked (g_log g') = true).
Proof.
  intros Hok. unfold log_flush. mstep. destruct (Z.ltb_spec (log_fd (g_log g)) 0) as [Hfd|Hfd]; cbn [orb].
  { exists false, g, []. split_and!; [done|by apply flushed_refl|done|auto]. }
  destruct (log_blocked (g_log g)) eqn:Eb.
  { exists false, g, []. split_and!; [done|by apply flushed_refl|done|auto]. }
  destruct (log_flush_loop_spec log_flush_fuel g) as (b & g' & tr & E' & Hfl & H1 & H2);
    [done|by apply flush_measure_bound|].
  exists b, g', tr. rewrite Eb in H1. split_and!; auto.
Qed.

(** One line of the log. *)
Definition log_line (level : Z) (msg : list Z) : list Z := log_level_name level ++ str ": " ++ msg ++ [LF].

(** What became of a message. *)
Inductive logged (level : Z) (msg : list Z) (g g' : G) (tr : list (syscall * sysret)) : bool → Prop :=
  | logged_filtered :
      level ≤ log_filter (g_log g) → g' = g → tr = [] → logged level msg g g' tr true
  | logged_lost :
      log_filter (g_log g) < level →
      log_msg_lost (g_log g) ≠ 0 ∨
      log_buffer_size < Z.of_nat (length (log_buffer (g_log g) ++ log_line level msg)) →
      g' = on_log (set_log_msg_lost (wrap32 (log_msg_lost (g_log g) + 1))) g → tr = [] →
      logged level msg g g' tr false
  | logged_kept :
      log_filter (g_log g) < level → log_msg_lost (g_log g) = 0 → log_msg_lost (g_log g') = 0 →
      accepted tr ++ log_buffer (g_log g') = log_buffer (g_log g) ++ log_line level msg →
      logged level msg g g' tr true.

Record log_step (g g' : G) (tr : list (syscall * sysret)) : Prop := {
  ls_frame : log_frame g g';
  ls_trace : g_trace g' = tr ++ g_trace g;
  ls_ok : log_ok (g_log g');
  ls_fd : log_fd (g_log g') = log_fd (g_log g);
  ls_filter : log_filter (g_log g') = log_filter (g_log g);
  ls_calls : Forall (log_call (log_fd (g_log g))) tr;
}.

Lemma log_write_spec level msg g : log_ok (g_log g) →
  ∃ b g' tr, log_write level msg g = Done (b, g') ∧ log_step g g' tr ∧ logged level msg g g' tr b.
Proof.
  intros [Hb Hl]. unfold log_write. mstep. destruct (Z.geb_spec (log_filter (g_log g)) level) as [Hf|Hf].
  { exists true, g, []. split_and!; [done|by split; try constructor|by constructor]. }
  set (g0 := on_log (set_log_msg_lost (wrap32 (log_msg_lost (g_log g) + 1))) g).
  assert (Hs0 : log_step g g0 []).
  { split; [done|done| |done|done|constructor]. split; [done|apply wrap32_in32]. }
  assert (Hlen : length (log_line level msg) =
    (length (log_level_name level ++ str ": ") + length msg + 1)%nat).
  { unfold log_line. rewrite !length_app. cbn. lia. }
  destruct (Z.eqb_spec (log_msg_lost (g_log g)) 0) as [Hz|Hz]; cbn [negb].
  2: { exists false, g0, []. split_and!; [done|done|apply logged_lost; auto]. }
  destruct (Z.geb_spec (Z.of_nat (length (log_level_name level ++ str ": ")))
    (log_buffer_size - Z.of_nat (length (log_buffer (g_log g))))) as [Hp|Hp].
  { exists false, g0, []. split_and!; [done|done|]. apply logged_lost; auto.
    right. rewrite length_app, Hlen. lia. }
  destruct (Z.geb_spec (Z.of_nat (length msg)) (log_buffer_size -
    Z.of_nat (length (log_buffer (g_log g))) - Z.of_nat (length (log_level_name level ++ str ": ")))) as [Hm|Hm].
  { exists false, g0, []. split_and!; [done|done|]. apply logged_lost; auto.
    right. rewrite length_app, Hlen. lia. }
  set (g1 := on_log _ g).
  assert (Hok1 : log_ok (g_log g1)).
  { split; [|done]. cbn [g1 on_log set_g_log g_log set_log_buffer log_buffer].
    rewrite <-app_assoc. fold (log_line level msg). rewrite length_app, Hlen. lia. }
  destruct (log_flush_spec g1 Hok1) as (b & g' & tr & E' & [F1 F2 F3 F4 F5 F7 F6] & _).
  rewrite E'. exists true, g', tr. split_and!; [done| |].
  - split; [by etransitivity; [|exact F1]|done..].
  - apply logged_kept; [lia|done|..].
    + destruct F6 as [[-> _]|(_ & -> & _)]; done.
    + destruct F6 as [[_ ->]|(? & _)]; [|done]. cbn [g1 on_log set_g_log g_log set_log_buffer log_buffer].
      by rewrite <-app_assoc.
Qed.
End flush.

(** [log_error] and the like, as other components see them. *)
Lemma log_msg_spec `{OS} `{!WriteOk} level msg g : log_ok (g_log g) →
  ∃ g' tr, (log_write level msg;; mret tt) g = Done (tt, g') ∧ log_step g g' tr.
Proof.
  intros Hok. destruct (log_write_spec level msg g Hok) as (b & g' & tr & E1 & Hs & _).
  exists g', tr. split; [|done]. unfold mbind, M_bind. by rewrite E1.
Qed.

(** C19. Every log message is accounted for: it is suppressed by the filter, or its
    whole line is added after everything logged before (written out or still in the
    buffer, in order, nothing twice), or it is counted as lost, which happens only
    when it does not fit or messages have been lost before.  The call always returns,
    the buffer stays within its 1024 bytes, and nothing but the log, [errno] and the
    calls made changes. *)
Theorem log_write_accounts `{OS} `{!WriteOk} level msg g :
  log_ok (g_log g) →
  ∃ b g' tr, log_write level msg g = Done (b, g') ∧ log_step g g' tr ∧ logged level msg g g' tr b.
Proof. apply log_write_spec. Qed.

Lemma log_write_accounts_witness :
  ∃ b g' tr, @log_write ideal_os LOG_LEVEL_ERROR (str "disk full") G_0 = Done (b, g') ∧
    log_step G_0 g' tr ∧ logged LOG_LEVEL_ERROR (str "disk full") G_0 g' tr b ∧ accepted tr = str "error: disk full" ++ [LF].
Proof.
  destruct (@log_write_accounts ideal_os _ LOG_LEVEL_ERROR (str "disk full") G_0) as (b & g' & tr & H1 & H2 & H3).
  - unfold log_ok. cbn. unfold in32, log_buffer_size. lia.
  - exists b, g', tr. split_and!; [done|done|done|]. pose proof (ls_trace _ _ _ H2) as Ht.
    vm_compute in H1. injection H1 as <- <-. cbn in Ht. rewrite app_nil_r in Ht. subst tr. vm_compute. done.
Defined.
