(* ===== verification/Signal.v ===== *)
(** * signal.c: pending signals

    The handler records each signal, with the time of its arrival, in the table
    [new_signals]; the main loop merges that table into [signals] while signals
    are blocked, and reports the pending entries in the order of their times.  A
    table is an array of 16 slots; a slot with number 0 is free. *)

From S2P Require Import Prelude Strseg State Log.

Definition SIGNAL_STATUS_SLOTS : Z := 16.

Definition sig_slot_0 : sig_status_t := mkSigStatus 0 0 0.
Definition sig_slots_0 : list sig_status_t := replicate (Z.to_nat SIGNAL_STATUS_SLOTS) sig_slot_0.

(** [for (i= 0; i < slots-1 && signals[i].signum != 0; i++) if (signals[i].signum == sig) break;] *)
Fixpoint record_signal_find (n : nat) (a : list sig_status_t) (sig i : Z) : outcome Z :=
  match n with
  | O => Done i
  | S n =>
      s ← slot a i;
      if negb (signum s =? 0) then
        if signum s =? sig then Done i else record_signal_find n a sig (i + 1)
      else Done i
  end.

Definition record_signal (a : list sig_status_t) (slots sig ts count : Z)
    : outcome (list sig_status_t) :=
  i ← record_signal_find (Z.to_nat (slots - 1)) a sig 0;
  s ← slot a i;
  if signum s =? sig then set_slot a i (mkSigStatus (signum s) ts (wrap32 (number_pending s + 1)))
  else set_slot a i (mkSigStatus sig ts 1).

(** The loop of [merge_new_signals] over the new entries. *)
Fixpoint merge_loop (new a : list sig_status_t) : outcome (list sig_status_t) :=
  match new with
  | [] => Done a
  | s :: new =>
      if number_pending s =? 0 then Done a
      else
        a ← record_signal a SIGNAL_STATUS_SLOTS (signum s) (last_received_ts s) (number_pending s);
        merge_loop new a
  end.

(** The loop of [sig_get_new_events]: [oldest] is the slot found so far. *)
Fixpoint oldest_loop (l : list sig_status_t) (since_ts : Z) (oldest : option sig_status_t)
    : option sig_status_t :=
  match l with
  | [] => oldest
  | s :: l =>
      oldest_loop l since_ts
        (if (number_pending s >? 0)
            && ((since_ts =? 0) || (wrap64 (last_received_ts s - since_ts) >? 0))
            && match oldest with
               | None => true
               | Some o => wrap64 (last_received_ts o - last_received_ts s) >? 0
               end
         then Some s else oldest)
  end.

(** Returns the signal, its time and its count, or [None] for [false]. *)
Definition sig_get_new_events (since_ts : Z) : DP (option (Z * Z * Z)) :=
  a ← gets (λ g, signals (g_sig g));
  match oldest_loop a since_ts None with
  | None => mret None
  | Some s => mret (Some (signum s, last_received_ts s, number_pending s))
  end.

Fixpoint mark_seen_loop (a : list sig_status_t) (sig count : Z) : list sig_status_t :=
  match a with
  | [] => []
  | s :: a =>
      if signum s =? sig then
        let n := wrap32 (number_pending s - count) in
        mkSigStatus (signum s) (last_received_ts s) (if n <? 0 then 0 else n) :: a
      else s :: mark_seen_loop a sig count
  end.

Definition sig_mark_seen (sig count : Z) : DP unit :=
  modify (on_sig (λ s, set_signals (mark_seen_loop (signals s) sig count) s)).

(** ** Names *)

(** A name of at most 8 characters as the union with [int64_t]: padded with NUL. *)
Definition pad8 (l : list Z) : list Z := l ++ replicate (8 - length l) NUL.

Fixpoint sig_num_loop (l : list (Z * list Z)) (val : list Z) : Z :=
  match l with
  | [] => 0
  | (n, name) :: l => if bool_decide (pad8 name = val) then n else sig_num_loop l val
  end.

Definition sig_num_by_name `{OS} (name : strseg_t) : outcome Z :=
  is_sig ← (if seg_len name >? 3 then
              a ← seg_at name 0; b ← seg_at name 1; c ← seg_at name 2;
              Done ((a =? ch "S") && (b =? ch "I") && (c =? ch "G"))
            else Done false);
  let name := if (is_sig : bool) then seg_advance name 3 else name in
  if seg_len name >? 8 then Done 0
  else
    chars ← seg_bytes (Z.to_nat (seg_len name)) name 0;
    Done (sig_num_loop sig_list (pad8 chars)).

Fixpoint sig_name_loop (l : list (Z * list Z)) (sig : Z) : option (list Z) :=
  match l with
  | [] => None
  | (n, name) :: l => if n =? sig then Some name else sig_name_loop l sig
  end.

Definition sig_name_by_num `{OS} (sig : Z) : option (list Z) := sig_name_loop sig_list sig.

(** ** Handlers *)

Section handlers.
Context `{OS}.

(** [gettime_mon_frac] of daemonproxy.c: the clock as a 32.32 fixed-point number. *)
Definition time_frac (sec nsec : Z) : Z :=
  wrap64 (Z.lor (Z.shiftl sec 32)
                (Z.land (Z.shiftl nsec 32 mod 2 ^ 64 / 1000000000) 0xFFFFFFFF)).

Definition gettime_mon_frac : DP Z :=
  r ← sys CClock;
  if negb (ret r =? 0) then t ← sys CTime; mret (time_frac (ret t) 0)
  else mret (time_frac (nth 0 (out r) 0) (nth 1 (out r) 0)).

Definition signal_spec : list Z :=
  (* SIGINT SIGHUP SIGTERM SIGUSR1 SIGUSR2 SIGQUIT SIGCHLD SIGALRM SIGPIPE
     SIGABRT SIGFPE SIGILL SIGSEGV SIGBUS SIGTRAP, as numbered on Linux *)
  [2; 1; 15; 10; 12; 3; 17; 14; 13; 6; 8; 4; 11; 7; 5].

Fixpoint sig_reset_loop (l : list Z) : DP unit :=
  match l with
  | [] => mret tt
  | s :: l => sys (CSigaction s 0);; sig_reset_loop l
  end.

Definition sig_reset_for_exec : DP unit :=
  sig_reset_loop signal_spec;;
  sys CSigprocmask;;
  mret tt.

(** The check all handlers start with: a forked child that still runs the
    parent's handler resets it and signals itself. *)
Definition sig_handler_check (sig : Z) : DP unit :=
  pid ← sys CGetpid;
  main_pid ← gets (λ g, sig_main_pid (g_sig g));
  when (negb (ret pid =? main_pid))
    (sig_reset_for_exec;; pid ← sys CGetpid; sys (CKill (ret pid) sig);; mret tt).

Definition sig_handler_wake : DP unit :=
  wr ← gets (λ g, sig_wake_wr (g_sig g));
  r ← sys (CWrite wr [NUL]);
  if negb (ret r =? 1) then
    e ← gets g_errno;
    modify (on_sig (set_signal_error e))
  else mret tt.

(** The times [sig_handler] gives to a signal at clock time [now]. *)
Definition handler_ts (prev now : Z) : Z :=
  let now := if now =? prev then wrap64 (now + 1) else now in
  if now =? 0 then wrap64 (now + 1) else now.

Definition sig_handler (sig : Z) : DP unit :=
  now ← gettime_mon_frac;
  sig_handler_check sig;;
  s ← gets g_sig;
  let now := handler_ts (sig_prev s) now in
  a ← lift (record_signal (new_signals s) SIGNAL_STATUS_SLOTS sig now 1);
  modify (on_sig (set_new_signals a));;
  modify (on_sig (set_sig_prev now));;
  sig_handler_wake.

Definition sig_handler_wake_only (sig : Z) : DP unit :=
  sig_handler_check sig;;
  sig_handler_wake.

(** ["sigprocmask: %m"] *)
Definition sigprocmask_logged : DP unit :=
  r ← sys CSigprocmask;
  if negb (ret r =? 0) then
    e ← gets g_errno;
    log_error (str "sigprocmask: " ++ strerror e)
  else mret tt.

Definition merge_new_signals : DP unit :=
  sigprocmask_logged;;
  s ← gets g_sig;
  a ← lift (merge_loop (new_signals s) (signals s));
  modify (on_sig (set_signals a));;
  modify (on_sig (set_new_signals sig_slots_0));;
  sigprocmask_logged.

(** [while (read(sig_wake_rd, tmp, sizeof(tmp)) > 0);] *)
Fixpoint drain_loop (fuel : nat) (fd : Z) : DP unit :=
  match fuel with
  | O => nofuel
  | S fuel =>
      r ← sys (CRead fd 16);
      if ret r >? 0 then drain_loop fuel fd else mret tt
  end.

(** [fuel] bounds the reads that empty the signal pipe. *)
Definition sig_run (fuel : nat) : DP unit :=
  s ← gets g_sig;
  when (negb (signal_error s =? 0))
    (log_error (str "signal pipe error: " ++ fmt_d (signal_error s));;
     modify (on_sig (set_signal_error 0)));;
  r ← woke_on_readable (sig_wake_rd s);
  when r (drain_loop fuel (sig_wake_rd s));;
  wake_on_readable (sig_wake_rd s);;
  merge_new_signals.
End handlers.
