(* ===== verification/SignalSpec.v ===== *)
(** * Properties of the signal tables *)

From Stdlib Require Import Sorted.
From S2P Require Import Prelude Strseg State Log Signal.

#[export] Instance sig_status_eq_dec : EqDecision sig_status_t.
Proof. solve_decision. Defined.

(** ** Tables *)

(** The signals whose handler is [sig_handler]: SIGINT, SIGHUP, SIGTERM, SIGUSR1,
    SIGUSR2 and SIGQUIT. *)
Definition handled : list Z := take 6 signal_spec.

(** The used slots of a table come first; their numbers are those of handled
    signals and differ, and no count is negative. *)
Definition sig_inv (a : list sig_status_t) : Prop :=
  ∃ used, a = used ++ replicate (16 - length used) sig_slot_0 ∧
    Forall (λ s, signum s ∈ handled ∧ 0 ≤ number_pending s) used ∧ NoDup (signum <$> used).

(** The signals that a table reports. *)
Definition is_pending (a : list sig_status_t) (sig : Z) : Prop :=
  ∃ s, s ∈ a ∧ signum s = sig ∧ 0 < number_pending s.

(** Where the search of [record_signal] stops. *)
Lemma record_signal_find_spec n a sig i : (i + n < length a)%nat →
  ∃ j, record_signal_find n a sig (Z.of_nat i) = Done (Z.of_nat j) ∧ (i ≤ j ≤ i + n)%nat ∧
    (∀ m s, (i ≤ m < j)%nat → a !! m = Some s → signum s ≠ 0 ∧ signum s ≠ sig) ∧
    (j = (i + n)%nat ∨ ∃ s, a !! j = Some s ∧ (signum s = 0 ∨ signum s = sig)).
Proof.
  revert i; induction n as [|n IH]; intros i Hlen; cbn [record_signal_find].
  { exists i. split_and!; [done|lia|lia|intros; lia|left; lia]. }
  destruct (lookup_lt_is_Some_2 a i ltac:(lia)) as [s Hs]. rewrite (slot_lookup _ _ _ Hs). cbn.
  destruct (Z.eqb_spec (signum s) 0) as [H0|H0]; cbn [negb].
  { exists i. split_and!; [done|lia|lia|intros; lia|right; eauto]. }
  destruct (Z.eqb_spec (signum s) sig) as [Hsig|Hsig].
  { exists i. split_and!; [done|lia|lia|intros; lia|right; eauto]. }
  destruct (IH (S i)) as (j & E1 & Hj & Hall & Hend); [lia|].
  exists j. rewrite <-E1. split_and!; [f_equal; lia|lia|lia| |].
  - intros m s' Hm Hms. destruct (decide (m = i)) as [->|]; [by simplify_eq|]. apply (Hall m); [lia|done].
  - destruct Hend as [->|?]; [left; lia|by right].
Qed.

(** [record_signal] on a table with a free slot: the entry of the signal is
    updated, or the first free slot taken. *)
Lemma record_signal_spec used sig ts count : let a := used ++ replicate (16 - length used) sig_slot_0 in
  (length used < 16)%nat → Forall (λ s, signum s ≠ 0) used → NoDup (signum <$> used) → sig ≠ 0 →
  ∃ used', record_signal a SIGNAL_STATUS_SLOTS sig ts count =
      Done (used' ++ replicate (16 - length used') sig_slot_0) ∧
    ((∃ u1 s u2, used = u1 ++ s :: u2 ∧ signum s = sig ∧
        used' = u1 ++ mkSigStatus sig ts (wrap32 (number_pending s + 1)) :: u2) ∨
     (sig ∉ signum <$> used ∧ used' = used ++ [mkSigStatus sig ts 1])).
Proof.
  intros a Hlen Hnz Hnd Hsig. assert (Hla : length a = 16%nat).
  { subst a. rewrite length_app, length_replicate. lia. }
  unfold record_signal.
  destruct (record_signal_find_spec 15 a sig 0) as (j & E1 & Hj & Hall & Hend); [lia|].
  change (Z.to_nat (SIGNAL_STATUS_SLOTS - 1)) with 15%nat. change (Z.of_nat 0) with 0 in E1.
  rewrite E1. cbn [mbind outcome_bind].
  destruct (lookup_lt_is_Some_2 a j ltac:(lia)) as [s Hs]. rewrite (slot_lookup _ _ _ Hs).
  cbn [mbind outcome_bind]. rewrite !set_slot_insert by lia.
  destruct (decide (j < length used)%nat) as [Hju|Hju].
  - assert (Hus : used !! j = Some s) by (subst a; by rewrite lookup_app_l in Hs by lia).
    assert (Hsn : signum s = sig).
    { destruct Hend as [?|(s' & Hs' & [H0|?])]; simplify_eq; [lia| |done].
      rewrite Forall_lookup in Hnz. by destruct (Hnz j s' Hus). }
    rewrite (proj2 (Z.eqb_eq _ _) Hsn). subst a. rewrite insert_app_l by lia. eexists.
    rewrite length_insert. split; [done|]. left.
    exists (take j used), s, (drop (S j) used). split_and!; [by rewrite take_drop_middle|done|].
    by rewrite insert_take_drop, Hsn by lia.
  - assert (j = length used) as ->.
    { destruct (decide (j = length used)) as [|Hne]; [done|].
      assert (Hz : a !! length used = Some sig_slot_0).
      { subst a. rewrite lookup_app_r, lookup_replicate by lia. split; [done|lia]. }
      destruct (Hall (length used) _ ltac:(lia) Hz) as [[] _]. done. }
    assert (s = sig_slot_0) as ->.
    { subst a. rewrite lookup_app_r, lookup_replicate in Hs by lia. by destruct Hs. }
    rewrite (proj2 (Z.eqb_neq _ _)) by (cbn; congruence).
    exists (used ++ [mkSigStatus sig ts 1]). split.
    + f_equal. subst a. rewrite insert_app_r_alt, Nat.sub_diag, <-app_assoc, length_app by lia.
      replace (16 - length used)%nat with (S (16 - (length used + 1))) by lia. done.
    + right. split; [|done]. intros (s & Hs' & Hin)%list_elem_of_fmap.
      apply list_elem_of_lookup in Hin as [m Hm].
      destruct (Hall m s) as [_ Hn]; [split; [lia|by eapply lookup_lt_Some]| |by apply Hn].
      subst a. by apply lookup_app_l_Some.
Qed.

Lemma sig_inv_length used : Forall (λ s, signum s ∈ handled ∧ 0 ≤ number_pending s) used →
  NoDup (signum <$> used) → (length used ≤ 6)%nat.
Proof.
  intros Hf Hnd. rewrite <-(length_fmap signum). change 6%nat with (length handled).
  apply submseteq_length, NoDup_submseteq; [done|].
  intros x (s & -> & Hs)%list_elem_of_fmap. rewrite Forall_forall in Hf. by apply Hf.
Qed.

Lemma sig_inv_empty : sig_inv sig_slots_0.
Proof. exists []. split_and!; [done|constructor|constructor]. Qed.

Lemma sig_inv_slots a : sig_inv a → length a = 16%nat.
Proof.
  intros (used & -> & Hf & Hnd). pose proof (sig_inv_length _ Hf Hnd).
  rewrite length_app, length_replicate. lia.
Qed.

Lemma handled_nz sig : sig ∈ handled → sig ≠ 0.
Proof.
  intros H ->. revert H. apply (bool_decide_unpack (0 ∉ handled)). vm_compute. done.
Qed.

Lemma pending_used used n sig : is_pending (used ++ replicate n sig_slot_0) sig ↔ is_pending used sig.
Proof.
  unfold is_pending. split.
  - intros (s & Hs & H1 & H2). apply elem_of_app in Hs as [Hs|Hs]; [by exists s|].
    apply elem_of_replicate in Hs as [-> _]. cbn in H2. lia.
  - intros (s & Hs & H1 & H2). exists s. rewrite elem_of_app. auto.
Qed.

Lemma pending_app u1 u2 sig : is_pending (u1 ++ u2) sig ↔ is_pending u1 sig ∨ is_pending u2 sig.
Proof. unfold is_pending. setoid_rewrite elem_of_app. naive_solver. Qed.

Lemma pending_cons s u sig :
  is_pending (s :: u) sig ↔ (signum s = sig ∧ 0 < number_pending s) ∨ is_pending u sig.
Proof. unfold is_pending. setoid_rewrite elem_of_cons. naive_solver. Qed.

(** Recording a handled signal makes it pending and changes no other entry. *)
Lemma record_signal_inv a sig ts count : sig_inv a → sig ∈ handled →
  (∀ s, s ∈ a → signum s = sig → number_pending s < 2 ^ 31 - 1) →
  ∃ a', record_signal a SIGNAL_STATUS_SLOTS sig ts count = Done a' ∧ sig_inv a' ∧
    (∃ s, s ∈ a' ∧ signum s = sig ∧ last_received_ts s = ts ∧ 0 < number_pending s) ∧
    (∀ s, signum s ≠ sig → number_pending s ≠ 0 → s ∈ a' ↔ s ∈ a) ∧
    (∀ x, is_pending a' x ↔ is_pending a x ∨ x = sig) ∧
    (∀ s, s ∈ a' → s ∈ a ∨ s = sig_slot_0 ∨ signum s = sig ∧ 0 < number_pending s ∧
       (number_pending s = 1 ∨ ∃ s0, s0 ∈ a ∧ number_pending s = number_pending s0 + 1)).
Proof.
  intros (used & -> & Hf & Hnd) Hsig Hroom. pose proof (sig_inv_length _ Hf Hnd) as Hlen.
  destruct (record_signal_spec used sig ts count) as (used' & E1 & Hcase);
    [lia|eapply Forall_impl; [done|]; intros s [Hs _]; by apply handled_nz|done|by apply handled_nz|].
  exists (used' ++ replicate (16 - length used') sig_slot_0). rewrite E1. split; [done|].
  destruct Hcase as [(u1 & s & u2 & -> & Hs & ->)|[Hnin ->]].
  - rewrite Forall_app, Forall_cons in Hf. destruct Hf as (Hf1 & [Hsh Hsp] & Hf2).
    pose proof (Hroom s ltac:(set_solver) Hs) as Hr.
    rewrite wrap32_small by (unfold in32; lia). set (s' := mkSigStatus _ _ _).
    split_and!.
    + exists (u1 ++ s' :: u2). split_and!; [done|..].
      * rewrite Forall_app, Forall_cons. split_and!; [done|done|cbn; lia|done].
      * rewrite fmap_app, fmap_cons in *. change (signum s') with sig. by rewrite <-Hs.
    + exists s'. split_and!; [set_solver|done|done|cbn; lia].
    + intros x Hx Hp. rewrite !elem_of_app, !elem_of_cons, !length_app, !length_cons. naive_solver.
    + intros x. rewrite !pending_used, !pending_app, !pending_cons. cbn. naive_solver lia.
    + intros x. rewrite !elem_of_app, !elem_of_cons, elem_of_replicate.
      intros [[?| [->|?]]|[-> _]]; [tauto| |tauto|tauto]. right; right. split_and!; [done|cbn; lia|].
      right. exists s. rewrite elem_of_app, elem_of_app, elem_of_cons. split; [tauto|done].
  - split_and!.
    + exists (used ++ [mkSigStatus sig ts 1]). split_and!; [done|..].
      * rewrite Forall_app, Forall_singleton. split_and!; [done|done|cbn; lia].
      * rewrite fmap_app. apply NoDup_app. split_and!; [done| |apply NoDup_singleton].
        cbn. intros x Hx ->%list_elem_of_singleton. done.
    + eexists. split_and!; [rewrite !elem_of_app, list_elem_of_singleton; by eauto|done|done|cbn; lia].
    + intros s Hs Hp. rewrite !elem_of_app, list_elem_of_singleton, !elem_of_replicate. naive_solver.
    + intros x. rewrite !pending_used, pending_app, pending_cons. cbn.
      assert (¬ is_pending [] x) by (intros (? & []%elem_of_nil & _)). naive_solver lia.
    + intros x. rewrite !elem_of_app, list_elem_of_singleton, elem_of_replicate.
      intros [[?| ->]|[-> _]]; [tauto| |tauto]. right; right. split_and!; [done|done|by left].
Qed.

(** ** Merging *)

(** Merging a list of entries with distinct numbers makes exactly those pending. *)
Lemma merge_loop_inv new a n : sig_inv a →
  Forall (λ s, signum s ∈ handled ∧ 0 < number_pending s) new → NoDup (signum <$> new) →
  (∀ s, s ∈ a → number_pending s < 2 ^ 31 - 1) →
  ∃ a', merge_loop (new ++ replicate n sig_slot_0) a = Done a' ∧ sig_inv a' ∧
    (∀ x, is_pending a' x ↔ is_pending a x ∨ is_pending new x) ∧
    (∀ B, 0 ≤ B → (∀ s, s ∈ a → number_pending s ≤ B) →
       ∀ s, s ∈ a' → number_pending s ≤ B + Z.of_nat (length new)).
Proof.
  intros Ha Hf Hnd Hroom.
  assert (Hroom' : ∀ s, s ∈ a → signum s ∈ signum <$> new → number_pending s < 2 ^ 31 - 1) by auto.
  clear Hroom. revert a Ha Hroom'. induction Hf as [|s new [Hs Hp] Hf IH]; intros a Ha Hroom.
  { exists a. split_and!; [by destruct n|done| |].
    - intros x. assert (¬ is_pending [] x) by (intros (? & []%elem_of_nil & _)). naive_solver.
    - intros B HB Hle s Hs. specialize (Hle s Hs). cbn. lia. }
  rewrite fmap_cons, NoDup_cons in Hnd. destruct Hnd as [Hnin Hnd].
  cbn [app merge_loop]. rewrite (proj2 (Z.eqb_neq _ _)) by lia.
  destruct (record_signal_inv a (signum s) (last_received_ts s) (number_pending s)) as
    (a1 & E1 & Ha1 & _ & Hrest & Hpend & Hcount); [done|done| |].
  { intros s' Hs' Heq. apply Hroom; [done|]. rewrite Heq. cbn. apply elem_of_cons. by left. }
  rewrite E1. cbn [mbind outcome_bind].
  destruct (IH Hnd a1 Ha1) as (a' & E' & Ha' & Hpend' & Hcount').
  { intros s' Hs' Hin. destruct (decide (number_pending s' = 0)) as [->|Hne]; [lia|].
    apply Hroom; [|apply elem_of_cons; by right]. apply Hrest; [|done|done]. intros Heq. by rewrite Heq in Hin. }
  exists a'. split_and!; [done|done| |].
  - intros x. rewrite Hpend', Hpend, pending_cons. naive_solver.
  - intros B HB Hle x Hx. specialize (Hcount' (B + 1) ltac:(lia)).
    cbn [length]. rewrite Nat2Z.inj_succ. assert (number_pending x ≤ B + 1 + Z.of_nat (length new)); [|lia].
    apply Hcount'; [|done]. intros y Hy. apply Hcount in Hy as [Hy|[->|(_ & _ & [->|(s0 & Hs0 & ->)])]].
    + specialize (Hle y Hy). lia.
    + cbn. lia.
    + lia.
    + specialize (Hle s0 Hs0). lia.
Qed.

(** ** Sequences of events

    The signal part of the daemon as a transition system: a signal arrives, the
    main loop merges, a controller clears a count. *)

Inductive sig_event :=
  | Arrive (sig ts : Z)
  | Merge
  | Clear (sig count : Z).

Record sig_tables := mkTables { tnew : list sig_status_t; tsig : list sig_status_t }.

Definition sig_step (st : sig_tables) (e : sig_event) : outcome sig_tables :=
  match e with
  | Arrive sig ts =>
      a ← record_signal (tnew st) SIGNAL_STATUS_SLOTS sig ts 1; Done (mkTables a (tsig st))
  | Merge => a ← merge_loop (tnew st) (tsig st); Done (mkTables sig_slots_0 a)
  | Clear sig count => Done (mkTables (tnew st) (mark_seen_loop (tsig st) sig count))
  end.

Fixpoint sig_steps (st : sig_tables) (es : list sig_event) : outcome sig_tables :=
  match es with
  | [] => Done st
  | e :: es => st ← sig_step st e; sig_steps st es
  end.

(** Events the program can cause: only handled signals arrive, and a count that
    is cleared is not negative. *)
Definition event_ok (e : sig_event) : Prop :=
  match e with
  | Arrive sig _ => sig ∈ handled
  | Merge => True
  | Clear sig count => sig ≠ 0 ∧ 0 ≤ count < 2 ^ 31
  end.

Definition unseen (st : sig_tables) (sig : Z) : Prop :=
  is_pending (tnew st) sig ∨ is_pending (tsig st) sig.

(** The invariant after [n] events. *)
Record tables_ok (n : nat) (st : sig_tables) : Prop := {
  tok_new : sig_inv (tnew st);
  tok_sig : sig_inv (tsig st);
  tok_pos : ∀ s, s ∈ tnew st → signum s ≠ 0 → 0 < number_pending s;
  tok_new_count : ∀ s, s ∈ tnew st → number_pending s ≤ 6 * Z.of_nat n;
  tok_sig_count : ∀ s, s ∈ tsig st → number_pending s ≤ 6 * Z.of_nat n;
}.

Lemma mark_seen_elem a sig count s : s ∈ mark_seen_loop a sig count → s ∈ a ∨ ∃ s0, s0 ∈ a ∧
  signum s0 = sig ∧ s = mkSigStatus sig (last_received_ts s0)
    (let n := wrap32 (number_pending s0 - count) in if n <? 0 then 0 else n).
Proof.
  induction a as [|s0 a IH]; cbn; [tauto|]. destruct (Z.eqb_spec (signum s0) sig) as [Heq|Hne];
    rewrite !elem_of_cons.
  - intros [->|?]; [|tauto]. right. exists s0. rewrite elem_of_cons, <-Heq. tauto.
  - intros [->|H]; [tauto|]. destruct (IH H) as [?|(s1 & ? & ?)]; [tauto|]. right. exists s1.
    rewrite elem_of_cons. tauto.
Qed.

Lemma mark_seen_inv a sig count : sig_inv a → sig ≠ 0 → sig_inv (mark_seen_loop a sig count).
Proof.
  intros (used & -> & Hf & Hnd) Hs0.
  assert (E : ∀ n, mark_seen_loop (used ++ replicate n sig_slot_0) sig count =
    mark_seen_loop used sig count ++ replicate n sig_slot_0 ∧
    signum <$> mark_seen_loop used sig count = signum <$> used ∧
    Forall (λ s, signum s ∈ handled ∧ 0 ≤ number_pending s) (mark_seen_loop used sig count)).
  { intros n. clear Hnd. induction Hf as [|s used [Hs Hp] Hf IH]; cbn.
    - split_and!; [|done|constructor]. induction n as [|n IH]; cbn [replicate mark_seen_loop app]; [done|].
      rewrite (proj2 (Z.eqb_neq _ _)) by (cbn; congruence). by rewrite IH.
    - destruct (Z.eqb_spec (signum s) sig); cbn.
      + split_and!; [done|done|]. constructor; [|done]. cbn. split; [done|]. case_match; lia.
      + destruct IH as (-> & -> & ?). split_and!; [done|done|by constructor]. }
  destruct (E (16 - length used)%nat) as (-> & E2 & E3).
  exists (mark_seen_loop used sig count). split_and!; [|done|by rewrite E2].
  do 2 f_equal. apply (f_equal length) in E2. rewrite !length_fmap in E2. by rewrite E2.
Qed.

Lemma mark_seen_other a sig count s : signum s ≠ sig → s ∈ a → s ∈ mark_seen_loop a sig count.
Proof.
  intros Hne. induction a as [|s0 a IH]; cbn; [tauto|]. rewrite elem_of_cons.
  destruct (Z.eqb_spec (signum s0) sig) as [Heq|Hne']; rewrite elem_of_cons; [|tauto].
  intros [->|?]; [done|tauto].
Qed.

Lemma tables_new_split st : (∃ n, tables_ok n st) → ∃ used k, tnew st = used ++ replicate k sig_slot_0 ∧
  Forall (λ s, signum s ∈ handled ∧ 0 < number_pending s) used ∧ NoDup (signum <$> used) ∧
  (length used ≤ 6)%nat.
Proof.
  intros [n [(used & Hu & Hf & Hnd) _ Hpos _ _]]. exists used, (16 - length used)%nat.
  split_and!; [done| |done|by apply sig_inv_length]. rewrite Hu in Hpos.
  apply Forall_forall. intros s Hs. rewrite Forall_forall in Hf. destruct (Hf s Hs) as [Hh _].
  split; [done|]. apply Hpos; [apply elem_of_app; by left|by apply handled_nz].
Qed.

(** What one event does to the set of unseen signals. *)
Record step_effect (n : nat) (st : sig_tables) (e : sig_event) (st' : sig_tables) : Prop := {
  se_ok : tables_ok (S n) st';
  se_keep : ∀ x, unseen st x → (∀ c, e ≠ Clear x c) → unseen st' x;
  se_add : ∀ sig ts, e = Arrive sig ts → unseen st' sig;
  se_only : ∀ x, unseen st' x → unseen st x ∨ ∃ ts, e = Arrive x ts;
}.

Lemma step_arrive n st sig ts : tables_ok n st → sig ∈ handled → 6 * (Z.of_nat n + 1) < 2 ^ 31 - 1 →
  ∃ st', sig_step st (Arrive sig ts) = Done st' ∧ step_effect n st (Arrive sig ts) st'.
Proof.
  intros [T1 T2 T3 T4 T5] Hsig Hn. unfold sig_step.
  destruct (record_signal_inv (tnew st) sig ts 1) as (a & E1 & Ha & (s & Hs1 & Hs2 & _ & Hs4) & _ & Hp & Hc);
    [done|done|intros s Hs _; specialize (T4 s Hs); lia|]. rewrite E1. cbn.
  eexists. split; [done|]. split.
  - split; cbn; [done|done|..].
    + intros x Hx Hnz. apply Hc in Hx as [Hx|[->|(_ & ? & _)]]; [by apply T3|done|done].
    + intros x Hx. rewrite Nat2Z.inj_succ.
      apply Hc in Hx as [Hx|[->|(_ & _ & [->|(s0 & Hs0 & ->)])]]; [specialize (T4 x Hx)|cbn| |specialize (T4 s0 Hs0)]; lia.
    + intros x Hx. specialize (T5 x Hx). lia.
  - intros x [Hx|Hx] _; [left|by right]. cbn. apply Hp. by left.
  - intros ? ? [= <- <-]. left. cbn. by exists s.
  - intros x [Hx|Hx]; cbn in Hx; [|left; by right]. apply Hp in Hx as [Hx| ->]; [left; by left|right; eauto].
Qed.

Lemma step_merge n st : tables_ok n st → 6 * (Z.of_nat n + 1) < 2 ^ 31 - 1 →
  ∃ st', sig_step st Merge = Done st' ∧ step_effect n st Merge st'.
Proof.
  intros Hok Hn. destruct (tables_new_split st) as (used & k & Hu & Hf & Hnd & Hlen); [eauto|].
  destruct Hok as [T1 T2 T3 T4 T5]. unfold sig_step. rewrite Hu.
  destruct (merge_loop_inv used (tsig st) k) as (a' & E1 & Ha & Hp & Hc); [done..| |].
  { intros s Hs. specialize (T5 s Hs). lia. }
  rewrite E1. cbn. eexists. split; [done|].
  assert (Hz : ∀ s, s ∈ sig_slots_0 → s = sig_slot_0) by (intros s [? _]%elem_of_replicate; done).
  split.
  - split; cbn [tnew tsig]; [apply sig_inv_empty|done|..].
    + intros s ->%Hz Hs. done.
    + intros s ->%Hz. cbn. lia.
    + intros s Hs. specialize (Hc (6 * Z.of_nat n) ltac:(lia) T5 s Hs). lia.
  - intros x Hx _. right. cbn. apply Hp. destruct Hx as [Hx|Hx]; [|by left].
    rewrite Hu, pending_used in Hx. by right.
  - done.
  - intros x [Hx|Hx]; cbn in Hx.
    + destruct Hx as (s & ->%Hz & _ & H). cbn in H. lia.
    + left. apply Hp in Hx as [Hx|Hx]; [by right|left]. by rewrite Hu, pending_used.
Qed.

Lemma step_clear n st sig count : tables_ok n st → event_ok (Clear sig count) →
  6 * (Z.of_nat n + 1) < 2 ^ 31 - 1 →
  ∃ st', sig_step st (Clear sig count) = Done st' ∧ step_effect n st (Clear sig count) st'.
Proof.
  intros [T1 T2 T3 T4 T5] [H0 Hc] Hn. cbn [sig_step]. eexists. split; [done|].
  assert (Hle : ∀ s, s ∈ mark_seen_loop (tsig st) sig count → ∃ s0, s0 ∈ tsig st ∧
    signum s0 = signum s ∧ (s = s0 ∨ number_pending s ≤ number_pending s0 ∨ number_pending s = 0)).
  { intros s Hs. apply mark_seen_elem in Hs as [?|(s0 & Hs0 & Hs1 & ->)]; [exists s; auto|].
    exists s0. split_and!; [done|done|]. right. cbn.
    assert (0 ≤ number_pending s0 < 2 ^ 31).
    { split; [|specialize (T5 s0 Hs0); lia]. destruct T2 as (used & Hu & Hf & _). rewrite Hu in Hs0.
      apply elem_of_app in Hs0 as [Hs0|[-> _]%elem_of_replicate]; [|done].
      rewrite Forall_forall in Hf. by apply Hf. }
    rewrite wrap32_small by (unfold in32; lia). case_match; lia. }
  split.
  - split; cbn [tnew tsig]; [done|by apply mark_seen_inv|done|intros s Hs; specialize (T4 s Hs); lia|].
    intros s Hs. destruct (Hle s Hs) as (s0 & Hs0 & _ & Hs'). specialize (T5 s0 Hs0).
    destruct Hs' as [->|[?|?]]; lia.
  - intros x [Hx|(s & Hs & Hs1 & Hs2)] Hne; [by left|right]. exists s. split_and!; [|done|done].
    apply mark_seen_other; [|done]. intros Heq. apply (Hne count). congruence.
  - done.
  - intros x [Hx|(s & Hs & Hs1 & Hs2)]; left; [by left|right]. cbn in Hs.
    destruct (Hle s Hs) as (s0 & Hs0 & Heq & Hs'). exists s0. split_and!; [done|congruence|].
    destruct Hs' as [->|[?|?]]; lia.
Qed.

Lemma sig_step_effect n st e : tables_ok n st → event_ok e → 6 * (Z.of_nat n + 1) < 2 ^ 31 - 1 →
  ∃ st', sig_step st e = Done st' ∧ step_effect n st e st'.
Proof. destruct e; [apply step_arrive|intros ? _; by apply step_merge|apply step_clear]. Qed.

Lemma sig_steps_from es n st : tables_ok n st → Forall event_ok es →
  6 * (Z.of_nat n + Z.of_nat (length es)) < 2 ^ 31 - 1 →
  ∃ st', sig_steps st es = Done st' ∧ tables_ok (n + length es) st' ∧
    (∀ x, unseen st x → (∀ c, Clear x c ∉ es) → unseen st' x) ∧
    (∀ x, unseen st' x → unseen st x ∨ ∃ ts, Arrive x ts ∈ es).
Proof.
  intros Hok Hes. revert n st Hok; induction Hes as [|e es He Hes IH]; intros n st Hok Hn.
  { exists st. cbn. rewrite Nat.add_0_r. auto. }
  cbn [length] in Hn. destruct (sig_step_effect n st e) as (st1 & E1 & [S1 S2 S3 S4]); [done|done|lia|].
  destruct (IH (S n) st1 S1) as (st' & E' & Hok' & Hkeep & Honly); [lia|].
  exists st'. cbn [sig_steps length]. rewrite E1. cbn [mbind outcome_bind].
  rewrite Nat.add_succ_r. split_and!; [done|done|..].
  - intros x Hx Hc. setoid_rewrite elem_of_cons in Hc. apply Hkeep; [|naive_solver].
    apply S2; [done|]. intros c ->. by destruct (Hc c); left.
  - intros x Hx. setoid_rewrite elem_of_cons. destruct (Honly x Hx) as [Hx'|[ts ?]]; [|eauto].
    destruct (S4 x Hx') as [?|[ts ->]]; eauto.
Qed.

Lemma tables_ok_empty : tables_ok 0 (mkTables sig_slots_0 sig_slots_0).
Proof.
  assert (Hz : ∀ s, s ∈ sig_slots_0 → s = sig_slot_0) by (intros s [? _]%elem_of_replicate; done).
  split; cbn [tnew tsig]; [apply sig_inv_empty..|intros s ->%Hz|intros s ->%Hz|intros s ->%Hz]; done.
Qed.

Lemma sig_steps_app es1 es2 st : sig_steps st (es1 ++ es2) = (st ← sig_steps st es1; sig_steps st es2).
Proof.
  revert st; induction es1 as [|e es1 IH]; intros st; cbn; [done|].
  destruct (sig_step st e); cbn; [apply IH|done..].
Qed.

(** C17. No signal is lost: whatever the order in which signals arrive, the main loop
    merges and controllers clear counts, the tables never overflow, a signal that
    arrived and was not cleared since is pending in one of the two tables, and only
    signals that arrived are pending. *)
Theorem signals_never_lost (es : list sig_event) :
  Forall event_ok es → 6 * Z.of_nat (length es) < 2 ^ 31 - 1 →
  ∃ st, sig_steps (mkTables sig_slots_0 sig_slots_0) es = Done st ∧
    (∀ es1 sig ts es2, es = es1 ++ Arrive sig ts :: es2 → (∀ c, Clear sig c ∉ es2) → unseen st sig) ∧
    (∀ sig, unseen st sig → ∃ ts, Arrive sig ts ∈ es).
Proof.
  intros Hes Hn. destruct (sig_steps_from es 0 _ tables_ok_empty Hes) as (st & E1 & _ & _ & Honly); [lia|].
  exists st. split_and!; [done|..].
  - intros es1 sig ts es2 -> Hc. rewrite Forall_app, Forall_cons in Hes. destruct Hes as (Hes1 & He & Hes2).
    rewrite length_app in Hn. cbn in Hn.
    destruct (sig_steps_from es1 0 _ tables_ok_empty Hes1) as (st1 & E2 & Hok1 & _); [lia|].
    destruct (sig_step_effect _ st1 (Arrive sig ts) Hok1 He) as (st2 & E3 & [S1 _ S3 _]); [lia|].
    destruct (sig_steps_from es2 _ st2 S1 Hes2) as (st3 & E4 & _ & Hkeep & _); [lia|].
    rewrite sig_steps_app, E2 in E1. cbn [mbind outcome_bind sig_steps] in E1.
    rewrite E3 in E1. cbn [mbind outcome_bind] in E1. rewrite E4 in E1. injection E1 as <-.
    apply Hkeep; [by eapply S3|done].
  - intros sig Hs. destruct (Honly sig Hs) as [[(s & [-> _]%elem_of_replicate & _ & H)|(s & [-> _]%elem_of_replicate & _ & H)]|?];
      [done|done|done].
Qed.

Lemma signals_never_lost_witness :
  ∃ st, sig_steps (mkTables sig_slots_0 sig_slots_0)
      [Arrive 2 100; Arrive 15 101; Merge; Clear 15 1; Arrive 1 102] = Done st ∧
    unseen st 2 ∧ unseen st 1 ∧ (∀ sig, unseen st sig → ∃ ts, Arrive sig ts ∈
      [Arrive 2 100; Arrive 15 101; Merge; Clear 15 1; Arrive 1 102]).
Proof.
  destruct (signals_never_lost [Arrive 2 100; Arrive 15 101; Merge; Clear 15 1; Arrive 1 102])
    as (st & E1 & H1 & H2).
  - repeat constructor; cbn; try lia; apply (bool_decide_unpack _); vm_compute; done.
  - cbn. lia.
  - exists st. split_and!; [done| | |done].
    + apply (H1 [] 2 100 _ eq_refl). intros c. rewrite !elem_of_cons, elem_of_nil. naive_solver.
    + apply (H1 [Arrive 2 100; Arrive 15 101; Merge; Clear 15 1] 1 102 [] eq_refl).
      intros c. apply not_elem_of_nil.
Defined.

(** ** Reporting pending signals *)

(** The entries a client that has seen everything up to [since] has not seen. *)
Definition eligible (since : Z) (s : sig_status_t) : Prop :=
  0 < number_pending s ∧ (since = 0 ∨ since < last_received_ts s).
#[export] Instance eligible_dec since s : Decision (eligible since s).
Proof. unfold eligible. apply _. Defined.

(** Times for which differences do not overflow. *)
Definition ts_ok (s : sig_status_t) : Prop :=
  0 < number_pending s → 0 < last_received_ts s < 2 ^ 62.

#[export] Instance ts_ok_dec s : Decision (ts_ok s).
Proof. unfold ts_ok. apply _. Defined.

Lemma wrap64_diff x y : 0 ≤ x < 2 ^ 62 → 0 ≤ y < 2 ^ 62 → wrap64 (x - y) = x - y.
Proof. intros. apply wrap64_id. unfold in64, int64_min, int64_max. lia. Qed.

Lemma oldest_loop_spec l since acc : 0 ≤ since < 2 ^ 62 → Forall ts_ok l →
  (∀ o, acc = Some o → eligible since o ∧ ts_ok o) →
  match oldest_loop l since acc with
  | None => acc = None ∧ ∀ s, s ∈ l → ¬ eligible since s
  | Some o => (o ∈ l ∨ acc = Some o) ∧ eligible since o ∧
      (∀ s, s ∈ l ∨ acc = Some s → eligible since s → last_received_ts o ≤ last_received_ts s)
  end.
Proof.
  intros Hsince Hl. revert acc; induction Hl as [|s l Hs Hl IH]; intros acc Hacc; cbn [oldest_loop].
  { destruct acc as [o|]; [|split; [done|intros s []%elem_of_nil]].
    destruct (Hacc o eq_refl) as [He _]. split_and!; [auto|done|].
    intros s [[]%elem_of_nil|[= <-]] _. lia. }
  set (b := _ && _ && _).
  assert (Hb : b = true ↔ eligible since s ∧ ∀ o, acc = Some o → last_received_ts s < last_received_ts o).
  { subst b. unfold eligible. unfold ts_ok in Hs. destruct (Z.gtb_spec (number_pending s) 0) as [Hp|Hp]; cbn [andb].
    2: { split; [done|]. intros [[? _] _]. lia. }
    specialize (Hs Hp). rewrite (wrap64_diff (last_received_ts s)) by lia.
    rewrite andb_true_iff, orb_true_iff, Z.eqb_eq, Z.gtb_lt. destruct acc as [o|].
    - destruct (Hacc o eq_refl) as [[Ho _] Hto]. specialize (Hto Ho).
      rewrite wrap64_diff, Z.gtb_lt by lia. split.
      + intros [H1 H2]. split; [split; [lia|destruct H1; [by left|right; lia]]|]. intros ? [= <-]. lia.
      + intros [[_ H1] H2]. specialize (H2 o eq_refl). split; [destruct H1; [by left|right; lia]|lia].
    - split; [intros [H1 _]; split; [split; [lia|destruct H1; [by left|right; lia]]|done]|].
      intros [[_ H1] _]. split; [destruct H1; [by left|right; lia]|done]. }
  specialize (IH (if b then Some s else acc)). destruct b.
  - destruct (proj1 Hb eq_refl) as [He Hlt].
    destruct (oldest_loop l since (Some s)) as [o|]; [|by destruct (IH ltac:(by intros ? [= <-])) as [? _]].
    destruct (IH ltac:(by intros ? [= <-])) as (H1 & H2 & H3). split_and!; [|done|].
    + rewrite elem_of_cons. destruct H1 as [?|[= ->]]; tauto.
    + intros x Hx Hex. rewrite elem_of_cons in Hx. destruct Hx as [[->|Hx]|Hx].
      * by apply H3; [right|].
      * apply H3; [by left|done].
      * specialize (Hlt x Hx). specialize (H3 s (or_intror eq_refl) He). lia.
  - assert (Hnb : ¬ (eligible since s ∧ ∀ o, acc = Some o → last_received_ts s < last_received_ts o)).
    { intros H. by apply Hb in H. }
    specialize (IH Hacc). destruct (oldest_loop l since acc) as [o|].
    + destruct IH as (H1 & H2 & H3). split_and!; [rewrite elem_of_cons; tauto|done|].
      intros x Hx Hex. rewrite elem_of_cons in Hx. destruct Hx as [[->|Hx]|Hx]; [|apply H3; auto..].
      destruct acc as [o'|].
      * destruct (decide (last_received_ts s < last_received_ts o')) as [Hlt|Hge].
        { destruct Hnb. split; [done|]. by intros ? [= <-]. }
        specialize (H3 o' (or_intror eq_refl) (proj1 (Hacc o' eq_refl))). lia.
      * destruct Hnb. by split.
    + destruct IH as [-> Hno]. split; [done|]. intros x [->|Hx]%elem_of_cons He; [|by eapply Hno].
      by apply Hnb.
Qed.

(** The loop [while (sig_get_new_events(ts, &sig, &ts, &count)) ...] of the clients. *)
Fixpoint sig_events (fuel : nat) (since : Z) : DP (list (Z * Z * Z)) :=
  match fuel with
  | O => nofuel
  | S fuel =>
      r ← sig_get_new_events since;
      match r with
      | None => mret []
      | Some (sig, ts, count) => rest ← sig_events fuel ts; mret ((sig, ts, count) :: rest)
      end
  end.

Definition entry (s : sig_status_t) : Z * Z * Z := (signum s, last_received_ts s, number_pending s).

Lemma sig_get_new_events_spec since g : 0 ≤ since < 2 ^ 62 → Forall ts_ok (signals (g_sig g)) →
  sig_get_new_events since g = Done (None, g) ∧ (∀ s, s ∈ signals (g_sig g) → ¬ eligible since s) ∨
  ∃ s, sig_get_new_events since g = Done (Some (entry s), g) ∧ s ∈ signals (g_sig g) ∧ eligible since s ∧
    ∀ s', s' ∈ signals (g_sig g) → eligible since s' → last_received_ts s ≤ last_received_ts s'.
Proof.
  intros Hs Hok. pose proof (oldest_loop_spec (signals (g_sig g)) since None Hs Hok ltac:(done)) as H.
  unfold sig_get_new_events. mstep. destruct (oldest_loop _ since None) as [s|]; [right|left].
  - destruct H as ([H1|?] & H2 & H3); [|done]. exists s. split_and!; [done|done|done|]. auto.
  - split; [done|apply H].
Qed.

(** The number of entries still to report. *)
Definition to_report (since : Z) (a : list sig_status_t) : nat := length (filter (eligible since) a).

Lemma to_report_lt since s a : s ∈ a → eligible since s → 0 < last_received_ts s →
  (∀ s', s' ∈ a → eligible since s' → last_received_ts s ≤ last_received_ts s') →
  (to_report (last_received_ts s) a < to_report since a)%nat.
Proof.
  intros Hin He Hpos Hmin. unfold to_report.
  assert (Hle : ∀ l, (∀ s', s' ∈ l → s' ∈ a) →
    (length (filter (eligible (last_received_ts s)) l) ≤ length (filter (eligible since) l))%nat).
  { induction l as [|x l IH]; intros Hl; [done|]. rewrite !filter_cons.
    pose proof (IH ltac:(intros; apply Hl; by right)) as IH'. destruct (decide (eligible (last_received_ts s) x)) as [Hx|Hx].
    - rewrite decide_True; [cbn; lia|]. destruct Hx as [Hx1 [Hx2|Hx2]]; [lia|]. split; [done|].
      destruct He as [_ [->|?]]; [by left|right; lia].
    - destruct (decide (eligible since x)); cbn; lia. }
  apply list_elem_of_split in Hin as (l1 & l2 & ->). rewrite !filter_app, !filter_cons, !length_app.
  rewrite (decide_True _ _ He), decide_False.
  - pose proof (Hle l1 ltac:(set_solver)). pose proof (Hle l2 ltac:(set_solver)). cbn. lia.
  - intros [_ [?|?]]; lia.
Qed.

Lemma sig_events_spec fuel since g : 0 ≤ since < 2 ^ 62 → Forall ts_ok (signals (g_sig g)) →
  (∀ s1 s2, s1 ∈ signals (g_sig g) → s2 ∈ signals (g_sig g) → 0 < number_pending s1 →
     last_received_ts s1 = last_received_ts s2 → 0 < number_pending s2 → s1 = s2) →
  (to_report since (signals (g_sig g)) < fuel)%nat →
  ∃ l, sig_events fuel since g = Done (entry <$> l, g) ∧
    StronglySorted (λ s1 s2, last_received_ts s1 < last_received_ts s2) l ∧
    (∀ s, s ∈ l ↔ s ∈ signals (g_sig g) ∧ eligible since s).
Proof.
  intros Hs Hok Hdist. revert since Hs; induction fuel as [|fuel IH]; intros since Hs Hf; [lia|].
  cbn [sig_events].
  destruct (sig_get_new_events_spec since g Hs Hok) as [[E1 Hno]|(s & E1 & Hin & He & Hmin)].
  - exists []. unfold mbind, M_bind. rewrite E1. split_and!; [done|constructor|].
    intros s. rewrite elem_of_nil. naive_solver.
  - pose proof Hok as Hok'. rewrite Forall_forall in Hok'. pose proof (Hok' s Hin (proj1 He)) as Hts.
    pose proof (to_report_lt since s _ Hin He (proj1 Hts) Hmin) as Hlt.
    destruct (IH (last_received_ts s)) as (l & E2 & Hsort & Hl); [lia|lia|].
    exists (s :: l). unfold mbind, M_bind. rewrite E1. cbn. rewrite E2. split_and!; [done|..].
    + constructor; [done|]. apply Forall_forall. intros x Hx. apply Hl in Hx as [_ [_ [?|?]]]; lia.
    + intros x. rewrite elem_of_cons, Hl. split.
      * intros [->|[Hx1 [Hx2 [?|Hx3]]]]; [done|lia|]. split; [done|]. split; [done|].
        destruct He as [_ [->|?]]; [by left|right; lia].
      * intros [Hx1 Hx2]. destruct (decide (last_received_ts x = last_received_ts s)) as [Heq|Hne].
        { left. apply Hdist; [done|done|apply Hx2|done|apply He]. }
        right. split; [done|]. split; [apply Hx2|]. right. specialize (Hmin x Hx1 Hx2). lia.
Qed.

(** C18. Provided no two pending signals have the same time, a client that asks for new
    events until there are none gets every pending signal it has not seen, each once,
    in the order of arrival, and the loop ends after at most 17 rounds.  Signals with the
    same time do occur ([handler_ts_repeats]); all but one of them are then skipped. *)
Theorem sig_events_in_order since g :
  0 ≤ since < 2 ^ 62 → sig_inv (signals (g_sig g)) → Forall ts_ok (signals (g_sig g)) →
  (∀ s1 s2, s1 ∈ signals (g_sig g) → s2 ∈ signals (g_sig g) → 0 < number_pending s1 →
     last_received_ts s1 = last_received_ts s2 → 0 < number_pending s2 → s1 = s2) →
  ∃ l, sig_events 17 since g = Done (entry <$> l, g) ∧
    StronglySorted (λ s1 s2, last_received_ts s1 < last_received_ts s2) l ∧
    (∀ s, s ∈ l ↔ s ∈ signals (g_sig g) ∧ eligible since s).
Proof.
  intros Hs Hinv Hok Hdist. apply sig_events_spec; [done..|].
  apply sig_inv_slots in Hinv. unfold to_report.
  pose proof (length_filter (eligible since) (signals (g_sig g))). lia.
Qed.

Definition ex_sig_state : G :=
  on_sig (set_signals ([mkSigStatus 15 300 1; mkSigStatus 2 100 4; mkSigStatus 1 200 0] ++
    replicate 13 sig_slot_0)) G_0.

Lemma sig_events_in_order_witness :
  ∃ l, sig_events 17 0 ex_sig_state = Done (entry <$> l, ex_sig_state) ∧
    entry <$> l = [(2, 100, 4); (15, 300, 1)] ∧
    (∀ s, s ∈ l ↔ s ∈ signals (g_sig ex_sig_state) ∧ eligible 0 s).
Proof.
  destruct (sig_events_in_order 0 ex_sig_state) as (l & E1 & _ & H2).
  - lia.
  - exists [mkSigStatus 15 300 1; mkSigStatus 2 100 4; mkSigStatus 1 200 0].
    split_and!; [done|..]; [|apply (bool_decide_unpack _); vm_compute; done].
    repeat constructor; cbn; try lia; apply (bool_decide_unpack _); vm_compute; done.
  - apply (bool_decide_unpack _). vm_compute. done.
  - assert (H : Forall (λ s1, Forall (λ s2, 0 < number_pending s1 →
      last_received_ts s1 = last_received_ts s2 → 0 < number_pending s2 → s1 = s2)
      (signals (g_sig ex_sig_state))) (signals (g_sig ex_sig_state))).
    { apply (bool_decide_unpack _). vm_compute. done. }
    intros s1 s2 H1 H2. rewrite Forall_forall in H. specialize (H s1 H1). rewrite Forall_forall in H. auto.
  - exists l. split_and!; [done| |done]. 
    assert (E2 : sig_events 17 0 ex_sig_state = Done ([(2, 100, 4); (15, 300, 1)], ex_sig_state))
      by (vm_compute; reflexivity).
    rewrite E2 in E1. by injection E1.
Defined.

(** ** Times *)

(** C32. The clock value is exact: seconds in the upper and the fraction in the lower
    32 bits, rounded down, and later readings give values that are not smaller. *)
Theorem time_frac_exact sec nsec :
  0 ≤ sec < 2 ^ 31 → 0 ≤ nsec < 1000000000 →
  time_frac sec nsec = sec * 2 ^ 32 + nsec * 2 ^ 32 / 1000000000 ∧
  in64 (time_frac sec nsec) ∧
  ∀ sec' nsec', 0 ≤ sec' < 2 ^ 31 → 0 ≤ nsec' < 1000000000 →
    sec < sec' ∨ sec = sec' ∧ nsec ≤ nsec' → time_frac sec nsec ≤ time_frac sec' nsec'.
Proof.
  assert (Hx : ∀ sec nsec, 0 ≤ sec < 2 ^ 31 → 0 ≤ nsec < 1000000000 →
    time_frac sec nsec = sec * 2 ^ 32 + nsec * 2 ^ 32 / 1000000000 ∧
    0 ≤ nsec * 2 ^ 32 / 1000000000 < 2 ^ 32).
  { intros s n Hs Hn. assert (Hq : 0 ≤ n * 2 ^ 32 / 1000000000 < 2 ^ 32).
    { split; [apply Z.div_pos; lia|apply Z.div_lt_upper_bound; lia]. }
    split; [|done]. unfold time_frac.
    rewrite (Z.shiftl_mul_pow2 n), (Z.mod_small (n * 2 ^ 32)) by lia.
    change 0xFFFFFFFF with (Z.ones 32). rewrite Z.land_ones by lia.
    rewrite (Z.mod_small (n * 2 ^ 32 / 1000000000)) by exact Hq. rewrite lor_shiftl_add by lia.
    apply wrap64_id. unfold in64, int64_min, int64_max. lia. }
  intros Hs Hn. destruct (Hx sec nsec Hs Hn) as [-> Hq]. split_and!; [done|unfold in64, int64_min, int64_max; lia|].
  intros sec' nsec' Hs' Hn' Hlt. destruct (Hx sec' nsec' Hs' Hn') as [-> Hq'].
  destruct Hlt as [Hlt|[-> Hle]]; [lia|].
  assert (nsec * 2 ^ 32 / 1000000000 ≤ nsec' * 2 ^ 32 / 1000000000) by (apply Z.div_le_mono; lia). lia.
Qed.

Lemma time_frac_exact_witness : time_frac 12 500000000 = 12 * 2 ^ 32 + 2 ^ 31.
Proof. destruct (time_frac_exact 12 500000000) as [-> _]; [lia|lia|reflexivity]. Defined.

(** The time given to a signal is never 0 and differs from the time of the signal
    before it. *)
Theorem handler_ts_consecutive prev now :
  0 < now < int64_max → handler_ts prev now ≠ 0 ∧ handler_ts prev now ≠ prev.
Proof.
  intros Hn. unfold handler_ts. destruct (Z.eqb_spec now prev) as [->|Hne].
  - rewrite wrap64_id by (unfold in64, int64_min, int64_max in *; lia).
    rewrite (proj2 (Z.eqb_neq _ _)); lia.
  - rewrite (proj2 (Z.eqb_neq now 0)); lia.
Qed.

Lemma handler_ts_consecutive_witness : handler_ts 7 7 ≠ 0 ∧ handler_ts 7 7 ≠ 7.
Proof. apply (handler_ts_consecutive 7 7). unfold int64_max. lia. Defined.

(** C33. But the third of three signals within one reading of the clock gets the time
    of the first again, so that two pending signals can share a time. *)
Theorem handler_ts_repeats prev now :
  0 < now < int64_max → prev ≠ now →
  handler_ts (handler_ts (handler_ts prev now) now) now = handler_ts prev now.
Proof.
  intros Hn Hp. assert (H1 : handler_ts prev now = now).
  { unfold handler_ts. rewrite (proj2 (Z.eqb_neq now prev)), (proj2 (Z.eqb_neq now 0)) by lia. done. }
  rewrite H1. assert (H2 : handler_ts now now = now + 1).
  { unfold handler_ts. rewrite Z.eqb_refl, wrap64_id by (unfold in64, int64_min, int64_max in *; lia).
    rewrite (proj2 (Z.eqb_neq _ _)); [done|lia]. }
  rewrite H2. unfold handler_ts. rewrite (proj2 (Z.eqb_neq now (now + 1))), (proj2 (Z.eqb_neq now 0)) by lia. done.
Qed.

Lemma handler_ts_repeats_witness : handler_ts (handler_ts (handler_ts 0 50) 50) 50 = handler_ts 0 50.
Proof. apply (handler_ts_repeats 0 50); unfold int64_max; lia. Defined.
