(* ===== verification/CtlOut.v ===== *)
(** * controller.c: sending events

    Each controller has a buffer for the events that wait to be written.
    [ctl_write] adds one message, to one controller or to all; a message that does
    not fit even after writing out what the descriptor takes sets the overflow
    flag, and once the buffer is empty the line "overflow" is sent in its place. *)

From S2P Require Import Prelude Strseg State Log Signal.

Definition EINTR : Z := 4.
Definition EAGAIN : Z := 11.

(** The controller with index [i] of the array [client], and updates of it. *)
Definition get_ctl (i : nat) : DP controller_t := λ g,
  match g_ctl g !! i with Some c => Done (c, g) | None => Fault end.
Definition upd_ctl (i : nat) (f : controller_t → controller_t) : DP unit := λ g,
  match g_ctl g !! i with
  | Some c => Done (tt, set_g_ctl (<[i := f c]> (g_ctl g)) g)
  | None => Fault
  end.

Definition DQ : Z := 34.
Definition quoted (l : list Z) : list Z := DQ :: l ++ [DQ].

(** [for (eol= send_buf_pos-1; eol >= 0; eol--) if (send_buf[eol] == '\n') break;]
    as the length of the buffer up to and including that newline, 0 for none. *)
Fixpoint eol_len (buf : list Z) : nat :=
  match buf with
  | [] => 0
  | c :: buf =>
      match eol_len buf with
      | O => if c =? LF then 1 else 0
      | n => S n
      end
  end.

Definition overflow_line : list Z := str "overflow" ++ [LF].

Section out.
Context `{OS}.

Fixpoint ctl_flush_loop (fuel : nat) (i : nat) : DP bool :=
  match fuel with
  | O => nofuel
  | S fuel =>
      c ← get_ctl i;
      if negb (Z.of_nat (length (send_buf c)) =? 0) then
        let eol := eol_len (send_buf c) in
        if send_fd c =? -1 then
          upd_ctl i (set_send_buf []);;
          ctl_flush_loop fuel i
        else if (eol =? 0)%nat then
          if send_overflow c then
            upd_ctl i (set_send_buf []);;
            ctl_flush_loop fuel i
          else mret false
        else
          n ← sys (CWrite (send_fd c) (take eol (send_buf c)));
          if ret n >? 0 then
            upd_ctl i (λ c, set_send_blocked_ts 0 (set_send_buf (drop (Z.to_nat (ret n)) (send_buf c)) c));;
            ctl_flush_loop fuel i
          else
            e ← gets g_errno;
            if (e =? EAGAIN) || (e =? EINTR) then
              now ← gets (λ g, wake_now (g_wake g));
              when (send_blocked_ts c =? 0)
                (upd_ctl i (set_send_blocked_ts (if now =? 0 then 1 else now)));;
              mret false
            else
              log_debug (str "controller[" ++ fmt_d (ctl_id c) ++ str "] outbuf write failed: " ++ strerror e);;
              sys (CClose (send_fd c));;
              upd_ctl i (set_send_fd (-1));;
              mret true
      else if send_overflow c then
        upd_ctl i (λ c, set_send_overflow false (set_send_buf overflow_line c));;
        ctl_flush_loop fuel i
      else mret true
  end.

(** Every round but the last takes a byte at least, or drops the buffer, or
    turns the overflow flag into a line. *)
Definition ctl_flush_fuel : nat := 2100.

Definition ctl_flush_outbuf (i : nat) : DP bool := ctl_flush_loop ctl_flush_fuel i.

Definition ctl_out_buf_ready (i : nat) : DP bool :=
  c ← get_ctl i;
  if Z.of_nat (length (send_buf c)) <=? CONTROLLER_SEND_BUF_SIZE - CONTROLLER_LARGEST_WRITE then mret true
  else if send_overflow c then mret true
  else ctl_flush_outbuf i.

(** The body of the loop of [ctl_write], from [check_space], for one controller;
    [msg] is the printed message. *)
Fixpoint ctl_write_one (fuel : nat) (i : nat) (msg : list Z) : DP unit :=
  match fuel with
  | O => nofuel
  | S fuel =>
      c ← get_ctl i;
      let buf_free := CONTROLLER_SEND_BUF_SIZE - Z.of_nat (length (send_buf c)) in
      if Z.of_nat (length msg) >=? buf_free then
        ctl_flush_outbuf i;;
        c' ← get_ctl i;
        if negb (length (send_buf c) =? length (send_buf c'))%nat then ctl_write_one fuel i msg
        else
          log_debug (str "client[" ++ fmt_d (ctl_id c) ++ str "]: can't write msg, " ++
            fmt_d (Z.of_nat (length msg)) ++ str " > buffer free " ++ fmt_d buf_free);;
          upd_ctl i (set_send_overflow true)
      else
        upd_ctl i (λ c, set_send_buf (send_buf c ++ msg) c);;
        log_debug (str "client[" ++ fmt_d (ctl_id c) ++ str "] event: " ++ quoted msg)
  end.

Definition writable (c : controller_t) : bool :=
  match state_fn c with None => false | Some _ => negb ((send_fd c <? 0) || send_overflow c) end.

(** The loop over [dest]. *)
Fixpoint ctl_write_all (dest : list nat) (msg : list Z) : DP unit :=
  match dest with
  | [] => mret tt
  | i :: dest => ctl_write_one ctl_flush_fuel i msg;; ctl_write_all dest msg
  end.

Definition writable_at (cs : list controller_t) (i : nat) : bool :=
  match cs !! i with Some c => writable c | None => false end.

(** Indices of the controllers a broadcast goes to. *)
Definition ctl_dests (cs : list controller_t) : list nat :=
  filter (λ i, Is_true (writable_at cs i)) (seq 0 (length cs)).

Definition ctl_write (single_dest : option nat) (msg : list Z) : DP bool :=
  match single_dest with
  | Some i =>
      c ← get_ctl i;
      if negb (writable c) then mret true
      else ctl_write_one ctl_flush_fuel i msg;; mret true
  | None =>
      cs ← gets g_ctl;
      ctl_write_all (ctl_dests cs) msg;; mret true
  end.

(** ** Events *)

Definition tab_join (l : list (list Z)) : list Z := join_with TAB l ++ [LF].

(** [(int)(ts >> 32)]: the seconds of a time. *)
Definition secs (ts : Z) : Z := wrap32 (Z.shiftr ts 32).

Definition ctl_notify_signal (ctl : option nat) (sig_num sig_ts count : Z) : DP bool :=
  ctl_write ctl (tab_join [str "signal"; str "SIG" ++ default (str "-?") (sig_name_by_num sig_num);
    fmt_d (secs sig_ts); fmt_d count]).

Definition WIFEXITED (wstat : Z) : bool := Z.land wstat 0x7F =? 0.
Definition WEXITSTATUS (wstat : Z) : Z := Z.land (Z.shiftr wstat 8) 0xFF.
Definition WTERMSIG (wstat : Z) : Z := Z.land wstat 0x7F.

(** The message of a service.state event. *)
Definition svc_state_msg (now : Z) (name : list Z) (up_ts reap_ts wstat pid : Z) : list Z :=
  let dash := str "-" in
  if up_ts =? 0 then
    tab_join [str "service.state"; name; str "down"; dash; dash; dash; dash; dash; dash]
  else if (wrap64 (up_ts - now) >=? 0) && (pid =? 0) then
    tab_join [str "service.state"; name; str "start"; fmt_d (secs up_ts); dash; dash; dash; dash; dash]
  else if reap_ts =? 0 then
    tab_join [str "service.state"; name; str "up"; fmt_d (secs up_ts); fmt_d pid; dash; dash;
      fmt_d (secs (wrap64 (now - up_ts))); dash]
  else if WIFEXITED wstat then
    tab_join [str "service.state"; name; str "down"; fmt_d (secs reap_ts); fmt_d pid; str "exit";
      fmt_d (WEXITSTATUS wstat); fmt_d (secs (wrap64 (reap_ts - up_ts)));
      fmt_d (secs (wrap64 (now - reap_ts)))]
  else
    tab_join [str "service.state"; name; str "down"; fmt_d (secs reap_ts); fmt_d pid; str "signal";
      str "SIG" ++ default (str "-?") (sig_name_by_num (WTERMSIG wstat));
      fmt_d (secs (wrap64 (reap_ts - up_ts))); fmt_d (secs (wrap64 (now - reap_ts)))].

Definition ctl_notify_svc_state (ctl : option nat) (name : list Z) (up_ts reap_ts wstat pid : Z) : DP bool :=
  now ← gets (λ g, wake_now (g_wake g));
  ctl_write ctl (svc_state_msg now name up_ts reap_ts wstat pid).

Definition ctl_notify_svc_tags (ctl : option nat) (name tsv_fields : list Z) : DP bool :=
  ctl_write ctl (tab_join [str "service.tags"; name; tsv_fields]).

Definition ctl_notify_svc_argv (ctl : option nat) (name tsv_fields : list Z) : DP bool :=
  ctl_write ctl (tab_join [str "service.args"; name; tsv_fields]).

Definition ctl_notify_svc_fds (ctl : option nat) (name tsv_fields : list Z) : DP bool :=
  ctl_write ctl (tab_join [str "service.fds"; name; tsv_fields]).

Definition ctl_notify_svc_auto_up (ctl : option nat) (name : list Z) (interval : Z) (triggers_tsv : list Z) : DP bool :=
  (match triggers_tsv with
   | [] => ctl_write ctl (tab_join [str "service.auto_up"; name; str "-"])
   | _ => ctl_write ctl (tab_join [str "service.auto_up"; name; fmt_d (secs interval); triggers_tsv])
   end);;
  mret true.

Definition ctl_notify_error (ctl : option nat) (msg : list Z) : DP bool :=
  ctl_write ctl (tab_join [str "error"; msg]).
End out.
