(* ===== verification/CtlOutSpec.v ===== *)
(** * Properties of the event output *)

From S2P Require Import Prelude Strseg State Log Signal CtlOut.

(** The bytes accepted by the descriptor [fd] in the calls [tr]. *)
Fixpoint sent_on (fd : Z) (tr : list (syscall * sysret)) : list Z :=
  match tr with
  | [] => []
  | (CWrite fd' data, r) :: tr =>
      sent_on fd tr ++ if fd' =? fd then take (Z.to_nat (ret r)) data else []
  | _ :: tr => sent_on fd tr
  end.

Lemma sent_on_app fd tr1 tr2 : sent_on fd (tr1 ++ tr2) = sent_on fd tr2 ++ sent_on fd tr1.
Proof.
  induction tr1 as [|[c r] tr1 IH]; cbn; [by rewrite app_nil_r|].
  destruct c; rewrite ?IH; by rewrite ?app_assoc.
Qed.

Lemma sent_on_log fd lfd tr : Forall (log_call lfd) tr → lfd ≠ fd → sent_on fd tr = [].
Proof.
  intros Hf Hne. induction Hf as [|[c r] tr Hc Hf IH]; cbn; [done|].
  destruct c; cbn in Hc; try done. subst. rewrite IH. by rewrite (proj2 (Z.eqb_neq _ _)).
Qed.

(** ** Lines *)

(** A buffer that holds whole lines only. *)
Definition whole_lines (l : list Z) : Prop := l = [] ∨ ∃ l', l = l' ++ [LF].

Lemma whole_lines_app l1 l2 : whole_lines l1 → whole_lines l2 → whole_lines (l1 ++ l2).
Proof.
  intros H1 [->|[l ->]]; [by rewrite app_nil_r|]. right. exists (l1 ++ l). by rewrite app_assoc.
Qed.

Lemma whole_lines_drop n l : whole_lines l → (n ≤ length l)%nat → whole_lines (drop n l).
Proof.
  intros [->|[l' ->]] Hn; [left; by rewrite drop_nil|]. rewrite length_app in Hn. cbn in Hn.
  destruct (decide (n = length l' + 1)%nat) as [->|Hne].
  - left. apply drop_ge. rewrite length_app. cbn. lia.
  - right. exists (drop n l'). by rewrite drop_app_le by lia.
Qed.

Lemma eol_len_whole l : whole_lines l → eol_len l = length l.
Proof.
  intros [->|[l' ->]]; [done|]. induction l' as [|c l' IH]; [done|]. cbn. rewrite IH.
  rewrite length_app. cbn. by rewrite Nat.add_succ_r.
Qed.

(** ** Controllers *)

(** The buffer holds whole lines and leaves room for one byte at least. *)
Definition out_ok (c : controller_t) : Prop :=
  Z.of_nat (length (send_buf c)) < CONTROLLER_SEND_BUF_SIZE ∧ whole_lines (send_buf c).

(** Only the output half of a controller differs, and its descriptor may be closed. *)
Definition same_rest (c c' : controller_t) : Prop :=
  c' = set_send_fd (send_fd c') (set_send_buf (send_buf c')
         (set_send_overflow (send_overflow c') (set_send_blocked_ts (send_blocked_ts c') c))) ∧
  (send_fd c' = send_fd c ∨ send_fd c' = -1).

Lemma same_rest_refl c : same_rest c c.
Proof. split; [by destruct c|by left]. Qed.
Lemma same_rest_trans c1 c2 c3 : same_rest c1 c2 → same_rest c2 c3 → same_rest c1 c3.
Proof.
  intros [E1 S1] [E2 S2]. split; [destruct c1, c2, c3; cbn in *; injection E1 as; injection E2 as; by subst|].
  destruct S1, S2; [left|right..]; congruence.
Qed.

Ltac same_rest_of c := split; [by destruct c|first [by left|by right]].

(** Only controller [i] (its output half), the log, [errno] and the calls differ. *)
Record out_frame (i : nat) (g g' : G) : Prop := {
  of_wake : g_wake g' = g_wake g;
  of_sig : g_sig g' = g_sig g;
  of_rb : g_rb g' = g_rb g;
  of_fd : g_fd g' = g_fd g;
  of_svc : g_svc g' = g_svc g;
  of_opt : g_opt g' = g_opt g;
  of_main : g_main g' = g_main g;
  of_next : g_next g' = g_next g;
  of_log_fd : log_fd (g_log g') = log_fd (g_log g);
  of_len : length (g_ctl g') = length (g_ctl g);
  of_other : ∀ j, j ≠ i → g_ctl g' !! j = g_ctl g !! j;
}.

Lemma out_frame_refl i g : out_frame i g g.
Proof. by split. Qed.
Lemma out_frame_trans i g1 g2 g3 : out_frame i g1 g2 → out_frame i g2 g3 → out_frame i g1 g3.
Proof.
  intros [???????? ?? H1] [???????? ?? H2]. split; try congruence.
  intros j Hj. by rewrite H2, H1.
Qed.

Lemma out_frame_log i g g' tr : log_step g g' tr → out_frame i g g'.
Proof. intros [[] _ _ ? _ _]. split; congruence. Qed.

Lemma get_ctl_eq i g c : g_ctl g !! i = Some c → get_ctl i g = Done (c, g).
Proof. intros Hi. unfold get_ctl. by rewrite Hi. Qed.

Lemma upd_ctl_eq i f g c : g_ctl g !! i = Some c →
  upd_ctl i f g = Done (tt, set_g_ctl (<[i := f c]> (g_ctl g)) g).
Proof. intros Hi. unfold upd_ctl. by rewrite Hi. Qed.

Lemma out_frame_upd i g c : out_frame i g (set_g_ctl (<[i := c]> (g_ctl g)) g).
Proof.
  split; try done; cbn; [by rewrite length_insert|].
  intros j Hj. by rewrite list_lookup_insert_ne by auto.
Qed.

(** What happened to the stream of controller [i], which was [c] and is [c']: the
    bytes sent and those waiting are what was waiting before, then the overflow
    line if the flag was turned into it, then [more]; or the descriptor failed
    and is closed. *)
Definition stream (c c' : controller_t) (tr : list (syscall * sysret)) (more : list Z) : Prop :=
  send_fd c' = -1 ∨
  send_fd c' = send_fd c ∧
    ((send_overflow c' = send_overflow c ∧
        sent_on (send_fd c) tr ++ send_buf c' = send_buf c ++ more) ∨
     (send_overflow c = true ∧ send_overflow c' = false ∧
        sent_on (send_fd c) tr ++ send_buf c' = send_buf c ++ overflow_line ++ more)).

(** What [ctl_flush_outbuf] does to controller [i]. *)
Record out_step (i : nat) (g g' : G) (c c' : controller_t) (tr : list (syscall * sysret)) (more : list Z) : Prop := {
  os_frame : out_frame i g g';
  os_ctl : g_ctl g' !! i = Some c';
  os_trace : g_trace g' = tr ++ g_trace g;
  os_log : log_ok (g_log g');
  os_rest : same_rest c c';
  os_out : out_ok c';
  os_stream : stream c c' tr more;
}.

Lemma out_step_refl i g c : g_ctl g !! i = Some c → log_ok (g_log g) → out_ok c → out_step i g g c c [] [].
Proof.
  intros. split; [apply out_frame_refl|done|done|done|apply same_rest_refl|done|].
  right. split; [done|]. left. by rewrite app_nil_r.
Qed.

(** Compose two steps; the second one adds [more]. *)
Lemma out_step_trans i g1 g2 g3 c1 c2 c3 tr1 tr2 more :
  out_step i g1 g2 c1 c2 tr1 [] → out_step i g2 g3 c2 c3 tr2 more → send_fd c2 = send_fd c1 →
  (send_overflow c1 = send_overflow c2 ∨ send_overflow c2 = false) →
  out_step i g1 g3 c1 c3 (tr2 ++ tr1) more.
Proof.
  intros [F1 C1 T1 L1 R1 O1 S1] [F2 C2 T2 L2 R2 O2 S2] Hfd Hov.
  split; [by eapply out_frame_trans|done|by rewrite T2, T1, app_assoc|done|by eapply same_rest_trans|done|].
  destruct S2 as [S2|[S2 S2']]; [by left|]. destruct S1 as [S1|[_ S1]]; [left; congruence|].
  right. split; [congruence|]. rewrite sent_on_app, <-app_assoc.
  rewrite Hfd in S2'. rewrite app_nil_r in S1.
  destruct S1 as [[A1 A2]|(A1 & A2 & A3)], S2' as [[B1 B2]|(B1 & B2 & B3)].
  - left. split; [congruence|]. rewrite B2, app_assoc, A2. done.
  - right. split_and!; [congruence|done|]. by rewrite B3, app_assoc, A2.
  - right. split_and!; [done|congruence|]. rewrite B2, app_assoc. rewrite app_nil_r in A3. rewrite A3. by rewrite <-app_assoc.
  - destruct Hov; congruence.
Qed.

Section flush.
Context `{OS} `{!WriteOk}.

Definition out_measure (c : controller_t) : nat :=
  length (send_buf c) + (if send_overflow c then 10 else 0).

(** One change of the controller without a call. *)
Lemma out_step_upd i g c c' more : g_ctl g !! i = Some c → log_ok (g_log g) → same_rest c c' → out_ok c' →
  stream c c' [] more → out_step i g (set_g_ctl (<[i := c']> (g_ctl g)) g) c c' [] more.
Proof.
  intros Hi Hl Hr Ho Hs. split; [apply out_frame_upd| |done|done|done|done|done].
  cbn. apply list_lookup_insert_eq. by eapply lookup_lt_Some.
Qed.

Lemma out_ok_nil c : out_ok (set_send_buf [] c).
Proof. split; [done|by left]. Qed.

Lemma out_ok_drop n c : out_ok c → (n ≤ length (send_buf c))%nat →
  out_ok (set_send_blocked_ts 0 (set_send_buf (drop n (send_buf c)) c)).
Proof. intros [H1 H2] Hn. split; cbn; [rewrite length_drop; lia|by apply whole_lines_drop]. Qed.

(** The descriptor fails: log, close, forget it. *)
Lemma ctl_flush_fail i g c : g_ctl g !! i = Some c → log_ok (g_log g) → out_ok c →
  ∀ msg, ∃ g' tr, (log_debug msg;; sys (CClose (send_fd c));; upd_ctl i (set_send_fd (-1));; mret true) g =
    Done (true, g') ∧ out_step i g g' c (set_send_fd (-1) c) tr [].
Proof.
  intros Hi Hl Ho msg. destruct (log_msg_spec LOG_LEVEL_DEBUG msg g Hl) as (g1 & tr & E1 & Hs).
  unfold log_debug. rewrite (bind_done _ _ _ _ _ E1). unfold sys at 1.
  rewrite (bind_done _ _ _ _ _ eq_refl).
  assert (Hi1 : g_ctl g1 !! i = Some c) by (by rewrite (lf_ctl _ _ (ls_frame _ _ _ Hs))).
  set (r := os (g_trace g1) _). set (g2 := set_g_errno _ _).
  assert (Hi2 : g_ctl g2 !! i = Some c) by done.
  rewrite (bind_done _ _ _ _ _ (upd_ctl_eq _ (set_send_fd (-1)) _ _ Hi2)).
  eexists _, ((CClose (send_fd c), r) :: tr). split; [done|]. split.
  - eapply out_frame_trans; [by apply (out_frame_log i _ _ _ Hs)|].
    eapply (out_frame_trans _ _ g2); [by split|apply out_frame_upd].
  - cbn. apply list_lookup_insert_eq. by eapply lookup_lt_Some.
  - cbn. by rewrite (ls_trace _ _ _ Hs).
  - apply (ls_ok _ _ _ Hs).
  - same_rest_of c.
  - done.
  - by left.
Qed.

(** A call as a step. *)
Lemma sys_eq c g : sys c g = Done (os (g_trace g) c,
  set_g_errno (if ret (os (g_trace g) c) <? 0 then err (os (g_trace g) c) else g_errno g)
    (set_g_trace ((c, os (g_trace g) c) :: g_trace g) g)).
Proof. done. Qed.

Lemma ctl_flush_loop_spec fuel i g c :
  g_ctl g !! i = Some c → log_ok (g_log g) → out_ok c → (out_measure c < fuel)%nat →
  ∃ b g' c' tr, ctl_flush_loop fuel i g = Done (b, g') ∧ out_step i g g' c c' tr [] ∧
    (b = true → send_fd c' = -1 ∨ send_buf c' = [] ∧ send_overflow c' = false) ∧
    (send_overflow c = false → send_overflow c' = false ∧
       (length (send_buf c') ≤ length (send_buf c))%nat).
Proof.
  revert g c; induction fuel as [|fuel IH]; intros g c Hi Hl Ho Hf; [lia|].
  cbn [ctl_flush_loop]. rewrite (bind_done _ _ _ _ _ (get_ctl_eq _ _ _ Hi)).
  destruct (decide (send_buf c = [])) as [Hnil|Hne].
  { assert (negb (Z.of_nat (length (send_buf c)) =? 0) = false) as -> by (by rewrite Hnil).
    destruct (send_overflow c) eqn:Eo.
    - set (c2 := set_send_overflow false (set_send_buf overflow_line c)).
      rewrite (bind_done _ _ _ _ _ (upd_ctl_eq _ _ _ _ Hi)). fold c2.
      assert (S1 : out_step i g (set_g_ctl (<[i := c2]> (g_ctl g)) g) c c2 [] []).
      { apply out_step_upd; [done|done|same_rest_of c| |].
        - split; [done|]. right. exists (str "overflow"). done.
        - right. split; [done|]. right. cbn. by rewrite Eo, Hnil. }
      destruct (IH _ c2 (os_ctl _ _ _ _ _ _ _ S1)) as (b & g' & c' & tr & E1 & S2 & Hb & Hlen);
        [apply S1|apply S1| |].
      { unfold out_measure in *. rewrite Hnil, Eo in Hf. cbn in *. lia. }
      exists b, g', c', tr. rewrite E1. split_and!; [done| |done|done].
      rewrite <-(app_nil_r tr). eapply out_step_trans; [exact S1|exact S2|done|by right].
    - exists true, g, c, []. split_and!; [done|by apply out_step_refl|by right|done]. }
  rewrite (proj2 (Z.eqb_neq _ _)) by (destruct (send_buf c); [done|cbn; lia]). cbn [negb].
  destruct (Z.eqb_spec (send_fd c) (-1)) as [Hm1|Hm1].
  { rewrite (bind_done _ _ _ _ _ (upd_ctl_eq _ _ _ _ Hi)). set (c2 := set_send_buf [] c).
    assert (S1 : out_step i g (set_g_ctl (<[i := c2]> (g_ctl g)) g) c c2 [] []).
    { apply out_step_upd; [done|done|same_rest_of c|apply out_ok_nil|by left]. }
    destruct (IH _ c2 (os_ctl _ _ _ _ _ _ _ S1)) as (b & g' & c' & tr & E1 & S2 & Hb & Hlen);
      [apply S1|apply S1| |].
    { unfold out_measure in *. cbn in *. destruct (send_buf c); [done|]. cbn in Hf. lia. }
    exists b, g', c', tr. rewrite E1. split_and!; [done| |done|].
    - rewrite <-(app_nil_r tr). eapply out_step_trans; [exact S1|exact S2|done|by left].
    - intros Hov. destruct (Hlen Hov) as [? Hle]. split; [done|]. cbn in Hle. lia. }
  rewrite eol_len_whole by apply Ho.
  destruct (Nat.eqb_spec (length (send_buf c)) 0) as [Hz|_]; [by apply nil_length_inv in Hz|].
  rewrite firstn_all. rewrite (bind_done _ _ _ _ _ (sys_eq _ _)).
  set (r := os (g_trace g) (CWrite (send_fd c) (send_buf c))).
  set (tr1 := [(CWrite (send_fd c) (send_buf c), r)]).
  set (g1 := set_g_errno _ _).
  assert (Hr : ret r ≤ Z.of_nat (length (send_buf c))) by apply write_le.
  assert (Hi1 : g_ctl g1 !! i = Some c) by done.
  assert (Hsent : sent_on (send_fd c) tr1 = take (Z.to_nat (ret r)) (send_buf c)).
  { cbn. by rewrite Z.eqb_refl. }
  destruct (Z.gtb_spec (ret r) 0) as [Hpos|Hpos].
  - rewrite (bind_done _ _ _ _ _ (upd_ctl_eq _ _ _ _ Hi1)).
    set (c2 := set_send_blocked_ts 0 _). set (g2 := set_g_ctl _ g1).
    assert (S1 : out_step i g g2 c c2 tr1 []).
    { split; [|cbn; apply list_lookup_insert_eq; by eapply lookup_lt_Some|done|done|same_rest_of c|..].
      - eapply (out_frame_trans _ _ g1); [by split|apply out_frame_upd].
      - apply out_ok_drop; [done|lia].
      - right. split; [done|]. left. split; [done|]. rewrite Hsent, app_nil_r. cbn. apply take_drop. }
    destruct (IH g2 c2 (os_ctl _ _ _ _ _ _ _ S1)) as (b & g' & c' & tr & E1 & S2 & Hb & Hlen);
      [apply S1|apply S1| |].
    { unfold out_measure in *. cbn. rewrite length_drop. destruct (send_overflow c); lia. }
    exists b, g', c', (tr ++ tr1). rewrite E1. split_and!; [done| |done|].
    + eapply out_step_trans; [exact S1|exact S2|done|by left].
    + intros Hov. destruct (Hlen Hov) as [? Hle]. split; [done|]. cbn in Hle. rewrite length_drop in Hle. lia.
  - assert (S0 : out_step i g g1 c c tr1 []).
    { split; [by split|done|done|done|apply same_rest_refl|done|]. right. split; [done|]. left.
      split; [done|]. rewrite Hsent. replace (Z.to_nat (ret r)) with 0%nat by lia. cbn. by rewrite app_nil_r. }
    rewrite (bind_done (gets g_errno) _ _ _ _ eq_refl).
    destruct ((g_errno g1 =? EAGAIN) || (g_errno g1 =? EINTR)).
    + rewrite (bind_done (gets _) _ _ _ _ eq_refl).
      destruct (Z.eqb_spec (send_blocked_ts c) 0) as [Hz|Hz]; cbn [when].
      * rewrite (bind_done _ _ _ _ _ (upd_ctl_eq _ _ _ _ Hi1)).
        eexists false, _, (set_send_blocked_ts _ c), tr1. split_and!; [reflexivity| |done|done].
        rewrite <-(app_nil_l tr1). eapply out_step_trans; [exact S0| |done|by left].
        apply out_step_upd; [done|done|same_rest_of c|done|]. right. split; [done|]. left.
        split; [done|]. cbn. by rewrite app_nil_r.
      * rewrite (bind_done (mret tt) _ _ tt g1 eq_refl). eexists false, g1, c, tr1. done.
    + destruct (ctl_flush_fail i g1 c Hi1 Hl Ho
        (str "controller[" ++ fmt_d (ctl_id c) ++ str "] outbuf write failed: " ++ strerror (g_errno g1)))
        as (g' & tr & E1 & S1).
      rewrite E1. eexists true, g', (set_send_fd (-1) c), (tr ++ tr1). split_and!; [done| |by left|done].
      eapply out_step_trans; [exact S0|exact S1|done|by left].
Qed.

Lemma ctl_flush_spec i g c :
  g_ctl g !! i = Some c → log_ok (g_log g) → out_ok c →
  ∃ b g' c' tr, ctl_flush_outbuf i g = Done (b, g') ∧ out_step i g g' c c' tr [] ∧
    (b = true → send_fd c' = -1 ∨ send_buf c' = [] ∧ send_overflow c' = false) ∧
    (send_overflow c = false → send_overflow c' = false ∧
       (length (send_buf c') ≤ length (send_buf c))%nat).
Proof.
  intros Hi Hl Ho. apply ctl_flush_loop_spec; [done..|].
  destruct Ho as [Ho _]. unfold out_measure, ctl_flush_fuel, CONTROLLER_SEND_BUF_SIZE in *.
  destruct (send_overflow c); lia.
Qed.

(** What became of a message for controller [i]: its descriptor failed; or the
    message follows what was waiting; or there was no room for it and the
    overflow flag says so. *)
Definition delivered (c c' : controller_t) (tr : list (syscall * sysret)) (msg : list Z) : Prop :=
  send_fd c' = -1 ∨
  send_fd c' = send_fd c ∧
    (send_overflow c' = false ∧ sent_on (send_fd c) tr ++ send_buf c' = send_buf c ++ msg ∨
     send_overflow c' = true ∧ sent_on (send_fd c) tr ++ send_buf c' = send_buf c ∧
       CONTROLLER_SEND_BUF_SIZE ≤ Z.of_nat (length (send_buf c') + length msg)).

(** The log does not go where the controller's events go. *)
Definition apart (g : G) (c : controller_t) : Prop := send_fd c ≠ -1 → log_fd (g_log g) ≠ send_fd c.

Record write_step (i : nat) (g g' : G) (c c' : controller_t) (tr : list (syscall * sysret)) (msg : list Z) : Prop := {
  ws_frame : out_frame i g g';
  ws_ctl : g_ctl g' !! i = Some c';
  ws_trace : g_trace g' = tr ++ g_trace g;
  ws_log : log_ok (g_log g');
  ws_rest : same_rest c c';
  ws_out : out_ok c';
  ws_msg : apart g c → delivered c c' tr msg;
}.

Lemma write_step_flush i g1 g2 g3 c1 c2 c3 tr1 tr2 msg : send_overflow c1 = false → send_overflow c2 = false →
  out_step i g1 g2 c1 c2 tr1 [] → write_step i g2 g3 c2 c3 tr2 msg → write_step i g1 g3 c1 c3 (tr2 ++ tr1) msg.
Proof.
  intros Ho1 Ho2 [F1 C1 T1 L1 R1 O1 S1] [F2 C2 T2 L2 R2 O2 S2].
  split; [by eapply out_frame_trans|done|by rewrite T2, T1, app_assoc|done|by eapply same_rest_trans|done|].
  intros Hap. assert (Hap2 : apart g2 c2).
  { unfold apart in *. rewrite (of_log_fd _ _ _ F1). destruct S1 as [->|[-> _]]; [done|exact Hap]. }
  specialize (S2 Hap2).
  destruct S2 as [S2|[S2 S2']]; [by left|]. destruct S1 as [S1|[Hfd S1]]; [left; congruence|].
  right. split; [congruence|]. rewrite sent_on_app, <-app_assoc. rewrite Hfd in S2'.
  destruct S1 as [[_ A2]|(? & _)]; [|congruence]. rewrite app_nil_r in A2.
  destruct S2' as [[B1 B2]|(B1 & B2 & B3)]; [left|right].
  - by rewrite B2, app_assoc, A2.
  - by rewrite B2, A2.
Qed.

(** A log message after a step changes nothing for the controller. *)
Lemma write_step_log i g1 g2 c1 c2 tr1 msg level m :
  write_step i g1 g2 c1 c2 tr1 msg →
  ∃ g3 tr, (log_write level m;; mret tt) g2 = Done (tt, g3) ∧ write_step i g1 g3 c1 c2 (tr ++ tr1) msg.
Proof.
  intros [F C T L R O S]. destruct (log_msg_spec level m g2 L) as (g3 & tr & E1 & Hs).
  exists g3, tr. split; [done|]. pose proof (out_frame_log i _ _ _ Hs) as F'.
  split; [by eapply out_frame_trans| |by rewrite (ls_trace _ _ _ Hs), T, app_assoc|apply Hs|done|done|].
  - by rewrite (lf_ctl _ _ (ls_frame _ _ _ Hs)).
  - intros Hfd. specialize (S Hfd). unfold apart in Hfd. destruct (decide (send_fd c1 = -1)) as [Hm|Hm].
    + left. destruct S as [?|[? _]]; congruence.
    + rewrite <-(of_log_fd _ _ _ F) in Hfd. pose proof (ls_calls _ _ _ Hs) as Hc.
      unfold delivered. by rewrite sent_on_app, (sent_on_log _ _ _ Hc (Hfd Hm)), app_nil_r.
Qed.

Lemma ctl_write_one_spec fuel i g c msg :
  g_ctl g !! i = Some c → log_ok (g_log g) → out_ok c → send_overflow c = false → whole_lines msg →
  (length (send_buf c) < fuel)%nat →
  ∃ g' c' tr, ctl_write_one fuel i msg g = Done (tt, g') ∧ write_step i g g' c c' tr msg.
Proof.
  revert g c; induction fuel as [|fuel IH]; intros g c Hi Hl Ho Hov Hmsg Hf; [lia|].
  cbn [ctl_write_one]. rewrite (bind_done _ _ _ _ _ (get_ctl_eq _ _ _ Hi)). cbn zeta.
  set (buf_free := CONTROLLER_SEND_BUF_SIZE - _).
  destruct (Z.geb_spec (Z.of_nat (length msg)) buf_free) as [Hbig|Hfit].
  - destruct (ctl_flush_spec i g c) as (b & g1 & c1 & tr1 & E1 & S1 & _ & Hlen); [done..|].
    destruct (Hlen Hov) as [Hov1 Hle]. rewrite (bind_done _ _ _ _ _ E1).
    pose proof (os_ctl _ _ _ _ _ _ _ S1) as Hi1.
    rewrite (bind_done _ _ _ _ _ (get_ctl_eq _ _ _ Hi1)).
    destruct (Nat.eqb_spec (length (send_buf c)) (length (send_buf c1))) as [Heq|Hne]; cbn [negb].
    + set (c2 := set_send_overflow true c1).
      destruct (log_msg_spec LOG_LEVEL_DEBUG (str "client[" ++ fmt_d (ctl_id c) ++ str "]: can't write msg, " ++
            fmt_d (Z.of_nat (length msg)) ++ str " > buffer free " ++ fmt_d buf_free) g1
            (os_log _ _ _ _ _ _ _ S1)) as (g2 & tr2 & E2 & Hs2).
      unfold log_debug. rewrite (bind_done _ _ _ _ _ E2).
      assert (Hi2 : g_ctl g2 !! i = Some c1) by (by rewrite (lf_ctl _ _ (ls_frame _ _ _ Hs2))).
      rewrite (upd_ctl_eq _ _ _ _ Hi2). fold c2.
      eexists _, c2, (tr2 ++ tr1). split; [done|].
      eapply write_step_flush; [done|done|exact S1|].
      split; [|cbn; apply list_lookup_insert_eq; by eapply lookup_lt_Some|
        exact (ls_trace _ _ _ Hs2)|exact (ls_ok _ _ _ Hs2)|same_rest_of c1|exact (os_out _ _ _ _ _ _ _ S1)|].
      * eapply out_frame_trans; [by apply (out_frame_log i _ _ _ Hs2)|apply out_frame_upd].
      * intros Hfd1. destruct (decide (send_fd c1 = -1)) as [|Hm]; [by left|right]. split; [done|]. right.
        split_and!; [done| |cbn; lia].
        by rewrite (sent_on_log _ _ _ (ls_calls _ _ _ Hs2) (Hfd1 Hm)).
    + destruct (IH g1 c1 Hi1) as (g' & c' & tr & E2 & S2);
        [exact (os_log _ _ _ _ _ _ _ S1)|exact (os_out _ _ _ _ _ _ _ S1)|done|done|lia|].
      exists g', c', (tr ++ tr1). split; [done|]. by eapply write_step_flush.
  - set (c2 := set_send_buf (send_buf c ++ msg) c).
    rewrite (bind_done _ _ _ _ _ (upd_ctl_eq _ _ _ _ Hi)).
    set (g1 := set_g_ctl _ g).
    assert (S1 : write_step i g g1 c c2 [] msg).
    { split; [apply out_frame_upd|cbn; apply list_lookup_insert_eq; by eapply lookup_lt_Some|done|done|same_rest_of c|..].
      - destruct Ho as [Ho1 Ho2]. split; cbn; [rewrite length_app; unfold CONTROLLER_SEND_BUF_SIZE in *; lia|].
        by apply whole_lines_app.
      - intros _. right. split; [done|]. left. by split. }
    destruct (write_step_log i g g1 c c2 [] msg LOG_LEVEL_DEBUG
      (str "client[" ++ fmt_d (ctl_id c) ++ str "] event: " ++ quoted msg) S1) as (g3 & tr & E3 & S3).
    unfold log_debug. rewrite E3. eauto.
Qed.

(** The log and the output buffers of all controllers are fine. *)
Definition ctls_ok (g : G) : Prop :=
  log_ok (g_log g) ∧ ∀ i c, g_ctl g !! i = Some c → out_ok c.

Lemma write_step_ok i g g' c c' tr msg : ctls_ok g → g_ctl g !! i = Some c →
  write_step i g g' c c' tr msg → ctls_ok g'.
Proof.
  intros [Hl Hok] Hi [F C T L R O S]. split; [done|]. intros j cj Hj.
  destruct (decide (j = i)) as [->|Hne].
  - by simplify_eq.
  - rewrite (of_other _ _ _ F j Hne) in Hj. exact (Hok j cj Hj).
Qed.

(** Everything but the output of the controllers, the log, [errno] and the calls. *)
Record io_frame (g g' : G) : Prop := {
  io_wake : g_wake g' = g_wake g;
  io_sig : g_sig g' = g_sig g;
  io_rb : g_rb g' = g_rb g;
  io_fd : g_fd g' = g_fd g;
  io_svc : g_svc g' = g_svc g;
  io_opt : g_opt g' = g_opt g;
  io_main : g_main g' = g_main g;
  io_next : g_next g' = g_next g;
  io_len : length (g_ctl g') = length (g_ctl g);
  io_ctl : ∀ i c, g_ctl g !! i = Some c → ∃ c', g_ctl g' !! i = Some c' ∧ same_rest c c';
  io_trace : ∃ tr, g_trace g' = tr ++ g_trace g;
}.

#[export] Instance io_frame_preorder : PreOrder io_frame.
Proof.
  split.
  - intros g. split; try done; [|by exists []]. intros i c Hi. exists c. split; [done|apply same_rest_refl].
  - intros g1 g2 g3 [? ? ? ? ? ? ? ? ? C1 [t1 T1]] [? ? ? ? ? ? ? ? ? C2 [t2 T2]]. split; try congruence.
    + intros i c Hi. destruct (C1 i c Hi) as (c2 & Hi2 & Hr2). destruct (C2 i c2 Hi2) as (c3 & Hi3 & Hr3).
      exists c3. split; [done|]. by eapply same_rest_trans.
    + exists (t2 ++ t1). by rewrite T2, T1, app_assoc.
Qed.

Lemma write_step_io i g g' c c' tr msg : g_ctl g !! i = Some c →
  write_step i g g' c c' tr msg → io_frame g g'.
Proof.
  intros Hi [F C T L R O S]. destruct F as [????????? Hlen Hoth]. split; try done; [|by exists tr].
  intros j cj Hj. destruct (decide (j = i)) as [->|Hne]; [simplify_eq; eauto|].
  exists cj. rewrite Hoth by done. split; [done|apply same_rest_refl].
Qed.

Lemma log_step_io g g' tr : log_step g g' tr → io_frame g g'.
Proof.
  intros [[] ? ? ? ? ?]. split; try congruence; [|eauto]. intros i c Hi. exists c.
  split; [congruence|apply same_rest_refl].
Qed.

Lemma out_fuel c : out_ok c → (length (send_buf c) < ctl_flush_fuel)%nat.
Proof. intros [Ho _]. unfold CONTROLLER_SEND_BUF_SIZE, ctl_flush_fuel in *. lia. Qed.

Lemma writable_overflow c : writable c = true → send_overflow c = false ∧ 0 ≤ send_fd c.
Proof.
  unfold writable. destruct (state_fn c); [|done]. rewrite negb_true_iff, orb_false_iff, Z.ltb_ge. tauto.
Qed.

Lemma ctl_write_all_io dest msg g : ctls_ok g → whole_lines msg → NoDup dest →
  Forall (λ i, writable_at (g_ctl g) i = true) dest →
  ∃ g', ctl_write_all dest msg g = Done (tt, g') ∧ io_frame g g' ∧ ctls_ok g'.
Proof.
  intros Hok Hmsg Hnd Hd. revert g Hok Hd; induction Hnd as [|i dest Hi Hnd IH]; intros g Hok Hd.
  { exists g. done. }
  apply Forall_cons in Hd as [Hw Hd]. unfold writable_at in Hw. destruct (g_ctl g !! i) as [c|] eqn:Ec; [|done].
  destruct (writable_overflow c Hw) as [Hov _]. pose proof Hok as [Hl Hok']. pose proof (Hok' i c Ec) as Ho.
  destruct (ctl_write_one_spec ctl_flush_fuel i g c msg) as (g1 & c1 & tr1 & E1 & S1); [done..|by apply out_fuel|].
  cbn [ctl_write_all]. rewrite (bind_done _ _ _ _ _ E1).
  destruct (IH g1) as (g' & E' & Hio & Hok1).
  - by eapply write_step_ok.
  - apply Forall_forall. intros j Hj. rewrite Forall_forall in Hd. specialize (Hd j Hj).
    unfold writable_at in *. rewrite (of_other _ _ _ (ws_frame _ _ _ _ _ _ _ S1)); [done|]. intros ->. done.
  - exists g'. split_and!; [done| |done]. etransitivity; [by eapply write_step_io|done].
Qed.

(** A message for one controller or for all: the call returns and touches only
    the output side. *)
Lemma ctl_write_io dest msg g : ctls_ok g → whole_lines msg →
  (∀ i, dest = Some i → (i < length (g_ctl g))%nat) →
  ∃ g', ctl_write dest msg g = Done (true, g') ∧ io_frame g g' ∧ ctls_ok g'.
Proof.
  intros Hok Hmsg Hd. unfold ctl_write. destruct dest as [i|].
  - destruct (lookup_lt_is_Some_2 (g_ctl g) i (Hd i eq_refl)) as [c Ec].
    rewrite (bind_done _ _ _ _ _ (get_ctl_eq _ _ _ Ec)). destruct (writable c) eqn:Ew; cbn [negb]; [|by exists g].
    destruct (writable_overflow c Ew) as [Hov _]. pose proof Hok as [Hl Hok']. pose proof (Hok' i c Ec) as Ho.
    destruct (ctl_write_one_spec ctl_flush_fuel i g c msg) as (g1 & c1 & tr1 & E1 & S1); [done..|by apply out_fuel|].
    exists g1. rewrite (bind_done _ _ _ _ _ E1). split_and!; [done|by eapply write_step_io|by eapply write_step_ok].
  - rewrite (bind_done (gets g_ctl) _ _ _ _ eq_refl).
    destruct (ctl_write_all_io (ctl_dests (g_ctl g)) msg g) as (g' & E1 & H1 & H2); [done|done|..].
    + apply NoDup_filter, NoDup_seq.
    + apply Forall_forall. intros i [Hi _]%list_elem_of_filter. by apply Is_true_eq_true.
    + exists g'. by rewrite (bind_done _ _ _ _ _ E1).
Qed.

Lemma tab_join_lines l : whole_lines (tab_join l).
Proof. right. by eexists. Qed.
End flush.

(** C20. An event is never torn: a message for one controller is appended whole after
    everything sent or waiting before it, or (its descriptor having failed) the
    connection is closed, or there is no room, in which case nothing of it is sent and
    the overflow flag is set.  The call returns whatever the descriptor accepts, the
    buffer never exceeds 2047 bytes, and nothing else of the daemon changes. *)
Theorem ctl_write_atomic `{OS} `{!WriteOk} (i : nat) g c msg :
  ctls_ok g → g_ctl g !! i = Some c → whole_lines msg →
  ∃ g' c' tr, ctl_write (Some i) msg g = Done (true, g') ∧ g_ctl g' !! i = Some c' ∧
    g_trace g' = tr ++ g_trace g ∧ io_frame g g' ∧ out_ok c' ∧
    (writable c = false → g' = g) ∧
    (writable c = true → apart g c → delivered c c' tr msg).
Proof.
  intros Hok Hi Hmsg. unfold ctl_write. rewrite (bind_done _ _ _ _ _ (get_ctl_eq _ _ _ Hi)).
  pose proof Hok as [Hl Hok']. pose proof (Hok' i c Hi) as Ho.
  destruct (writable c) eqn:Ew; cbn [negb].
  - destruct (writable_overflow c Ew) as [Hov _].
    destruct (ctl_write_one_spec ctl_flush_fuel i g c msg) as (g1 & c1 & tr1 & E1 & S1); [done..|by apply out_fuel|].
    exists g1, c1, tr1. rewrite (bind_done _ _ _ _ _ E1).
    split_and!; [done|apply S1|apply S1|by eapply write_step_io|exact (ws_out _ _ _ _ _ _ _ S1)|done|].
    intros _. exact (ws_msg _ _ _ _ _ _ _ S1).
  - exists g, c, []. split_and!; done.
Qed.

Definition ex_ctl : controller_t :=
  set_state_fn (Some ctl_state_next_command) (set_send_fd 5 (set_recv_fd 5 controller_0)).
Definition ex_ctl_state : G := set_g_ctl [ex_ctl; controller_0] G_0.

Lemma ex_ctls_ok : ctls_ok ex_ctl_state.
Proof.
  split; [split; [done|by unfold in32; cbn]|]. intros i c Hi.
  destruct i as [|[|i]]; cbn in Hi; [| |done]; injection Hi as <-.
  - split; [done|by left].
  - split; [done|by left].
Defined.

Lemma ctl_write_atomic_witness :
  ∃ g' c' tr, @ctl_write ideal_os (Some 0%nat) (tab_join [str "echo"; str "hi"]) ex_ctl_state = Done (true, g') ∧
    g_ctl g' !! 0%nat = Some c' ∧ delivered ex_ctl c' tr (tab_join [str "echo"; str "hi"]).
Proof.
  destruct (@ctl_write_atomic ideal_os _ 0%nat ex_ctl_state ex_ctl (tab_join [str "echo"; str "hi"]))
    as (g' & c' & tr & H1 & H2 & _ & _ & _ & _ & H3).
  - apply ex_ctls_ok.
  - reflexivity.
  - apply tab_join_lines.
  - exists g', c', tr. split_and!; [done|done|]. apply H3; [done|]. unfold apart. cbn. lia.
Defined.
