(* ===== verification/SvcVars.v ===== *)
(** * service.c: the variables of a service

    A service keeps its tags, arguments, descriptors and triggers in one buffer
    of "name=value" strings, packed back to back, each closed by a NUL.  This file
    has the search and the in-place update of that buffer; the theorems show that
    together they implement a finite list of bindings. *)

From S2P Require Import Prelude Strseg.

Definition EQ : Z := ch "=".

(** The loop of [svc_get_var] and [svc_set_var] over the variables from [tail]: the
    value of the variable [name] if there is one, and what follows it. *)
Fixpoint var_find (fuel : nat) (name tail : strseg_t) : outcome (option strseg_t * strseg_t) :=
  match fuel with
  | O => OutOfFuel
  | S fuel =>
      if seg_len tail >? 0 then
        '(more, tail, val) ← strseg_tok_next tail NUL;
        if (more : bool) then
          '(ok, val, key) ← strseg_tok_next val EQ;
          found ← (if (ok : bool) then c ← strseg_cmp key name; Done (c =? 0) else Done false);
          if (found : bool) then Done (Some val, tail) else var_find fuel name tail
        else Done (None, tail)
      else Done (None, tail)
  end.

Definition vars_seg (vars : list Z) : strseg_t := Seg vars 0 (Z.of_nat (length vars)).

(** Every round takes one byte at least. *)
Definition var_lookup (vars : list Z) (name : strseg_t) : outcome (option strseg_t * strseg_t) :=
  var_find (S (length vars)) name (vars_seg vars).

(** [memcpy] into [buf] at [off]. *)
Definition blit (buf : list Z) (off : Z) (data : list Z) : outcome (list Z) :=
  if (off <? 0) || (off + Z.of_nat (length data) >? Z.of_nat (length buf)) then Fault
  else Done (take (Z.to_nat off) buf ++ data ++ drop (Z.to_nat off + length data) buf).

Definition memmove (buf : list Z) (dst src n : Z) : outcome (list Z) :=
  data ← seg_bytes (Z.to_nat n) (Seg buf src n) 0;
  blit buf dst data.

(** The change of the buffer's length that [svc_set_var] computes. *)
Definition var_sizediff (found : option strseg_t) (name : strseg_t) (value : option strseg_t) : Z :=
  match found, value with
  | Some oldval, Some value => seg_len value - seg_len oldval
  | Some oldval, None => - (seg_len oldval + 1 + seg_len name + 1)
  | None, Some value => seg_len name + 1 + seg_len value + 1
  | None, None => 0
  end.

(** The rest of [svc_set_var], once there is room: the buffer is [vars] followed by
    the bytes gained, and is cut at its new length. *)
Definition var_store (vars : list Z) (found : option strseg_t) (tail name : strseg_t)
    (value : option strseg_t) : outcome (list Z) :=
  let sizediff := var_sizediff found name value in
  let buf := vars ++ replicate (Z.to_nat sizediff) NUL in
  buf ← (if negb (sizediff =? 0) && (seg_len tail >? 0)
         then memmove buf (seg_off tail + sizediff) (seg_off tail) (seg_len tail)
         else Done buf);
  '(buf, oldval) ← match found, value with
    | None, Some _ =>
        n ← seg_bytes (Z.to_nat (seg_len name)) name 0;
        buf ← blit buf (seg_off tail) n;
        buf ← blit buf (seg_off tail + seg_len name) [EQ];
        Done (buf, seg_off tail + seg_len name + 1)
    | Some val, _ => Done (buf, seg_off val)
    | None, None => Done (buf, 0)
    end;
  buf ← match value with
    | Some value =>
        v ← seg_bytes (Z.to_nat (seg_len value)) value 0;
        buf ← blit buf oldval v;
        blit buf (oldval + seg_len value) [NUL]
    | None => Done buf
    end;
  Done (take (Z.to_nat (Z.of_nat (length vars) + sizediff)) buf).

(** The whole update, for a buffer that can grow. *)
Definition var_set (vars : list Z) (name : strseg_t) (value : option strseg_t) : outcome (list Z) :=
  '(found, tail) ← var_lookup vars name;
  var_store vars found tail name value.

(** ** The bindings a buffer stands for *)

Abbreviation binding := (list Z * list Z)%type.

Definition entry (b : binding) : list Z := b.1 ++ EQ :: b.2 ++ [NUL].
Definition pack (l : list binding) : list Z := concat (map entry l).

Definition name_ok (k : list Z) : Prop := EQ ∉ k ∧ NUL ∉ k.
Definition binding_ok (b : binding) : Prop := name_ok b.1 ∧ NUL ∉ b.2.

(** The buffer [vars] holds the bindings [l]. *)
Definition vars_are (vars : list Z) (l : list binding) : Prop :=
  vars = pack l ∧ Forall binding_ok l ∧ NoDup l.*1.

Fixpoint assoc (k : list Z) (l : list binding) : option (list Z) :=
  match l with
  | [] => None
  | (k', v) :: l => if bool_decide (k' = k) then Some v else assoc k l
  end.

Fixpoint assoc_set (k : list Z) (value : option (list Z)) (l : list binding) : list binding :=
  match l with
  | [] => match value with Some v => [(k, v)] | None => [] end
  | (k', v') :: l =>
      if bool_decide (k' = k) then match value with Some v => (k, v) :: l | None => l end
      else (k', v') :: assoc_set k value l
  end.

Lemma assoc_cases k l :
  (k ∉ l.*1 ∧ assoc k l = None ∧ ∀ value, assoc_set k value l = l ++ match value with Some v => [(k, v)] | None => [] end) ∨
  ∃ l1 v l2, l = l1 ++ (k, v) :: l2 ∧ k ∉ l1.*1 ∧ assoc k l = Some v ∧
    ∀ value, assoc_set k value l = l1 ++ match value with Some v => [(k, v)] | None => [] end ++ l2.
Proof.
  induction l as [|[k' v'] l IH]; cbn.
  { left. split_and!; [apply not_elem_of_nil|done|done]. }
  case_bool_decide as Ek.
  - subst. right. exists [], v', l. split_and!; [done|apply not_elem_of_nil|done|]. by intros [].
  - destruct IH as [(Hk & Ha & Hs)|(l1 & v & l2 & -> & Hk & Ha & Hs)].
    + left. split_and!; [|done|intros value; by rewrite Hs].
      rewrite not_elem_of_cons. auto.
    + right. exists ((k', v') :: l1), v, l2. split_and!; [done| |done|intros value; by rewrite Hs].
      cbn. rewrite not_elem_of_cons. auto.
Qed.

Lemma assoc_set_same k value l : NoDup l.*1 → assoc k (assoc_set k value l) = value.
Proof.
  induction l as [|[k' v'] l IH]; cbn; intros Hnd.
  { destruct value; cbn; [by rewrite bool_decide_eq_true_2|done]. }
  apply NoDup_cons in Hnd as [Hk Hnd]. case_bool_decide as Ek; subst.
  - destruct value; cbn; [by rewrite bool_decide_eq_true_2|].
    destruct (assoc_cases k l) as [(_ & -> & _)|(l1 & v & l2 & -> & _)]; [done|].
    destruct Hk. rewrite fmap_app. set_solver.
  - cbn. rewrite bool_decide_eq_false_2 by done. by apply IH.
Qed.

Lemma assoc_set_other k k2 value l : k2 ≠ k → assoc k2 (assoc_set k value l) = assoc k2 l.
Proof.
  intros Hne. induction l as [|[k' v'] l IH]; cbn.
  { destruct value; cbn; [by rewrite bool_decide_eq_false_2|done]. }
  case_bool_decide as Ek; subst; cbn.
  - rewrite (bool_decide_eq_false_2 (k = k2)) by done.
    destruct value; cbn; [by rewrite bool_decide_eq_false_2|done].
  - by rewrite IH.
Qed.

Lemma assoc_set_ok k value l : name_ok k → (∀ v, value = Some v → NUL ∉ v) →
  Forall binding_ok l → NoDup l.*1 →
  Forall binding_ok (assoc_set k value l) ∧ NoDup (assoc_set k value l).*1.
Proof.
  intros Hk Hv Hl Hnd.
  assert (Hb : Forall binding_ok match value with Some v => [(k, v)] | None => [] end).
  { destruct value; repeat constructor; try apply Hk. by apply Hv. }
  destruct (assoc_cases k l) as [(Hn & _ & ->)|(l1 & v & l2 & -> & Hn & _ & ->)].
  - split; [by apply Forall_app|]. rewrite fmap_app. apply NoDup_app. split_and!; [done| |].
    + intros x Hx Hx'. destruct value; cbn in Hx'; [|by apply elem_of_nil in Hx'].
      apply list_elem_of_singleton in Hx' as ->. done.
    + destruct value; cbn; [apply NoDup_singleton|constructor].
  - apply Forall_app in Hl as [H1 [_ H2]%Forall_cons]. split; [by rewrite !Forall_app|].
    rewrite !fmap_app in *. cbn in Hnd. destruct value; cbn; [done|].
    apply NoDup_app in Hnd as (N1 & N2 & N3). apply NoDup_cons in N3 as [_ N3].
    apply NoDup_app. split_and!; [done| |done]. intros x Hx Hx'. apply (N2 x Hx). by right.
Qed.

(** ** Searching *)

Lemma sep_index_app sep a rest : sep ∉ a → sep_index sep (a ++ sep :: rest) = length a.
Proof.
  induction a as [|c a IH]; cbn; intros Ha; [by rewrite Z.eqb_refl|].
  apply not_elem_of_cons in Ha as [Hc Ha]. destruct (Z.eqb_spec c sep); [congruence|]. by rewrite IH.
Qed.

(** A token of a segment in the middle of a buffer. *)
Lemma tok_next_mid pre a rest post sep : sep ∉ a →
  let buf := pre ++ (a ++ sep :: rest) ++ post in
  strseg_tok_next (Seg buf (Z.of_nat (length pre)) (Z.of_nat (length (a ++ sep :: rest)))) sep =
  Done (true, Seg buf (Z.of_nat (length (pre ++ a ++ [sep]))) (Z.of_nat (length rest)),
        Seg buf (Z.of_nat (length pre)) (Z.of_nat (length a))).
Proof.
  intros Ha buf. unfold strseg_tok_next. set (s := Seg _ _ (Z.of_nat (length (a ++ _)))).
  destruct (Z.ltb_spec (seg_len s) 0); [unfold s in *; cbn [seg_len] in *; lia|].
  assert (Hw : seg_wf s).
  { unfold seg_wf, s, buf; cbn. rewrite !length_app. lia. }
  assert (Hv : seg_view s = a ++ sep :: rest).
  { unfold seg_view, s, buf; cbn. rewrite !Nat2Z.id, drop_app_length, take_app_length. done. }
  rewrite strseg_scan_0, Hv, sep_index_app by done. cbn [mbind outcome_bind].
  unfold seg_advance, s. cbn. do 4 f_equal; rewrite !length_app; cbn [length]; lia.
Qed.

Lemma pack_app l1 l2 : pack (l1 ++ l2) = pack l1 ++ pack l2.
Proof. unfold pack. by rewrite map_app, concat_app. Qed.

Lemma pack_cons b l : pack (b :: l) = entry b ++ pack l.
Proof. done. Qed.

(** One round of the search over a well-formed entry. *)
Lemma var_find_round fuel name pre k v l : binding_ok (k, v) → seg_wf name →
  let buf := pre ++ pack ((k, v) :: l) in
  let tail := Seg buf (Z.of_nat (length (pre ++ entry (k, v)))) (Z.of_nat (length (pack l))) in
  var_find (S fuel) name (Seg buf (Z.of_nat (length pre)) (Z.of_nat (length (pack ((k, v) :: l))))) =
  if bool_decide (k = seg_view name) then
    Done (Some (Seg buf (Z.of_nat (length (pre ++ k ++ [EQ]))) (Z.of_nat (length v))), tail)
  else var_find fuel name tail.
Proof.
  intros [[Hk1 Hk2] Hv] Hn buf tail. cbn in Hk1, Hk2, Hv. cbn [var_find seg_len].
  assert (HE : pack ((k, v) :: l) = (k ++ EQ :: v) ++ NUL :: pack l).
  { rewrite pack_cons. unfold entry. cbn. by rewrite <-!app_assoc; cbn; rewrite <-!app_assoc. }
  rewrite HE at 1. rewrite length_app. cbn [length].
  destruct (Z.gtb_spec (Z.of_nat (length (k ++ EQ :: v) + S (length (pack l)))) 0); [|lia].
  assert (HN : NUL ∉ k ++ EQ :: v).
  { rewrite elem_of_app, elem_of_cons. intros [?|[?|?]]; [done|done|done]. }
  pose proof (tok_next_mid pre (k ++ EQ :: v) (pack l) [] NUL HN) as E1. rewrite app_nil_r, <-HE in E1.
  fold buf in E1. cbn zeta in E1. rewrite E1. cbn [mbind outcome_bind].
  pose proof (tok_next_mid pre k v (NUL :: pack l) EQ Hk1) as E2. cbn zeta in E2. rewrite <-HE in E2.
  fold buf in E2. rewrite E2. cbn [mbind outcome_bind].
  assert (Hw : seg_wf (Seg buf (Z.of_nat (length pre)) (Z.of_nat (length k)))).
  { unfold seg_wf, buf; cbn [seg_off seg_len seg_buf]. rewrite HE, !length_app. lia. }
  assert (Hview : seg_view (Seg buf (Z.of_nat (length pre)) (Z.of_nat (length k))) = k).
  { unfold seg_view, buf; cbn [seg_off seg_len seg_buf]. rewrite !Nat2Z.id, drop_app_length, HE, <-app_assoc.
    by rewrite take_app_length. }
  rewrite strseg_cmp_spec by done. rewrite Hview. cbn [mbind outcome_bind].
  assert (HT : Seg buf (Z.of_nat (length (pre ++ (k ++ EQ :: v) ++ [NUL]))) (Z.of_nat (length (pack l))) = tail).
  { unfold tail, entry. cbn [fst snd]. by rewrite <-(app_assoc k). }
  rewrite HT. case_bool_decide as Ek.
  - by rewrite (proj2 (lex_cmp_eq _ _) Ek).
  - destruct (Z.eqb_spec (lex_cmp k (seg_view name)) 0) as [E0|]; [|done].
    by apply lex_cmp_eq in E0.
Qed.

Lemma entry_length b : length (entry b) = (length b.1 + length b.2 + 2)%nat.
Proof. unfold entry. rewrite length_app. cbn [length]. rewrite length_app. cbn [length]. lia. Qed.

Lemma pack_length_le l : (length l ≤ length (pack l))%nat.
Proof. induction l as [|b l IH]; [done|]. rewrite pack_cons, length_app, entry_length. cbn [length]. lia. Qed.

(** The search passes over entries with other names. *)
Lemma var_find_skip fuel name pre l1 l2 : Forall binding_ok l1 → seg_wf name →
  seg_view name ∉ l1.*1 → (length l1 ≤ fuel)%nat →
  let buf := pre ++ pack (l1 ++ l2) in
  var_find fuel name (Seg buf (Z.of_nat (length pre)) (Z.of_nat (length (pack (l1 ++ l2))))) =
  var_find (fuel - length l1) name (Seg buf (Z.of_nat (length (pre ++ pack l1))) (Z.of_nat (length (pack l2)))).
Proof.
  intros Hl Hn. revert fuel pre; induction Hl as [|[k v] l1 Hb Hl IH]; intros fuel pre Hk Hf; cbn zeta.
  { rewrite app_nil_r, Nat.sub_0_r. done. }
  cbn [length app] in *. destruct fuel as [|fuel]; [lia|]. rewrite fmap_cons, not_elem_of_cons in Hk. cbn [fst] in Hk. destruct Hk as [Hk1 Hk2].
  rewrite var_find_round by done. rewrite bool_decide_eq_false_2 by congruence.
  specialize (IH fuel (pre ++ entry (k, v)) Hk2 ltac:(lia)). cbn zeta in IH.
  assert (HB : pre ++ pack ((k, v) :: l1 ++ l2) = (pre ++ entry (k, v)) ++ pack (l1 ++ l2))
    by (rewrite pack_cons; apply app_assoc).
  rewrite HB, IH. rewrite (pack_cons (k, v) l1), (app_assoc pre). by rewrite <-HB.
Qed.

Lemma var_find_end fuel name buf : var_find (S fuel) name (Seg buf (Z.of_nat (length buf)) 0) =
  Done (None, Seg buf (Z.of_nat (length buf)) 0).
Proof. done. Qed.

(** What the search finds: nothing, and the end of the buffer; or the value, and
    what follows it. *)
Lemma var_lookup_none l name : Forall binding_ok l → seg_wf name → seg_view name ∉ l.*1 →
  var_lookup (pack l) name = Done (None, Seg (pack l) (Z.of_nat (length (pack l))) 0).
Proof.
  intros Hl Hn Hk. unfold var_lookup, vars_seg. pose proof (pack_length_le l).
  pose proof (var_find_skip (S (length (pack l))) name [] l [] Hl Hn Hk ltac:(lia)) as E1.
  cbn zeta in E1. rewrite app_nil_r in E1. cbn [app length] in E1.
  change (Z.of_nat 0) with 0 in E1. rewrite E1.
  replace (S (length (pack l)) - length l)%nat with (S (length (pack l) - length l)) by lia. done.
Qed.

Lemma var_lookup_some l1 k v l2 name : Forall binding_ok (l1 ++ (k, v) :: l2) → seg_wf name →
  seg_view name = k → k ∉ l1.*1 →
  let buf := pack (l1 ++ (k, v) :: l2) in
  var_lookup buf name =
    Done (Some (Seg buf (Z.of_nat (length (pack l1 ++ k ++ [EQ]))) (Z.of_nat (length v))),
          Seg buf (Z.of_nat (length (pack l1 ++ entry (k, v)))) (Z.of_nat (length (pack l2)))).
Proof.
  intros Hl Hn Hk Hnk buf. apply Forall_app in Hl as [H1 [Hb H2]%Forall_cons].
  unfold var_lookup, vars_seg. pose proof (pack_length_le (l1 ++ (k, v) :: l2)) as Hlen.
  rewrite length_app in Hlen. cbn [length] in Hlen. fold buf in Hlen.
  pose proof (var_find_skip (S (length buf)) name [] l1 ((k, v) :: l2) H1 Hn ltac:(by rewrite Hk) ltac:(lia)) as E1.
  cbn zeta in E1. cbn [app length] in E1. change (Z.of_nat 0) with 0 in E1. fold buf in E1. rewrite E1.
  replace (S (length buf) - length l1)%nat with (S (length buf - length l1)) by lia.
  unfold buf at 2 4. rewrite pack_app.
  pose proof (var_find_round (length buf - length l1) name (pack l1) k v l2 Hb Hn) as E2. cbn zeta in E2.
  rewrite E2. rewrite bool_decide_eq_true_2 by done. unfold buf. by rewrite pack_app.
Qed.

(** ** Updating *)

Lemma blit_mid P X Y data : length X = length data →
  blit (P ++ X ++ Y) (Z.of_nat (length P)) data = Done (P ++ data ++ Y).
Proof.
  intros HX. unfold blit. rewrite !length_app.
  destruct (Z.ltb_spec (Z.of_nat (length P)) 0); [lia|].
  destruct (Z.gtb_spec (Z.of_nat (length P) + Z.of_nat (length data)) (Z.of_nat (length P + (length X + length Y)))); [lia|].
  cbn [orb]. rewrite Nat2Z.id, take_app_length. by rewrite <-HX, (app_assoc P X Y), <-length_app, drop_app_length.
Qed.

Lemma memmove_mid buf P X Y src n data : buf = P ++ X ++ Y → length X = length data →
  seg_wf (Seg buf src n) → seg_view (Seg buf src n) = data →
  memmove buf (Z.of_nat (length P)) src n = Done (P ++ data ++ Y).
Proof.
  intros HB HX Hw Hv. unfold memmove. pose proof (seg_bytes_view _ Hw) as E1. cbn [seg_len] in E1.
  rewrite E1, Hv. cbn [mbind outcome_bind]. rewrite HB. by apply blit_mid.
Qed.

(** A list with room for [n] elements starts with [n] elements. *)
Lemma split_room (l : list Z) n : (n ≤ length l)%nat → ∃ x y, l = x ++ y ∧ length x = n.
Proof. intros Hn. exists (take n l), (drop n l). rewrite take_drop, length_take. split; [done|lia]. Qed.

(** The value and its closing NUL, written over what was there. *)
Lemma blit_value P mid Y v : length mid = S (length v) →
  (buf ← blit (P ++ mid ++ Y) (Z.of_nat (length P)) v;
   blit buf (Z.of_nat (length P) + Z.of_nat (length v)) [NUL]) = Done (P ++ (v ++ [NUL]) ++ Y).
Proof.
  intros Hm. destruct (split_room mid (length v)) as (x & y & -> & Hx); [lia|].
  rewrite length_app in Hm. rewrite <-app_assoc, blit_mid by done. cbn [mbind outcome_bind].
  rewrite !app_assoc, <-(app_assoc (P ++ v)). rewrite <-Nat2Z.inj_add, <-length_app.
  rewrite blit_mid by (cbn; lia). by rewrite <-!app_assoc.
Qed.

Lemma take_exact (a b : list Z) n : n = length a → take n (a ++ b) = a.
Proof. intros ->. apply take_app_length. Qed.

(** Making room for the new value: what follows the old one moves behind it. *)
Lemma move_tail P old T m :
  let d := Z.of_nat m - Z.of_nat (length old) in
  let vars := P ++ (old ++ [NUL]) ++ T in
  let buf := vars ++ replicate (Z.to_nat d) NUL in
  ∃ mid junk, length mid = S m ∧
    (if negb (d =? 0) && (Z.of_nat (length T) >? 0)
     then memmove buf (Z.of_nat (length (P ++ old ++ [NUL])) + d) (Z.of_nat (length (P ++ old ++ [NUL]))) (Z.of_nat (length T))
     else Done buf) = Done (P ++ mid ++ T ++ junk).
Proof.
  intros d vars buf.
  destruct (decide (d = 0 ∨ T = [])) as [Hn|Hy].
  - assert (E1 : (negb (d =? 0) && (Z.of_nat (length T) >? 0))%bool = false).
    { destruct Hn as [->| ->]; [done|]. apply andb_false_r. }
    rewrite E1. destruct Hn as [Hd| ->].
    + exists (old ++ [NUL]), []. split; [rewrite length_app; cbn; lia|].
      unfold buf, vars. rewrite Hd. change (replicate (Z.to_nat 0) NUL) with (@nil Z). by rewrite !app_nil_r.
    + destruct (split_room ((old ++ [NUL]) ++ replicate (Z.to_nat d) NUL) (S m)) as (x & y & Hxy & Hx).
      { rewrite !length_app, length_replicate. cbn [length]. lia. }
      exists x, y. split; [done|]. unfold buf, vars. by rewrite app_nil_r, <-app_assoc, Hxy.
  - assert (E1 : (negb (d =? 0) && (Z.of_nat (length T) >? 0))%bool = true).
    { destruct (Z.eqb_spec d 0); [tauto|]. destruct T; [tauto|]. done. }
    rewrite E1.
    set (R := (old ++ [NUL]) ++ T ++ replicate (Z.to_nat d) NUL).
    assert (HR : length R = (length old + 1 + length T + Z.to_nat d)%nat).
    { unfold R. rewrite !length_app, length_replicate. cbn [length]. lia. }
    destruct (split_room R (S m)) as (mid & R' & HR1 & Hmid); [lia|].
    assert (HR' : length R = (S m + length R')%nat) by (rewrite HR1, length_app; lia).
    destruct (split_room R' (length T)) as (X & Y & HR2 & HX); [lia|].
    exists mid, Y. split; [done|].
    assert (HB : buf = (P ++ mid) ++ X ++ Y).
    { unfold buf, vars. rewrite <-!app_assoc, <-HR2, <-HR1. unfold R. by rewrite <-!app_assoc. }
    replace (Z.of_nat (length (P ++ old ++ [NUL])) + d) with (Z.of_nat (length (P ++ mid)))
      by (rewrite !length_app; cbn [length]; lia).
    rewrite (memmove_mid buf (P ++ mid) X Y _ _ T); [by rewrite <-app_assoc|done|done|..].
    + unfold seg_wf, buf, vars; cbn [seg_off seg_len seg_buf]. rewrite !length_app. lia.
    + unfold seg_view, buf, vars; cbn [seg_off seg_len seg_buf]. rewrite !Nat2Z.id.
      rewrite !app_assoc, <-(app_assoc _ T), drop_app_length. by rewrite take_app_length.
Qed.

(** The four branches of the update. *)
Lemma var_store_append l name value : seg_wf name → seg_wf value →
  let buf := pack l in
  var_store buf None (Seg buf (Z.of_nat (length buf)) 0) name (Some value) =
  Done (pack (l ++ [(seg_view name, seg_view value)])).
Proof.
  intros Hn Hv buf. unfold var_store. cbn [var_sizediff seg_len seg_off].
  pose proof (seg_view_length name Hn) as Ln. pose proof (seg_view_length value Hv) as Lv.
  set (d := seg_len name + 1 + seg_len value + 1).
  rewrite andb_false_r. cbn [mbind outcome_bind]. rewrite !seg_bytes_view by done. cbn [mbind outcome_bind].
  destruct (split_room (replicate (Z.to_nat d) NUL) (length (seg_view name))) as (X & Y & EX & HX).
  { rewrite length_replicate. lia. }
  assert (HY : length Y = (length (seg_view value) + 2)%nat).
  { apply (f_equal length) in EX. rewrite length_replicate, length_app in EX. lia. }
  rewrite EX, blit_mid by done. cbn [mbind outcome_bind].
  destruct Y as [|y Y]; [cbn in HY; lia|]. cbn [length] in HY.
  rewrite <-Ln, <-Nat2Z.inj_add, <-length_app, (app_assoc buf (seg_view name)).
  change (y :: Y) with ([y] ++ Y).
  rewrite (blit_mid (buf ++ seg_view name) [y] Y [EQ] eq_refl). cbn [mbind outcome_bind].
  rewrite (app_assoc _ [EQ] Y).
  replace (Z.of_nat (length (buf ++ seg_view name)) + 1) with (Z.of_nat (length ((buf ++ seg_view name) ++ [EQ])))
    by (rewrite !length_app; cbn [length]; lia).
  pose proof (blit_value ((buf ++ seg_view name) ++ [EQ]) Y [] (seg_view value) ltac:(lia)) as E1.
  rewrite !app_nil_r in E1. rewrite <-Lv. cbn [mbind outcome_bind] in E1 |- *. rewrite E1. cbn [mbind outcome_bind].
  rewrite pack_app. cbn. rewrite app_nil_r. unfold entry; cbn. rewrite take_ge; [|rewrite !length_app; cbn [length]; lia].
  by rewrite <-!app_assoc.
Qed.

Lemma var_store_replace l1 k old l2 name value : seg_view name = k → seg_wf value →
  let buf := pack (l1 ++ (k, old) :: l2) in
  var_store buf (Some (Seg buf (Z.of_nat (length (pack l1 ++ k ++ [EQ]))) (Z.of_nat (length old))))
    (Seg buf (Z.of_nat (length (pack l1 ++ entry (k, old)))) (Z.of_nat (length (pack l2)))) name (Some value) =
  Done (pack (l1 ++ [(k, seg_view value)] ++ l2)).
Proof.
  intros Hk Hv buf. unfold var_store. cbn [var_sizediff seg_len seg_off].
  pose proof (seg_view_length value Hv) as Lv.
  set (P := pack l1 ++ k ++ [EQ]).
  assert (HB : buf = P ++ (old ++ [NUL]) ++ pack l2).
  { unfold buf, P. rewrite pack_app, pack_cons. unfold entry. cbn. by rewrite <-!app_assoc; cbn; rewrite <-!app_assoc. }
  assert (HP : pack l1 ++ entry (k, old) = P ++ old ++ [NUL]).
  { unfold P, entry. cbn. by rewrite <-!app_assoc. }
  rewrite HP, HB, <-Lv.
  destruct (move_tail P old (pack l2) (length (seg_view value))) as (mid & junk & Hmid & E1).
  cbn zeta in E1. rewrite E1. cbn [mbind outcome_bind]. rewrite Lv, seg_bytes_view by done. cbn [mbind outcome_bind].
  pose proof (blit_value P mid (pack l2 ++ junk) (seg_view value) ltac:(lia)) as E2.
  rewrite <-Lv. cbn [mbind outcome_bind] in E2. rewrite E2. cbn [mbind outcome_bind].
  f_equal. rewrite !(app_assoc P), (app_assoc _ (pack l2)). rewrite take_exact.
  - rewrite pack_app, pack_app. unfold P. cbn [pack map concat]. unfold entry; cbn. rewrite app_nil_r.
    by rewrite <-!app_assoc; cbn; rewrite <-!app_assoc.
  - rewrite !length_app. cbn [length]. lia.
Qed.

Lemma var_store_delete l1 k old l2 name : seg_view name = k → seg_wf name →
  let buf := pack (l1 ++ (k, old) :: l2) in
  var_store buf (Some (Seg buf (Z.of_nat (length (pack l1 ++ k ++ [EQ]))) (Z.of_nat (length old))))
    (Seg buf (Z.of_nat (length (pack l1 ++ entry (k, old)))) (Z.of_nat (length (pack l2)))) name None =
  Done (pack (l1 ++ l2)).
Proof.
  intros Hk Hn buf. unfold var_store. cbn [var_sizediff seg_len seg_off].
  pose proof (seg_view_length name Hn) as Ln. rewrite Hk in Ln.
  set (d := - (Z.of_nat (length old) + 1 + seg_len name + 1)).
  assert (Hd : d = - Z.of_nat (length (entry (k, old)))) by (rewrite entry_length; cbn [fst snd]; lia).
  assert (Z.to_nat d = 0)%nat as -> by lia. cbn [replicate]. rewrite app_nil_r.
  assert (HB : buf = pack l1 ++ entry (k, old) ++ pack l2) by (unfold buf; by rewrite pack_app, pack_cons).
  assert (∃ junk, (if negb (d =? 0) && (Z.of_nat (length (pack l2)) >? 0)
    then memmove buf (Z.of_nat (length (pack l1 ++ entry (k, old))) + d)
           (Z.of_nat (length (pack l1 ++ entry (k, old)))) (Z.of_nat (length (pack l2)))
    else Done buf) = Done (pack l1 ++ pack l2 ++ junk)) as [junk ->].
  { destruct (Z.gtb_spec (Z.of_nat (length (pack l2))) 0) as [Hp|Hp].
    - destruct (Z.eqb_spec d 0); [rewrite entry_length in Hd; lia|]. cbn [negb andb].
      destruct (split_room (entry (k, old) ++ pack l2) (length (pack l2))) as (X & Y & EX & HX);
        [rewrite length_app; lia|]. exists Y.
      replace (Z.of_nat (length (pack l1 ++ entry (k, old))) + d) with (Z.of_nat (length (pack l1)))
        by (rewrite length_app; lia).
      apply (memmove_mid _ _ X); [by rewrite HB, EX|done|..].
      + unfold seg_wf; cbn [seg_off seg_len seg_buf]. rewrite HB, !length_app. lia.
      + unfold seg_view; cbn [seg_off seg_len seg_buf]. rewrite !Nat2Z.id, HB.
        rewrite app_assoc, drop_app_length. apply take_ge. lia.
    - assert (HT : pack l2 = []) by (destruct (pack l2); [done|cbn in Hp; lia]).
      rewrite andb_false_r. exists (entry (k, old)). by rewrite HB, HT, app_nil_r. }
  cbn [mbind outcome_bind]. f_equal. rewrite app_assoc, <-pack_app. apply take_exact.
  rewrite HB, !length_app, pack_app, length_app. lia.
Qed.

Lemma var_store_nothing buf tail name : var_store buf None tail name None = Done buf.
Proof.
  unfold var_store. cbn [var_sizediff]. rewrite app_nil_r. cbn [negb andb Z.eqb mbind outcome_bind].
  rewrite Z.add_0_r, Nat2Z.id. by rewrite firstn_all.
Qed.

(** Looking a variable up. *)
Lemma var_lookup_spec vars l name : vars_are vars l → seg_wf name →
  ∃ found tail, var_lookup vars name = Done (found, tail) ∧
    seg_view <$> found = assoc (seg_view name) l ∧
    (∀ val, found = Some val → seg_wf val ∧ seg_buf val = vars ∧
       vars !! Z.to_nat (seg_off val + seg_len val) = Some NUL).
Proof.
  intros (-> & Hl & Hnd) Hn. destruct (assoc_cases (seg_view name) l) as [(Hk & -> & _)|(l1 & v & l2 & -> & Hk & -> & _)].
  - do 2 eexists. split_and!; [by apply var_lookup_none|done|done].
  - do 2 eexists. split_and!; [by apply var_lookup_some| |].
    + cbn. f_equal. unfold seg_view at 1; cbn [seg_off seg_len seg_buf]. rewrite !Nat2Z.id, pack_app, pack_cons.
      replace (pack l1 ++ entry (seg_view name, v) ++ pack l2)
        with ((pack l1 ++ seg_view name ++ [EQ]) ++ v ++ [NUL] ++ pack l2)
        by (unfold entry; cbn; rewrite <-!app_assoc; cbn; by rewrite <-!app_assoc).
      rewrite drop_app_length, take_app_length. done.
    + intros val [= <-]. unfold seg_wf; cbn [seg_off seg_len seg_buf]. rewrite pack_app, pack_cons. unfold entry. cbn [fst snd].
      split_and!; [lia|lia| |done|].
      * rewrite !length_app. cbn [length]. rewrite !length_app. cbn [length]. lia.
      * replace (pack l1 ++ (seg_view name ++ EQ :: v ++ [NUL]) ++ pack l2)
          with ((pack l1 ++ seg_view name ++ [EQ] ++ v) ++ NUL :: pack l2)
          by (rewrite <-!app_assoc; cbn; by rewrite <-!app_assoc).
        apply list_lookup_middle. rewrite !length_app. cbn [length]. lia.
Qed.

(** Setting, replacing or deleting a variable. *)
Lemma var_set_spec vars l name value : vars_are vars l → seg_wf name → name_ok (seg_view name) →
  (∀ v, value = Some v → seg_wf v ∧ NUL ∉ seg_view v) →
  ∃ found tail vars', var_lookup vars name = Done (found, tail) ∧
    var_store vars found tail name value = Done vars' ∧
    vars_are vars' (assoc_set (seg_view name) (seg_view <$> value) l) ∧
    Z.of_nat (length vars') = Z.of_nat (length vars) + var_sizediff found name value.
Proof.
  intros (-> & Hl & Hnd) Hn Hok Hv.
  destruct (assoc_set_ok (seg_view name) (seg_view <$> value) l) as [Hl' Hnd'];
    [done|by destruct value; cbn; intros ? [= <-]; apply Hv|done|done|].
  pose proof (seg_view_length name Hn) as Ln.
  assert (Lv : ∀ v, value = Some v → Z.of_nat (length (seg_view v)) = seg_len v).
  { intros v E1. by apply seg_view_length, Hv. }
  destruct (assoc_cases (seg_view name) l) as [(Hk & _ & Es)|(l1 & v & l2 & -> & Hk & _ & Es)];
    rewrite Es in *.
  - eexists _, _, (pack (l ++ match seg_view <$> value with Some v => [(seg_view name, v)] | None => [] end)). split; [by apply var_lookup_none|]. destruct value as [v|]; cbn [fmap option_fmap option_map] in *.
    + split_and!; [apply var_store_append; [done|by apply Hv]|done|]. cbn [var_sizediff].
      rewrite pack_app, length_app, pack_cons, length_app, entry_length. cbn [fst snd pack map concat length].
      specialize (Lv v eq_refl). lia.
    + rewrite app_nil_r in *. split_and!; [apply var_store_nothing|done|]. cbn [var_sizediff]. lia.
  - eexists _, _, (pack (l1 ++ match seg_view <$> value with Some v => [(seg_view name, v)] | None => [] end ++ l2)). split; [by apply var_lookup_some|]. destruct value as [v'|]; cbn [fmap option_fmap option_map] in *.
    + split_and!; [apply var_store_replace; [done|by apply Hv]|done|]. cbn [var_sizediff seg_len].
      rewrite !pack_app, !pack_cons, !length_app, !entry_length. cbn [fst snd pack map concat length].
      specialize (Lv v' eq_refl). lia.
    + split_and!; [by apply var_store_delete|done|]. cbn [var_sizediff seg_len].
      rewrite !pack_app, !pack_cons, !length_app, !entry_length. cbn [fst snd pack map concat length]. lia.
Qed.
