(* ===== verification/PtrArray.v ===== *)
(** * Arrays of object pointers

    [fd_list] and [svc_list] are arrays of pointers of which the first [count] are in
    use: the search of fd.c and service.c in such an array, and how it grows, with
    their lemmas. *)

From S2P Require Import Prelude.

(** [for (i= 0; i < count; i++) if (list[i] == p) break;] as the index found. *)
Fixpoint list_find_from (n : nat) (l : list Z) (p i : Z) : outcome (option Z) :=
  match n with
  | O => Done None
  | S n => x ← slot l i; if x =? p then Done (Some i) else list_find_from n l p (i + 1)
  end.

(** A grown array: what [realloc] keeps, then cells not written yet. *)
Definition grow (l : list Z) (n : Z) : list Z :=
  take (Z.to_nat n) l ++ replicate (Z.to_nat n - length l) 0.

Lemma grow_length l n : Z.of_nat (length (grow l n)) = Z.max 0 n.
Proof. unfold grow. rewrite length_app, length_take, length_replicate. lia. Qed.

Lemma grow_take l n k : (k ≤ length l)%nat → Z.of_nat k ≤ n → take k (grow l n) = take k l.
Proof.
  intros Hk Hn. unfold grow. rewrite take_app_le; [|rewrite length_take; lia]. rewrite take_take. f_equal. lia.
Qed.

(** The search finds the first occurrence. *)
Lemma list_find_from_spec A p B n : p ∉ A → (length A < n)%nat →
  ∀ pre, list_find_from n (pre ++ A ++ p :: B) p (Z.of_nat (length pre)) = Done (Some (Z.of_nat (length (pre ++ A)))).
Proof.
  revert n; induction A as [|a A IH]; intros [|n] Hp Hn pre; cbn [length] in Hn; [lia| |lia|]; cbn [list_find_from app].
  - rewrite (slot_lookup _ _ p) by by apply list_lookup_middle. cbn [mbind outcome_bind].
    by rewrite Z.eqb_refl, app_nil_r.
  - apply not_elem_of_cons in Hp as [Hpa Hp].
    rewrite (slot_lookup _ _ a) by by apply list_lookup_middle. cbn [mbind outcome_bind].
    rewrite (proj2 (Z.eqb_neq _ _)) by congruence.
    specialize (IH n Hp ltac:(lia) (pre ++ [a])). rewrite <-!app_assoc in IH. cbn [app] in IH.
    rewrite <-IH. f_equal. rewrite length_app. cbn. lia.
Qed.

(** Removal: the last used pointer takes the place of the removed one, and [x] goes
    to the end of the used part. *)
Lemma array_remove (l : list Z) (c : nat) p x : (c ≤ length l)%nat → NoDup (take c l) → p ∈ take c l →
  ∃ i y l1 l2, list_find_from c l p 0 = Done (Some i) ∧ slot l (Z.of_nat c - 1) = Done y ∧
    set_slot l i y = Done l1 ∧ set_slot l1 (Z.of_nat c - 1) x = Done l2 ∧
    length l2 = length l ∧ p :: take (c - 1) l2 ≡ₚ take c l ∧
    l2 !! (c - 1)%nat = Some x ∧ drop c l2 = drop c l.
Proof.
  intros Hc Hnd Hp. apply list_elem_of_split in Hp as (A & B & HAB).
  assert (HpA : p ∉ A).
  { rewrite HAB in Hnd. apply NoDup_app in Hnd as (_ & Hnd & _). intros HA. apply (Hnd p HA). by left. }
  assert (Hlen : (length A + S (length B))%nat = c).
  { apply (f_equal length) in HAB. rewrite length_take, length_app in HAB. cbn in HAB. lia. }
  assert (Hl : l = A ++ p :: B ++ drop c l) by (rewrite <-(take_drop c l) at 1; rewrite HAB, <-app_assoc; done).
  set (rest := drop c l) in *.
  assert (Hf : list_find_from c l p 0 = Done (Some (Z.of_nat (length A)))).
  { pose proof (list_find_from_spec A p (B ++ rest) c HpA ltac:(lia) []) as E1. cbn in E1. by rewrite Hl. }
  destruct (decide (B = [])) as [->|HB].
  - cbn [app length] in *. subst c.
    exists (Z.of_nat (length A)), p, l, (A ++ x :: rest).
    assert (Hs : slot l (Z.of_nat (length A)) = Done p).
    { apply slot_lookup. rewrite Hl. by apply list_lookup_middle. }
    replace (Z.of_nat (length A + 1) - 1) with (Z.of_nat (length A)) by lia.
    replace (length A + 1 - 1)%nat with (length A) by lia.
    assert (Hll : length l = (length A + S (length rest))%nat) by (rewrite Hl, length_app; done).
    split_and!; [done|done| | | | | |].
    + rewrite set_slot_insert by lia. f_equal. apply list_insert_id. rewrite Hl. by apply list_lookup_middle.
    + rewrite set_slot_insert by lia. f_equal. rewrite Hl. by rewrite insert_app_r_alt, Nat.sub_diag by lia.
    + rewrite length_app. cbn. lia.
    + rewrite HAB, take_app_length. apply Permutation_cons_append.
    + by apply list_lookup_middle.
    + rewrite drop_app_ge by lia. by replace (length A + 1 - length A)%nat with 1%nat by lia.
  - destruct (exists_last HB) as (B' & y & ->). rewrite length_app in Hlen. cbn in Hlen.
    exists (Z.of_nat (length A)), y, (A ++ y :: B' ++ y :: rest), (A ++ y :: B' ++ x :: rest).
    assert (Hl' : l = (A ++ p :: B') ++ y :: rest) by (rewrite Hl, <-!app_assoc; cbn; by rewrite <-?app_assoc).
    assert (Hll : length l = (length A + S (length B' + S (length rest)))%nat).
    { rewrite Hl', !length_app. cbn. rewrite Nat.add_succ_r. cbn. lia. }
    assert (Hi : Z.of_nat c - 1 = Z.of_nat (length (A ++ p :: B'))) by (rewrite length_app; cbn; lia).
    assert (Hi' : (c - 1)%nat = length (A ++ y :: B')) by (rewrite length_app; cbn; lia).
    split_and!; [done| | | | | | |].
    + rewrite Hi. apply slot_lookup. rewrite Hl'. by apply list_lookup_middle.
    + rewrite set_slot_insert by lia. f_equal. rewrite Hl'. rewrite <-app_assoc, insert_app_r_alt, Nat.sub_diag by lia. done.
    + replace (Z.of_nat c - 1) with (Z.of_nat (length (A ++ y :: B'))) by (rewrite length_app; cbn; lia).
      replace (A ++ y :: B' ++ y :: rest) with ((A ++ y :: B') ++ y :: rest) by by rewrite <-app_assoc.
      rewrite set_slot_insert by (rewrite (length_app (_ ++ _)); cbn; lia).
      rewrite insert_app_r_alt, Nat.sub_diag by lia. by rewrite <-app_assoc.
    + rewrite Hll, length_app. cbn. rewrite length_app. cbn. lia.
    + rewrite HAB, Hi'. replace (A ++ y :: B' ++ x :: rest) with ((A ++ y :: B') ++ x :: rest) by by rewrite <-app_assoc.
      rewrite take_app_length. rewrite Permutation_middle. f_equiv. constructor. apply Permutation_cons_append.
    + rewrite Hi'. replace (A ++ y :: B' ++ x :: rest) with ((A ++ y :: B') ++ x :: rest) by by rewrite <-app_assoc.
      by apply list_lookup_middle.
    + replace (A ++ y :: B' ++ x :: rest) with ((A ++ y :: B' ++ [x]) ++ rest) by (rewrite <-!app_assoc; cbn; by rewrite <-!app_assoc).
      apply drop_app_length'. rewrite length_app. cbn. rewrite length_app. cbn. lia.
Qed.
