(* ===== verification/Fd.v ===== *)
(** * fd.c: named file descriptors

    A descriptor object is an entry of the map [fd_objs] under its address; its tree
    node has an address made from it.  [fd_list] is the array of all objects: the
    first [fd_list_count] are in use, and with an object pool the others are free.
    The functions of log.c that look the log descriptor up by name are here too. *)

From S2P Require Import Prelude Strseg State RBTree OrdIndex Log PtrArray.

(** [sizeof(fd_t)] where pointers have 8 bytes. *)
Definition sizeof_fd_t : Z := 72.

(** [&fd->name_index_node]. *)
Definition fd_node (p : Z) : ptr := 16 * p + 7.

Definition fd_obj (p : Z) : DP fd_t := λ g,
  match fd_objs (g_fd g) !! p with Some f => Done (f, g) | None => Fault end.

Definition upd_fd (p : Z) (f : fd_t → fd_t) : DP unit := λ g,
  match fd_objs (g_fd g) !! p with
  | Some o => Done (tt, on_fd (set_fd_objs (<[p := f o]> (fd_objs (g_fd g)))) g)
  | None => Fault
  end.

Definition flags_0 : fd_flags_t :=
  mkFlags false false false false false false false false false false false false false false false false 0.

(** The object after [memset] and the assignments of [fd_new]. *)
Definition fd_fresh (size : Z) (name : list Z) : fd_t := mkFd size flags_0 (-1) attr_null name.

(** [attr.pipe.peer]; a path in the union is not a pointer to an object. *)
Definition pipe_peer (f : fd_t) : outcome Z :=
  match fd_attr f with attr_null => Done 0 | attr_peer p => Done p | attr_path _ => Fault end.

(** The name of an object, for the comparisons of the tree. *)
Definition fd_key (objs : gmap Z fd_t) (o : Z) : list Z :=
  match objs !! o with Some f => fd_name f | None => [] end.

Definition fd_by_name_compare (objs : gmap Z fd_t) (data : strseg_t) (o : Z) : Z :=
  match strseg_cmp data (STRSEG (fd_key objs o)) with Done c => c | _ => 0 end.

Definition O_WRONLY : Z := 1.
Definition O_RDWR : Z := 2.
Definition O_CREAT : Z := 64.
Definition O_TRUNC : Z := 512.
Definition O_APPEND : Z := 1024.
Definition O_NONBLOCK : Z := 2048.
Definition SOCK_DGRAM : Z := 2.
Definition SOCK_SEQPACKET : Z := 5.
Definition AF_INET : Z := 2.
Definition AF_INET6 : Z := 10.

(** [memcpy] of a whole segment. *)
Definition seg_str (s : strseg_t) : outcome (list Z) := seg_bytes (Z.to_nat (seg_len s)) s 0.

Section fd.
Context `{OS}.

Definition fd_init : DP unit := rb (RBTree_Init fd_by_name_index).

Definition fd_list_resize (new_limit : Z) : DP bool :=
  f ← gets g_fd;
  assert (new_limit >=? fd_list_count f);;
  r ← sys (CMalloc (new_limit * 8));
  if ret r <? 0 then mret false
  else
    modify (on_fd (λ f, set_fd_list_limit new_limit (set_fd_list (grow (fd_list f) new_limit) f)));;
    mret true.

Definition fd_preallocate (count data_size_each : Z) : DP bool :=
  f ← gets g_fd;
  assert (length (fd_list f) =? 0)%nat;;
  assert (negb (fd_obj_pool f));;
  ok ← fd_list_resize count;
  if negb ok then mret false
  else
    let size_each := sizeof_fd_t + NAME_BUF_SIZE + data_size_each in
    let size_each := wrap32 (Z.lor (size_each - 1) 0xF + 1) in
    r ← sys (CMalloc (wrap32 (count * size_each)));
    if ret r <? 0 then mret false
    else
      modify (λ g, set_g_next (g_next g + count) (on_fd (λ f,
        set_fd_list (seqZ (g_next g) count) (set_fd_obj_pool true (set_fd_obj_pool_size_each size_each f))) g));;
      mret true.

(** The construction of an object at [obj], from [memset] on. *)
Definition fd_construct (obj size : Z) (name : strseg_t) : DP unit :=
  n ← lift (seg_str name);
  modify (on_fd (λ f, set_fd_objs (<[obj := fd_fresh size n]> (fd_objs f)) f));;
  modify (λ g, set_g_rb (<[fd_node obj := mkNode 0 0 0 0 0]> (g_rb g)) g);;
  rb (RBTreeNode_Init (fd_node obj));;
  rb (store (fd_node obj) (set_Object obj));;
  objs ← gets (λ g, fd_objs (g_fd g));
  rb (RBTree_Add (fd_by_name_compare objs) fd_by_name_index (fd_node obj) name);;
  mret tt.

(** [fd_list[fd_list_count++]= obj]. *)
Definition fd_list_push (obj : Z) : DP unit :=
  f ← gets g_fd;
  l ← lift (set_slot (fd_list f) (fd_list_count f) obj);
  modify (on_fd (λ f, set_fd_list_count (fd_list_count f + 1) (set_fd_list l f))).

(** Returns 0 for [NULL]. *)
Definition fd_new (size : Z) (name : strseg_t) : DP Z :=
  assert (size >=? sizeof_fd_t + seg_len name + 1);;
  assert (seg_len name <? NAME_BUF_SIZE);;
  f ← gets g_fd;
  room ← (if fd_list_count f >=? fd_list_limit f then
            if fd_obj_pool f then mret false else fd_list_resize (fd_list_limit f + 32)
          else mret true);
  if negb room then mret 0
  else if fd_obj_pool f then
    let size := fd_obj_pool_size_each f in
    if size <? sizeof_fd_t + seg_len name + 1 then mret 0
    else
      obj ← lift (slot (fd_list f) (fd_list_count f));
      modify (on_fd (set_fd_list_count (fd_list_count f + 1)));;
      fd_construct obj size name;;
      mret obj
  else
    r ← sys (CMalloc size);
    if ret r <? 0 then mret 0
    else
      obj ← gets g_next;
      modify (set_g_next (obj + 1));;
      fd_list_push obj;;
      fd_construct obj size name;;
      mret obj.

(** The last loop of [fd_delete]: out of the list, and freed or back in the pool. *)
Definition fd_list_remove (fd : Z) : DP unit :=
  f ← gets g_fd;
  i ← lift (list_find_from (Z.to_nat (fd_list_count f)) (fd_list f) fd 0);
  match i with
  | None => mret tt
  | Some i =>
      let n := fd_list_count f - 1 in
      x ← lift (slot (fd_list f) n);
      l ← lift (set_slot (fd_list f) i x);
      l ← lift (set_slot l n (if fd_obj_pool f then fd else 0));
      modify (on_fd (λ f, set_fd_list_count n (set_fd_list l f)));;
      when (negb (fd_obj_pool f))
        (modify (λ g, set_g_rb (delete (fd_node fd) (g_rb g))
           (on_fd (λ f, set_fd_objs (delete fd (fd_objs f)) f) g)))
  end.

Definition fd_delete (fd : Z) : DP unit :=
  f ← fd_obj fd;
  (if fl_pipe (fd_flags f) then
     peer ← lift (pipe_peer f);
     when (negb (peer =? 0)) (upd_fd peer (set_fd_attr (attr_peer 0)))
   else mret tt);;
  (if fd_fd f >=? 0 then
     lfd ← log_get_fd;
     when (lfd =? fd_fd f) log_fd_reset;;
     sys (CClose (fd_fd f));;
     mret tt
   else mret tt);;
  rb (RBTreeNode_Prune (fd_node fd));;
  fd_list_remove fd.

Definition fd_get_name (fd : Z) : DP (list Z) := f ← fd_obj fd; mret (fd_name f).
Definition fd_get_fdnum (fd : Z) : DP Z := f ← fd_obj fd; mret (fd_fd f).
Definition fd_set_fdnum (fd fdnum : Z) : DP unit := upd_fd fd (set_fd_fd fdnum).
Definition fd_get_flags (fd : Z) : DP fd_flags_t := f ← fd_obj fd; mret (fd_flags f).

Definition fd_get_file_path (fd : Z) : DP (option (list Z)) :=
  f ← fd_obj fd;
  if fl_pipe (fd_flags f) then mret None
  else match fd_attr f with
       | attr_path p => mret (Some p)
       | attr_null => mret None
       | attr_peer p => if p =? 0 then mret None else fault
       end.

Definition fd_get_pipe_peer (fd : Z) : DP Z :=
  f ← fd_obj fd;
  if fl_pipe (fd_flags f) then lift (pipe_peer f) else mret 0.

Definition fd_set_nonblock (fdnum : Z) : DP bool :=
  i ← sys (CGetfl fdnum);
  if ret i >=? 0 then
    r ← sys (CSetfl fdnum (Z.lor (ret i) O_NONBLOCK));
    mret (ret r >=? 0)
  else mret false.

Definition fd_by_name (name : strseg_t) : DP Z :=
  assert (seg_len name <? NAME_BUF_SIZE);;
  objs ← gets (λ g, fd_objs (g_fd g));
  s ← rb (RBTree_Find (fd_by_name_compare objs) fd_by_name_index name);
  if Relation s =? 0 then rb (load (Nearest s) Object) else mret 0.

(** [old && old->flags.is_const]. *)
Definition fd_is_const (old : Z) : DP bool :=
  if old =? 0 then mret false else f ← fd_obj old; mret (fl_is_const (fd_flags f)).

Definition fd_new_pipe (name1 : strseg_t) (num1 : Z) (name2 : strseg_t) (num2 : Z) (flags : fd_flags_t) : DP Z :=
  old1 ← fd_by_name name1;
  old2 ← fd_by_name name2;
  c1 ← fd_is_const old1;
  c2 ← (if c1 : bool then mret false else fd_is_const old2);
  if c1 || c2 then mret 0
  else
    f1 ← fd_new (sizeof_fd_t + seg_len name1 + 1) name1;
    if f1 =? 0 then mret 0
    else
      f2 ← fd_new (sizeof_fd_t + seg_len name2 + 1) name2;
      if f2 =? 0 then fd_delete f1;; mret 0
      else
        when (negb (old1 =? 0)) (fd_delete old1);;
        when (negb (old2 =? 0)) (fd_delete old2);;
        upd_fd f1 (set_fd_flags flags);;
        upd_fd f1 (λ f, set_fd_flags (set_fl_pipe true (fd_flags f)) f);;
        upd_fd f1 (λ f, set_fd_flags (set_fl_read true (fd_flags f)) f);;
        upd_fd f1 (λ f, set_fd_flags (set_fl_write (fl_socket flags) (fd_flags f)) f);;
        upd_fd f1 (set_fd_fd num1);;
        upd_fd f1 (set_fd_attr (attr_peer f2));;
        upd_fd f2 (set_fd_flags flags);;
        upd_fd f2 (λ f, set_fd_flags (set_fl_pipe true (fd_flags f)) f);;
        upd_fd f1 (λ f, set_fd_flags (set_fl_read (fl_socket flags) (fd_flags f)) f);;
        upd_fd f2 (λ f, set_fd_flags (set_fl_write true (fd_flags f)) f);;
        upd_fd f2 (set_fd_fd num2);;
        upd_fd f2 (set_fd_attr (attr_peer f1));;
        mret f1.

(** What is left in a buffer of [bufsize] bytes, without the closing NUL. *)
Definition append_elipses (bufsize : Z) (source : list Z) : list Z :=
  if Z.of_nat (length source) <? bufsize then source
  else if bufsize >=? 4 then take (Z.to_nat (bufsize - 4)) source ++ str "..."
  else str "...".

Definition fd_new_file (name : strseg_t) (fdnum : Z) (flags : fd_flags_t) (path : strseg_t) : DP Z :=
  old ← fd_by_name name;
  c ← fd_is_const old;
  if (c : bool) then mret 0
  else
    f ← fd_new (sizeof_fd_t + seg_len name + 1 + seg_len path + 1) name;
    if f =? 0 then mret 0
    else
      when (negb (old =? 0)) (fd_delete old);;
      upd_fd f (set_fd_fd fdnum);;
      upd_fd f (set_fd_flags flags);;
      o ← fd_obj f;
      p ← lift (seg_str path);
      upd_fd f (set_fd_attr (attr_path (append_elipses (fd_size o - sizeof_fd_t - seg_len name - 1) p)));;
      mret f.

(** [fd_load_flags] on the structure [flags]. *)
Definition flags_of_fl (fl : Z) (flags : fd_flags_t) : fd_flags_t :=
  let wronly := Z.land fl O_WRONLY =? O_WRONLY in
  set_fl_trunc (negb (Z.land fl O_TRUNC =? 0))
  (set_fl_create (negb (Z.land fl O_CREAT =? 0))
  (set_fl_append (negb (Z.land fl O_APPEND =? 0))
  (set_fl_nonblock (negb (Z.land fl O_NONBLOCK =? 0))
  (set_fl_write (wronly || (Z.land fl O_RDWR =? O_RDWR))
  (set_fl_read (negb wronly) flags))))).

Definition fd_load_flags (flags : fd_flags_t) (fh : Z) : DP fd_flags_t :=
  fl ← sys (CGetfl fh);
  let flags := if ret fl >=? 0 then flags_of_fl (ret fl) flags else flags in
  r ← sys (CGetsockopt fh);
  if ret r =? 0 then
    let i := nth 0 (out r) 0 in
    let flags := set_fl_socket true flags in
    let flags := if i =? SOCK_DGRAM then set_fl_sock_dgram true flags
                 else if i =? SOCK_SEQPACKET then set_fl_sock_seq true flags else flags in
    r ← sys (CGetsockname fh);
    if ret r =? 0 then
      let family := nth 0 (out r) 0 in
      mret (if family =? AF_INET then set_fl_sock_inet true flags
            else if family =? AF_INET6 then set_fl_sock_inet6 true flags else flags)
    else mret flags
  else mret flags.

Definition fd_new_unknown (name : strseg_t) (fdnum : Z) : DP Z :=
  flags ← fd_load_flags flags_0 fdnum;
  fd_new_file name fdnum flags (STRSEG (str "unknown")).

(** The loop of [fd_by_num], [n] rounds from index [i]. *)
Fixpoint fd_by_num_loop (n : nat) (l : list Z) (fdnum i : Z) : DP Z :=
  match n with
  | O => mret 0
  | S n =>
      p ← lift (slot l i);
      f ← fd_obj p;
      if fd_fd f =? fdnum then mret p else fd_by_num_loop n l fdnum (i + 1)
  end.

Definition fd_by_num (fdnum : Z) : DP Z :=
  f ← gets g_fd;
  fd_by_num_loop (Z.to_nat (fd_list_count f)) (fd_list f) fdnum 0.

Definition fd_iter_next (current : Z) (from_name : list Z) : DP Z :=
  node ←
    (if negb (current =? 0) then rb (RBTreeNode_GetNext (fd_node current))
     else
       objs ← gets (λ g, fd_objs (g_fd g));
       s ← rb (RBTree_Find (fd_by_name_compare objs) fd_by_name_index (STRSEG from_name));
       if Nearest s =? NULL then mret NULL
       else if Relation s <? 0 then mret (Nearest s)
       else rb (RBTreeNode_GetNext (Nearest s)));
  if negb (node =? NULL) then rb (load node Object) else mret 0.

(** ** log.c: finding the descriptor of the log *)

Definition log_fd_attach : DP bool :=
  l ← gets g_log;
  (if (log_fd l <? 0) && negb (length (log_dest_fd_name l) =? 0)%nat then
     fd ← fd_by_name (STRSEG (log_dest_fd_name l));
     if negb (fd =? 0) then
       n ← fd_get_fdnum fd;
       modify (on_log (set_log_fd n))
     else mret tt
   else mret tt);;
  l ← gets g_log;
  if log_fd l <? 0 then
    modify (on_log (set_log_blocked true));;
    mret false
  else
    modify (on_log (λ l, set_log_blocked_next_attempt 0 (set_log_blocked false l)));;
    when (negb (length (log_buffer l) =? 0)%nat) (log_flush;; mret tt);;
    mret true.

Definition log_init : DP unit :=
  modify (on_log (set_log_fd 2));;
  log_fd_attach;;
  mret tt.

Definition log_fd_set_name (name : strseg_t) : DP unit :=
  log_fd_reset;;
  assert (seg_len name <? NAME_BUF_SIZE);;
  n ← lift (seg_str name);
  modify (on_log (set_log_dest_fd_name n));;
  log_fd_attach;;
  mret tt.

(** The part of [log_run] for a log whose last write failed. *)
Definition log_run_blocked : DP unit :=
  l ← gets g_log;
  now ← gets (λ g, wake_now (g_wake g));
  woke ← woke_on_writeable_only (log_fd l);
  (if woke || (negb (log_blocked_next_attempt l =? 0) && (wrap64 (now - log_blocked_next_attempt l) >? 0)) then
     modify (on_log (λ l, set_log_blocked_next_attempt 0 (set_log_blocked false l)));;
     log_flush;;
     l ← gets g_log;
     when (log_blocked l)
       (let t := wrap64 (now + LOG_RETRY_DELAY) in
        modify (on_log (set_log_blocked_next_attempt (if t =? 0 then 1 else t))))
   else mret tt);;
  l ← gets g_log;
  if log_blocked l then
    if negb (log_blocked_next_attempt l =? 0) then wake_at_time (log_blocked_next_attempt l)
    else wake_on_writeable_only (log_fd l)
  else mret tt.

Definition log_run : DP unit :=
  l ← gets g_log;
  attached ← (if log_fd l <? 0 then log_fd_attach else mret true);
  if negb attached then mret tt
  else
    l ← gets g_log;
    when (log_blocked l) log_run_blocked.
End fd.
