(* ===== verification/FdSpec.v ===== *)
(** * Properties of the descriptor table *)

From S2P Require Import Prelude Strseg State RBTree RBTreeRep OrdIndex RBTreeIndex Table Log PtrArray Fd.

(** ** Running computations *)

Lemma rb_done {A} (m : RB A) g a h : m (g_rb g) = Done (a, h) → rb m g = Done (a, set_g_rb h g).
Proof. intros E. unfold rb. by rewrite E. Qed.

Lemma rb_pure {A} (m : RB A) g a : m (g_rb g) = Done (a, g_rb g) → rb m g = Done (a, g).
Proof. intros E. rewrite (rb_done _ _ _ _ E). by destruct g. Qed.

Lemma seg_str_view s : seg_wf s → seg_str s = Done (seg_view s).
Proof. apply seg_bytes_view. Qed.

(** A comparison of the daemon is the comparison of the strings. *)
Lemma fd_compare_key objs name o : seg_wf name →
  fd_by_name_compare objs name o = compare_key (fd_key objs) lex_cmp (seg_view name) o.
Proof.
  intros Hw. unfold fd_by_name_compare, compare_key. rewrite strseg_cmp_spec; [|done|apply STRSEG_wf].
  by rewrite STRSEG_view.
Qed.

(** ** The addresses of the descriptor table *)

Definition fd_cell (a : ptr) : Prop := a = Sentinel ∨ a = fd_by_name_index ∨ a mod 16 = 7.

Lemma fd_node_mod p : fd_node p mod 16 = 7.
Proof. unfold fd_node. rewrite (Z.mul_comm 16), Z.add_comm, Z.mod_add by lia. done. Qed.

Lemma fd_node_ne p : fd_node p ≠ Sentinel ∧ fd_node p ≠ fd_by_name_index ∧ fd_node p ≠ NULL.
Proof. pose proof (fd_node_mod p). split_and!; intros E; rewrite E in *; done. Qed.

Lemma fd_node_inj p q : fd_node p = fd_node q → p = q.
Proof. unfold fd_node. lia. Qed.
#[export] Hint Resolve fd_node_mod : dp.

(** Everything but the descriptor module, the log's descriptor, [errno] and the calls. *)
Record fd_frame (g g' : G) : Prop := {
  ff_wake : g_wake g' = g_wake g;
  ff_sig : g_sig g' = g_sig g;
  ff_svc : g_svc g' = g_svc g;
  ff_ctl : g_ctl g' = g_ctl g;
  ff_opt : g_opt g' = g_opt g;
  ff_main : g_main g' = g_main g;
  ff_log : g_log g' = g_log g ∨
           g_log g' = set_log_blocked_next_attempt 0 (set_log_blocked true (set_log_fd (-1) (g_log g)));
  ff_next : g_next g ≤ g_next g';
  ff_rb : ∀ a, ¬ fd_cell a → g_rb g' !! a = g_rb g !! a;
  ff_trace : ∃ tr, g_trace g' = tr ++ g_trace g;
}.

#[export] Instance fd_frame_preorder : PreOrder fd_frame.
Proof.
  split.
  - intros g. split; try done; [by left|by exists []].
  - intros g1 g2 g3 [? ? ? ? ? ? L1 ? R1 [t1 T1]] [? ? ? ? ? ? L2 ? R2 [t2 T2]].
    split; try congruence; [|lia|intros a Ha; by rewrite R2, R1|exists (t2 ++ t1); by rewrite T2, T1, app_assoc].
    destruct L1 as [L1|L1], L2 as [L2|L2]; rewrite L2, ?L1; auto.
Qed.

(** ** The invariant *)

Definition peer_ok (objs : gmap Z fd_t) (names : list Z) (o : Z) (f : fd_t) : Prop :=
  fl_pipe (fd_flags f) = true →
  fd_attr f = attr_null ∨ fd_attr f = attr_peer 0 ∨
  ∃ p f', fd_attr f = attr_peer p ∧ p ∈ names ∧ p ≠ o ∧ objs !! p = Some f' ∧
    fl_pipe (fd_flags f') = true ∧ fd_attr f' = attr_peer o.

(** [names] is the list of the live objects in name order. *)
Record fd_ok (g : G) (names : list Z) : Prop := {
  fo_table : table_at lex_cmp fd_by_name_index fd_node (fd_key (fd_objs (g_fd g))) (g_rb g) names;
  fo_count : 0 ≤ fd_list_count (g_fd g) ≤ fd_list_limit (g_fd g);
  fo_len : Z.of_nat (length (fd_list (g_fd g))) = fd_list_limit (g_fd g);
  fo_used : take (Z.to_nat (fd_list_count (g_fd g))) (fd_list (g_fd g)) ≡ₚ names;
  fo_objs : ∀ o, o ∈ names → ∃ f, fd_objs (g_fd g) !! o = Some f ∧
    Z.of_nat (length (fd_name f)) < NAME_BUF_SIZE ∧ peer_ok (fd_objs (g_fd g)) names o f;
  fo_range : ∀ o, o ∈ names → 0 < o < g_next g;
  fo_pool : fd_obj_pool (g_fd g) = true →
    NoDup (fd_list (g_fd g)) ∧ ∀ o, o ∈ fd_list (g_fd g) → 0 < o < g_next g;
  fo_next : 0 < g_next g;
}.

Lemma fd_names_nodup g names : fd_ok g names → NoDup names.
Proof.
  intros Hok. pose proof (table_nodup _ _ _ _ _ _ (fo_table _ _ Hok)) as Hn. unfold table_cells in Hn.
  rewrite !NoDup_cons in Hn. destruct Hn as (_ & _ & _ & Hn). by apply NoDup_fmap_1 in Hn.
Qed.

Section fd_spec.
Context `{OS}.

Lemma sys_fd_frame c g r g' : sys c g = Done (r, g') → fd_frame g g'.
Proof. intros [= <- <-]. split; try done; [by left|]. by exists [(c, os (g_trace g) c)]. Qed.

(** A system call changes nothing the table depends on. *)
Lemma fd_ok_same g g' names : fd_ok g names → g_fd g' = g_fd g → g_rb g' = g_rb g → g_next g' = g_next g →
  fd_ok g' names.
Proof. intros [] E1 E2 E3. split; rewrite ?E1, ?E2, ?E3; done. Qed.

(** ** Lookup *)

Lemma fd_by_name_ok g names name : fd_ok g names → seg_wf name → seg_len name < NAME_BUF_SIZE →
  ∃ o, fd_by_name name g = Done (o, g) ∧
    ((o ∈ names ∧ o ≠ 0 ∧ fd_key (fd_objs (g_fd g)) o = seg_view name) ∨
     (o = 0 ∧ ∀ p, p ∈ names → fd_key (fd_objs (g_fd g)) p ≠ seg_view name)).
Proof.
  intros Hok Hw Hlen. unfold fd_by_name. rewrite (proj2 (Z.ltb_lt _ _)) by done.
  rewrite (bind_done (assert true) _ _ _ _ eq_refl).
  rewrite (bind_done (gets (λ g, fd_objs (g_fd g))) _ _ _ _ eq_refl).
  destruct (table_find lex_cmp fd_by_name_index fd_node (λ a b, proj1 (lex_cmp_eq a b)) _ _ _ (seg_view name) (fo_table _ _ Hok))
    as (s & E1 & Hs).
  erewrite <-RBTree_Find_ext in E1 by (intros; by apply fd_compare_key).
  rewrite (bind_done _ _ _ _ _ (rb_pure _ _ _ E1)).
  destruct Hs as [(-> & o & Ho & Hk & Hn)|(Hr & Hno)].
  - rewrite Z.eqb_refl. destruct (table_node _ _ _ _ _ _ _ (fo_table _ _ Hok) Ho) as (n & Hnode & Hobj & _).
    exists o. split.
    + apply rb_pure. unfold load. by rewrite Hn, Hnode, Hobj.
    + left. pose proof (fo_range _ _ Hok o Ho). split_and!; [done|lia|done].
  - rewrite (proj2 (Z.eqb_neq _ _)) by done. exists 0. split; [done|]. by right.
Qed.

(** ** Creation *)

Lemma fd_key_insert_ne objs obj f o : o ≠ obj → fd_key (<[obj := f]> objs) o = fd_key objs o.
Proof. intros Hne. unfold fd_key. by rewrite lookup_insert_ne by done. Qed.

Lemma fd_cells_sep a l : a ∈ table_cells fd_by_name_index fd_node l → fd_cell a.
Proof.
  unfold table_cells, fd_cell. intros [->|(o & -> & _)%list_elem_of_fmap]%elem_of_cons; [auto|].
  right; right. apply fd_node_mod.
Qed.

Lemma fd_construct_ok g names obj size name : let objs := fd_objs (g_fd g) in
  table_at lex_cmp fd_by_name_index fd_node (fd_key objs) (g_rb g) names →
  obj ∉ names → seg_wf name →
  ∃ h' l1 l2, fd_construct obj size name g =
      Done (tt, set_g_rb h' (on_fd (set_fd_objs (<[obj := fd_fresh size (seg_view name)]> objs)) g)) ∧
    names = l1 ++ l2 ∧
    table_at lex_cmp fd_by_name_index fd_node (fd_key (<[obj := fd_fresh size (seg_view name)]> objs)) h' (l1 ++ obj :: l2) ∧
    ∀ a, ¬ fd_cell a → h' !! a = g_rb g !! a.
Proof.
  intros objs Ht Hobj Hw. unfold fd_construct. rewrite seg_str_view by done.
  set (objs' := <[obj := fd_fresh size (seg_view name)]> objs).
  set (n := mkNode 0 0 0 RBTreeNode_Unassigned obj).
  set (h1 := <[fd_node obj := n]> (g_rb g)).
  destruct (fd_node_ne obj) as (N1 & N2 & N3).
  assert (Hout : fd_node obj ∉ table_cells fd_by_name_index fd_node names).
  { unfold table_cells. intros [E1|(o & E1 & Ho)%list_elem_of_fmap]%elem_of_cons; [done|].
    apply fd_node_inj in E1 as <-. done. }
  assert (Ht1 : table_at lex_cmp fd_by_name_index fd_node (fd_key objs') h1 names).
  { eapply (table_ext _ _ _ (fd_key objs)).
    - intros o Ho. unfold objs'. rewrite fd_key_insert_ne; [done|]. by intros ->.
    - eapply (table_frame _ _ _ _ {[fd_node obj]}); [exact Ht| | |].
      + intros a Ha. unfold h1. rewrite lookup_insert_ne; [done|]. rewrite elem_of_singleton in Ha. congruence.
      + intros a Ha. rewrite elem_of_singleton. by intros ->.
      + destruct (table_sent _ _ _ _ _ _ Ht) as [p Hp]. exists p. unfold h1. by rewrite lookup_insert_ne. }
  destruct (table_add lex_cmp fd_by_name_index fd_node (fd_key objs') h1 names obj n Ht1)
    as (h' & l1 & l2 & E1 & Hl & Ht' & Hk); [done|done|done|by apply lookup_insert_eq|done|done|].
  exists h', l1, l2.
  assert (Hkey : fd_key objs' obj = seg_view name).
  { unfold fd_key, objs'. by rewrite lookup_insert_eq. }
  split_and!; [|done|done|].
  - do 3 (erewrite bind_done by reflexivity).
    erewrite bind_done by (apply rb_done; apply store_eq; apply lookup_insert_eq).
    erewrite bind_done by (apply rb_done; apply store_eq; apply lookup_insert_eq).
    erewrite bind_done by reflexivity.
    cbn [set_g_rb on_fd set_g_fd g_rb g_fd set_fd_objs fd_objs].
    rewrite !insert_insert_eq. change (set_Object _ _) with n. fold h1 objs objs'.
    erewrite bind_done; [done|]. erewrite rb_done; [done|]. cbn [g_rb].
    rewrite (RBTree_Add_ext _ (compare_key (fd_key objs') lex_cmp) name (fd_key objs' obj)); [done|].
    intros o. rewrite Hkey. by apply fd_compare_key.
  - intros a Ha. rewrite Hk.
    + unfold h1. rewrite lookup_insert_ne; [done|]. intros <-. apply Ha. right; right. apply fd_node_mod.
    + rewrite elem_of_list_to_set, !elem_of_cons. intros [->|[->|Hc]].
      * apply Ha. by left.
      * apply Ha. right; right. apply fd_node_mod.
      * apply Ha. by eapply fd_cells_sep.
Qed.

Lemma peer_ok_mono objs objs' names names' o f : (∀ p, p ∈ names → objs' !! p = objs !! p) →
  (∀ p, p ∈ names → p ∈ names') → peer_ok objs names o f → peer_ok objs' names' o f.
Proof.
  intros Hobjs Hn Hp Hpipe. destruct (Hp Hpipe) as [?|[?|(p & f' & E1 & Hin & Hne & Ef & H1 & H2)]]; [auto|auto|].
  right; right. exists p, f'. rewrite Hobjs by done. split_and!; auto.
Qed.

(** More room: the used part of the array stays. *)
(** Why no object can be had: a pool was set up (it is full, or its objects are too
    small), or a [malloc] on the way failed. *)
Definition out_of_room (g g' : G) : Prop :=
  fd_obj_pool (g_fd g) = true ∨
  ∃ n r tr1 tr2, g_trace g' = tr1 ++ (CMalloc n, r) :: tr2 ++ g_trace g ∧ ret r < 0.

Lemma out_of_room_mono g0 g g' g1 : fd_frame g0 g → fd_obj_pool (g_fd g) = fd_obj_pool (g_fd g0) →
  fd_frame g' g1 → out_of_room g g' → out_of_room g0 g1.
Proof.
  intros F0 Ep F1 [Hp|(n & r & tr1 & tr2 & Et & Hr)]; [left; congruence|right].
  destruct (ff_trace _ _ F0) as [a Ea], (ff_trace _ _ F1) as [b Eb]. exists n, r, (b ++ tr1), (tr2 ++ a). split; [|done].
  by rewrite Eb, Et, Ea, <-!app_assoc.
Qed.

(** The name belongs to a descriptor that may not be replaced. *)
Definition const_name (g : G) (name : strseg_t) : Prop :=
  ∃ p, fd_by_name name g = Done (p, g) ∧ fd_is_const p g = Done (true, g).

Lemma fd_list_resize_ok g names n : fd_ok g names → fd_obj_pool (g_fd g) = false → fd_list_limit (g_fd g) ≤ n →
  ∃ ok g', fd_list_resize n g = Done (ok, g') ∧ fd_frame g g' ∧ fd_ok g' names ∧
    fd_objs (g_fd g') = fd_objs (g_fd g) ∧ g_log g' = g_log g ∧
    fd_list_count (g_fd g') = fd_list_count (g_fd g) ∧ fd_obj_pool (g_fd g') = false ∧
    (ok = true → fd_list_limit (g_fd g') = n) ∧ (ok = false → out_of_room g g').
Proof.
  intros Hok Hp Hn. pose proof (fo_count _ _ Hok) as Hc. pose proof (fo_len _ _ Hok) as Hl.
  unfold fd_list_resize. rewrite (bind_done (gets g_fd) _ _ _ _ eq_refl).
  destruct (Z.geb_spec n (fd_list_count (g_fd g))); [|lia].
  rewrite (bind_done (assert true) _ _ _ _ eq_refl). erewrite bind_done by reflexivity.
  set (g1 := set_g_errno _ _).
  assert (F1 : fd_frame g g1) by (eapply (sys_fd_frame (CMalloc (n * 8))); reflexivity).
  assert (K1 : fd_ok g1 names) by by eapply fd_ok_same.
  destruct (ret _ <? 0) eqn:Er.
  { exists false, g1. split_and!; try done. intros _. right. eexists _, _, [], []. split; [reflexivity|by apply Z.ltb_lt]. }
  erewrite bind_done by reflexivity. do 2 eexists. split; [reflexivity|].
  split_and!; [|split|done|done|done|done|done|done]; cbn.
  - etransitivity; [exact F1|]. split; try done; [by left|by exists []].
  - exact (fo_table _ _ Hok).
  - lia.
  - rewrite grow_length. lia.
  - rewrite grow_take by lia. exact (fo_used _ _ Hok).
  - exact (fo_objs _ _ Hok).
  - exact (fo_range _ _ Hok).
  - congruence.
  - exact (fo_next _ _ Hok).
Qed.

(** The object [o], built in a state whose table is otherwise intact, joins the table. *)
Lemma fd_ok_added g g1 names l1 l2 o f h' : fd_ok g names → names = l1 ++ l2 → o ∉ names →
  fd_attr f = attr_null → Z.of_nat (length (fd_name f)) < NAME_BUF_SIZE → 0 < o < g_next g1 → g_next g ≤ g_next g1 →
  fd_objs (g_fd g1) = <[o := f]> (fd_objs (g_fd g)) →
  fd_list_limit (g_fd g1) = fd_list_limit (g_fd g) → fd_obj_pool (g_fd g1) = fd_obj_pool (g_fd g) →
  fd_list_count (g_fd g) < fd_list_limit (g_fd g) →
  fd_list_count (g_fd g1) = fd_list_count (g_fd g) + 1 →
  fd_list (g_fd g1) = (if fd_obj_pool (g_fd g) then fd_list (g_fd g) else <[Z.to_nat (fd_list_count (g_fd g)) := o]> (fd_list (g_fd g))) →
  (fd_obj_pool (g_fd g) = true → fd_list (g_fd g) !! Z.to_nat (fd_list_count (g_fd g)) = Some o) →
  g_rb g1 = h' →
  table_at lex_cmp fd_by_name_index fd_node (fd_key (<[o := f]> (fd_objs (g_fd g)))) h' (l1 ++ o :: l2) →
  fd_ok g1 (l1 ++ o :: l2).
Proof.
  intros Hok -> Ho Hattr Hname Hor Hnext Eobjs Elim Epool Hroom Ecnt Elist Hslot <- Ht.
  pose proof (fo_count _ _ Hok) as Hc. pose proof (fo_len _ _ Hok) as Hl.
  assert (Hin : ∀ p, p ∈ l1 ++ l2 → p ∈ l1 ++ o :: l2).
  { intros p. rewrite !elem_of_app, elem_of_cons. tauto. }
  assert (Hin' : ∀ p, p ∈ l1 ++ o :: l2 → p = o ∨ p ∈ l1 ++ l2).
  { intros p. rewrite !elem_of_app, elem_of_cons. tauto. }
  split.
  - by rewrite Eobjs.
  - lia.
  - rewrite Elist, Elim. case_match; rewrite ?length_insert; done.
  - rewrite Ecnt, Elist.
    assert (Hcell : (if fd_obj_pool (g_fd g) then fd_list (g_fd g) else <[Z.to_nat (fd_list_count (g_fd g)) := o]> (fd_list (g_fd g)))
      !! Z.to_nat (fd_list_count (g_fd g)) = Some o).
    { destruct (fd_obj_pool (g_fd g)); [by apply Hslot|]. apply list_lookup_insert_eq. lia. }
    replace (Z.to_nat (fd_list_count (g_fd g) + 1)) with (S (Z.to_nat (fd_list_count (g_fd g)))) by lia.
    rewrite (take_S_r _ _ _ Hcell).
    assert (Htake : take (Z.to_nat (fd_list_count (g_fd g)))
      (if fd_obj_pool (g_fd g) then fd_list (g_fd g) else <[Z.to_nat (fd_list_count (g_fd g)) := o]> (fd_list (g_fd g))) =
      take (Z.to_nat (fd_list_count (g_fd g))) (fd_list (g_fd g))).
    { case_match; [done|]. by rewrite take_insert_ge by lia. }
    rewrite Htake, (fo_used _ _ Hok). rewrite <-Permutation_cons_append. apply Permutation_middle.
  - intros p Hp. rewrite Eobjs. destruct (Hin' p Hp) as [->|Hp'].
    + exists f. rewrite lookup_insert_eq. split_and!; [done|done|]. intros _. by left.
    + destruct (fo_objs _ _ Hok p Hp') as (fp & Efp & Hlen & Hpeer). exists fp.
      rewrite lookup_insert_ne by (intros ->; done). split_and!; [done|done|].
      eapply peer_ok_mono; [|exact Hin|exact Hpeer]. intros q Hq. by rewrite lookup_insert_ne by (intros ->; done).
  - intros p Hp. destruct (Hin' p Hp) as [->|Hp']; [done|]. pose proof (fo_range _ _ Hok p Hp'). lia.
  - rewrite Epool, Elist. intros Hpool. rewrite Hpool. destruct (fo_pool _ _ Hok Hpool) as [N1 N2]. split; [done|].
    intros p Hp. specialize (N2 p Hp). lia.
  - pose proof (fo_next _ _ Hok). lia.
Qed.

(** [fd_new] fails and leaves the table alone, or adds an object. *)
Definition fd_created (g g' : G) (names : list Z) (size : Z) (name : strseg_t) (o : Z) : Prop :=
  o ∉ names ∧ o ≠ 0 ∧ ∃ sz l1 l2, names = l1 ++ l2 ∧ fd_ok g' (l1 ++ o :: l2) ∧
    fd_objs (g_fd g') = <[o := fd_fresh sz (seg_view name)]> (fd_objs (g_fd g)) ∧
    sizeof_fd_t + seg_len name + 1 ≤ sz ∧ (fd_obj_pool (g_fd g) = false → sz = size).

Lemma fd_new_ok g names size name : fd_ok g names → seg_wf name → seg_len name < NAME_BUF_SIZE →
  sizeof_fd_t + seg_len name + 1 ≤ size →
  ∃ o g', fd_new size name g = Done (o, g') ∧ fd_frame g g' ∧ g_log g' = g_log g ∧
    fd_obj_pool (g_fd g') = fd_obj_pool (g_fd g) ∧
    ((o = 0 ∧ fd_ok g' names ∧ fd_objs (g_fd g') = fd_objs (g_fd g) ∧ out_of_room g g') ∨ fd_created g g' names size name o).
Proof.
  intros Hok Hw Hlen Hsize. unfold fd_new.
  destruct (Z.geb_spec size (sizeof_fd_t + seg_len name + 1)); [|lia].
  rewrite (bind_done (assert true) _ _ _ _ eq_refl). rewrite (proj2 (Z.ltb_lt _ _)) by done.
  rewrite (bind_done (assert true) _ _ _ _ eq_refl). rewrite (bind_done (gets g_fd) _ _ _ _ eq_refl).
  pose proof (fo_count _ _ Hok) as Hc. pose proof (fo_len _ _ Hok) as Hl.
  pose proof (seg_view_length name Hw) as Hv.
  destruct (fd_obj_pool (g_fd g)) eqn:Epool.
  - destruct (Z.geb_spec (fd_list_count (g_fd g)) (fd_list_limit (g_fd g))) as [|Hroom];
      rewrite (bind_done (mret _) _ _ _ _ eq_refl); cbn [negb];
      [exists 0, g; split_and!; [done|reflexivity|done|done|left; by split_and!; [..|left]]|].
    destruct (Z.ltb_spec (fd_obj_pool_size_each (g_fd g)) (sizeof_fd_t + seg_len name + 1)) as [|Hsz];
      [exists 0, g; split_and!; [done|reflexivity|done|done|left; by split_and!; [..|left]]|].
    destruct (fo_pool _ _ Hok Epool) as [Hnd Hpr].
    destruct (lookup_lt_is_Some_2 (fd_list (g_fd g)) (Z.to_nat (fd_list_count (g_fd g)))) as [o Ho]; [lia|].
    assert (Hnin : o ∉ names).
    { rewrite <-(fo_used _ _ Hok). intros (j & Hj)%list_elem_of_lookup.
      pose proof (lookup_lt_Some _ _ _ Hj) as Hjl. rewrite length_take in Hjl. rewrite lookup_take_lt in Hj by lia.
      pose proof (NoDup_lookup _ _ _ _ Hnd Hj Ho). lia. }
    assert (Hr : 0 < o < g_next g) by (eapply Hpr, list_elem_of_lookup_2, Ho).
    pose proof (slot_lookup _ _ _ Ho) as Es. rewrite Z2Nat.id in Es by lia.
    erewrite bind_done by (unfold lift; rewrite Es; reflexivity). erewrite bind_done by reflexivity.
    set (g1 := on_fd _ g).
    destruct (fd_construct_ok g1 names o (fd_obj_pool_size_each (g_fd g)) name) as (h' & l1 & l2 & E1 & Hn & Ht & Hk);
      [apply Hok|done|done|].
    erewrite bind_done by exact E1. exists o. eexists. split; [reflexivity|].
    split_and!; [|done|done|].
    + split; cbn; try done; [by left|by exists []].
    + right. split_and!; [done|lia|]. exists (fd_obj_pool_size_each (g_fd g)), l1, l2. split_and!; [done| |done|lia|congruence].
      eapply (fd_ok_added g _ names); [done|done|done|..]; cbn; try done; try lia; rewrite ?Epool; try done. cbn [fd_fresh fd_name]. lia.
  - assert (Hres : ∃ room g1, (if fd_list_count (g_fd g) >=? fd_list_limit (g_fd g)
        then fd_list_resize (fd_list_limit (g_fd g) + 32) else mret true) g = Done (room, g1) ∧ fd_frame g g1 ∧ fd_ok g1 names ∧
        fd_objs (g_fd g1) = fd_objs (g_fd g) ∧ g_log g1 = g_log g ∧ fd_list_count (g_fd g1) = fd_list_count (g_fd g) ∧
        fd_obj_pool (g_fd g1) = false ∧ (room = true → fd_list_count (g_fd g1) < fd_list_limit (g_fd g1)) ∧
        (room = false → out_of_room g g1)).
    { destruct (Z.geb_spec (fd_list_count (g_fd g)) (fd_list_limit (g_fd g))).
      - destruct (fd_list_resize_ok g names (fd_list_limit (g_fd g) + 32)) as (ok & g1 & E1 & F1 & K1 & Eo & El & Ec & Ep & Hlim & Hno);
          [done|done|lia|]. exists ok, g1. split_and!; try done. intros ->. rewrite Hlim by done. lia.
      - exists true, g. by split_and!. }
    destruct Hres as (room & g1 & E1 & F1 & K1 & Eo & El & Ec & Ep & Hroom & Hno).
    rewrite (bind_done _ _ _ _ _ E1). destruct room; cbn [negb];
      [|exists 0, g1; split_and!; [done|done|done|done|left; split_and!; [done|done|done|by apply Hno]]].
    specialize (Hroom eq_refl). erewrite bind_done by reflexivity. set (g2 := set_g_errno _ _).
    assert (F2 : fd_frame g1 g2) by (eapply (sys_fd_frame (CMalloc size)); reflexivity).
    assert (K2 : fd_ok g2 names) by by eapply fd_ok_same.
    destruct (ret _ <? 0) eqn:Er.
    { exists 0, g2. split_and!; [done|by etransitivity|done|done|left; split_and!; [done|done|done|right]].
      destruct (ff_trace _ _ F1) as [a Ea]. exists size, (os (g_trace g1) (CMalloc size)), [], a. rewrite <-Ea. split; [done|by apply Z.ltb_lt]. }
    rewrite (bind_done (gets g_next) _ _ _ _ eq_refl). erewrite bind_done by reflexivity.
    set (o := g_next g2).
    pose proof (fo_next _ _ K2) as Hnx. pose proof (fo_len _ _ K2) as Hl2. pose proof (fo_count _ _ K2) as Hc2.
    change (g_fd g2) with (g_fd g1) in Hl2, Hc2.
    assert (Hnin : o ∉ names) by (intros Hin; pose proof (fo_range _ _ K2 o Hin); lia).
    assert (Es : set_slot (fd_list (g_fd g1)) (fd_list_count (g_fd g1)) o =
      Done (<[Z.to_nat (fd_list_count (g_fd g1)) := o]> (fd_list (g_fd g1)))).
    { rewrite <-(Z2Nat.id (fd_list_count (g_fd g1))) at 1 by lia. apply set_slot_insert. lia. }
    assert (Ep2 : fd_list_push o (set_g_next (o + 1) g2) = Done (tt, on_fd (λ f, set_fd_list_count (fd_list_count (g_fd g1) + 1)
      (set_fd_list (<[Z.to_nat (fd_list_count (g_fd g1)) := o]> (fd_list (g_fd g1))) f)) (set_g_next (o + 1) g2))).
    { unfold fd_list_push. rewrite (bind_done (gets g_fd) _ _ _ _ eq_refl). unfold lift. cbn [g_fd set_g_next].
      change (g_fd g2) with (g_fd g1). by erewrite bind_done by (rewrite Es; reflexivity). }
    erewrite bind_done by exact Ep2.
    set (g3 := on_fd _ _).
    destruct (fd_construct_ok g3 names o size name) as (h' & l1 & l2 & E3 & Hn & Ht & Hk);
      [exact (fo_table _ _ K2)|done|done|].
    erewrite bind_done by exact E3. exists o. eexists. split; [reflexivity|].
    split_and!; [|done|done|].
    + etransitivity; [exact F1|]. etransitivity; [exact F2|]. split; cbn; try done; [by left|lia|by exists []].
    + right. split_and!; [done|lia|]. exists size, l1, l2. split_and!; [done| |cbn; by rewrite <-Eo|lia|done].
      eapply (fd_ok_added g2 _ names); [done|done|done|..]; cbn; try done; try lia; rewrite ?Ep; try done. all: cbn [fd_fresh fd_name] in *; cbn in Hnx; lia.
Qed.

(** ** Deletion *)

(** A pipe end whose other end is gone. *)
Definition forget (fd : Z) (f : fd_t) : fd_t :=
  match fd_attr f with
  | attr_peer p => if fl_pipe (fd_flags f) && (p =? fd) then set_fd_attr (attr_peer 0) f else f
  | _ => f
  end.

Lemma forget_name fd f : fd_name (forget fd f) = fd_name f.
Proof. unfold forget. repeat case_match; done. Qed.

Lemma forget_other fd f : (∀ p, fd_attr f = attr_peer p → fl_pipe (fd_flags f) = true → p ≠ fd) → forget fd f = f.
Proof.
  intros Hf. unfold forget. destruct (fd_attr f) as [| |p]; [done|done|]. destruct (fl_pipe (fd_flags f)); [|done].
  cbn [andb]. by rewrite (proj2 (Z.eqb_neq _ _)) by auto.
Qed.

Lemma forget_pipe fd f : fl_pipe (fd_flags (forget fd f)) = fl_pipe (fd_flags f).
Proof. unfold forget. repeat case_match; done. Qed.

(** The first step of [fd_delete]: the peer forgets the object. *)
Definition disassociate (f : fd_t) : DP unit :=
  if fl_pipe (fd_flags f) then
    peer ← lift (pipe_peer f);
    when (negb (peer =? 0)) (upd_fd peer (set_fd_attr (attr_peer 0)))
  else mret tt.

Lemma disassociate_ok g names fd f : fd_ok g names → fd ∈ names → fd_objs (g_fd g) !! fd = Some f →
  ∃ objs, disassociate f g = Done (tt, on_fd (set_fd_objs objs) g) ∧ objs !! fd = Some f ∧
    ∀ p, p ∈ names → p ≠ fd → objs !! p = forget fd <$> fd_objs (g_fd g) !! p.
Proof.
  intros Hok Hfd Hf. pose proof (fo_objs _ _ Hok fd Hfd) as (f0 & Hf0 & _ & Hpeer). simplify_eq.
  (* no other object has [fd] as its peer, but the peer of [fd] *)
  assert (Huniq : ∀ p fp, p ∈ names → fd_objs (g_fd g) !! p = Some fp → fl_pipe (fd_flags fp) = true →
    fd_attr fp = attr_peer fd → fl_pipe (fd_flags f) = true ∧ fd_attr f = attr_peer p ∧ p ≠ 0).
  { intros p fp Hp Hfp Hpipe Ha. pose proof (fo_objs _ _ Hok p Hp) as (fp0 & E0 & _ & Hpp). simplify_eq.
    pose proof (fo_range _ _ Hok p Hp). pose proof (fo_range _ _ Hok fd Hfd).
    destruct (Hpp Hpipe) as [E1|[E1|(q & f' & E1 & _ & _ & Ef & P1 & P2)]]; rewrite E1 in Ha; simplify_eq; [lia|].
    split_and!; [done|done|lia]. }
  assert (Hother : ∀ q, (fl_pipe (fd_flags f) = true → fd_attr f = attr_peer q ∨ q = 0 ∧ (fd_attr f = attr_null ∨ fd_attr f = attr_peer 0)) →
    ∀ p, p ∈ names → p ≠ q → fd_objs (g_fd g) !! p = forget fd <$> fd_objs (g_fd g) !! p).
  { intros q Hq p Hp Hne. destruct (fo_objs _ _ Hok p Hp) as (fp & Efp & _ & _). rewrite Efp. cbn. f_equal. symmetry.
    apply forget_other. intros r Ea Hpipe ->. destruct (Huniq p fp Hp Efp Hpipe Ea) as (P1 & P2 & P3).
    destruct (Hq P1) as [E1|[-> [E1|E1]]]; rewrite E1 in P2; simplify_eq. }
  assert (Hsame : disassociate f g = Done (tt, g) →
    (fl_pipe (fd_flags f) = true → fd_attr f = attr_null ∨ fd_attr f = attr_peer 0) →
    ∃ objs, disassociate f g = Done (tt, on_fd (set_fd_objs objs) g) ∧ objs !! fd = Some f ∧
    ∀ p, p ∈ names → p ≠ fd → objs !! p = forget fd <$> fd_objs (g_fd g) !! p).
  { intros E1 Hn. exists (fd_objs (g_fd g)). split_and!; [|done|].
    - rewrite E1. by destruct g as [? ? ? ? []].
    - intros p Hp _. apply (Hother 0); [intros; right; auto|done|]. pose proof (fo_range _ _ Hok p Hp). lia. }
  unfold disassociate in *. destruct (fl_pipe (fd_flags f)) eqn:Epipe; [|by apply Hsame].
  destruct (Hpeer Epipe) as [E1|[E1|(p & fp & E1 & Hp & Hne & Efp & P1 & P2)]].
  - apply Hsame; [|auto]. unfold pipe_peer. by rewrite E1.
  - apply Hsame; [|auto]. unfold pipe_peer. by rewrite E1.
  - pose proof (fo_range _ _ Hok p Hp).
    exists (<[p := set_fd_attr (attr_peer 0) fp]> (fd_objs (g_fd g))). split_and!.
    + erewrite bind_done by (unfold lift, pipe_peer; rewrite E1; reflexivity). rewrite (proj2 (Z.eqb_neq _ _)) by lia.
      cbn [negb when]. unfold upd_fd. by rewrite Efp.
    + by rewrite lookup_insert_ne by done.
    + intros q Hq Hqfd. destruct (decide (q = p)) as [->|Hqp].
      * rewrite lookup_insert_eq, Efp. cbn. unfold forget. by rewrite P2, P1, Z.eqb_refl.
      * rewrite lookup_insert_ne by done. apply (Hother p); [by left|done|done].
Qed.

(** The object leaves the array and, without a pool, the memory. *)
Lemma fd_list_remove_ok g l1 fd l2 : NoDup (l1 ++ fd :: l2) →
  0 ≤ fd_list_count (g_fd g) ≤ fd_list_limit (g_fd g) →
  Z.of_nat (length (fd_list (g_fd g))) = fd_list_limit (g_fd g) →
  take (Z.to_nat (fd_list_count (g_fd g))) (fd_list (g_fd g)) ≡ₚ l1 ++ fd :: l2 →
  ∃ g' l, fd_list_remove fd g = Done (tt, g') ∧ fd_frame g g' ∧ g_log g' = g_log g ∧ g_trace g' = g_trace g ∧
    g_next g' = g_next g ∧
    g_rb g' = (if fd_obj_pool (g_fd g) then g_rb g else delete (fd_node fd) (g_rb g)) ∧
    fd_objs (g_fd g') = (if fd_obj_pool (g_fd g) then fd_objs (g_fd g) else delete fd (fd_objs (g_fd g))) ∧
    fd_obj_pool (g_fd g') = fd_obj_pool (g_fd g) ∧ fd_list_limit (g_fd g') = fd_list_limit (g_fd g) ∧
    fd_list_count (g_fd g') = fd_list_count (g_fd g) - 1 ∧ 0 < fd_list_count (g_fd g) ∧ fd_list (g_fd g') = l ∧
    length l = length (fd_list (g_fd g)) ∧ take (Z.to_nat (fd_list_count (g_fd g) - 1)) l ≡ₚ l1 ++ l2 ∧
    (fd_obj_pool (g_fd g) = true → l ≡ₚ fd_list (g_fd g)).
Proof.
  intros Hnd Hc Hl Hu.
  assert (Hnd' : NoDup (take (Z.to_nat (fd_list_count (g_fd g))) (fd_list (g_fd g)))) by by rewrite Hu.
  assert (Hin : fd ∈ take (Z.to_nat (fd_list_count (g_fd g))) (fd_list (g_fd g))).
  { rewrite Hu, elem_of_app, elem_of_cons. tauto. }
  assert (Hpos : 0 < fd_list_count (g_fd g)).
  { destruct (decide (fd_list_count (g_fd g) = 0)) as [E0|]; [|lia]. rewrite E0 in Hin. by apply elem_of_nil in Hin. }
  destruct (array_remove (fd_list (g_fd g)) (Z.to_nat (fd_list_count (g_fd g))) fd (if fd_obj_pool (g_fd g) then fd else 0))
    as (i & y & a1 & a2 & E1 & E2 & E3 & E4 & Ha & Hp & Hlast & Hd); [lia|done|done|].
  rewrite Z2Nat.id in E2, E4 by lia.
  unfold fd_list_remove. rewrite (bind_done (gets g_fd) _ _ _ _ eq_refl).
  erewrite bind_done by (unfold lift; rewrite E1; reflexivity). cbv beta iota zeta.
  erewrite bind_done by (unfold lift; rewrite E2; reflexivity).
  erewrite bind_done by (unfold lift; rewrite E3; reflexivity).
  erewrite bind_done by (unfold lift; rewrite E4; reflexivity).
  erewrite bind_done by reflexivity.
  assert (Hp' : take (Z.to_nat (fd_list_count (g_fd g) - 1)) a2 ≡ₚ l1 ++ l2).
  { replace (Z.to_nat (fd_list_count (g_fd g) - 1)) with (Z.to_nat (fd_list_count (g_fd g)) - 1)%nat by lia.
    rewrite Hu, <-Permutation_middle in Hp. by apply Permutation_cons_inv in Hp. }
  assert (Hpool : fd_obj_pool (g_fd g) = true → a2 ≡ₚ fd_list (g_fd g)).
  { intros Epool. rewrite Epool in Hlast.
    rewrite <-(take_drop (Z.to_nat (fd_list_count (g_fd g))) (fd_list (g_fd g))).
    rewrite <-(take_drop (Z.to_nat (fd_list_count (g_fd g)) ) a2), Hd. f_equiv. rewrite <-Hp.
    replace (Z.to_nat (fd_list_count (g_fd g))) with (S (Z.to_nat (fd_list_count (g_fd g)) - 1)) at 1 by lia.
    rewrite (take_S_r _ _ _ Hlast). symmetry. apply Permutation_cons_append. }
  destruct (fd_obj_pool (g_fd g)) eqn:Epool; cbn [negb when]; do 2 eexists; (split; [reflexivity|]); cbn; rewrite ?Epool.
  - split_and!; try done. split; try done; [by left|by exists []].
  - split_and!; try done. split; cbn; try done; [by left| |by exists []].
    intros a Hna. rewrite lookup_delete_ne; [done|]. intros <-. apply Hna. right; right. apply fd_node_mod.
Qed.
Definition closes (f : fd_t) : bool := fd_fd f >=? 0.

(** The descriptor is closed, and the log, if it used it, looks for a new one. *)
Definition fd_release (f : fd_t) : DP unit :=
  if closes f then
    lfd ← log_get_fd;
    when (lfd =? fd_fd f) log_fd_reset;;
    sys (CClose (fd_fd f));;
    mret tt
  else mret tt.

Definition log_released (f : fd_t) (l : log_t) : log_t :=
  if closes f && (log_fd l =? fd_fd f)
  then set_log_blocked_next_attempt 0 (set_log_blocked true (set_log_fd (-1) l)) else l.

Lemma fd_release_ok f g : ∃ g', fd_release f g = Done (tt, g') ∧ fd_frame g g' ∧ g_fd g' = g_fd g ∧
  g_rb g' = g_rb g ∧ g_next g' = g_next g ∧ g_log g' = log_released f (g_log g) ∧
  ∃ tr, g_trace g' = tr ++ g_trace g ∧ map fst tr = (if closes f then [CClose (fd_fd f)] else []).
Proof.
  unfold fd_release, log_released. destruct (closes f); cbn [andb].
  - rewrite (bind_done log_get_fd _ _ _ _ eq_refl).
    destruct (log_fd (g_log g) =? fd_fd f); cbn [when].
    all: erewrite bind_done by reflexivity; erewrite bind_done by reflexivity; eexists; split; [reflexivity|].
    all: cbn; split_and!; try done; [split; try done; cbn; [by (right + left)|by eexists [_]]|by eexists [_]].
  - exists g. split_and!; try done. by exists [].
Qed.

Lemma fd_delete_ok g l1 fd l2 f : fd_ok g (l1 ++ fd :: l2) → fd_objs (g_fd g) !! fd = Some f →
  ∃ g', fd_delete fd g = Done (tt, g') ∧ fd_frame g g' ∧ fd_ok g' (l1 ++ l2) ∧
    (∀ p, p ∈ l1 ++ l2 → fd_objs (g_fd g') !! p = forget fd <$> fd_objs (g_fd g) !! p) ∧
    g_log g' = log_released f (g_log g) ∧
    (fd_obj_pool (g_fd g') = fd_obj_pool (g_fd g) ∧ (fd_obj_pool (g_fd g) = false → fd_objs (g_fd g') !! fd = None)) ∧
    ∃ tr, g_trace g' = tr ++ g_trace g ∧ map fst tr = (if closes f then [CClose (fd_fd f)] else []).
Proof.
  intros Hok Hf. pose proof (fd_names_nodup _ _ Hok) as Hnd.
  assert (Hfd : fd ∈ l1 ++ fd :: l2) by (rewrite elem_of_app, elem_of_cons; tauto).
  assert (Hin : ∀ p, p ∈ l1 ++ l2 → p ∈ l1 ++ fd :: l2 ∧ p ≠ fd).
  { intros p Hp. split; [rewrite elem_of_app, elem_of_cons; rewrite elem_of_app in Hp; tauto|]. intros ->.
    rewrite <-Permutation_middle in Hnd. by apply NoDup_cons in Hnd as [Hnd _]. }
  destruct (disassociate_ok g _ fd f Hok Hfd Hf) as (objs & E1 & Hfd1 & Hobjs).
  set (g1 := on_fd (set_fd_objs objs) g) in *.
  destruct (fd_release_ok f g1) as (g2 & E2 & F2 & Efd2 & Erb2 & Enx2 & Elog2 & tr & Etr2 & Hcalls).
  assert (Ht2 : table_at lex_cmp fd_by_name_index fd_node (fd_key objs) (g_rb g2) (l1 ++ fd :: l2)).
  { rewrite Erb2. eapply table_ext; [|exact (fo_table _ _ Hok)]. intros o Ho.
    destruct (decide (o = fd)) as [->|Hne]; unfold fd_key; [by rewrite Hf, Hfd1|].
    rewrite Hobjs by done. destruct (fd_objs (g_fd g) !! o); [|done]. cbn. by rewrite forget_name. }
  destruct (table_prune _ _ _ _ _ _ _ _ Ht2) as (h3 & n & E3 & Ht3 & Hn & _ & _ & Hk3).
  set (g3 := set_g_rb h3 g2).
  destruct (fd_list_remove_ok g3 l1 fd l2) as (g4 & l & E4 & F4 & Elog4 & Etr4 & Enx4 & Erb4 & Eobj4 & Ep4 & Elim4 & Ecnt4 & Hpos & El4 & Hlen & Htake & Hpool);
    [done|unfold g3; cbn; rewrite Efd2; apply Hok..|].
  assert (F3 : fd_frame g2 g3).
  { split; try done; [by left| |by exists []]. intros a Ha. cbn. apply Hk3. rewrite elem_of_list_to_set, elem_of_cons.
    intros [->|Hc]; apply Ha; [by left|by eapply fd_cells_sep]. }
  cbn [g3 set_g_rb g_fd g_rb g_trace g_log g_next] in *. rewrite Efd2 in *. cbn [g1 on_fd set_g_fd g_fd set_fd_objs fd_objs fd_obj_pool fd_list_count fd_list_limit fd_list] in *.
  exists g4. split_and!.
  - unfold fd_delete. erewrite bind_done by (unfold fd_obj; rewrite Hf; reflexivity).
    erewrite bind_done by exact E1. erewrite bind_done by exact E2.
    erewrite bind_done by (apply rb_done; exact E3). exact E4.
  - etransitivity; [|etransitivity; [exact F2|etransitivity; [exact F3|exact F4]]].
    split; try done; [by left|by exists []].
  - split.
    + rewrite Eobj4, Erb4. destruct (fd_obj_pool (g_fd g)); [done|].
      eapply table_ext; [|eapply (table_frame _ _ _ _ {[fd_node fd]}); [exact Ht3| | |]].
      * intros o Ho. unfold fd_key. rewrite lookup_delete_ne; [done|]. destruct (Hin o Ho). congruence.
      * intros a Ha. rewrite lookup_delete_ne; [done|]. rewrite elem_of_singleton in Ha. congruence.
      * intros a Ha. rewrite elem_of_singleton. intros ->. unfold table_cells in Ha.
        destruct (fd_node_ne fd) as (N1 & N2 & N3). apply elem_of_cons in Ha as [Ha|(o & Eo & Ho)%list_elem_of_fmap]; [done|].
        apply fd_node_inj in Eo as <-. by destruct (Hin fd Ho).
      * destruct (table_sent _ _ _ _ _ _ Ht3) as [q Hq]. exists q. rewrite lookup_delete_ne; [done|].
        apply fd_node_ne.
    + rewrite Ecnt4, Elim4. pose proof (fo_count _ _ Hok). lia.
    + rewrite El4, Elim4, Hlen. exact (fo_len _ _ Hok).
    + by rewrite Ecnt4, El4.
    + intros o Ho. destruct (Hin o Ho) as [Ho' Hne]. destruct (fo_objs _ _ Hok o Ho') as (fo & Efo & Hnm & Hpeer).
      assert (Hlook : ∀ p, p ∈ l1 ++ l2 → fd_objs (g_fd g4) !! p = forget fd <$> fd_objs (g_fd g) !! p).
      { intros p Hp. destruct (Hin p Hp) as [Hp' Hpne]. rewrite <-Hobjs, Eobj4 by done.
        case_match; [done|]. by rewrite lookup_delete_ne by done. }
      exists (forget fd fo). rewrite Hlook, Efo by done. split_and!; [done|by rewrite forget_name|].
      intros Hpipe. rewrite forget_pipe in Hpipe.
      destruct (Hpeer Hpipe) as [Ea|[Ea|(p & fp & Ea & Hp & Hpne & Efp & P1 & P2)]].
      * left. unfold forget. by rewrite Ea.
      * right; left. unfold forget. rewrite Ea. by destruct (_ && _).
      * destruct (decide (p = fd)) as [->|Hpfd].
        { right; left. unfold forget. by rewrite Ea, Hpipe, Z.eqb_refl. }
        right; right. exists p, (forget fd fp).
        assert (Hp2 : p ∈ l1 ++ l2) by (rewrite elem_of_app, elem_of_cons in Hp; rewrite elem_of_app; tauto).
        rewrite Hlook, Efp, forget_pipe by done. split_and!; [|done|done|done|done|].
        -- rewrite forget_other; [done|]. congruence.
        -- rewrite forget_other; [done|]. congruence.
    + intros o Ho. destruct (Hin o Ho) as [Ho' _]. rewrite Enx4, Enx2. exact (fo_range _ _ Hok o Ho').
    + rewrite Ep4, El4. intros Epool. destruct (fo_pool _ _ Hok Epool) as [N1 N2]. rewrite (Hpool Epool), Enx4, Enx2.
      split; [done|]. intros o Ho. apply N2. by rewrite <-(Hpool Epool).
    + rewrite Enx4, Enx2. exact (fo_next _ _ Hok).
  - intros p Hp. destruct (Hin p Hp) as [Hp' Hpne]. rewrite <-Hobjs, Eobj4 by done.
    case_match; [done|]. by rewrite lookup_delete_ne by done.
  - by rewrite Elog4, Elog2.
  - done.
  - intros Ep. rewrite Eobj4, Ep. apply lookup_delete_eq.
  - exists tr. by rewrite Etr4, Etr2.
Qed.

(** ** Replacing by name *)

(** Each name is used once. *)
Definition fd_unique (g : G) (names : list Z) : Prop := NoDup (fd_key (fd_objs (g_fd g)) <$> names).

Lemma fd_by_name_found g names name o : fd_ok g names → fd_unique g names → seg_wf name → seg_len name < NAME_BUF_SIZE →
  o ∈ names → fd_key (fd_objs (g_fd g)) o = seg_view name → fd_by_name name g = Done (o, g).
Proof.
  intros Hok Hu Hw Hlen Ho Hk. destruct (fd_by_name_ok g names name Hok Hw Hlen) as (r & E1 & [(Hr & _ & Hkr)|(_ & Hno)]).
  - rewrite E1. repeat f_equal. apply list_elem_of_lookup in Hr as [i Hi], Ho as [j Hj].
    assert (i = j) as ->; [|congruence].
    eapply (NoDup_lookup _ _ _ (seg_view name) Hu); rewrite list_lookup_fmap, ?Hi, ?Hj; cbn; congruence.
  - by destruct (Hno o Ho).
Qed.

Lemma fd_by_name_absent g names name : fd_ok g names → seg_wf name → seg_len name < NAME_BUF_SIZE →
  (∀ o, o ∈ names → fd_key (fd_objs (g_fd g)) o ≠ seg_view name) → fd_by_name name g = Done (0, g).
Proof.
  intros Hok Hw Hlen Hno. destruct (fd_by_name_ok g names name Hok Hw Hlen) as (r & E1 & [(Hr & _ & Hk)|(-> & _)]); [|done].
  by destruct (Hno r Hr).
Qed.

Lemma forget_0 f : forget 0 f = f.
Proof.
  unfold forget. destruct f as [sz fl fd [|p|p] nm]; cbn; try done.
  destruct (fl_pipe fl), (Z.eqb_spec p 0) as [->|]; done.
Qed.

(** [if (old) fd_delete(old);] *)
Lemma fd_drop_ok g names old : fd_ok g names → (old = 0 ∨ old ∈ names) →
  ∃ g' names', when (negb (old =? 0)) (fd_delete old) g = Done (tt, g') ∧ fd_frame g g' ∧ fd_ok g' names' ∧
    names ≡ₚ (if old =? 0 then [] else [old]) ++ names' ∧
    (∀ p, p ∈ names' → fd_objs (g_fd g') !! p = forget old <$> fd_objs (g_fd g) !! p) ∧
    ∃ tr f, g_trace g' = tr ++ g_trace g ∧ (old ≠ 0 → fd_objs (g_fd g) !! old = Some f) ∧
      map fst tr = (if negb (old =? 0) && closes f then [CClose (fd_fd f)] else []).
Proof.
  intros Hok Hold. destruct (Z.eqb_spec old 0) as [->|Hne]; cbn [negb when andb].
  - exists g, names. split_and!; [done|reflexivity|done|done| |].
    + intros p _. destruct (fd_objs (g_fd g) !! p); [|done]. cbn. by rewrite forget_0.
    + exists [], (fd_fresh 0 []). done.
  - destruct Hold as [|Hold]; [done|]. destruct (fo_objs _ _ Hok old Hold) as (f & Hf & _).
    apply list_elem_of_split in Hold as (l1 & l2 & ->).
    destruct (fd_delete_ok g l1 old l2 f Hok Hf) as (g' & E1 & F1 & K1 & Hobjs & _ & _ & tr & Etr & Hcalls).
    exists g', (l1 ++ l2). split_and!; [done|done|done| |done|by exists tr, f].
    by rewrite <-Permutation_middle.
Qed.

(** An object is changed in place; its name stays. *)
Lemma fd_ok_update g names o f f' : fd_ok g names → o ∈ names → fd_objs (g_fd g) !! o = Some f → fd_name f' = fd_name f →
  (∀ p fp, p ∈ names → <[o := f']> (fd_objs (g_fd g)) !! p = Some fp → peer_ok (<[o := f']> (fd_objs (g_fd g))) names p fp) →
  fd_ok (on_fd (set_fd_objs (<[o := f']> (fd_objs (g_fd g)))) g) names.
Proof.
  intros Hok Ho Hf Hname Hpeers. destruct Hok as [Ht Hc Hl Hu Hobjs Hr Hp Hn]. split; try done.
  - cbn. eapply table_ext; [|exact Ht]. intros p Hp'. unfold fd_key.
    destruct (decide (p = o)) as [->|Hne]; [by rewrite lookup_insert_eq, Hf, Hname|by rewrite lookup_insert_ne by done].
  - intros p Hp'. destruct (Hobjs p Hp') as (fp & Efp & Hlen & _). cbn.
    destruct (decide (p = o)) as [->|Hne].
    + exists f'. split_and!; [by rewrite lookup_insert_eq|by simplify_eq; rewrite Hname|].
      apply Hpeers; [done|by rewrite lookup_insert_eq].
    + exists fp. assert (E : <[o := f']> (fd_objs (g_fd g)) !! p = Some fp) by by rewrite lookup_insert_ne by done.
      split_and!; [done|done|by apply Hpeers].
Qed.

(** The same for an object that is not a pipe, before and after. *)
Lemma fd_ok_update_file g names o f f' : fd_ok g names → o ∈ names → fd_objs (g_fd g) !! o = Some f → fd_name f' = fd_name f →
  fl_pipe (fd_flags f) = false → fl_pipe (fd_flags f') = false →
  fd_ok (on_fd (set_fd_objs (<[o := f']> (fd_objs (g_fd g)))) g) names.
Proof.
  intros Hok Ho Hf Hname P1 P2. eapply fd_ok_update; [done..|]. intros p fp Hp Efp Hpipe.
  destruct (decide (p = o)) as [->|Hne]; [rewrite lookup_insert_eq in Efp; congruence|].
  rewrite lookup_insert_ne in Efp by done. destruct (fo_objs _ _ Hok p Hp) as (fp' & Efp' & _ & Hpeer). simplify_eq.
  destruct (Hpeer Hpipe) as [?|[?|(q & fq & Ea & Hq & Hqp & Efq & Q1 & Q2)]]; [auto|auto|].
  right; right. exists q, fq. rewrite lookup_insert_ne by congruence. done.
Qed.

Lemma fd_by_name_agree g g' names names' k p : fd_ok g names → fd_ok g' names' → fd_unique g' names' →
  seg_wf k → seg_len k < NAME_BUF_SIZE →
  (∀ q, q ∈ names → fd_key (fd_objs (g_fd g)) q = seg_view k → q ∈ names' ∧ fd_key (fd_objs (g_fd g')) q = seg_view k) →
  (∀ q, q ∈ names' → fd_key (fd_objs (g_fd g')) q = seg_view k → q ∈ names ∧ fd_key (fd_objs (g_fd g)) q = seg_view k) →
  fd_by_name k g = Done (p, g) → fd_by_name k g' = Done (p, g').
Proof.
  intros Hok Hok' Hu Hw Hlen H1 H2 E1. destruct (fd_by_name_ok g names k Hok Hw Hlen) as (r & E2 & Hr).
  rewrite E1 in E2. injection E2 as <-. destruct Hr as [(Hr & _ & Hk)|(-> & Hno)].
  - destruct (H1 p Hr Hk). by eapply fd_by_name_found.
  - eapply fd_by_name_absent; [done..|]. intros q Hq Hkq. destruct (H2 q Hq Hkq) as [Hq1 Hq2]. by apply (Hno q).
Qed.

Lemma fd_is_const_ok g names o : fd_ok g names → (o = 0 ∨ o ∈ names) →
  fd_is_const o g = Done (match fd_objs (g_fd g) !! o with
                          | Some f => negb (o =? 0) && fl_is_const (fd_flags f) | None => false end, g).
Proof.
  intros Hok Ho. unfold fd_is_const. destruct (Z.eqb_spec o 0) as [->|Hne].
  - by case_match.
  - destruct Ho as [|Ho]; [done|]. destruct (fo_objs _ _ Hok o Ho) as (f & Hf & _).
    erewrite bind_done by (unfold fd_obj; rewrite Hf; reflexivity). by rewrite Hf.
Qed.

(** The new object takes the name over from [old], if there was one. *)
Lemma takeover_keys (key key' : Z → list Z) names old name o names' : NoDup (key <$> names) →
  (old = 0 ∧ (∀ p, p ∈ names → key p ≠ name) ∨ old ∈ names ∧ old ≠ 0 ∧ key old = name) →
  key' o = name → (∀ p, p ∈ names → key' p = key p) →
  o :: names ≡ₚ (if old =? 0 then [] else [old]) ++ names' →
  NoDup (key' <$> names') ∧ o ∈ names' ∧
  (∀ q, q ∈ names' → q = o ∨ q ∈ names ∧ key' q ≠ name) ∧ (∀ q, q ∈ names → key' q ≠ name → q ∈ names').
Proof.
  intros Hu Hold Hko Hk Hperm.
  assert (Hrest : ∃ rest, names' ≡ₚ o :: rest ∧ names ≡ₚ (if old =? 0 then [] else [old]) ++ rest).
  { destruct (Z.eqb_spec old 0) as [E0|E0]; cbn in *; [by exists names|].
    destruct Hold as [[]|(Hold & _)]; [done|]. apply list_elem_of_split in Hold as (l1 & l2 & ->).
    exists (l1 ++ l2). split; [|by rewrite <-Permutation_middle].
    rewrite <-Permutation_middle, (Permutation_swap old o) in Hperm. symmetry. by apply Permutation_cons_inv in Hperm. }
  destruct Hrest as (rest & P1 & P2).
  assert (Hsub : ∀ q, q ∈ rest → q ∈ names) by (intros q Hq; rewrite P2, elem_of_app; auto).
  assert (Hne : ∀ q, q ∈ rest → key' q ≠ name).
  { intros q Hq. rewrite Hk by auto. destruct Hold as [[-> Hno]|(Hold & Hn0 & Hkold)]; [by apply Hno, Hsub|].
    rewrite (proj2 (Z.eqb_neq _ _) Hn0) in P2. rewrite P2 in Hu. cbn in Hu. apply NoDup_cons in Hu as [Hu _].
    intros E1. apply Hu. rewrite Hkold, <-E1. by apply list_elem_of_fmap_2. }
  assert (HndR : NoDup (key' <$> rest)).
  { rewrite P2, fmap_app in Hu. apply NoDup_app in Hu as (_ & _ & Hu).
    erewrite list_fmap_ext; [exact Hu|]. intros i q Hq. apply Hk, Hsub. by apply list_elem_of_lookup_2 in Hq. }
  split_and!.
  - rewrite P1. cbn. constructor; [|done]. rewrite Hko. intros (q & Eq & Hq)%list_elem_of_fmap. by apply (Hne q Hq).
  - rewrite P1. by left.
  - intros q Hq. rewrite P1 in Hq. apply elem_of_cons in Hq as [->|Hq]; [by left|right]. auto.
  - intros q Hq Hkq. rewrite P1. right. rewrite P2 in Hq. destruct (Z.eqb_spec old 0); [done|].
    apply elem_of_cons in Hq as [->|Hq]; [|done]. destruct Hold as [[]|(Hold & _ & Hkold)]; [done|].
    rewrite Hk in Hkq by done. done.
Qed.

Lemma upd_fd_eq o u g f : fd_objs (g_fd g) !! o = Some f →
  upd_fd o u g = Done (tt, on_fd (set_fd_objs (<[o := u f]> (fd_objs (g_fd g)))) g).
Proof. intros Hf. unfold upd_fd. by rewrite Hf. Qed.

(** The assignments of [fd_new_file] to the new object. *)
Definition file_obj (fdnum : Z) (flags : fd_flags_t) (name path : strseg_t) (f : fd_t) : fd_t :=
  mkFd (fd_size f) flags fdnum
    (attr_path (append_elipses (fd_size f - sizeof_fd_t - seg_len name - 1) (seg_view path))) (fd_name f).

Lemma file_assign_ok o fdnum flags name path g f : fd_objs (g_fd g) !! o = Some f → seg_wf path →
  (upd_fd o (set_fd_fd fdnum);;
   upd_fd o (set_fd_flags flags);;
   f ← fd_obj o;
   p ← lift (seg_str path);
   upd_fd o (set_fd_attr (attr_path (append_elipses (fd_size f - sizeof_fd_t - seg_len name - 1) p)));;
   mret o) g =
  Done (o, on_fd (set_fd_objs (<[o := file_obj fdnum flags name path f]> (fd_objs (g_fd g)))) g).
Proof.
  intros Hf Hw. erewrite bind_done by by apply upd_fd_eq.
  erewrite bind_done by (apply upd_fd_eq; apply lookup_insert_eq). cbn [on_fd set_g_fd g_fd set_fd_objs fd_objs].
  erewrite bind_done by (unfold fd_obj; cbn; rewrite lookup_insert_eq; reflexivity).
  erewrite bind_done by (unfold lift; rewrite seg_str_view by done; reflexivity).
  erewrite bind_done by (apply upd_fd_eq; apply lookup_insert_eq). cbn.
  unfold mret, M_ret. by rewrite !insert_insert_eq.
Qed.

Lemma fd_created_keys g g' names size name o : fd_ok g names → fd_created g g' names size name o →
  ∃ names' sz, fd_ok g' names' ∧ names' ≡ₚ o :: names ∧ o ∉ names ∧ o ≠ 0 ∧
    fd_objs (g_fd g') !! o = Some (fd_fresh sz (seg_view name)) ∧
    (∀ p, p ∈ names → fd_objs (g_fd g') !! p = fd_objs (g_fd g) !! p) ∧
    (fd_obj_pool (g_fd g) = false → sz = size).
Proof.
  intros Hok (Ho & Hne & sz & l1 & l2 & -> & Hok' & Hobjs & _ & Hsz). exists (l1 ++ o :: l2), sz. rewrite Hobjs.
  split_and!; [done|by rewrite <-Permutation_middle|done|done|by rewrite lookup_insert_eq| |done].
  intros p Hp. rewrite lookup_insert_ne; [done|]. by intros ->.
Qed.

(** The objects in use. *)
Definition is_fd (g : G) (o : Z) : Prop := o ∈ take (Z.to_nat (fd_list_count (g_fd g))) (fd_list (g_fd g)).

Lemma is_fd_names g names o : fd_ok g names → is_fd g o ↔ o ∈ names.
Proof. intros Hok. unfold is_fd. by rewrite (fo_used _ _ Hok). Qed.

(** The same descriptor with the same flags, but maybe without its peer. *)
Definition looks_like (f f' : fd_t) : Prop :=
  fd_name f' = fd_name f ∧ fd_flags f' = fd_flags f ∧ fd_fd f' = fd_fd f ∧
  (fd_attr f' = fd_attr f ∨ fl_pipe (fd_flags f) = true ∧ fd_attr f' = attr_peer 0).

Lemma looks_like_refl f : looks_like f f.
Proof. split_and!; auto. Qed.

Lemma looks_like_trans f1 f2 f3 : looks_like f1 f2 → looks_like f2 f3 → looks_like f1 f3.
Proof.
  intros (N1 & F1 & D1 & A1) (N2 & F2 & D2 & A2). split_and!; [congruence..|].
  destruct A2 as [->|[P2 ->]]; [done|]. right. split; [congruence|done].
Qed.

Lemma forget_looks fd f : looks_like f (forget fd f).
Proof.
  unfold forget. destruct (fd_attr f) as [|p|q] eqn:E; [apply looks_like_refl..|].
  destruct (fl_pipe (fd_flags f)) eqn:P; [|apply looks_like_refl]. destruct (q =? fd); [|apply looks_like_refl].
  split_and!; [done..|]. by right.
Qed.

(** Every object of [g'] but the new ones was there in [g]. *)
Definition others_kept (g g' : G) (names' new : list Z) : Prop := ∀ p, p ∈ names' →
  p ∈ new ∨ is_fd g p ∧ ∃ f f', fd_objs (g_fd g) !! p = Some f ∧ fd_objs (g_fd g') !! p = Some f' ∧ looks_like f f'.

Lemma others_kept_forget g g' names names' fd new : fd_ok g names →
  (∀ p, p ∈ names' → p ∈ new ∨ p ∈ names ∧ fd_objs (g_fd g') !! p = forget fd <$> fd_objs (g_fd g) !! p) →
  others_kept g g' names' new.
Proof.
  intros Hok Hp p Hin. destruct (Hp p Hin) as [|[Hpn E]]; [by left|]. right. split; [by apply (is_fd_names _ _ _ Hok)|].
  destruct (fo_objs _ _ Hok p Hpn) as (f & Ef & _). rewrite Ef in E. exists f, (forget fd f). split_and!; [done|done|apply forget_looks].
Qed.

(** What [fd_new_file] leaves behind. *)
Definition file_made (g g' : G) (names : list Z) (name path : strseg_t) fdnum flags (o : Z) : Prop :=
  ∃ names', fd_ok g' names' ∧ fd_unique g' names' ∧ fd_by_name name g' = Done (o, g') ∧
    (∃ f n, fd_objs (g_fd g') !! o = Some f ∧ fd_fd f = fdnum ∧ fd_flags f = flags ∧
       fd_attr f = attr_path (append_elipses n (seg_view path)) ∧
       (fd_obj_pool (g_fd g) = false → fd_attr f = attr_path (seg_view path))) ∧
    others_kept g g' names' [o] ∧
    ∀ k p, seg_wf k → seg_len k < NAME_BUF_SIZE → seg_view k ≠ seg_view name →
      fd_by_name k g = Done (p, g) → fd_by_name k g' = Done (p, g').

Lemma fd_new_file_ok g names name fdnum flags path : fd_ok g names → fd_unique g names →
  seg_wf name → seg_len name < NAME_BUF_SIZE → seg_wf path → fl_pipe flags = false →
  ∃ o g', fd_new_file name fdnum flags path g = Done (o, g') ∧ fd_frame g g' ∧
    ((o = 0 ∧ fd_ok g' names ∧ fd_objs (g_fd g') = fd_objs (g_fd g) ∧ (const_name g name ∨ out_of_room g g')) ∨
     (o ≠ 0 ∧ file_made g g' names name path fdnum flags o)).
Proof.
  intros Hok Hu Hw Hlen Hwp Hpipe. unfold fd_new_file.
  destruct (fd_by_name_ok g names name Hok Hw Hlen) as (old & E1 & Hold). rewrite (bind_done _ _ _ _ _ E1).
  assert (Hold' : old = 0 ∨ old ∈ names) by tauto.
  rewrite (bind_done _ _ _ _ _ (fd_is_const_ok g names old Hok Hold')).
  pose proof (fd_is_const_ok g names old Hok Hold') as Ec.
  destruct (match _ with Some _ => _ | None => _ end) eqn:Em.
  { exists 0, g. split_and!; [done|reflexivity|left; split_and!; [done|done|done|left]]. exists old. by rewrite Ec. }
  pose proof (seg_view_length path Hwp) as Lp. pose proof (seg_view_length name Hw) as Ln.
  destruct (fd_new_ok g names (sizeof_fd_t + seg_len name + 1 + seg_len path + 1) name) as
    (o & g1 & E2 & F1 & _ & Epool & [(-> & K1 & Hobjs1 & Hno)|Hcr]); [done|done|done|lia|..];
    rewrite (bind_done _ _ _ _ _ E2); [exists 0, g1; split_and!; [done|done|by left; auto]|].
  destruct (fd_created_keys _ _ _ _ _ _ Hok Hcr) as (names1 & sz & K1 & P1 & Ho & Hne & Hf1 & Hobjs1 & Hsz).
  rewrite (proj2 (Z.eqb_neq _ _)) by done.
  destruct (fd_drop_ok g1 names1 old K1) as (g2 & names2 & E3 & F2 & K2 & P2 & Hobjs2 & _).
  { destruct Hold' as [|Hin]; [by left|right]. rewrite P1. by right. }
  rewrite (bind_done _ _ _ _ _ E3).
  assert (Hkeys1 : ∀ p, p ∈ names → fd_key (fd_objs (g_fd g1)) p = fd_key (fd_objs (g_fd g)) p).
  { intros p Hp. unfold fd_key. by rewrite Hobjs1. }
  destruct (takeover_keys (fd_key (fd_objs (g_fd g))) (fd_key (fd_objs (g_fd g1))) names old (seg_view name) o names2 Hu) as (U1 & U2 & U3 & U4).
  { destruct Hold as [(? & ? & ?)|[? ?]]; [by right|by left]. }
  { unfold fd_key. by rewrite Hf1. } { done. } { by rewrite <-P1, P2. }
  assert (Hf2 : fd_objs (g_fd g2) !! o = Some (fd_fresh sz (seg_view name))) by (rewrite Hobjs2, Hf1 by done; done).
  set (F := file_obj fdnum flags name path (fd_fresh sz (seg_view name))).
  set (g3 := on_fd (set_fd_objs (<[o := F]> (fd_objs (g_fd g2)))) g2).
  assert (Hkeys3 : ∀ p, p ∈ names2 → fd_key (fd_objs (g_fd g3)) p = fd_key (fd_objs (g_fd g1)) p).
  { intros p Hp. unfold fd_key, g3. cbn. destruct (decide (p = o)) as [->|Hpo]; [by rewrite lookup_insert_eq, Hf1|].
    rewrite lookup_insert_ne, Hobjs2 by done. destruct (fd_objs (g_fd g1) !! p); [|done]. cbn. by rewrite forget_name. }
  assert (K3 : fd_ok g3 names2) by (eapply fd_ok_update_file; try done).
  assert (U5 : fd_unique g3 names2).
  { unfold fd_unique. erewrite list_fmap_ext; [exact U1|]. intros i p Hp. apply Hkeys3. by apply list_elem_of_lookup_2 in Hp. }
  exists o, g3. split; [by rewrite (file_assign_ok o fdnum flags name path g2 _ Hf2 Hwp)|].
  split; [etransitivity; [exact F1|]; etransitivity; [exact F2|]; split; try done; [by left|by exists []]|].
  right. split; [done|]. exists names2. split_and!; [done|done| | | |].
  - eapply fd_by_name_found; [done..|]. rewrite Hkeys3 by done. unfold fd_key. by rewrite Hf1.
  - exists F. eexists. split_and!; [by apply lookup_insert_eq|done|done|reflexivity|].
    intros Hp. cbn. rewrite Hsz by done. unfold append_elipses. f_equal.
    destruct (Z.ltb_spec (Z.of_nat (length (seg_view path))) (sizeof_fd_t + seg_len name + 1 + seg_len path + 1 - sizeof_fd_t - seg_len name - 1)); [done|lia].
  - apply (others_kept_forget g g3 names names2 old); [done|]. intros p Hp. destruct (U3 p Hp) as [->|[Hp' _]]; [left; by left|].
    right. split; [done|]. cbn. rewrite lookup_insert_ne by (by intros ->). by rewrite Hobjs2, Hobjs1.
  - intros k p Hwk Hlk Hk. eapply fd_by_name_agree; [done|exact K3|done|done|done| |].
    + intros q Hq Hkq. assert (q ∈ names2) by (apply U4; [done|]; rewrite Hkeys1; [congruence|done]).
      split; [done|]. by rewrite Hkeys3, Hkeys1.
    + intros q Hq Hkq. rewrite Hkeys3 in Hkq by done. destruct (U3 q Hq) as [->|[Hq' _]].
      * unfold fd_key in Hkq. rewrite Hf1 in Hkq. cbn in Hkq. congruence.
      * split; [done|]. by rewrite <-Hkeys1.
Qed.

(** ** Pipes *)

Lemma fd_ok_objs g names objs : fd_ok g names →
  (∀ p, p ∈ names → ∃ f f', fd_objs (g_fd g) !! p = Some f ∧ objs !! p = Some f' ∧ fd_name f' = fd_name f ∧
     peer_ok objs names p f') →
  fd_ok (on_fd (set_fd_objs objs) g) names.
Proof.
  intros [Ht Hc Hl Hu Hobjs Hr Hp Hn] Hnew. split; try done.
  - cbn. eapply table_ext; [|exact Ht]. intros p Hp'. unfold fd_key.
    destruct (Hnew p Hp') as (f & f' & -> & -> & -> & _). done.
  - intros p Hp'. destruct (Hnew p Hp') as (f & f' & Ef & Ef' & En & Hpeer). exists f'. cbn. split_and!; [done| |done].
    destruct (Hobjs p Hp') as (f0 & Ef0 & Hlen & _). simplify_eq. by rewrite En.
Qed.

(** The two ends as [fd_new_pipe] leaves them. *)
Definition pipe_end1 (flags : fd_flags_t) (num peer : Z) (f : fd_t) : fd_t :=
  mkFd (fd_size f) (set_fl_read (fl_socket flags) (set_fl_write (fl_socket flags) (set_fl_pipe true flags)))
    num (attr_peer peer) (fd_name f).
Definition pipe_end2 (flags : fd_flags_t) (num peer : Z) (f : fd_t) : fd_t :=
  mkFd (fd_size f) (set_fl_write true (set_fl_pipe true flags)) num (attr_peer peer) (fd_name f).

Lemma pipe_assign_ok flags n1 n2 f1 f2 g o1 o2 : f1 ≠ f2 →
  fd_objs (g_fd g) !! f1 = Some o1 → fd_objs (g_fd g) !! f2 = Some o2 →
  (upd_fd f1 (set_fd_flags flags);;
   upd_fd f1 (λ f, set_fd_flags (set_fl_pipe true (fd_flags f)) f);;
   upd_fd f1 (λ f, set_fd_flags (set_fl_read true (fd_flags f)) f);;
   upd_fd f1 (λ f, set_fd_flags (set_fl_write (fl_socket flags) (fd_flags f)) f);;
   upd_fd f1 (set_fd_fd n1);;
   upd_fd f1 (set_fd_attr (attr_peer f2));;
   upd_fd f2 (set_fd_flags flags);;
   upd_fd f2 (λ f, set_fd_flags (set_fl_pipe true (fd_flags f)) f);;
   upd_fd f1 (λ f, set_fd_flags (set_fl_read (fl_socket flags) (fd_flags f)) f);;
   upd_fd f2 (λ f, set_fd_flags (set_fl_write true (fd_flags f)) f);;
   upd_fd f2 (set_fd_fd n2);;
   upd_fd f2 (set_fd_attr (attr_peer f1));;
   mret f1) g =
  Done (f1, on_fd (set_fd_objs (<[f2 := pipe_end2 flags n2 f1 o2]> (<[f1 := pipe_end1 flags n1 f2 o1]> (fd_objs (g_fd g))))) g).
Proof.
  intros Hne H1 H2.
  assert (Hstep : ∀ (m : DP Z) p u objs f, objs !! p = Some f →
    (upd_fd p u;; m) (on_fd (set_fd_objs objs) g) = m (on_fd (set_fd_objs (<[p := u f]> objs)) g)).
  { intros m p u objs f Hf. by erewrite bind_done by by apply upd_fd_eq. }
  replace g with (on_fd (set_fd_objs (fd_objs (g_fd g))) g) at 1 by (by destruct g as [? ? ? ? []]).
  rewrite (Hstep _ _ _ _ _ H1). do 5 rewrite (Hstep _ _ _ _ _ (lookup_insert_eq _ _ _)). rewrite !insert_insert_eq.
  erewrite Hstep by (rewrite lookup_insert_ne by done; exact H2). rewrite (Hstep _ _ _ _ _ (lookup_insert_eq _ _ _)).
  erewrite Hstep by (do 2 rewrite lookup_insert_ne by done; apply lookup_insert_eq).
  rewrite !insert_insert_eq, (insert_insert_ne _ f1 f2) by done. rewrite insert_insert_eq.
  do 3 rewrite (Hstep _ _ _ _ _ (lookup_insert_eq _ _ _)). rewrite !insert_insert_eq. unfold mret, M_ret.
  by destruct flags.
Qed.

(** The lookups of the names in [P] give the same objects. *)
Definition lookups_kept (g g' : G) (P : list Z → Prop) : Prop :=
  ∀ k p, seg_wf k → seg_len k < NAME_BUF_SIZE → P (seg_view k) →
    fd_by_name k g = Done (p, g) → fd_by_name k g' = Done (p, g').

Definition pipe_made (g g' : G) (name1 name2 : strseg_t) n1 n2 flags (f1 : Z) : Prop :=
  ∃ names' f2 o1 o2, fd_ok g' names' ∧ fd_unique g' names' ∧ f1 ≠ f2 ∧ f2 ≠ 0 ∧
    fd_by_name name1 g' = Done (f1, g') ∧ fd_by_name name2 g' = Done (f2, g') ∧
    fd_objs (g_fd g') !! f1 = Some (pipe_end1 flags n1 f2 o1) ∧ fd_objs (g_fd g') !! f2 = Some (pipe_end2 flags n2 f1 o2) ∧
    others_kept g g' names' [f1; f2] ∧
    lookups_kept g g' (λ k, k ≠ seg_view name1 ∧ k ≠ seg_view name2).

(** The call failed: every name still means what it meant. *)
Definition nothing_made (g g' : G) : Prop :=
  ∃ names', fd_ok g' names' ∧ fd_unique g' names' ∧ others_kept g g' names' [] ∧ lookups_kept g g' (λ _, True).

Lemma lookups_kept_same g g' names : fd_ok g names → fd_unique g names → fd_ok g' names →
  fd_objs (g_fd g') = fd_objs (g_fd g) → nothing_made g g'.
Proof.
  intros Hok Hu Hok' Hobjs. assert (Hu' : fd_unique g' names) by (unfold fd_unique; by rewrite Hobjs).
  exists names. split_and!; [done|done| |].
  - intros p Hp. right. split; [by apply (is_fd_names _ _ _ Hok)|]. destruct (fo_objs _ _ Hok p Hp) as (f & Ef & _).
    exists f, f. rewrite Hobjs. split_and!; [done|done|apply looks_like_refl].
  - intros k p Hw Hlen _. eapply fd_by_name_agree; [done..|idtac|]; rewrite Hobjs; auto.
Qed.

(** Deleting the object just created brings the table back. *)
Lemma fd_new_undo g g1 names names1 f o : fd_ok g names → fd_unique g names → fd_ok g1 names1 → names1 ≡ₚ o :: names →
  (∀ p, p ∈ names → fd_objs (g_fd g1) !! p = fd_objs (g_fd g) !! p) → fd_objs (g_fd g1) !! o = Some f →
  ∃ g2, fd_delete o g1 = Done (tt, g2) ∧ fd_frame g1 g2 ∧ nothing_made g g2.
Proof.
  intros Hok Hu K1 P1 Hobjs Hf. assert (Ho : o ∈ names1) by (rewrite P1; by left).
  apply list_elem_of_split in Ho as (l1 & l2 & ->). rewrite <-Permutation_middle in P1. apply Permutation_cons_inv in P1.
  destruct (fd_delete_ok g1 l1 o l2 f K1 Hf) as (g2 & E2 & F2 & K2 & Hobjs2 & _).
  exists g2. split_and!; [done|done|]. exists (l1 ++ l2).
  assert (Hkeys : ∀ p, p ∈ l1 ++ l2 → fd_key (fd_objs (g_fd g2)) p = fd_key (fd_objs (g_fd g)) p).
  { intros p Hp. unfold fd_key. rewrite Hobjs2, Hobjs by (done || by rewrite <-P1).
    destruct (fd_objs (g_fd g) !! p); [|done]. cbn. by rewrite forget_name. }
  assert (Hu2 : fd_unique g2 (l1 ++ l2)).
  { unfold fd_unique in *. rewrite <-P1 in Hu. erewrite list_fmap_ext; [exact Hu|].
    intros i p Hp. apply Hkeys. by apply list_elem_of_lookup_2 in Hp. }
  split_and!; [done|done| |].
  { apply (others_kept_forget g g2 names _ o); [done|]. intros p Hp. right. rewrite <-P1. split; [done|].
    rewrite Hobjs2, Hobjs by (done || by rewrite <-P1). done. }
  intros k p Hw Hlen _. eapply fd_by_name_agree; [done..| |]; intros q Hq Hkq.
  - rewrite <-P1 in Hq. split; [done|]. by rewrite Hkeys.
  - rewrite Hkeys in Hkq by done. by rewrite <-P1.
Qed.

Lemma fd_new_pipe_ok g names name1 n1 name2 n2 flags : fd_ok g names → fd_unique g names →
  seg_wf name1 → seg_len name1 < NAME_BUF_SIZE → seg_wf name2 → seg_len name2 < NAME_BUF_SIZE →
  seg_view name1 ≠ seg_view name2 →
  ∃ f1 g', fd_new_pipe name1 n1 name2 n2 flags g = Done (f1, g') ∧ fd_frame g g' ∧
    ((f1 = 0 ∧ nothing_made g g' ∧ (const_name g name1 ∨ const_name g name2 ∨ out_of_room g g')) ∨
     (f1 ≠ 0 ∧ pipe_made g g' name1 name2 n1 n2 flags f1)).
Proof.
  intros Hok Hu Hw1 Hl1 Hw2 Hl2 Hne. unfold fd_new_pipe.
  destruct (fd_by_name_ok g names name1 Hok Hw1 Hl1) as (old1 & E1 & Hold1). rewrite (bind_done _ _ _ _ _ E1).
  destruct (fd_by_name_ok g names name2 Hok Hw2 Hl2) as (old2 & E2 & Hold2). rewrite (bind_done _ _ _ _ _ E2).
  assert (HO1 : old1 = 0 ∨ old1 ∈ names) by tauto. assert (HO2 : old2 = 0 ∨ old2 ∈ names) by tauto.
  rewrite (bind_done _ _ _ _ _ (fd_is_const_ok g names old1 Hok HO1)). set (c1 := match _ with Some _ => _ | None => _ end).
  assert (Ec : ∃ c2, (if c1 then mret false else fd_is_const old2) g = Done (c2, g)).
  { destruct c1; [by eexists|]. eexists. exact (fd_is_const_ok g names old2 Hok HO2). }
  destruct Ec as [c2 Ec]. rewrite (bind_done _ _ _ _ _ Ec).
  assert (Hconst : c1 || c2 = true → const_name g name1 ∨ const_name g name2).
  { pose proof (fd_is_const_ok g names old1 Hok HO1) as Ec1. fold c1 in Ec1. destruct c1; [left; by exists old1|].
    cbn. intros ->. right. by exists old2. }
  destruct (c1 || c2).
  { exists 0, g. split_and!; [done|reflexivity|left; split_and!; [done|by eapply lookups_kept_same|]].
    destruct (Hconst eq_refl); auto. }
  destruct (fd_new_ok g names (sizeof_fd_t + seg_len name1 + 1) name1) as
    (f1 & g1 & E3 & F1 & _ & Epool1 & [(-> & K1 & Hobjs1 & Hno)|Hcr1]); [done|done|done|lia|..];
    rewrite (bind_done _ _ _ _ _ E3).
  { exists 0, g1. split_and!; [done|done|left; split_and!; [done|by eapply lookups_kept_same|by auto]]. }
  destruct (fd_created_keys _ _ _ _ _ _ Hok Hcr1) as (names1 & sz1 & K1 & P1 & Hf1 & Hf10 & Hof1 & Hobjs1 & _).
  rewrite (proj2 (Z.eqb_neq _ _)) by done.
  destruct (fd_new_ok g1 names1 (sizeof_fd_t + seg_len name2 + 1) name2) as
    (f2 & g2 & E4 & F2 & _ & _ & [(-> & K2 & Hobjs2 & Hno)|Hcr2]); [done|done|done|lia|..];
    rewrite (bind_done _ _ _ _ _ E4).
  { destruct (fd_new_undo g g2 names names1 (fd_fresh sz1 (seg_view name1)) f1) as (g3 & E5 & F3 & Hn); [done|done|done|done| | |].
    - intros p Hp. rewrite Hobjs2. by apply Hobjs1.
    - by rewrite Hobjs2.
    - cbn. rewrite (bind_done _ _ _ _ _ E5). exists 0, g3. split_and!; [done| |left; split_and!; [done|done|]].
      + etransitivity; [exact F1|]. by etransitivity.
      + right; right. by eapply (out_of_room_mono g g1 g2 g3). }
  destruct (fd_created_keys _ _ _ _ _ _ K1 Hcr2) as (names2 & sz2 & K2 & P2 & Hf2 & Hf20 & Hof2 & Hobjs2 & _).
  rewrite (proj2 (Z.eqb_neq _ _)) by done.
  assert (Hf12 : f1 ≠ f2) by (intros ->; apply Hf2; rewrite P1; by left).
  assert (Hsub : ∀ p, p ∈ names → p ∈ names2) by (intros p Hp; rewrite P2, P1; by do 2 right).
  destruct (fd_drop_ok g2 names2 old1 K2) as (g3 & names3 & E5 & F3 & K3 & P3 & Hobjs3 & _).
  { destruct HO1 as [|Hin]; auto. }
  rewrite (bind_done _ _ _ _ _ E5).
  set (key := fd_key (fd_objs (g_fd g))). set (key2 := fd_key (fd_objs (g_fd g2))).
  assert (Hkey2 : ∀ p, p ∈ names → key2 p = key p).
  { intros p Hp. unfold key2, key, fd_key. rewrite Hobjs2, Hobjs1; [done|done|rewrite P1; by right]. }
  assert (Hk1 : key2 f1 = seg_view name1).
  { unfold key2, fd_key. rewrite Hobjs2, Hof1; [done|]. rewrite P1. by left. }
  assert (Hk2 : key2 f2 = seg_view name2) by (unfold key2, fd_key; by rewrite Hof2).
  assert (HP3 : ∃ names3', f1 :: names ≡ₚ (if old1 =? 0 then [] else [old1]) ++ names3' ∧ names3 ≡ₚ f2 :: names3').
  { destruct (Z.eqb_spec old1 0) as [E0|E0].
    - exists (f1 :: names). split; [done|]. cbn in P3. by rewrite <-P3, P2, P1.
    - destruct HO1 as [|Hin]; [done|]. apply list_elem_of_split in Hin as (a & b & Hab).
      exists (f1 :: a ++ b). rewrite Hab. cbn. split; [by rewrite <-Permutation_middle, (Permutation_swap f1)|].
      apply (Permutation_cons_inv (a := old1)). cbn in P3. rewrite <-P3, P2, P1, Hab, <-Permutation_middle.
      rewrite (Permutation_swap old1 f1), (Permutation_swap old1 f2). done. }
  destruct HP3 as (names3' & PA & PB).
  destruct (takeover_keys key key2 names old1 (seg_view name1) f1 names3' Hu) as (U1 & U2 & U3 & U4);
    [destruct Hold1 as [(? & ? & ?)|[? ?]]; [by right|by left]|done|done|done|].
  assert (Hold2' : old2 = 0 ∨ old2 ∈ names3').
  { destruct Hold2 as [(Hin & H0 & Hk)|[? _]]; [right|by left]. apply U4; [done|]. rewrite Hkey2 by done. unfold key. congruence. }
  destruct (fd_drop_ok g3 names3 old2 K3) as (g4 & names4 & E6 & F4 & K4 & P4 & Hobjs4 & _).
  { destruct Hold2' as [|Hin]; [by left|right]. rewrite PB. by right. }
  rewrite (bind_done _ _ _ _ _ E6).
  destruct (takeover_keys key2 key2 names3' old2 (seg_view name2) f2 names4 U1) as (V1 & V2 & V3 & V4);
    [|done|done|by rewrite <-PB, P4|].
  { destruct Hold2 as [(Hin & H0 & Hk)|[H0 Hno]].
    - right. split_and!; [by destruct Hold2'|done|]. by rewrite Hkey2.
    - left. split; [done|]. intros p Hp. destruct (U3 p Hp) as [->|[Hp' _]]; [by rewrite Hk1|].
      rewrite Hkey2 by done. by apply Hno. }
  assert (Hf1in : f1 ∈ names4) by (apply V4; [done|by rewrite Hk1]).
  assert (Hsub3 : ∀ p, p ∈ names4 → p ∈ names3).
  { intros p Hp. rewrite P4, elem_of_app. by right. }
  assert (Hobj4 : ∀ p, p ∈ names4 → fd_objs (g_fd g4) !! p = forget old2 <$> (forget old1 <$> fd_objs (g_fd g2) !! p)).
  { intros p Hp. by rewrite Hobjs4, Hobjs3 by auto. }
  assert (Ho1 : fd_objs (g_fd g4) !! f1 = Some (fd_fresh sz1 (seg_view name1))).
  { rewrite Hobj4, Hobjs2, Hof1; [done|rewrite P1; by left|done]. }
  assert (Ho2 : fd_objs (g_fd g4) !! f2 = Some (fd_fresh sz2 (seg_view name2))).
  { by rewrite Hobj4, Hof2 by done. }
  set (objs5 := <[f2 := pipe_end2 flags n2 f1 (fd_fresh sz2 (seg_view name2))]>
    (<[f1 := pipe_end1 flags n1 f2 (fd_fresh sz1 (seg_view name1))]> (fd_objs (g_fd g4)))).
  set (g5 := on_fd (set_fd_objs objs5) g4).
  assert (L1 : objs5 !! f1 = Some (pipe_end1 flags n1 f2 (fd_fresh sz1 (seg_view name1)))).
  { unfold objs5. rewrite lookup_insert_ne by done. apply lookup_insert_eq. }
  assert (L2 : objs5 !! f2 = Some (pipe_end2 flags n2 f1 (fd_fresh sz2 (seg_view name2)))) by apply lookup_insert_eq.
  assert (L3 : ∀ p, p ≠ f1 → p ≠ f2 → objs5 !! p = fd_objs (g_fd g4) !! p).
  { intros p ? ?. unfold objs5. by rewrite !lookup_insert_ne by done. }
  assert (K5 : fd_ok g5 names4).
  { apply fd_ok_objs; [done|]. intros p Hp. destruct (decide (p = f1)) as [->|Hp1].
    { do 2 eexists. split_and!; [done|done|done|]. intros _. right; right. exists f2. eexists. split_and!; done. }
    destruct (decide (p = f2)) as [->|Hp2].
    { do 2 eexists. split_and!; [done|done|done|]. intros _. right; right. exists f1. eexists. split_and!; done. }
    destruct (fo_objs _ _ K4 p Hp) as (fp & Efp & _ & Hpeer). exists fp, fp. rewrite L3 by done. split_and!; [done|done|done|].
    intros Hpipe. destruct (Hpeer Hpipe) as [?|[?|(q & fq & Ea & Hq & Hqp & Efq & Q1 & Q2)]]; [auto|auto|].
    right; right. exists q, fq. rewrite L3; [done|..]; intros ->; simplify_eq. }
  assert (Hkeys5 : ∀ p, p ∈ names4 → fd_key (fd_objs (g_fd g5)) p = key2 p).
  { intros p Hp. change (fd_objs (g_fd g5)) with objs5. unfold fd_key, key2. destruct (decide (p = f1)) as [->|Hp1].
    { rewrite L1. symmetry. exact Hk1. }
    destruct (decide (p = f2)) as [->|Hp2]; [rewrite L2; symmetry; exact Hk2|].
    rewrite L3, Hobj4 by done. unfold fd_key. destruct (fd_objs (g_fd g2) !! p); [|done]. cbn. by rewrite !forget_name. }
  assert (U5 : fd_unique g5 names4).
  { unfold fd_unique. erewrite list_fmap_ext; [exact V1|]. intros i p Hp. apply Hkeys5. by apply list_elem_of_lookup_2 in Hp. }
  exists f1, g5. split; [by apply pipe_assign_ok|].
  split; [etransitivity; [exact F1|]; etransitivity; [exact F2|]; etransitivity; [exact F3|]; etransitivity; [exact F4|]; split; try done; [by left|by exists []]|].
  right. split; [done|]. exists names4, f2. do 2 eexists. split_and!; [done|done|done|done| | |exact L1|exact L2| |].
  - eapply fd_by_name_found; [done..|]. by rewrite Hkeys5.
  - eapply fd_by_name_found; [done..|]. by rewrite Hkeys5.
  - intros p Hp. destruct (V3 p Hp) as [->|[Hp3 _]]; [left; by right; left|]. destruct (U3 p Hp3) as [->|[Hp0 _]]; [left; by left|].
    right. split; [by apply (is_fd_names _ _ _ Hok)|]. destruct (fo_objs _ _ Hok p Hp0) as (f & Ef & _).
    exists f, (forget old2 (forget old1 f)). split_and!; [done| |eapply looks_like_trans; apply forget_looks].
    change (fd_objs (g_fd g5)) with objs5. rewrite L3, Hobj4, Hobjs2, Hobjs1, Ef; [done|done|rewrite P1; by right|done|..].
    + by intros ->.
    + intros ->. apply Hf2. rewrite P1. by right.
  - intros k p Hwk Hlk [Hk1' Hk2']. eapply fd_by_name_agree; [done|exact K5|done|done|done| |].
    + intros q Hq Hkq. assert (Hq3 : q ∈ names3') by (apply U4; [done|rewrite Hkey2; [unfold key; congruence|done]]).
      assert (Hq4 : q ∈ names4) by (apply V4; [done|rewrite Hkey2; [unfold key; congruence|done]]).
      split; [done|]. by rewrite Hkeys5, Hkey2.
    + intros q Hq Hkq. rewrite Hkeys5 in Hkq by done. destruct (V3 q Hq) as [->|[Hq3 _]]; [congruence|].
      destruct (U3 q Hq3) as [->|[Hq0 _]]; [congruence|]. split; [done|]. by rewrite Hkey2 in Hkq.
Qed.

(** With one name for both ends, the older object of the name is deleted for each. *)
Lemma fd_new_pipe_twice g names name n1 n2 flags p f : fd_ok g names → fd_unique g names →
  seg_wf name → seg_len name < NAME_BUF_SIZE →
  fd_by_name name g = Done (p, g) → p ≠ 0 → fd_objs (g_fd g) !! p = Some f → fl_is_const (fd_flags f) = false →
  fd_obj_pool (g_fd g) = false →
  fd_new_pipe name n1 name n2 flags g = Fault ∨
  ∃ g', fd_new_pipe name n1 name n2 flags g = Done (0, g') ∧ nothing_made g g' ∧ out_of_room g g'.
Proof.
  intros Hok Hu Hw Hl Hby Hp0 Hf Hc Hpool. unfold fd_new_pipe. rewrite !(bind_done _ _ _ _ _ Hby).
  assert (Hp : p ∈ names).
  { destruct (fd_by_name_ok g names name Hok Hw Hl) as (p' & E & Hp). rewrite Hby in E. injection E as <-. tauto. }
  assert (Ec : fd_is_const p g = Done (false, g)).
  { unfold fd_is_const, fd_obj, mbind, M_bind. by rewrite (proj2 (Z.eqb_neq p 0)), Hf, Hc by done. }
  rewrite !(bind_done _ _ _ _ _ Ec). cbn [orb].
  destruct (fd_new_ok g names (sizeof_fd_t + seg_len name + 1) name) as
    (f1 & g1 & E3 & F1 & _ & Ep1 & [(-> & K1 & Hobjs1 & Hno)|Hcr1]); [done|done|done|lia|..];
    rewrite (bind_done _ _ _ _ _ E3).
  { right. exists g1. split_and!; [done|by eapply lookups_kept_same|done]. }
  destruct (fd_created_keys _ _ _ _ _ _ Hok Hcr1) as (names1 & sz1 & K1 & P1 & Hf1 & Hf10 & Hof1 & Hobjs1 & _).
  rewrite (proj2 (Z.eqb_neq _ _)) by done.
  destruct (fd_new_ok g1 names1 (sizeof_fd_t + seg_len name + 1) name) as
    (f2 & g2 & E4 & F2 & _ & Ep2 & [(-> & K2 & Hobjs2 & Hno)|Hcr2]); [done|done|done|lia|..];
    rewrite (bind_done _ _ _ _ _ E4).
  { right. destruct (fd_new_undo g g2 names names1 (fd_fresh sz1 (seg_view name)) f1) as (g3 & E5 & F3 & Hn); [done|done|done|done| | |].
    - intros q Hq. rewrite Hobjs2. by apply Hobjs1.
    - by rewrite Hobjs2.
    - cbn. rewrite (bind_done _ _ _ _ _ E5). exists g3. split_and!; [done|done|]. by eapply (out_of_room_mono g g1 g2 g3). }
  destruct (fd_created_keys _ _ _ _ _ _ K1 Hcr2) as (names2 & sz2 & K2 & P2 & _ & Hf20 & _ & Hobjs2 & _).
  rewrite (proj2 (Z.eqb_neq _ _)) by done. left.
  assert (Hf2 : fd_objs (g_fd g2) !! p = Some f) by (rewrite Hobjs2, Hobjs1; [done|done|rewrite P1; by right]).
  assert (Hp2 : p ∈ names2) by (rewrite P2, P1; by do 2 right).
  apply list_elem_of_split in Hp2 as (l1 & l2 & ->).
  destruct (fd_delete_ok g2 l1 p l2 f K2 Hf2) as (g3 & E5 & _ & _ & _ & _ & [_ Hgone] & _).
  rewrite (proj2 (Z.eqb_neq p 0)) by done. cbn [negb when]. rewrite (bind_done _ _ _ _ _ E5).
  unfold fd_delete, fd_obj, mbind, M_bind. by rewrite Hgone by congruence.
Qed.
End fd_spec.
