(* ===== verification/FdThms.v ===== *)
(** * The theorems about the descriptor table *)

From S2P Require Import Prelude Strseg State RBTree RBTreeRep OrdIndex RBTreeIndex Table Log PtrArray Fd FdSpec.

(** The table after [fd_init]. *)
Definition fd_state_0 : G :=
  match fd_init G_0 with Done (_, g) => g | _ => G_0 end.

Lemma fd_state_0_ok : fd_ok fd_state_0 [].
Proof.
  unfold fd_state_0, fd_init, rb.
  destruct (RBTree_Init_empty (fd_key ∅) lex_cmp fd_by_name_index (g_rb G_0) (mkNode 0 0 0 0 0) Sentinel)
    as (h & E1 & Ht & _); [done..|].
  rewrite E1. split; cbn; try done; try lia; by intros o Ho; apply elem_of_nil in Ho.
Qed.

Lemma fd_state_0_unique : fd_unique fd_state_0 [].
Proof. constructor. Qed.

(** One file, called "log". *)
Definition ex_file_flags : fd_flags_t := set_fl_write true flags_0.
Definition ex_fd_state : G :=
  match @fd_new_file ideal_os (STRSEG (str "log")) 7 ex_file_flags (STRSEG (str "/var/log/d")) fd_state_0 with
  | Done (_, g) => g
  | _ => G_0
  end.

Lemma ex_fd_ok : ∃ names, fd_ok ex_fd_state names ∧ fd_unique ex_fd_state names ∧
  @fd_by_name (STRSEG (str "log")) ex_fd_state = Done (1, ex_fd_state).
Proof.
  unfold ex_fd_state.
  destruct (@fd_new_file_ok ideal_os fd_state_0 [] (STRSEG (str "log")) 7 ex_file_flags (STRSEG (str "/var/log/d")))
    as (o & g' & E1 & _ & [(-> & _)|(_ & names' & Hok & Hu & Hn & _)]);
    [apply fd_state_0_ok|apply fd_state_0_unique|apply STRSEG_wf|done|apply STRSEG_wf|done| |].
  - exfalso. vm_compute in E1. discriminate E1.
  - rewrite E1. exists names'. split_and!; [done|done|]. rewrite Hn. repeat f_equal.
    assert (E2 : match @fd_new_file ideal_os (STRSEG (str "log")) 7 ex_file_flags (STRSEG (str "/var/log/d")) fd_state_0
      with Done (o, _) => o | _ => 0 end = 1) by (vm_compute; reflexivity).
    by rewrite E1 in E2.
Qed.

Section theorems.
Context `{OS}.

(** C25. [fd_new_file] names an open file.  It fails, which takes a name of a constant
    descriptor, a pool or a failed [malloc], and every name keeps its object; or it yields a
    new object with the number, flags and path given (the whole path, unless a pool
    bounds it), which the name now denotes in place of any older object, and every
    other name keeps its object.  In both cases the table is again a search tree with
    one object per name, and nothing else of the daemon changes. *)
Theorem fd_new_file_replaces g names name fdnum flags path :
  fd_ok g names → fd_unique g names → seg_wf name → seg_len name < NAME_BUF_SIZE → seg_wf path →
  fl_pipe flags = false →
  ∃ o g', fd_new_file name fdnum flags path g = Done (o, g') ∧ fd_frame g g' ∧
    ((o = 0 ∧ nothing_made g g' ∧ (const_name g name ∨ out_of_room g g')) ∨
     (o ≠ 0 ∧ file_made g g' names name path fdnum flags o)).
Proof.
  intros Hok Hu. intros. destruct (fd_new_file_ok g names name fdnum flags path) as
    (o & g' & E1 & F1 & [(-> & K1 & Hobjs & Hno)|Hm]); try done; do 2 eexists; (split_and!; [done|done|]).
  - left. split_and!; [done|by eapply lookups_kept_same|done].
  - by right.
Qed.

(** C26. [fd_new_pipe] of two different names names both ends of a pipe.  It fails,
    which takes a name of a constant descriptor, a pool or a failed [malloc], and every
    name keeps its object; or each name denotes a new object with its number, the two
    objects are each other's peer, and every other name keeps its object.  The code
    does not ask for different names; with equal ones see [fd_new_pipe_same_name_faults]. *)
Theorem fd_new_pipe_links g names name1 n1 name2 n2 flags :
  fd_ok g names → fd_unique g names →
  seg_wf name1 → seg_len name1 < NAME_BUF_SIZE → seg_wf name2 → seg_len name2 < NAME_BUF_SIZE →
  seg_view name1 ≠ seg_view name2 →
  ∃ f1 g', fd_new_pipe name1 n1 name2 n2 flags g = Done (f1, g') ∧ fd_frame g g' ∧
    ((f1 = 0 ∧ nothing_made g g' ∧ (const_name g name1 ∨ const_name g name2 ∨ out_of_room g g')) ∨
     (f1 ≠ 0 ∧ pipe_made g g' name1 name2 n1 n2 flags f1)).
Proof. apply fd_new_pipe_ok. Qed.

(** C27. [fd_delete] removes exactly its object: the other names keep their objects,
    of which the other end of a deleted pipe forgets its peer and no other changes; the
    number is closed, once, if the object has one; and the log lets go of it. *)
Theorem fd_delete_removes g names fd f :
  fd_ok g names → fd ∈ names → fd_objs (g_fd g) !! fd = Some f →
  ∃ g' names', fd_delete fd g = Done (tt, g') ∧ fd_frame g g' ∧ fd_ok g' names' ∧ names ≡ₚ fd :: names' ∧
    (∀ p, p ∈ names' → fd_objs (g_fd g') !! p = forget fd <$> fd_objs (g_fd g) !! p) ∧
    g_log g' = log_released f (g_log g) ∧
    ∃ tr, g_trace g' = tr ++ g_trace g ∧ map fst tr = (if fd_fd f >=? 0 then [CClose (fd_fd f)] else []).
Proof.
  intros Hok Hfd Hf. apply list_elem_of_split in Hfd as (l1 & l2 & ->).
  destruct (fd_delete_ok g l1 fd l2 f Hok Hf) as (g' & E1 & F1 & K1 & Hobjs & Hlog & _ & Htr).
  exists g', (l1 ++ l2). split_and!; try done. by rewrite <-Permutation_middle.
Qed.
(** C37. When both ends of a pipe are given the same name and the name already belongs
    to an object (not a constant one, and without a pool of objects), [fd_new_pipe]
    deletes that object once for each end: the second time it is freed memory.  Only a
    failed [malloc] before prevents that. *)
Theorem fd_new_pipe_same_name_faults g names name n1 n2 flags p f : fd_ok g names → fd_unique g names →
  seg_wf name → seg_len name < NAME_BUF_SIZE →
  fd_by_name name g = Done (p, g) → p ≠ 0 → fd_objs (g_fd g) !! p = Some f → fl_is_const (fd_flags f) = false →
  fd_obj_pool (g_fd g) = false →
  fd_new_pipe name n1 name n2 flags g = Fault ∨
  ∃ g', fd_new_pipe name n1 name n2 flags g = Done (0, g') ∧ nothing_made g g' ∧ out_of_room g g'.
Proof. apply fd_new_pipe_twice. Qed.
End theorems.

Lemma fd_new_file_replaces_witness :
  ∃ o g', @fd_new_file ideal_os (STRSEG (str "log")) 8 ex_file_flags (STRSEG (str "/dev/null")) ex_fd_state = Done (o, g') ∧
    fd_by_name (STRSEG (str "log")) g' = Done (o, g').
Proof.
  destruct ex_fd_ok as (names & Hok & Hu & _).
  destruct (@fd_new_file_replaces ideal_os ex_fd_state names (STRSEG (str "log")) 8 ex_file_flags (STRSEG (str "/dev/null")))
    as (o & g' & E1 & _ & [(-> & _)|(_ & names' & _ & _ & Hn & _)]);
    [done|done|apply STRSEG_wf|done|apply STRSEG_wf|done| |].
  - exfalso. vm_compute in E1. discriminate E1.
  - exists o, g'. by split.
Defined.

Lemma fd_new_pipe_links_witness :
  ∃ f1 g', @fd_new_pipe ideal_os (STRSEG (str "a")) 5 (STRSEG (str "log")) 6 flags_0 ex_fd_state = Done (f1, g') ∧
    pipe_made ex_fd_state g' (STRSEG (str "a")) (STRSEG (str "log")) 5 6 flags_0 f1.
Proof.
  destruct ex_fd_ok as (names & Hok & Hu & _).
  destruct (@fd_new_pipe_links ideal_os ex_fd_state names (STRSEG (str "a")) 5 (STRSEG (str "log")) 6 flags_0)
    as (o & g' & E1 & _ & [(-> & _)|(_ & Hm)]);
    [done|done|apply STRSEG_wf|done|apply STRSEG_wf|done|by rewrite !STRSEG_view| |].
  - exfalso. vm_compute in E1. discriminate E1.
  - exists o, g'. by split.
Defined.

Lemma fd_delete_removes_witness :
  ∃ g' tr, @fd_delete ideal_os 1 ex_fd_state = Done (tt, g') ∧
    g_trace g' = tr ++ g_trace ex_fd_state ∧ map fst tr = [CClose 7].
Proof.
  destruct ex_fd_ok as (names & Hok & _ & Hn).
  assert (H1 : 1 ∈ names).
  { destruct (fd_by_name_ok ex_fd_state names (STRSEG (str "log")) Hok (STRSEG_wf _)) as (o & E1 & Ho); [done|].
    rewrite Hn in E1. injection E1 as <-. by destruct Ho as [(Ho & _)|[? _]]. }
  destruct (fo_objs _ _ Hok 1 H1) as (f & Hf & _).
  destruct (@fd_delete_removes ideal_os ex_fd_state names 1 f Hok H1 Hf) as (g' & names' & E1 & _ & _ & _ & _ & _ & tr & Htr & Hcl).
  exists g', tr. split_and!; [done|done|].
  assert (E2 : fd_objs (g_fd ex_fd_state) !! 1 = Some (mkFd (72 + 3 + 1 + 10 + 1) ex_file_flags 7 (attr_path (str "/var/log/d")) (str "log")))
    by (vm_compute; reflexivity).
  rewrite E2 in Hf. injection Hf as <-. exact Hcl.
Defined.

Lemma fd_new_pipe_same_name_faults_witness :
  @fd_new_pipe ideal_os (STRSEG (str "log")) 5 (STRSEG (str "log")) 6 flags_0 ex_fd_state = Fault.
Proof.
  destruct ex_fd_ok as (names & Hok & Hu & Hn).
  set (f := mkFd (72 + 3 + 1 + 10 + 1) ex_file_flags 7 (attr_path (str "/var/log/d")) (str "log")).
  assert (Hf : fd_objs (g_fd ex_fd_state) !! 1 = Some f) by (vm_compute; reflexivity).
  destruct (@fd_new_pipe_same_name_faults ideal_os ex_fd_state names (STRSEG (str "log")) 5 6 flags_0 1 f Hok Hu (STRSEG_wf _))
    as [E1|(g' & E1 & _)]; [done|exact Hn|done|exact Hf|done|vm_compute; reflexivity|exact E1|].
  exfalso. vm_compute in E1. discriminate E1.
Defined.
