(* ===== verification/CtlObj.v ===== *)
(** * controller.c: the pool of controllers

    Allocation, construction and destruction of the controllers of the array
    [client]; a controller whose [state_fn] is null is free. *)

From S2P Require Import Prelude Strseg State Log Fd CtlOut.

Section ctl_obj.
Context `{OS}.

Definition ctl_set_auto_final_newline (i : nat) (enable : bool) : DP unit :=
  upd_ctl i (set_append_final_newline enable).

(** The loop of [ctl_init], [n] rounds from index [i]. *)
Fixpoint ctl_init_loop (n i : nat) : DP unit :=
  match n with
  | O => mret tt
  | S n => upd_ctl i (set_state_fn None);; ctl_init_loop n (S i)
  end.

Definition ctl_init : DP unit :=
  assert (2 <=? CONTROLLER_MAX_CLIENTS)%nat;;
  ctl_init_loop CONTROLLER_MAX_CLIENTS 0.

(** The loop of [ctl_alloc]; [None] for [NULL]. *)
Fixpoint ctl_alloc_loop (n i : nat) : DP (option nat) :=
  match n with
  | O => mret None
  | S n =>
      c ← get_ctl i;
      match state_fn c with
      | None =>
          upd_ctl i (λ _, set_ctl_id (Z.of_nat i) (set_state_fn (Some ctl_state_free) controller_0));;
          mret (Some i)
      | Some _ => ctl_alloc_loop n (S i)
      end
  end.

Definition ctl_alloc : DP (option nat) := ctl_alloc_loop CONTROLLER_MAX_CLIENTS 0.

Definition ctl_ctor (i : nat) (recv send : Z) : DP bool :=
  c ← get_ctl i;
  log_debug (str "creating client " ++ fmt_d (ctl_id c) ++ str " with handles " ++ fmt_d recv ++ str "," ++ fmt_d send);;
  '(is_socket, ok) ←
    (if negb (recv =? -1) then
       r ← sys (CGetsockopt recv);
       ok ← fd_set_nonblock recv;
       (if negb ok then e ← gets g_errno; log_error (str "fcntl(O_NONBLOCK): " ++ strerror e) else mret tt);;
       mret (ret r =? 0, ok)
     else mret (false, true));
  if negb ok then mret false
  else
    ok ←
      (if negb (send =? -1) && negb (send =? recv) then
         ok ← fd_set_nonblock send;
         (if negb ok then e ← gets g_errno; log_error (str "fcntl(O_NONBLOCK): " ++ strerror e) else mret tt);;
         mret ok
       else mret true);
    if negb ok then mret false
    else
      upd_ctl i (λ c,
        set_write_timeout_close CONTROLLER_WRITE_TIMEOUT
          (set_write_timeout_reset (Z.shiftr CONTROLLER_WRITE_TIMEOUT 1)
             (set_send_fd send (set_recv_is_socket is_socket (set_recv_fd recv
                (set_state_fn (Some ctl_state_next_command) c))))));;
      mret true.

(** The loop of [ctl_dtor] over the descriptors received and not used. *)
Fixpoint ctl_close_ancillary (l : list Z) : DP unit :=
  match l with
  | [] => mret tt
  | fd :: l =>
      log_warn (str "closing leftover ancillary file descriptor " ++ fmt_d fd);;
      sys (CClose fd);;
      ctl_close_ancillary l
  end.

Definition ctl_dtor (i : nat) : DP unit :=
  c ← get_ctl i;
  log_debug (str "destroying client " ++ fmt_d (ctl_id c));;
  when (recv_fd c >=? 0) (sys (CClose (recv_fd c));; mret tt);;
  when ((send_fd c >=? 0) && negb (send_fd c =? recv_fd c)) (sys (CClose (send_fd c));; mret tt);;
  ctl_close_ancillary (recv_ancillary_fd c);;
  upd_ctl i (set_state_fn (Some ctl_state_free)).

(** daemonproxy.c: the end of the interactive session ends the daemon. *)
Definition main_notify_controller_freed (i : nat) : DP unit :=
  m ← gets g_main;
  if bool_decide (interactive_controller m = Some i) then
    guard ← gets (λ g, opt_terminate_guard (g_opt g));
    (if guard =? 0 then
       log_info (str "interactive session ended");;
       modify (on_main (set_main_terminate true));;
       wake_now_again
     else log_warn (str "interactive session ended, but not exiting due to terminate-guard"));;
    modify (on_main (set_interactive_controller None))
  else mret tt.

(** [None] is the null pointer, which the function dereferences. *)
Definition ctl_free (ctl : option nat) : DP unit :=
  match ctl with
  | None => fault
  | Some i => upd_ctl i (set_state_fn None);; main_notify_controller_freed i
  end.

Definition ctl_new (recv send : Z) : DP (option nat) :=
  ctl ← ctl_alloc;
  match ctl with
  | None => mret None
  | Some i =>
      ok ← ctl_ctor i recv send;
      if (ok : bool) then mret ctl else ctl_free ctl;; mret None
  end.
End ctl_obj.
