(* ===== verification/Service.v ===== *)
(** * service.c: services and their state machine

    A service is an entry of the map [svc_objs] under its address; its two tree nodes
    have addresses made from it.  The "active" and "sigwake" lists are doubly linked
    through the services themselves, with a pointer to the previous pointer. *)

From S2P Require Import Prelude Strseg State RBTree OrdIndex Log Signal CtlOut PtrArray Fd CtlObj SvcVars.

Definition SVC_STATE_UNDEF : Z := 0.
Definition SVC_STATE_DOWN : Z := 1.
Definition SVC_STATE_START : Z := 2.
Definition SVC_STATE_UP : Z := 3.
Definition SVC_STATE_REAPED : Z := 4.

(** [sizeof(service_t)] and [offsetof(service_t, name_buf)] where pointers have 8 bytes. *)
Definition sizeof_service_t : Z := 352.
Definition offset_name_buf : Z := 4.

Definition EXIT_INVALID_ENVIRONMENT : Z := 3.

(** [&svc->name_index_node] and [&svc->pid_index_node]. *)
Definition name_node (p : Z) : ptr := 16 * p + 5.
Definition pid_node (p : Z) : ptr := 16 * p + 6.

Definition svc_obj (p : Z) : DP service_t := λ g,
  match svc_objs (g_svc g) !! p with Some s => Done (s, g) | None => Fault end.

Definition upd_svc (p : Z) (f : service_t → service_t) : DP unit := λ g,
  match svc_objs (g_svc g) !! p with
  | Some s => Done (tt, on_svc (set_svc_objs (<[p := f s]> (svc_objs (g_svc g)))) g)
  | None => Fault
  end.

(** The object after [memset] and the assignments of [svc_ctor]. *)
Definition svc_fresh (name : list Z) : service_t :=
  mkService SVC_STATE_DOWN name [] prev_null 0 prev_null 0 0 false false false false false 0 0 0 0 ∅.

Definition svc_name_key (objs : gmap Z service_t) (o : Z) : list Z :=
  match objs !! o with Some s => svc_name s | None => [] end.
Definition svc_pid_key (objs : gmap Z service_t) (o : Z) : Z :=
  match objs !! o with Some s => svc_pid s | None => 0 end.

Definition svc_by_name_compare (objs : gmap Z service_t) (data : strseg_t) (o : Z) : Z :=
  match strseg_cmp data (STRSEG (svc_name_key objs o)) with Done c => c | _ => 0 end.

Definition pid_cmp (a b : Z) : Z := if a <? b then -1 else if a >? b then 1 else 0.
Definition svc_by_pid_compare (objs : gmap Z service_t) (key : Z) (o : Z) : Z :=
  pid_cmp key (svc_pid_key objs o).

(** The C string at [off] of [buf]. *)
Definition cstr (buf : list Z) (off : Z) : outcome (list Z) :=
  let d := drop (Z.to_nat off) buf in
  if (sep_index NUL d <? length d)%nat then Done (take (sep_index NUL d) d) else Fault.

(** The test of [svc_check_name] on one character. *)
Definition name_char (c : Z) : bool :=
  ((c >=? ch "a") && (c <=? ch "z")) || ((c >=? ch "A") && (c <=? ch "Z"))
  || ((c >=? ch "0") && (c <=? ch "9")) || (c =? ch ".") || (c =? ch "_") || (c =? ch "-").

Fixpoint svc_check_name_loop (n : nat) (name : strseg_t) (i : Z) : outcome bool :=
  match n with
  | O => Done true
  | S n => c ← seg_at name i; if name_char c then svc_check_name_loop n name (i + 1) else Done false
  end.

Definition svc_check_name (name : strseg_t) : outcome bool :=
  if seg_len name >=? NAME_BUF_SIZE then Done false
  else svc_check_name_loop (Z.to_nat (seg_len name)) name 0.

(** The positions after the TABs of an argument list. *)
Fixpoint arg_starts (spec : list Z) (i : Z) : list Z :=
  match spec with
  | [] => []
  | c :: spec => if c =? TAB then (i + 1) :: arg_starts spec (i + 1) else arg_starts spec (i + 1)
  end.

(** [svc_do_exec] overwrites each TAB by a NUL and points [argv] behind it. *)
Definition nul_tabs (spec : list Z) : list Z := map (λ c, if c =? TAB then NUL else c) spec.

Fixpoint cstrs (buf : list Z) (offs : list Z) : outcome (list (list Z)) :=
  match offs with
  | [] => Done []
  | o :: offs => s ← cstr buf o; l ← cstrs buf offs; Done (s :: l)
  end.

Definition make_argv (spec : list Z) : outcome (list (list Z)) :=
  cstrs (nul_tabs spec ++ [NUL]) (0 :: arg_starts spec 0).

(** The process becomes another program, or ends. *)
Definition execed {A} (argv : list (list Z)) : DP A := λ _, Execed argv.
Definition exited {A} (code : Z) : DP A := λ _, Exited code.

Section svc.
Context `{OS}.

Definition svc_init : DP unit :=
  rb (RBTree_Init svc_by_name_index);;
  rb (RBTree_Init svc_by_pid_index).

Definition svc_list_resize (new_limit : Z) : DP bool :=
  r ← sys (CMalloc (new_limit * 8));
  if ret r <? 0 then mret false
  else
    modify (on_svc (λ s, set_svc_list_limit new_limit (set_svc_list (grow (svc_list s) new_limit) s)));;
    mret true.

Definition svc_preallocate (count data_size_each : Z) : DP bool :=
  s ← gets g_svc;
  assert (length (svc_list s) =? 0)%nat;;
  assert (negb (svc_pool s));;
  assert (data_size_each >? 0);;
  let size_each := sizeof_service_t + data_size_each in
  let size_each := wrap32 (Z.lor (size_each - 1) 0xF + 1) in
  ok ← svc_list_resize count;
  if negb ok then mret false
  else
    r ← sys (CMalloc (wrap32 (count * size_each)));
    if ret r <? 0 then mret false
    else
      modify (λ g, set_g_next (g_next g + count) (on_svc (λ s,
        set_svc_list (seqZ (g_next g) count) (set_svc_pool true (set_svc_pool_size_each size_each s))) g));;
      mret true.

(** The assertions of [svc_check]; the pointers into the object are right by
    construction. *)
Definition node_assigned (n : ptr) : DP bool :=
  c ← rb (load n Color);
  mret ((c =? RBTreeNode_Black) || (c =? RBTreeNode_Red)).

Definition svc_check (svc : Z) : DP unit :=
  s ← svc_obj svc;
  let name_len := Z.of_nat (length (svc_name s)) in
  let vars_len := Z.of_nat (length (svc_vars s)) in
  assert (name_len >? 0);;
  assert (name_len <? NAME_BUF_SIZE);;
  (if negb (vars_len =? 0) then
     c ← lift (slot (svc_vars s) (vars_len - 1));
     assert (c =? NUL)
   else mret tt);;
  m ← gets g_svc;
  when (svc_pool m)
    (assert (svc_pool_size_each m >=? offset_name_buf + name_len + 1 + vars_len));;
  a ← node_assigned (name_node svc);
  assert a;;
  b ← node_assigned (pid_node svc);
  if negb (svc_pid s =? 0) then assert b
  else c ← rb (load (pid_node svc) Color); assert (c =? RBTreeNode_Unassigned).

(** ** The two linked lists *)

Definition svc_set_active (svc : Z) (activate : bool) : DP unit :=
  s ← svc_obj svc;
  (if activate && bool_decide (active_prev_ptr s = prev_null) then
     upd_svc svc (set_active_prev_ptr prev_head);;
     head ← gets (λ g, svc_active_list (g_svc g));
     upd_svc svc (set_active_next head);;
     when (negb (head =? 0)) (upd_svc head (set_active_prev_ptr (prev_next svc)));;
     modify (on_svc (set_svc_active_list svc))
   else if negb activate && negb (bool_decide (active_prev_ptr s = prev_null)) then
     when (negb (active_next s =? 0)) (upd_svc (active_next s) (set_active_prev_ptr (active_prev_ptr s)));;
     match active_prev_ptr s with
     | prev_null => fault
     | prev_head => modify (on_svc (set_svc_active_list (active_next s)))
     | prev_next p => upd_svc p (set_active_next (active_next s))
     end;;
     upd_svc svc (set_active_prev_ptr prev_null)
   else mret tt);;
  svc_check svc.

Definition svc_set_sigwake (svc : Z) (sigwake : bool) : DP unit :=
  upd_svc svc (set_svc_sigwake sigwake);;
  s ← svc_obj svc;
  if sigwake && bool_decide (sigwake_prev_ptr s = prev_null) then
    head ← gets (λ g, svc_sigwake_list (g_svc g));
    upd_svc svc (set_sigwake_next head);;
    when (negb (head =? 0)) (upd_svc head (set_sigwake_prev_ptr (prev_next svc)));;
    modify (on_svc (set_svc_sigwake_list svc));;
    upd_svc svc (set_sigwake_prev_ptr prev_head)
  else if negb sigwake && negb (bool_decide (sigwake_prev_ptr s = prev_null)) then
    when (negb (sigwake_next s =? 0)) (upd_svc (sigwake_next s) (set_sigwake_prev_ptr (sigwake_prev_ptr s)));;
    match sigwake_prev_ptr s with
    | prev_null => fault
    | prev_head => modify (on_svc (set_svc_sigwake_list (sigwake_next s)))
    | prev_next p => upd_svc p (set_sigwake_next (sigwake_next s))
    end;;
    upd_svc svc (set_sigwake_prev_ptr prev_null)
  else mret tt.

(** ** Creation and deletion *)

Definition svc_ctor (svc : Z) (name : strseg_t) : DP unit :=
  assert (seg_len name <? NAME_BUF_SIZE);;
  n ← lift (seg_str name);
  modify (on_svc (λ m, set_svc_objs (<[svc := svc_fresh n]> (svc_objs m)) m));;
  modify (λ g, set_g_rb (<[name_node svc := mkNode 0 0 0 0 0]> (<[pid_node svc := mkNode 0 0 0 0 0]> (g_rb g))) g);;
  rb (RBTreeNode_Init (name_node svc));;
  rb (store (name_node svc) (set_Object svc));;
  rb (RBTreeNode_Init (pid_node svc));;
  rb (store (pid_node svc) (set_Object svc));;
  objs ← gets (λ g, svc_objs (g_svc g));
  rb (RBTree_Add (svc_by_name_compare objs) svc_by_name_index (name_node svc) name);;
  svc_check svc.

(** Returns 0 for [NULL]. *)
Definition svc_new (name : strseg_t) : DP Z :=
  assert (seg_len name <? NAME_BUF_SIZE);;
  s ← gets g_svc;
  room ← (if svc_list_count s >=? svc_list_limit s then
            if svc_pool s then mret false else svc_list_resize (svc_list_limit s + 32)
          else mret true);
  if negb room then mret 0
  else if svc_pool s then
    svc ← lift (slot (svc_list s) (svc_list_count s));
    modify (on_svc (set_svc_list_count (svc_list_count s + 1)));;
    svc_ctor svc name;;
    mret svc
  else
    r ← sys (CMalloc sizeof_service_t);
    if ret r <? 0 then mret 0
    else
      svc ← gets g_next;
      modify (set_g_next (svc + 1));;
      s ← gets g_svc;
      l ← lift (set_slot (svc_list s) (svc_list_count s) svc);
      modify (on_svc (λ s, set_svc_list_count (svc_list_count s + 1) (set_svc_list l s)));;
      svc_ctor svc name;;
      mret svc.

Definition svc_dtor (svc : Z) : DP unit :=
  svc_set_active svc false;;
  svc_set_sigwake svc false;;
  s ← svc_obj svc;
  when (negb (svc_pid s =? 0)) (rb (RBTreeNode_Prune (pid_node svc));; mret tt);;
  rb (RBTreeNode_Prune (name_node svc));;
  mret tt.

Definition svc_list_remove (svc : Z) : DP unit :=
  s ← gets g_svc;
  i ← lift (list_find_from (Z.to_nat (svc_list_count s)) (svc_list s) svc 0);
  match i with
  | None => mret tt
  | Some i =>
      let n := svc_list_count s - 1 in
      x ← lift (slot (svc_list s) n);
      l ← lift (set_slot (svc_list s) i x);
      l ← lift (set_slot l n (if svc_pool s then svc else 0));
      modify (on_svc (λ s, set_svc_list_count n (set_svc_list l s)));;
      when (negb (svc_pool s))
        (modify (λ g, set_g_rb (delete (name_node svc) (delete (pid_node svc) (g_rb g)))
           (on_svc (λ s, set_svc_objs (delete svc (svc_objs s)) s) g)))
  end.

Definition svc_delete (svc : Z) : DP unit :=
  svc_dtor svc;;
  svc_list_remove svc.

(** ** Attributes *)

Definition svc_get_name (svc : Z) : DP (list Z) := s ← svc_obj svc; mret (svc_name s).
Definition svc_get_pid (svc : Z) : DP Z := s ← svc_obj svc; mret (svc_pid s).
Definition svc_get_wstat (svc : Z) : DP Z := s ← svc_obj svc; mret (wait_status s).
Definition svc_get_up_ts (svc : Z) : DP Z := s ← svc_obj svc; mret (start_time s).
Definition svc_get_reap_ts (svc : Z) : DP Z := s ← svc_obj svc; mret (reap_time s).

Definition svc_get_var (svc : Z) (name : strseg_t) : DP (option strseg_t) :=
  s ← svc_obj svc;
  assert (seg_len name >=? 0);;
  '(found, _) ← lift (var_lookup (svc_vars s) name);
  mret found.

(** The room of [svc_set_var]: with a pool the buffer starts inside [name_buf] and
    cannot grow past the object, else it is reallocated.  A buffer that outgrows
    [name_buf] overwrites the members behind it. *)
Definition svc_var_room (s : service_t) (sizediff : Z) : DP bool :=
  m ← gets g_svc;
  let name_len := Z.of_nat (length (svc_name s)) in
  let vars_len := Z.of_nat (length (svc_vars s)) in
  if sizediff >? 0 then
    if svc_pool m then
      let buf_size := svc_pool_size_each m - (offset_name_buf + name_len + 1) in
      if vars_len + sizediff >? buf_size then mret false
      else assert (vars_len + sizediff <=? NAME_BUF_SIZE - name_len - 1);; mret true
    else
      r ← sys (CMalloc (vars_len + sizediff));
      mret (negb (ret r <? 0))
  else mret true.

Definition svc_set_var (svc : Z) (name : strseg_t) (value : option strseg_t) : DP bool :=
  s ← svc_obj svc;
  assert (seg_len name >=? 0);;
  assert (match value with Some v => seg_len v >=? 0 | None => true end);;
  '(found, tail) ← lift (var_lookup (svc_vars s) name);
  room ← svc_var_room s (var_sizediff found name value);
  if negb room then mret false
  else
    vars ← lift (var_store (svc_vars s) found tail name value);
    upd_svc svc (set_svc_vars vars);;
    svc_check svc;;
    mret true.

(** [svc_get_var(...)? val.data : dflt], as a C string. *)
Definition svc_get_cstr (svc : Z) (name dflt : list Z) : DP (list Z) :=
  val ← svc_get_var svc (STRSEG name);
  match val with
  | Some val => lift (cstr (seg_buf val) (seg_off val))
  | None => mret dflt
  end.

Definition null_fds : list Z := str "null" ++ TAB :: str "null" ++ TAB :: str "null".

Definition svc_get_tags (svc : Z) : DP (list Z) := svc_get_cstr svc (str "tags") [].
Definition svc_get_argv (svc : Z) : DP (list Z) := svc_get_cstr svc (str "args") [].
Definition svc_get_fds (svc : Z) : DP (list Z) := svc_get_cstr svc (str "fds") null_fds.
Definition svc_get_triggers (svc : Z) : DP (list Z) := svc_get_cstr svc (str "triggers") [].

Definition nonempty (s : strseg_t) : option strseg_t := if seg_len s <=? 0 then None else Some s.

Definition svc_set_tags (svc : Z) (new_tags : strseg_t) : DP bool :=
  svc_set_var svc (STRSEG (str "tags")) (nonempty new_tags).
Definition svc_set_argv (svc : Z) (new_argv : strseg_t) : DP bool :=
  svc_set_var svc (STRSEG (str "args")) (nonempty new_argv).

(** The loop of [svc_set_fds] over the names. *)
Fixpoint svc_fds_loop (fuel : nat) (svc : Z) (fds : strseg_t) : DP unit :=
  match fuel with
  | O => nofuel
  | S fuel =>
      '(more, fds, name) ← lift (strseg_tok_next fds TAB);
      if (more : bool) then
        e ← lift (strseg_cmp name (STRSEG (str "control.event")));
        when (e =? 0) (upd_svc svc (set_uses_control_event true));;
        c ← lift (strseg_cmp name (STRSEG (str "control.cmd")));
        when (c =? 0) (upd_svc svc (set_uses_control_cmd true));;
        s ← lift (strseg_cmp name (STRSEG (str "control.socket")));
        when (s =? 0) (upd_svc svc (set_uses_control_socket true));;
        svc_fds_loop fuel svc fds
      else mret tt
  end.

Definition svc_set_fds (svc : Z) (new_fds : strseg_t) : DP bool :=
  let new_fds := if seg_len new_fds <? 0 then Seg (seg_buf new_fds) (seg_off new_fds) 0 else new_fds in
  c ← lift (strseg_cmp new_fds (STRSEG null_fds));
  ok ← (if c =? 0 then svc_set_var svc (STRSEG (str "fds")) None;; mret true
        else svc_set_var svc (STRSEG (str "fds")) (Some new_fds));
  if negb ok then mret false
  else
    upd_svc svc (set_uses_control_event false);;
    upd_svc svc (set_uses_control_cmd false);;
    upd_svc svc (set_uses_control_socket false);;
    svc_fds_loop (Z.to_nat (seg_len new_fds) + 3) svc new_fds;;
    mret true.

Definition svc_get_restart_interval (svc : Z) : DP Z := s ← svc_obj svc; mret (restart_interval s).

Definition svc_set_restart_interval (svc : Z) (interval : Z) : DP bool :=
  if Z.shiftr interval 32 <? 1 then mret false
  else upd_svc svc (set_restart_interval interval);; mret true.

(** ** The pid index *)

Definition svc_change_pid (svc : Z) (pid : Z) : DP unit :=
  s ← svc_obj svc;
  when (negb (svc_pid s =? 0)) (rb (RBTreeNode_Prune (pid_node svc));; mret tt);;
  upd_svc svc (set_svc_pid pid);;
  (if negb (pid =? 0) then
     rb (RBTreeNode_Init (pid_node svc));;
     rb (store (pid_node svc) (set_Object svc));;
     objs ← gets (λ g, svc_objs (g_svc g));
     rb (RBTree_Add (svc_by_pid_compare objs) svc_by_pid_index (pid_node svc) pid);;
     mret tt
   else mret tt);;
  svc_check svc.

Definition svc_by_pid (pid : Z) : DP Z :=
  objs ← gets (λ g, svc_objs (g_svc g));
  s ← rb (RBTree_Find (svc_by_pid_compare objs) svc_by_pid_index pid);
  if Relation s =? 0 then rb (load (Nearest s) Object) else mret 0.

Definition svc_by_name (name : strseg_t) (create : bool) : DP Z :=
  objs ← gets (λ g, svc_objs (g_svc g));
  s ← rb (RBTree_Find (svc_by_name_compare objs) svc_by_name_index name);
  if Relation s =? 0 then rb (load (Nearest s) Object)
  else
    ok ← (if create then lift (svc_check_name name) else mret false);
    if (ok : bool) then svc_new name else mret 0.

Definition svc_iter_next (svc : Z) (from_name : list Z) : DP Z :=
  node ←
    (if negb (svc =? 0) then rb (RBTreeNode_GetNext (name_node svc))
     else
       objs ← gets (λ g, svc_objs (g_svc g));
       s ← rb (RBTree_Find (svc_by_name_compare objs) svc_by_name_index (STRSEG from_name));
       if Nearest s =? NULL then mret NULL
       else if Relation s <? 0 then mret (Nearest s)
       else rb (RBTreeNode_GetNext (Nearest s)));
  if negb (node =? NULL) then rb (load node Object) else mret 0.

(** ** The state machine *)

Definition svc_notify_state (svc : Z) : DP unit :=
  s ← svc_obj svc;
  ctl_notify_svc_state None (svc_name s) (start_time s) (reap_time s) (wait_status s) (svc_pid s);;
  mret tt.

Definition svc_handle_start (svc : Z) (time : Z) : DP bool :=
  s ← svc_obj svc;
  now ← gets (λ g, wake_now (g_wake g));
  if negb (svc_state s =? SVC_STATE_DOWN) && negb (svc_state s =? SVC_STATE_START) then
    log_debug (str "Can't start service " ++ quoted (svc_name s) ++ str ": state is " ++ fmt_d (svc_state s));;
    mret false
  else
    time ← (if wrap64 (time - now) >? 0 then
              log_debug (str "start service " ++ quoted (svc_name s) ++ str " in " ++
                fmt_d (secs (wrap64 (time - now))) ++ str " seconds");;
              mret time
            else
              log_debug (str "start service " ++ quoted (svc_name s) ++ str " now");;
              mret now);
    upd_svc svc (set_svc_state SVC_STATE_START);;
    upd_svc svc (set_start_time (if time =? 0 then 1 else time));;
    svc_change_pid svc 0;;
    upd_svc svc (set_reap_time 0);;
    upd_svc svc (set_wait_status (-1));;
    svc_set_active svc true;;
    svc_notify_state svc;;
    wake_now_again;;
    mret true.

Definition svc_cancel_start (svc : Z) : DP bool :=
  s ← svc_obj svc;
  if negb (svc_state s =? SVC_STATE_START) then
    log_debug (str "Can't cancel start for service " ++ quoted (svc_name s) ++ str ": state is " ++ fmt_d (svc_state s));;
    mret false
  else
    upd_svc svc (set_svc_state SVC_STATE_DOWN);;
    upd_svc svc (set_start_time 0);;
    svc_set_active svc false;;
    svc_notify_state svc;;
    mret true.

Definition svc_handle_reaped (svc : Z) (wstat : Z) : DP unit :=
  s ← svc_obj svc;
  now ← gets (λ g, wake_now (g_wake g));
  if svc_state s =? SVC_STATE_UP then
    upd_svc svc (set_wait_status wstat);;
    upd_svc svc (set_svc_state SVC_STATE_REAPED);;
    upd_svc svc (set_reap_time now);;
    svc_set_active svc true;;
    wake_now_again
  else mret tt.

Definition svc_send_signal (svc : Z) (signum : Z) (group : bool) : DP bool :=
  if svc =? 0 then mret false
  else
    s ← svc_obj svc;
    if svc_pid s <=? 0 then mret false
    else
      log_debug (str "Sending signal " ++ fmt_d signum ++ str " to service " ++ quoted (svc_name s) ++
        str " pid " ++ fmt_d (svc_pid s));;
      r ← sys (if group then CKillpg (svc_pid s) signum else CKill (svc_pid s) signum);
      mret (ret r =? 0).

(** The loop of [svc_check_sigwake] from the event after [sig_ts]; an event is
    reported once. *)
Fixpoint svc_sigwake_loop (fuel : nat) (sigs : gset Z) (sig_ts : Z) : DP bool :=
  match fuel with
  | O => nofuel
  | S fuel =>
      e ← sig_get_new_events sig_ts;
      match e with
      | Some (signum, sig_ts, _) =>
          if bool_decide (signum ∈ sigs) then mret true else svc_sigwake_loop fuel sigs sig_ts
      | None => mret false
      end
  end.

Definition sig_events_fuel : nat := 18.

Definition svc_check_sigwake (svc : Z) : DP bool :=
  s ← svc_obj svc;
  if negb (svc_sigwake s) then mret false
  else svc_sigwake_loop sig_events_fuel (autostart_signals s) 0.

(** The loop of [svc_set_triggers] over the list; [None] for an unknown trigger. *)
Fixpoint svc_triggers_loop (fuel : nat) (list_ : strseg_t) (sigs : gset Z) (autostart enable_sigs : bool)
    : outcome (option (gset Z * bool * bool)) :=
  match fuel with
  | O => OutOfFuel
  | S fuel =>
      '(more, list_, trigger) ← strseg_tok_next list_ TAB;
      if (more : bool) && (seg_len trigger >? 0) then
        c ← strseg_cmp trigger (STRSEG (str "always"));
        if c =? 0 then svc_triggers_loop fuel list_ sigs true enable_sigs
        else
          signum ← sig_num_by_name trigger;
          if signum >? 0 then
            if signum >? 64 then Done None
            else svc_triggers_loop fuel list_ ({[signum]} ∪ sigs) autostart true
          else Done None
      else Done (Some (sigs, autostart, enable_sigs))
  end.

Definition svc_set_triggers (svc : Z) (triggers_tsv : strseg_t) : DP bool :=
  r ← lift (svc_triggers_loop (Z.to_nat (seg_len triggers_tsv) + 3) triggers_tsv ∅ false false);
  match r with
  | None => mret false
  | Some (sigs, autostart, enable_sigs) =>
      ok ← svc_set_var svc (STRSEG (str "triggers")) (nonempty triggers_tsv);
      if negb ok then mret false
      else
        upd_svc svc (set_auto_restart autostart);;
        upd_svc svc (set_autostart_signals sigs);;
        svc_set_sigwake svc enable_sigs;;
        s ← svc_obj svc;
        wake ← (if auto_restart s then mret true else svc_check_sigwake svc);
        (if (wake : bool) then
           now ← gets (λ g, wake_now (g_wake g));
           svc_handle_start svc now;; mret tt
         else mret tt);;
        mret true
  end.

(** ** Running the daemon of a service *)

(** The [fail:] label of [svc_do_fork]. *)
Definition svc_fork_fail (ctl : option nat) (s0 s1 : Z) : DP bool :=
  (match ctl with
   | Some i => ctl_dtor i;; ctl_free ctl
   | None => when (s0 >=? 0) (sys (CClose s0);; mret tt)
   end);;
  when (s1 >=? 0) (sys (CClose s1);; mret tt);;
  mret false.

(** The name list of [svc_do_exec] resolved to numbers; the stores go to the memory
    of [alloca(fd_count)]. *)
Fixpoint svc_resolve_fds (fuel : nat) (cap : Z) (tmp : strseg_t) (acc : list Z) : DP (list Z) :=
  match fuel with
  | O => nofuel
  | S fuel =>
      '(more, tmp, fd_name) ← lift (strseg_tok_next tmp TAB);
      if (more : bool) then
        let push n := assert (4 * (Z.of_nat (length acc) + 1) <=? cap);; svc_resolve_fds fuel cap tmp (acc ++ [n]) in
        if seg_len fd_name <=? 0 then
          log_warn (str "ignoring zero-length file descriptor name");;
          svc_resolve_fds fuel cap tmp acc
        else
          c ← lift (seg_at fd_name 0);
          if (seg_len fd_name =? 1) && (c =? ch "-") then push (-1)
          else
            fd ← fd_by_name fd_name;
            if negb (fd =? 0) then n ← fd_get_fdnum fd; push n
            else
              n ← lift (seg_str fd_name);
              log_error (str "file descriptor " ++ quoted n ++ str " does not exist");;
              fault
      else mret acc
  end.

Fixpoint count_fields (fuel : nat) (tmp : strseg_t) (n : Z) : outcome Z :=
  match fuel with
  | O => OutOfFuel
  | S fuel =>
      '(more, tmp, _) ← strseg_tok_next tmp TAB;
      if (more : bool) then count_fields fuel tmp (n + 1) else Done n
  end.

(** [while (fd >= 0 && fd < fd_count) fd= dup(fd);] *)
Fixpoint svc_dup_away (fuel : nat) (fd count : Z) : DP Z :=
  match fuel with
  | O => nofuel
  | S fuel =>
      if (fd >=? 0) && (fd <? count) then
        r ← sys (CDup fd);
        if ret r <? 0 then
          log_error (str "Failed to dup file descriptor " ++ fmt_d (ret r));;
          fault
        else svc_dup_away fuel (ret r) count
      else mret fd
  end.

Fixpoint svc_dup_away_all (l : list Z) (count : Z) : DP (list Z) :=
  match l with
  | [] => mret []
  | fd :: l =>
      n ← svc_dup_away (Z.to_nat count + 2) fd count;
      l ← svc_dup_away_all l count;
      mret (n :: l)
  end.

(** Each number moved to its slot [i]. *)
Fixpoint svc_dup2_all (l : list Z) (i : Z) : DP unit :=
  match l with
  | [] => mret tt
  | fd :: l =>
      (if fd >=? 0 then
         r ← sys (CDup2 fd i);
         if ret r <? 0 then
           log_error (str "Failed to dup file descriptor " ++ fmt_d fd ++ str " to " ++ fmt_d i);;
           fault
         else mret tt
       else sys (CClose i);; mret tt);;
      svc_dup2_all l (i + 1)
  end.

(** [while (i < FD_SETSIZE) close(i++);] *)
Fixpoint close_from (n : nat) (i : Z) : DP unit :=
  match n with
  | O => mret tt
  | S n => sys (CClose i);; close_from n (i + 1)
  end.

Definition svc_do_exec (svc : Z) : DP unit :=
  sig_reset_for_exec;;
  fds ← svc_get_fds svc;
  let fd_spec := STRSEG fds in
  fd_list ←
    (if negb (length fds =? 0)%nat then
       n ← lift (count_fields (length fds + 3) fd_spec 0);
       svc_resolve_fds (length fds + 3) (alloca_cap n) fd_spec []
     else mret []);
  let fd_count := Z.of_nat (length fd_list) in
  fd_list ← svc_dup_away_all fd_list fd_count;
  svc_dup2_all fd_list 0;;
  close_from (Z.to_nat FD_SETSIZE - length fd_list) fd_count;;
  spec ← svc_get_argv svc;
  argv ← lift (make_argv spec);
  assert (8 * (Z.of_nat (length argv) + 1) <=? alloca_cap (Z.of_nat (length argv) + 1));;
  r ← sys (CExec argv);
  if ret r >=? 0 then execed argv
  else
    e ← gets g_errno;
    log_error (str "exec(" ++ hd [] argv ++ str ", ...) failed: " ++ strerror e);;
    exited EXIT_INVALID_ENVIRONMENT.

Definition AF_UNIX : Z := 1.
Definition SOCK_STREAM : Z := 1.
Definition SHUT_RD : Z := 0.
Definition SHUT_WR : Z := 1.

(** The part of [svc_do_fork] after the sockets are set up. *)
Definition svc_fork_child (svc : Z) (ctl : option nat) (s0 s1 : Z) : DP bool :=
  p ← sys CFork;
  if ret p <? 0 then
    e ← gets g_errno;
    log_error (str "fork failed: " ++ strerror e);;
    svc_fork_fail ctl s0 s1
  else if ret p =? 0 then
    when (s0 >=? 0) (sys (CClose s0);; mret tt);;
    (if s1 >=? 0 then
       a ← fd_by_name (STRSEG (str "control.socket")); fd_set_fdnum a s1;;
       b ← fd_by_name (STRSEG (str "control.cmd")); fd_set_fdnum b s1;;
       c ← fd_by_name (STRSEG (str "control.event")); fd_set_fdnum c s1
     else mret tt);;
    svc_do_exec svc;;
    fault
  else
    when (s1 >=? 0) (sys (CClose s1);; mret tt);;
    svc_change_pid svc (ret p);;
    mret true.

Definition svc_do_fork (svc : Z) : DP bool :=
  s ← svc_obj svc;
  let want_read := uses_control_socket s || uses_control_event s in
  let want_write := uses_control_socket s || uses_control_cmd s in
  if uses_control_socket s || uses_control_event s || uses_control_cmd s then
    ctl ← ctl_alloc;
    match ctl with
    | None =>
        ctl_free ctl;;
        log_error (str "can't allocate controller object");;
        svc_fork_fail None (-1) (-1)
    | Some i =>
        r ← sys (CSocketpair AF_UNIX SOCK_STREAM);
        if negb (ret r =? 0) then
          e ← gets g_errno;
          log_error (str "can't create socketpair: " ++ strerror e);;
          svc_fork_fail ctl (-1) (-1)
        else
          let s0 := nth 0 (fds r) (-1) in
          let s1 := nth 1 (fds r) (-1) in
          ok ← ctl_ctor i (if want_write then s0 else -1) (if want_read then s0 else -1);
          if negb ok then
            log_error (str "can't initialize controller");;
            svc_fork_fail ctl s0 s1
          else
            when (negb (uses_control_socket s))
              (when (negb want_read) (sys (CShutdown s1 SHUT_RD);; sys (CShutdown s0 SHUT_WR);; mret tt);;
               when (negb want_write) (sys (CShutdown s1 SHUT_WR);; sys (CShutdown s0 SHUT_RD);; mret tt));;
            svc_fork_child svc ctl s0 s1
    end
  else svc_fork_child svc None (-1) (-1).

(** [svc_run]; one unit of fuel per pass of the [switch].  After a failed fork the
    start is delayed, and after a restart is decided the service waits or forks, so
    no more than four passes are made. *)
Fixpoint svc_run_switch (fuel : nat) (svc : Z) : DP unit :=
  match fuel with
  | O => nofuel
  | S fuel =>
      s ← svc_obj svc;
      w ← gets g_wake;
      if svc_state s =? SVC_STATE_START then
        if wrap64 (start_time s - wake_now w) >? 0 then
          when (wrap64 (start_time s - wake_next w) <? 0) (modify (on_wake (set_wake_next (start_time s))));;
          svc_set_active svc true;;
          svc_check svc
        else
          ok ← svc_do_fork svc;
          now ← gets (λ g, wake_now (g_wake g));
          if negb ok then
            log_info (str "will retry in " ++ fmt_d (secs FORK_RETRY_DELAY) ++ str " seconds");;
            svc_handle_start svc (wrap64 (now + FORK_RETRY_DELAY));;
            svc_run_switch fuel svc
          else
            upd_svc svc (set_start_time (if now =? 0 then 1 else now));;
            upd_svc svc (set_svc_state SVC_STATE_UP);;
            svc_notify_state svc;;
            svc_set_active svc false;;
            svc_check svc
      else if svc_state s =? SVC_STATE_UP then
        svc_set_active svc false;;
        svc_check svc
      else if svc_state s =? SVC_STATE_REAPED then
        svc_notify_state svc;;
        upd_svc svc (set_svc_state SVC_STATE_DOWN);;
        again ← (if auto_restart s then mret true else svc_check_sigwake svc);
        (if (again : bool) then
           now ← gets (λ g, wake_now (g_wake g));
           svc_handle_start svc
             (if wrap64 (reap_time s - start_time s) <? restart_interval s
              then wrap64 (now + restart_interval s) else now);;
           svc_notify_state svc
         else mret tt);;
        svc_run_switch fuel svc
      else if svc_state s =? SVC_STATE_DOWN then
        svc_set_active svc false;;
        svc_check svc
      else fault
  end.

Definition svc_run (svc : Z) : DP unit := svc_run_switch 5 svc.

(** The loop of [svc_run_active] over the services woken by signals. *)
Fixpoint svc_sigwake_all (fuel : nat) (svc : Z) (signum : Z) : DP unit :=
  match fuel with
  | O => nofuel
  | S fuel =>
      if svc =? 0 then mret tt
      else
        s ← svc_obj svc;
        now ← gets (λ g, wake_now (g_wake g));
        when (bool_decide (signum ∈ autostart_signals s)) (svc_handle_start svc now;; mret tt);;
        svc_sigwake_all fuel (sigwake_next s) signum
  end.

Fixpoint svc_signals_loop (fuel : nat) : DP unit :=
  match fuel with
  | O => nofuel
  | S fuel =>
      last ← gets (λ g, svc_last_signal_ts (g_svc g));
      e ← sig_get_new_events last;
      match e with
      | Some (signum, sig_ts, _) =>
          m ← gets g_svc;
          svc_sigwake_all (S (size (svc_objs m))) (svc_sigwake_list m) signum;;
          modify (on_svc (set_svc_last_signal_ts sig_ts));;
          svc_signals_loop fuel
      | None => mret tt
      end
  end.

Fixpoint svc_run_all (fuel : nat) (svc : Z) : DP unit :=
  match fuel with
  | O => nofuel
  | S fuel =>
      if svc =? 0 then mret tt
      else
        s ← svc_obj svc;
        svc_run svc;;
        svc_run_all fuel (active_next s)
  end.

Definition svc_run_active : DP unit :=
  m ← gets g_svc;
  when (negb (svc_sigwake_list m =? 0)) (svc_signals_loop sig_events_fuel);;
  m ← gets g_svc;
  svc_run_all (S (size (svc_objs m))) (svc_active_list m).
End svc.
