(* ===== verification/Preserves.v ===== *)
(** * Relations that computations preserve

    A computation [preserves] a relation when every state it ends in is related to
    the one it starts from.  [preserves_step] goes through the structure of a
    computation; what is left are its primitive steps. *)

From S2P Require Import Prelude State CtlOut Fd Service.

Definition preserves {A} (R : G → G → Prop) (m : DP A) : Prop := ∀ g a g', m g = Done (a, g') → R g g'.

Section preserves.
Context (R : G → G → Prop) `{!PreOrder R}.

Lemma preserves_ret {A} (a : A) : preserves R (mret a).
Proof. intros g b g' [= _ ->]. reflexivity. Qed.

Lemma preserves_bind {A B} (m : DP A) (f : A → DP B) : preserves R m → (∀ a, preserves R (f a)) → preserves R (m ≫= f).
Proof.
  intros Hm Hf g b g' E. unfold mbind, M_bind in E. destruct (m g) as [[a g1]| | | |] eqn:E1; try done.
  transitivity g1; [by eapply Hm|by eapply Hf].
Qed.

(** With a fact about the result of the first part. *)
Lemma preserves_bind_if {A B} (P : A → Prop) (m : DP A) (f : A → DP B) : preserves R m → (∀ g a g', m g = Done (a, g') → P a) →
  (∀ a, P a → preserves R (f a)) → preserves R (m ≫= f).
Proof.
  intros Hm HP Hf g b g' E. unfold mbind, M_bind in E. destruct (m g) as [[a g1]| | | |] eqn:E1; try done.
  transitivity g1; [by eapply Hm|]. eapply Hf; [by eapply HP|done].
Qed.

Lemma preserves_gets {A} (f : G → A) : preserves R (gets f).
Proof. intros g b g' [= _ ->]. reflexivity. Qed.

Lemma preserves_modify (f : G → G) : (∀ g, R g (f g)) → preserves R (modify f).
Proof. intros Hf g b g' [= _ <-]. apply Hf. Qed.

Lemma preserves_lift {A} (o : outcome A) : preserves R (lift o).
Proof. intros g b g' E. unfold lift in E. destruct o; cbn in E; try done. injection E as _ ->. reflexivity. Qed.

Lemma preserves_fault {A} : preserves R (fault : DP A).
Proof. done. Qed.

Lemma preserves_nofuel {A} : preserves R (nofuel : DP A).
Proof. done. Qed.

Lemma preserves_assert b : preserves R (assert b).
Proof. destruct b; [apply preserves_ret|apply preserves_fault]. Qed.

Lemma preserves_when b m : preserves R m → preserves R (when b m).
Proof. destruct b; [done|intros _; apply preserves_ret]. Qed.

Lemma preserves_get i : preserves R (get_ctl i).
Proof. intros g a g'. unfold get_ctl. destruct (g_ctl g !! i); [|done]. intros [= _ ->]. reflexivity. Qed.

Lemma preserves_fd_obj p : preserves R (fd_obj p).
Proof. intros g a g'. unfold fd_obj. destruct (_ !! _); [|done]. intros [= _ ->]. reflexivity. Qed.

Lemma preserves_svc_obj p : preserves R (svc_obj p).
Proof. intros g a g'. unfold svc_obj. destruct (_ !! _); [|done]. intros [= _ ->]. reflexivity. Qed.

Lemma preserves_execed {A} argv : preserves R (execed argv : DP A).
Proof. done. Qed.

Lemma preserves_exited {A} code : preserves R (exited code : DP A).
Proof. done. Qed.
End preserves.

(** One step of a proof that a computation preserves the relation [R]. *)
Ltac preserves_step :=
  match goal with
  | |- preserves _ (mret _) => apply preserves_ret, _
  | |- preserves _ (_ ≫= _) => apply preserves_bind; [apply _| |intros ?]
  | |- preserves _ (gets _) => apply preserves_gets, _
  | |- preserves _ (lift _) => apply preserves_lift, _
  | |- preserves _ fault => apply preserves_fault
  | |- preserves _ nofuel => apply preserves_nofuel
  | |- preserves _ (assert _) => apply preserves_assert, _
  | |- preserves _ (when _ _) => apply preserves_when; [apply _|]
  | |- preserves _ (get_ctl _) => apply preserves_get, _
  | |- preserves _ (fd_obj _) => apply preserves_fd_obj, _
  | |- preserves _ (svc_obj _) => apply preserves_svc_obj, _
  | |- preserves _ (execed _) => apply preserves_execed
  | |- preserves _ (exited _) => apply preserves_exited
  | |- preserves _ (match ?x with _ => _ end) => destruct x
  | |- preserves _ (let _ := _ in _) => cbv zeta
  end.
