(* ===== verification/SvcFork.v ===== *)
(** * Which operations fork

    [fork_answers] picks what [fork] returned out of the calls that were made.  The
    operations of a service other than [svc_do_fork] make no such call, so the runs of
    the state machine can be told apart by the answers they got. *)

From S2P Require Import Prelude State RBTree Log Signal CtlOut Fd CtlObj Service Preserves.

(** What [fork] returned, the latest first. *)
Definition fork_answers (tr : list (syscall * sysret)) : list Z :=
  omap (λ x, match x.1 with CFork => Some (ret x.2) | _ => None end) tr.

(** From [g] to [g'] the answers [fs] were given. *)
Definition forked (fs : list Z) (g g' : G) : Prop :=
  fork_answers (g_trace g') = fs ++ fork_answers (g_trace g).

#[export] Instance forked_nil_preorder : PreOrder (forked []).
Proof. unfold forked. split; [done|]. intros g1 g2 g3 H1 H2. cbn in *. congruence. Qed.

Lemma forked_trans fs1 fs2 g1 g2 g3 : forked fs1 g1 g2 → forked fs2 g2 g3 → forked (fs2 ++ fs1) g1 g3.
Proof. unfold forked. intros H1 H2. by rewrite H2, H1, app_assoc. Qed.

Lemma forked_before fs g1 g2 g3 : forked [] g1 g2 → forked fs g2 g3 → forked fs g1 g3.
Proof. intros H1 H2. pose proof (forked_trans _ _ _ _ _ H1 H2) as H3. by rewrite app_nil_r in H3. Qed.

Lemma forked_after fs g1 g2 g3 : forked fs g1 g2 → forked [] g2 g3 → forked fs g1 g3.
Proof. apply forked_trans. Qed.

(** A computation that does not fork. *)
Abbreviation forkless := (preserves (forked [])).

Lemma forkless_modify f : (∀ g, g_trace (f g) = g_trace g) → forkless (modify f).
Proof. intros Hf. apply preserves_modify. intros g. unfold forked. by rewrite Hf. Qed.

Lemma forkless_sys `{OS} c : c ≠ CFork → forkless (sys c).
Proof. intros Hc g a g' [= _ <-]. unfold forked. cbn. by destruct c. Qed.

Lemma forkless_upd_ctl i f : forkless (upd_ctl i f).
Proof. intros g a g'. unfold upd_ctl. destruct (_ !! _); [|done]. by intros [= _ <-]. Qed.

Lemma forkless_upd_svc o f : forkless (upd_svc o f).
Proof. intros g a g'. unfold upd_svc. destruct (_ !! _); [|done]. by intros [= _ <-]. Qed.

Lemma forkless_rb {A} (m : RB A) : forkless (rb m).
Proof. intros g a g'. unfold rb. destruct (m (g_rb g)) as [[]| | | |]; try done. by intros [= _ <-]. Qed.

Create HintDb forkless.
#[export] Hint Resolve forkless_upd_ctl forkless_upd_svc forkless_rb : forkless.

Ltac forkless_head t := match t with ?f _ => forkless_head f | _ => t end.

Ltac forkless :=
  repeat first
    [ preserves_step
    | solve [auto 2 with forkless nocore]
    | apply forkless_sys; done
    | apply forkless_modify; done
    | match goal with |- preserves _ ?m =>
        let h := forkless_head m in lazymatch h with @sys => fail | _ => progress unfold h end end ].

Section forkless.
Context `{OS}.

Lemma forkless_flush_loop fuel : forkless (log_flush_loop fuel).
Proof. induction fuel; cbn [log_flush_loop]; forkless. Qed.
#[local] Hint Resolve forkless_flush_loop : forkless.

Lemma forkless_log level msg : forkless (log_write level msg).
Proof. forkless. Qed.
#[local] Hint Resolve forkless_log : forkless.

Lemma forkless_log_tt level msg : forkless (log_write level msg;; mret tt).
Proof. forkless. Qed.

Lemma forkless_ctl_flush_loop fuel i : forkless (ctl_flush_loop fuel i).
Proof. induction fuel; cbn [ctl_flush_loop]; forkless. Qed.
#[local] Hint Resolve forkless_ctl_flush_loop : forkless.

Lemma forkless_write_one fuel i msg : forkless (ctl_write_one fuel i msg).
Proof. induction fuel; cbn [ctl_write_one]; forkless. Qed.
#[local] Hint Resolve forkless_write_one : forkless.

Lemma forkless_write_all dest msg : forkless (ctl_write_all dest msg).
Proof. induction dest; cbn [ctl_write_all]; forkless. Qed.
#[local] Hint Resolve forkless_write_all : forkless.

Lemma forkless_notify o : forkless (svc_notify_state o).
Proof. forkless. Qed.

Lemma forkless_fds_loop fuel o fds : forkless (svc_fds_loop fuel o fds).
Proof. revert o fds. induction fuel; intros; cbn [svc_fds_loop]; forkless. Qed.
#[local] Hint Resolve forkless_fds_loop forkless_notify : forkless.

Lemma forkless_check o : forkless (svc_check o).
Proof. forkless. Qed.
#[local] Hint Resolve forkless_check : forkless.

Lemma forkless_active o b : forkless (svc_set_active o b).
Proof. forkless. Qed.
#[local] Hint Resolve forkless_active : forkless.

Lemma forkless_change_pid o pid : forkless (svc_change_pid o pid).
Proof. forkless. Qed.
#[local] Hint Resolve forkless_change_pid : forkless.

Lemma forkless_start o time : forkless (svc_handle_start o time).
Proof. forkless. Qed.
End forkless.
#[export] Hint Resolve forkless_log forkless_log_tt forkless_notify forkless_check forkless_active forkless_change_pid forkless_start : forkless.
