(* ===== verification/Dll.v ===== *)
(** * Doubly linked lists with a pointer to the previous pointer

    service.c threads two such lists through its services.  [dll] relates the links
    to the list of the addresses; the lemmas describe the insertion at the head and
    the removal anywhere as service.c writes them. *)

From S2P Require Import Prelude State.

Section dll.
Context (prevf : service_t → prev_ptr_t) (nextf : service_t → Z).
Context (setprev : prev_ptr_t → service_t → service_t) (setnext : Z → service_t → service_t).
Hypothesis prev_setprev : ∀ p s, prevf (setprev p s) = p.
Hypothesis next_setprev : ∀ p s, nextf (setprev p s) = nextf s.
Hypothesis prev_setnext : ∀ n s, prevf (setnext n s) = prevf s.
Hypothesis next_setnext : ∀ n s, nextf (setnext n s) = n.

(** The services [l], the first one pointed to by [prev], the last one pointing to [next]. *)
Fixpoint dll (objs : gmap Z service_t) (prev : prev_ptr_t) (l : list Z) (next : Z) : Prop :=
  match l with
  | [] => True
  | o :: l => ∃ s, objs !! o = Some s ∧ prevf s = prev ∧ nextf s = hd next l ∧ dll objs (prev_next o) l next
  end.

Definition last_prev (prev : prev_ptr_t) (l : list Z) : prev_ptr_t :=
  match last l with Some p => prev_next p | None => prev end.

Lemma last_prev_cons prev x l : last_prev prev (x :: l) = last_prev (prev_next x) l.
Proof.
  unfold last_prev. destruct l as [|y l]; [done|]. rewrite last_cons_cons.
  destruct (last (y :: l)) eqn:El; [done|]. by apply last_None in El.
Qed.

Lemma dll_app objs prev l1 l2 next : dll objs prev (l1 ++ l2) next ↔
  dll objs prev l1 (hd next l2) ∧ dll objs (last_prev prev l1) l2 next.
Proof.
  revert prev; induction l1 as [|x l1 IH]; intros prev; cbn [app dll]; [tauto|].
  rewrite last_prev_cons. setoid_rewrite IH.
  assert (Eh : hd next (l1 ++ l2) = hd (hd next l2) l1) by (by destruct l1).
  rewrite Eh. split.
  - intros (s & ? & ? & ? & ? & ?). eauto 10.
  - intros ((s & ? & ? & ? & ?) & ?). eauto 10.
Qed.

Lemma dll_ext objs objs' prev l next :
  (∀ o s, o ∈ l → objs !! o = Some s → ∃ s', objs' !! o = Some s' ∧ prevf s' = prevf s ∧ nextf s' = nextf s) →
  dll objs prev l next → dll objs' prev l next.
Proof.
  revert prev; induction l as [|o l IH]; intros prev Hobjs Hd; [done|]. destruct Hd as (s & Ho & Hp & Hn & Hd).
  destruct (Hobjs o s ltac:(by left) Ho) as (s' & Ho' & Hp' & Hn'). exists s'. split_and!; [done|congruence|congruence|].
  apply IH; [|done]. intros p t Hpl. apply Hobjs. by right.
Qed.

Lemma dll_insert_ne objs prev l next o s : o ∉ l → dll objs prev l next → dll (<[o := s]> objs) prev l next.
Proof. intros Ho. apply dll_ext. intros p t Hp Hpt. exists t. by rewrite lookup_insert_ne by (intros ->; done). Qed.

(** Setting a field of a service that may be missing. *)
Definition upd_at (p : Z) (f : service_t → service_t) (objs : gmap Z service_t) : gmap Z service_t :=
  match objs !! p with Some s => <[p := f s]> objs | None => objs end.

Lemma dll_upd_ne objs prev l next p f : p ∉ l → dll objs prev l next → dll (upd_at p f objs) prev l next.
Proof. intros Hp Hd. unfold upd_at. case_match; [by apply dll_insert_ne|done]. Qed.

(** A new [prev] for the first one. *)
Lemma dll_reprev objs prev prev' l next : dll objs prev l next → NoDup l → next ∉ l →
  dll (upd_at (hd next l) (setprev prev') objs) prev' l next.
Proof.
  intros Hd Hnd Hnext. destruct l as [|h l]; [done|]. cbn. destruct Hd as (s & Hs & Hp & Hn & Hd).
  apply NoDup_cons in Hnd as [Hh _]. unfold upd_at. rewrite Hs. exists (setprev prev' s).
  rewrite lookup_insert_eq, prev_setprev, next_setprev. split_and!; [done..|]. by apply dll_insert_ne.
Qed.

(** A new [next] for the last one. *)
Lemma dll_renext objs prev l x next next' : dll objs prev (l ++ [x]) next → NoDup (l ++ [x]) →
  dll (upd_at x (setnext next') objs) prev (l ++ [x]) next'.
Proof.
  rewrite !dll_app. cbn. intros [Hd1 (s & Hs & Hp & Hn & _)] Hnd. apply NoDup_app in Hnd as (_ & Hx & _).
  split.
  - apply dll_upd_ne; [|done]. intros Hin. apply (Hx x Hin). by left.
  - unfold upd_at. rewrite Hs. exists (setnext next' s). rewrite lookup_insert_eq, prev_setnext, next_setnext. done.
Qed.

(** The map after inserting [o] before the list that starts at [h]. *)
Definition push (objs : gmap Z service_t) (o h : Z) : gmap Z service_t :=
  let objs := upd_at o (λ s, setnext h (setprev prev_head s)) objs in
  if h =? 0 then objs else upd_at h (setprev (prev_next o)) objs.

Lemma dll_push objs l o s : dll objs prev_head l 0 → NoDup (o :: l) → 0 ∉ l → objs !! o = Some s →
  dll (push objs o (hd 0 l)) prev_head (o :: l) 0.
Proof.
  intros Hd [Ho Hnd]%NoDup_cons H0 Hs. unfold push.
  set (objs1 := upd_at o _ objs).
  assert (E1 : objs1 !! o = Some (setnext (hd 0 l) (setprev prev_head s))).
  { unfold objs1, upd_at. by rewrite Hs, lookup_insert_eq. }
  assert (Hd1 : dll objs1 prev_head l 0) by by apply dll_upd_ne.
  exists (setnext (hd 0 l) (setprev prev_head s)). rewrite prev_setnext, prev_setprev, next_setnext.
  destruct l as [|h l]; [done|]. cbn [hd] in *. apply not_elem_of_cons in Ho as [Hoh Hol].
  rewrite (proj2 (Z.eqb_neq h 0)) by (intros ->; apply H0; by left).
  split_and!; [|done|done|].
  - unfold upd_at. case_match; [by rewrite lookup_insert_ne by done|done].
  - exact (dll_reprev objs1 prev_head (prev_next o) (h :: l) 0 Hd1 Hnd H0).
Qed.

(** The map after the removal of a service with the links [p] and [n]. *)
Definition unlink (objs : gmap Z service_t) (p : prev_ptr_t) (n : Z) : gmap Z service_t :=
  let objs := if n =? 0 then objs else upd_at n (setprev p) objs in
  match p with prev_next q => upd_at q (setnext n) objs | _ => objs end.

Lemma dll_unlink objs l1 o l2 s : dll objs prev_head (l1 ++ o :: l2) 0 → NoDup (l1 ++ o :: l2) → 0 ∉ l1 ++ o :: l2 →
  objs !! o = Some s →
  prevf s = last_prev prev_head l1 ∧ nextf s = hd 0 l2 ∧
  dll (unlink objs (prevf s) (nextf s)) prev_head (l1 ++ l2) 0.
Proof.
  rewrite dll_app. cbn. intros [Hd1 (s' & Hs & Hp & Hn & Hd2)] Hnd H0 Hs'. simplify_eq.
  rewrite elem_of_app, elem_of_cons in H0.
  apply NoDup_app in Hnd as (N1 & N2 & [N3 N4]%NoDup_cons).
  split_and!; [done|done|]. rewrite Hp, Hn. unfold unlink.
  set (objs1 := if hd 0 l2 =? 0 then objs else _).
  assert (A1 : dll objs1 prev_head l1 o).
  { unfold objs1. case_match; [done|]. destruct l2 as [|h l2]; [done|]. apply dll_upd_ne; [|done].
    cbn. intros Hin. apply (N2 h Hin). right. by left. }
  assert (A2 : dll objs1 (last_prev prev_head l1) l2 0).
  { unfold objs1. destruct l2 as [|h l2]; [done|]. cbn [hd].
    rewrite (proj2 (Z.eqb_neq h 0)) by (intros ->; apply H0; right; right; by left).
    apply (dll_reprev objs (prev_next o) _ (h :: l2) 0); [done|done|tauto]. }
  destruct (last l1) as [q|] eqn:El; unfold last_prev in *; rewrite El in *.
  - apply last_Some in El as [l1' ->]. apply dll_app. unfold last_prev. rewrite last_snoc.
    split; [by apply (dll_renext _ _ _ _ o)|]. apply dll_upd_ne; [|done]. intros Hin. apply (N2 q); [|by right].
    rewrite elem_of_app. right. by left.
  - apply last_None in El as ->. exact A2.
Qed.

(** What the two operations leave alone: everything but the links. *)
Lemma upd_at_lookup p f objs o : upd_at p f objs !! o =
  if decide (o = p) then f <$> objs !! o else objs !! o.
Proof.
  unfold upd_at. destruct (decide (o = p)) as [->|Hne].
  - destruct (objs !! p) eqn:E; [by rewrite lookup_insert_eq|by rewrite E].
  - case_match; [by rewrite lookup_insert_ne by done|done].
Qed.
Lemma upd_at_inv q f objs p t : upd_at q f objs !! p = Some t →
  ∃ t0, objs !! p = Some t0 ∧ (t = t0 ∨ p = q ∧ t = f t0).
Proof.
  rewrite upd_at_lookup. case_decide; [|eauto]. intros (t0 & -> & ->)%fmap_Some. eauto.
Qed.

(** One of the two lists: [l] is linked from [head], and the others are not linked. *)
Record list_ok (objs : gmap Z service_t) (head : Z)
    (names l : list Z) : Prop := {
  li_dll : dll objs prev_head l 0;
  li_head : head = hd 0 l;
  li_nodup : NoDup l;
  li_sub : ∀ o, o ∈ l → o ∈ names;
  li_iff : ∀ o s, o ∈ names → objs !! o = Some s → (prevf s = prev_null ↔ o ∉ l);
}.

(** A list is not affected by changes that keep its links. *)
Lemma list_ok_same objs objs' head names l : list_ok objs head names l →
  (∀ o, o ∈ names → is_Some (objs !! o)) →
  (∀ o s, o ∈ names → objs !! o = Some s → ∃ s', objs' !! o = Some s' ∧ prevf s' = prevf s ∧ nextf s' = nextf s) →
  list_ok objs' head names l.
Proof.
  intros [D1 D2 D3 D4 D5] Hsome Hobjs. split; try done.
  - eapply dll_ext; [|exact D1]. intros o s Ho. by apply Hobjs, D4.
  - intros o s' Ho Es'. destruct (Hsome o Ho) as [s Es]. destruct (Hobjs o s Ho Es) as (s'' & Es'' & Ep & _). simplify_eq.
    rewrite Ep. by apply D5.
Qed.

Lemma list_push_ok objs head names l o s : list_ok objs head names l → o ∈ names → o ∉ l → 0 ∉ names →
  (∀ p, p ∈ names → is_Some (objs !! p)) → objs !! o = Some s → list_ok (push objs o head) o names (o :: l).
Proof.
  intros [D1 D2 D3 D4 D5] Ho Hol H0 Hsome Hs. subst head. split.
  - apply (dll_push objs l o s); [done|by constructor|intros Hz; by apply H0, D4|done].
  - done.
  - by constructor.
  - intros p [->|Hp]%elem_of_cons; auto.
  - intros p t Hp Ht. rewrite elem_of_cons.
    destruct (Hsome p Hp) as [tp Htp]. pose proof (D5 p tp Hp Htp) as Hiff.
    assert (Hpush : push objs o (hd 0 l) !! p = if decide (p = o) then Some (setnext (hd 0 l) (setprev prev_head s))
      else if decide (p = hd 0 l) then Some (setprev (prev_next o) tp) else Some tp).
    { unfold push. case_match eqn:Eh.
      - apply Z.eqb_eq in Eh. rewrite upd_at_lookup. destruct (decide (p = o)) as [->|]; [by rewrite Hs|].
        rewrite decide_False; [done|]. intros E0. apply H0. by rewrite <-Eh, <-E0.
      - apply Z.eqb_neq in Eh. assert (Hh : hd 0 l ∈ l) by (destruct l; [done|by left]).
        rewrite !upd_at_lookup. destruct (decide (p = o)) as [->|].
        + rewrite decide_False by (intros ->; done). by rewrite Hs.
        + rewrite Htp. by case_decide. }
    rewrite Hpush in Ht. destruct (decide (p = o)) as [->|Hpo].
    + injection Ht as <-. rewrite prev_setnext, prev_setprev. split; [done|]. intros Hn. destruct Hn. by left.
    + destruct (decide (p = hd 0 l)) as [Ep|Hph]; injection Ht as <-.
      * rewrite prev_setprev. split; [done|]. intros Hn. destruct Hn. right.
        destruct l as [|h l]; [|rewrite Ep; by left]. cbn in Ep. subst p. by destruct H0.
      * rewrite Hiff. tauto.
Qed.

Lemma list_unlink_ok objs head names l1 o l2 s : list_ok objs head names (l1 ++ o :: l2) → 0 ∉ names →
  (∀ p, p ∈ names → is_Some (objs !! p)) → objs !! o = Some s →
  unlink objs (prevf s) (nextf s) !! o = Some s ∧ prevf s ≠ prev_null ∧
  list_ok (<[o := setprev prev_null s]> (unlink objs (prevf s) (nextf s)))
    (match prevf s with prev_head => nextf s | _ => head end) names (l1 ++ l2).
Proof.
  intros [D1 D2 D3 D4 D5] H0 Hsome Hs.
  assert (Hin : ∀ p, p ∈ l1 ++ l2 → p ∈ l1 ++ o :: l2) by (intros p; rewrite !elem_of_app, elem_of_cons; tauto).
  assert (Hol : o ∈ l1 ++ o :: l2) by (rewrite elem_of_app, elem_of_cons; tauto).
  assert (Hnd : o ∉ l1 ++ l2 ∧ NoDup (l1 ++ l2)).
  { rewrite <-Permutation_middle in D3. by apply NoDup_cons in D3. }
  destruct Hnd as [Ho Hnd].
  destruct (dll_unlink objs l1 o l2 s D1 D3) as (Ep & En & Hd); [intros Hz; by apply H0, D4|done|].
  assert (Hn : nextf s ≠ 0 → nextf s ∈ l2).
  { rewrite En. destruct l2; [done|]. intros _. by left. }
  assert (Hp : ∀ q, prevf s = prev_next q → q ∈ l1).
  { intros q. rewrite Ep. unfold last_prev. destruct (last l1) as [q'|] eqn:El; [|done]. intros [= ->].
    by apply last_Some_elem_of. }
  assert (Hpn : prevf s ≠ prev_null).
  { rewrite Ep. unfold last_prev. by destruct (last l1). }
  assert (Hlook : ∀ p, p ∉ names ∨ p ≠ o → ∀ t, unlink objs (prevf s) (nextf s) !! p = Some t →
    ∃ t0, objs !! p = Some t0 ∧ (prevf t = prevf t0 ∨ prevf t = prevf s ∧ p = nextf s)).
  { intros p _ t Ht.
    assert (H1 : ∃ t1, (if nextf s =? 0 then objs else upd_at (nextf s) (setprev (prevf s)) objs) !! p = Some t1 ∧ prevf t = prevf t1).
    { unfold unlink in Ht. destruct (prevf s) as [| |q]; [by exists t..|].
      apply upd_at_inv in Ht as (t1 & Ht1 & [->|[_ ->]]); exists t1; by rewrite ?prev_setnext. }
    destruct H1 as (t1 & Ht1 & ->). destruct (nextf s =? 0); [by exists t1; auto|].
    apply upd_at_inv in Ht1 as (t0 & Ht0 & [->|[-> ->]]); exists t0; rewrite ?prev_setprev; auto. }
  assert (Hself : unlink objs (prevf s) (nextf s) !! o = Some s).
  { assert (Hon : nextf s ≠ 0 → o ≠ nextf s) by (intros Hz ->; apply Ho; rewrite elem_of_app; auto).
    unfold unlink. destruct (Z.eqb_spec (nextf s) 0) as [E0|E0], (prevf s) as [| |q] eqn:Epp; rewrite ?upd_at_lookup;
      rewrite ?(decide_False (P := o = nextf s)) by auto; try done.
    all: rewrite decide_False; [done|]; intros ->; apply Ho; rewrite elem_of_app; left; by apply Hp. }
  split_and!; [done|done|]. split.
  - by apply dll_insert_ne.
  - rewrite Ep, En. unfold last_prev. destruct (last l1) as [q|] eqn:El.
    + rewrite D2. destruct l1; [done|done].
    + apply last_None in El as ->. done.
  - done.
  - intros p Hp'. by apply D4, Hin.
  - intros p t Hp' Ht. destruct (decide (p = o)) as [->|Hpo].
    + rewrite lookup_insert_eq in Ht. injection Ht as <-. by rewrite prev_setprev.
    + rewrite lookup_insert_ne in Ht by done. destruct (Hlook p (or_intror Hpo) t Ht) as (t0 & Et0 & Hpt).
      assert (Hiff : p ∉ l1 ++ o :: l2 ↔ p ∉ l1 ++ l2) by (rewrite !elem_of_app, elem_of_cons; tauto).
      rewrite <-Hiff, <-(D5 p t0 Hp' Et0). destruct Hpt as [->|[-> ->]]; [done|]. split; [done|].
      intros E0. exfalso. apply (D5 _ t0 Hp' Et0) in E0. apply E0, Hin. rewrite elem_of_app. right. apply Hn.
      intros Hz. apply H0. by rewrite <-Hz.
Qed.
End dll.
