(* ===== verification/ServiceSpec.v ===== *)
(** * Properties of services: the tables and lists *)

From S2P Require Import Prelude Strseg State RBTree RBTreeRep OrdIndex RBTreeIndex Table Log Signal CtlOut CtlOutSpec SvcVars PtrArray Fd FdSpec CtlObj Service Dll.

(** ** The invariant *)

#[export] Instance pid_cmp_total : TotalCmp pid_cmp.
Proof. unfold pid_cmp. split; intros; repeat case_match; lia. Qed.

Lemma pid_cmp_eq a b : pid_cmp a b = 0 → a = b.
Proof. unfold pid_cmp. repeat case_match; lia. Qed.

(** One of the states that the switch of [svc_run] knows. *)
Definition state_known (s : service_t) : Prop := SVC_STATE_DOWN ≤ svc_state s ≤ SVC_STATE_REAPED.

(** The name, the variables and the state of a service. *)
Definition svc_wf (pool : bool) (s : service_t) : Prop :=
  0 < Z.of_nat (length (svc_name s)) < NAME_BUF_SIZE ∧
  (∃ l, vars_are (svc_vars s) l) ∧
  (pool = true → Z.of_nat (length (svc_name s)) + 1 + Z.of_nat (length (svc_vars s)) ≤ NAME_BUF_SIZE) ∧
  state_known s.

(** [names] and [pids] are the services in the order of the two indexes, [act] and
    [sigw] those on the two lists. *)
Record svc_ok (g : G) (names pids act sigw : list Z) : Prop := {
  so_names : table_at lex_cmp svc_by_name_index name_node (svc_name_key (svc_objs (g_svc g))) (g_rb g) names;
  so_pids : table_at pid_cmp svc_by_pid_index pid_node (svc_pid_key (svc_objs (g_svc g))) (g_rb g) pids;
  so_pid_iff : ∀ o, o ∈ pids ↔ o ∈ names ∧ svc_pid_key (svc_objs (g_svc g)) o ≠ 0;
  so_idle : ∀ o, o ∈ names → o ∉ pids → ∃ n, g_rb g !! pid_node o = Some n ∧
    Color n = RBTreeNode_Unassigned ∧ Object n = o;
  so_unique : NoDup (svc_name_key (svc_objs (g_svc g)) <$> names);
  so_objs : ∀ o, o ∈ names → ∃ s, svc_objs (g_svc g) !! o = Some s ∧ svc_wf (svc_pool (g_svc g)) s;
  so_null : svc_objs (g_svc g) !! 0 = None;
  so_active : list_ok active_prev_ptr active_next (svc_objs (g_svc g)) (svc_active_list (g_svc g)) names act;
  so_sigwake : list_ok sigwake_prev_ptr sigwake_next (svc_objs (g_svc g)) (svc_sigwake_list (g_svc g)) names sigw;
  so_count : 0 ≤ svc_list_count (g_svc g) ≤ svc_list_limit (g_svc g);
  so_len : Z.of_nat (length (svc_list (g_svc g))) = svc_list_limit (g_svc g);
  so_used : take (Z.to_nat (svc_list_count (g_svc g))) (svc_list (g_svc g)) ≡ₚ names;
  so_range : ∀ o, o ∈ names → 0 < o < g_next g;
  so_pool : svc_pool (g_svc g) = true → sizeof_service_t ≤ svc_pool_size_each (g_svc g) ∧
    NoDup (svc_list (g_svc g)) ∧ ∀ o, o ∈ svc_list (g_svc g) → 0 < o < g_next g;
  so_next : 0 < g_next g;
}.

(** ** Addresses *)

Definition svc_cell (a : ptr) : Prop :=
  a = Sentinel ∨ a = svc_by_name_index ∨ a = svc_by_pid_index ∨ a mod 16 = 5 ∨ a mod 16 = 6.

Lemma name_node_mod p : name_node p mod 16 = 5.
Proof. unfold name_node. rewrite (Z.mul_comm 16), Z.add_comm, Z.mod_add by lia. done. Qed.
Lemma pid_node_mod p : pid_node p mod 16 = 6.
Proof. unfold pid_node. rewrite (Z.mul_comm 16), Z.add_comm, Z.mod_add by lia. done. Qed.

Lemma name_node_inj p q : name_node p = name_node q → p = q.
Proof. unfold name_node. lia. Qed.
Lemma pid_node_inj p q : pid_node p = pid_node q → p = q.
Proof. unfold pid_node. lia. Qed.
Lemma name_pid_node p q : name_node p ≠ pid_node q.
Proof. unfold name_node, pid_node. lia. Qed.

(** No node has the address of a fixed cell. *)
Lemma svc_node_ne p : ∀ a, a = Sentinel ∨ a = svc_by_name_index ∨ a = svc_by_pid_index ∨ a = NULL →
  name_node p ≠ a ∧ pid_node p ≠ a.
Proof.
  unfold name_node, pid_node, Sentinel, svc_by_name_index, svc_by_pid_index, NULL. intros a Ha. lia.
Qed.

(** The cells of the two tables. *)
Lemma names_cell a l : a ∈ table_cells svc_by_name_index name_node l → a = svc_by_name_index ∨ ∃ o, o ∈ l ∧ a = name_node o.
Proof. unfold table_cells. intros [->|(o & -> & Ho)%list_elem_of_fmap]%elem_of_cons; eauto. Qed.
Lemma pids_cell a l : a ∈ table_cells svc_by_pid_index pid_node l → a = svc_by_pid_index ∨ ∃ o, o ∈ l ∧ a = pid_node o.
Proof. unfold table_cells. intros [->|(o & -> & Ho)%list_elem_of_fmap]%elem_of_cons; eauto. Qed.

Lemma names_svc_cell a l : a ∈ table_cells svc_by_name_index name_node l → svc_cell a.
Proof. unfold svc_cell. intros [->|(o & _ & ->)]%names_cell; [auto|]. rewrite name_node_mod. tauto. Qed.
Lemma pids_svc_cell a l : a ∈ table_cells svc_by_pid_index pid_node l → svc_cell a.
Proof. unfold svc_cell. intros [->|(o & _ & ->)]%pids_cell; [auto|]. rewrite pid_node_mod. tauto. Qed.

(** ** Frames *)

#[export] Instance same_rest_preorder : PreOrder same_rest.
Proof. split; [exact same_rest_refl|exact same_rest_trans]. Qed.

Lemma io_ctl_same g g' : io_frame g g' → Forall2 same_rest (g_ctl g) (g_ctl g').
Proof.
  intros F. apply Forall2_same_length_lookup. split; [by rewrite (io_len _ _ F)|].
  intros i c c' Hi Hi'. destruct (io_ctl _ _ F i c Hi) as (c2 & Hi2 & E). rewrite Hi2 in Hi'. by injection Hi' as <-.
Qed.

(** The services and their tree nodes differ, the time of the next wake-up and what
    was sent. *)
Record svc_frame (g g' : G) : Prop := {
  sf_now : wake_now (g_wake g') = wake_now (g_wake g);
  sf_wake : set_wake_next (wake_next (g_wake g')) (g_wake g) = g_wake g';
  sf_sig : g_sig g' = g_sig g;
  sf_fd : g_fd g' = g_fd g;
  sf_opt : g_opt g' = g_opt g;
  sf_main : g_main g' = g_main g;
  sf_pool : svc_pool (g_svc g') = svc_pool (g_svc g);
  sf_next : g_next g ≤ g_next g';
  sf_rb : ∀ a, ¬ svc_cell a → g_rb g' !! a = g_rb g !! a;
  sf_ctl : Forall2 same_rest (g_ctl g) (g_ctl g');
  sf_trace : ∃ tr, g_trace g' = tr ++ g_trace g;
}.

#[export] Instance svc_frame_preorder : PreOrder svc_frame.
Proof.
  split.
  - intros g. split; try done; [by destruct (g_wake g)|by exists []].
  - intros g1 g2 g3 [? W1 ? ? ? ? ? ? R1 ? [t1 T1]] [? W2 ? ? ? ? ? ? R2 ? [t2 T2]]. split; try congruence.
    + rewrite <-W2, <-W1. by destruct (g_wake g1).
    + lia.
    + intros a Ha. by rewrite R2, R1.
    + by transitivity (g_ctl g2).
    + exists (t2 ++ t1). by rewrite T2, T1, app_assoc.
Qed.

Lemma io_svc_frame `{OS} g g' : io_frame g g' → svc_frame g g'.
Proof.
  intros F. pose proof (io_ctl_same _ _ F). destruct F as [W1 ? R1 ? ? ? ? N1 ? ? [tr T1]].
  split; try congruence; try done; [by rewrite W1; destruct (g_wake g)|lia|by (intros a _; rewrite R1) + eauto..].
Qed.

(** ** Reading an object, and the checks of [svc_check] *)

Section svc_spec.
Context `{OS}.

Lemma svc_obj_eq o g s : svc_objs (g_svc g) !! o = Some s → svc_obj o g = Done (s, g).
Proof. intros Hs. unfold svc_obj. by rewrite Hs. Qed.

Lemma upd_svc_eq o u g s : svc_objs (g_svc g) !! o = Some s →
  upd_svc o u g = Done (tt, on_svc (set_svc_objs (<[o := u s]> (svc_objs (g_svc g)))) g).
Proof. intros Hs. unfold upd_svc. by rewrite Hs. Qed.

Lemma vars_last vars l : vars_are vars l → vars ≠ [] → last vars = Some NUL.
Proof.
  intros (-> & _ & _) Hne. induction l as [|b l IH]; [done|]. rewrite pack_cons in *.
  destruct (decide (pack l = [])) as [E0|E0].
  - rewrite E0, app_nil_r. unfold entry. by rewrite app_comm_cons, app_assoc, last_snoc.
  - rewrite last_app. by rewrite IH.
Qed.

Lemma node_assigned_eq g a n : g_rb g !! a = Some n →
  node_assigned a g = Done ((Color n =? RBTreeNode_Black) || (Color n =? RBTreeNode_Red), g).
Proof.
  intros Hn. unfold node_assigned. erewrite bind_done by (apply rb_pure; by apply load_eq). done.
Qed.

Lemma svc_check_ok g names pids act sigw o : svc_ok g names pids act sigw → o ∈ names → svc_check o g = Done (tt, g).
Proof.
  intros Hok Ho. destruct (so_objs _ _ _ _ _ Hok o Ho) as (s & Hs & [Hn1 Hn2] & (vl & Hv) & Hpool & _).
  unfold svc_check. rewrite (bind_done _ _ _ _ _ (svc_obj_eq _ _ _ Hs)).
  rewrite (proj2 (Z.gtb_lt _ _)) by done. rewrite (bind_done (assert true) _ _ _ _ eq_refl).
  rewrite (proj2 (Z.ltb_lt _ _)) by done. rewrite (bind_done (assert true) _ _ _ _ eq_refl).
  erewrite (bind_done _ _ _ tt g).
  2:{ destruct (Z.eqb_spec (Z.of_nat (length (svc_vars s))) 0) as [|Hne]; [done|]. cbn [negb].
      pose proof (vars_last _ _ Hv) as Hl. rewrite last_lookup in Hl.
      assert (Hne' : svc_vars s ≠ []) by (intros E0; by rewrite E0 in Hne). specialize (Hl Hne').
      replace (Z.of_nat (length (svc_vars s)) - 1) with (Z.of_nat (pred (length (svc_vars s)))) by lia.
      unfold lift. rewrite (slot_lookup _ _ _ Hl). done. }
  erewrite bind_done by reflexivity.
  erewrite (bind_done _ _ _ tt g).
  2:{ destruct (svc_pool (g_svc g)) eqn:Ep; [|done]. cbn [when].
      destruct (so_pool _ _ _ _ _ Hok Ep) as [Hsz _]. specialize (Hpool eq_refl).
      unfold sizeof_service_t, NAME_BUF_SIZE, offset_name_buf in *.
      destruct (Z.geb_spec (svc_pool_size_each (g_svc g)) (4 + Z.of_nat (length (svc_name s)) + 1 + Z.of_nat (length (svc_vars s)))); [done|lia]. }
  destruct (table_node _ _ _ _ _ _ _ (so_names _ _ _ _ _ Hok) Ho) as (nn & Hnn & _ & Hcn).
  erewrite bind_done by by apply node_assigned_eq.
  assert (Ec : (Color nn =? RBTreeNode_Black) || (Color nn =? RBTreeNode_Red) = true).
  { destruct Hcn as [-> | ->]; done. }
  rewrite Ec. rewrite (bind_done (assert true) _ _ _ _ eq_refl).
  assert (Hk : svc_pid_key (svc_objs (g_svc g)) o = svc_pid s) by (unfold svc_pid_key; by rewrite Hs).
  destruct (decide (o ∈ pids)) as [Hp|Hp].
  - destruct (table_node _ _ _ _ _ _ _ (so_pids _ _ _ _ _ Hok) Hp) as (n & Hn & _ & Hc).
    erewrite bind_done by by apply node_assigned_eq.
    apply (so_pid_iff _ _ _ _ _ Hok) in Hp as [_ Hp]. rewrite Hk in Hp. rewrite (proj2 (Z.eqb_neq _ _) Hp).
    cbn [negb]. by destruct Hc as [-> | ->].
  - destruct (so_idle _ _ _ _ _ Hok o Ho Hp) as (n & Hn & Hc & _).
    erewrite bind_done by by apply node_assigned_eq.
    assert (E0 : svc_pid s = 0).
    { destruct (decide (svc_pid s = 0)); [done|]. destruct Hp. apply (so_pid_iff _ _ _ _ _ Hok). by rewrite Hk. }
    rewrite E0. cbn [negb Z.eqb]. erewrite bind_done by (apply rb_pure; by apply load_eq). by rewrite Hc.
Qed.

(** ** Changes that keep names and process ids *)

(** The parts of the module that the lists of objects consist of. *)
Definition same_list (m m' : svcmod_t) : Prop :=
  svc_list m' = svc_list m ∧ svc_list_count m' = svc_list_count m ∧ svc_list_limit m' = svc_list_limit m ∧
  svc_pool m' = svc_pool m ∧ svc_pool_size_each m' = svc_pool_size_each m.

Lemma svc_ok_objs g g' names pids act sigw act' sigw' : svc_ok g names pids act sigw →
  g_rb g' = g_rb g → g_next g' = g_next g → same_list (g_svc g) (g_svc g') →
  (∀ o s, o ∈ names → svc_objs (g_svc g) !! o = Some s → ∃ s', svc_objs (g_svc g') !! o = Some s' ∧
     svc_name s' = svc_name s ∧ svc_pid s' = svc_pid s ∧ (svc_wf (svc_pool (g_svc g)) s → svc_wf (svc_pool (g_svc g)) s')) →
  svc_objs (g_svc g') !! 0 = None →
  list_ok active_prev_ptr active_next (svc_objs (g_svc g')) (svc_active_list (g_svc g')) names act' →
  list_ok sigwake_prev_ptr sigwake_next (svc_objs (g_svc g')) (svc_sigwake_list (g_svc g')) names sigw' →
  svc_ok g' names pids act' sigw'.
Proof.
  intros Hok Erb Enx (L1 & L2 & L3 & L4 & L5) Hobjs H0 Ha Hs.
  assert (Hkn : ∀ o, o ∈ names → svc_name_key (svc_objs (g_svc g)) o = svc_name_key (svc_objs (g_svc g')) o).
  { intros o Ho. destruct (so_objs _ _ _ _ _ Hok o Ho) as (s & Es & _). destruct (Hobjs o s Ho Es) as (s' & Es' & En & _).
    unfold svc_name_key. by rewrite Es, Es', En. }
  assert (Hkp : ∀ o, o ∈ names → svc_pid_key (svc_objs (g_svc g)) o = svc_pid_key (svc_objs (g_svc g')) o).
  { intros o Ho. destruct (so_objs _ _ _ _ _ Hok o Ho) as (s & Es & _). destruct (Hobjs o s Ho Es) as (s' & Es' & _ & En & _).
    unfold svc_pid_key. by rewrite Es, Es', En. }
  assert (Hsub : ∀ o, o ∈ pids → o ∈ names) by (intros o Ho; by apply (so_pid_iff _ _ _ _ _ Hok) in Ho as [? _]).
  split; rewrite ?Erb, ?Enx, ?L1, ?L2, ?L3, ?L4, ?L5; try by (destruct Hok).
  - eapply table_ext; [exact Hkn|exact (so_names _ _ _ _ _ Hok)].
  - eapply table_ext; [intros o Ho; by apply Hkp, Hsub|exact (so_pids _ _ _ _ _ Hok)].
  - intros o. rewrite (so_pid_iff _ _ _ _ _ Hok). split; intros [Ho Hp]; (split; [done|]); [by rewrite <-Hkp|by rewrite Hkp].
  - erewrite <-list_fmap_ext; [exact (so_unique _ _ _ _ _ Hok)|]. intros i o Ho. apply Hkn. by apply list_elem_of_lookup_2 in Ho.
  - intros o Ho. destruct (so_objs _ _ _ _ _ Hok o Ho) as (s & Es & Hwf). destruct (Hobjs o s Ho Es) as (s' & Es' & _ & _ & Hw).
    exists s'. auto.
Qed.

(** An update of the data of one service. *)
Definition keeps_links (u : service_t → service_t) : Prop := ∀ s,
  svc_name (u s) = svc_name s ∧ svc_pid (u s) = svc_pid s ∧ active_prev_ptr (u s) = active_prev_ptr s ∧
  active_next (u s) = active_next s ∧ sigwake_prev_ptr (u s) = sigwake_prev_ptr s ∧ sigwake_next (u s) = sigwake_next s.

Lemma svc_names_some g names pids act sigw : svc_ok g names pids act sigw → ∀ o, o ∈ names → is_Some (svc_objs (g_svc g) !! o).
Proof. intros Hok o Ho. destruct (so_objs _ _ _ _ _ Hok o Ho) as (s & Es & _). eauto. Qed.

Lemma svc_ok_upd g names pids act sigw o s u : svc_ok g names pids act sigw → o ∈ names → svc_objs (g_svc g) !! o = Some s →
  keeps_links u → (svc_wf (svc_pool (g_svc g)) s → svc_wf (svc_pool (g_svc g)) (u s)) →
  svc_ok (on_svc (set_svc_objs (<[o := u s]> (svc_objs (g_svc g)))) g) names pids act sigw.
Proof.
  intros Hok Ho Hs Hu Hwf. destruct (Hu s) as (U1 & U2 & U3 & U4 & U5 & U6).
  assert (Hne : o ≠ 0) by (pose proof (so_range _ _ _ _ _ Hok o Ho); lia).
  eapply (svc_ok_objs g _ names pids act sigw); [done|done|done|by split_and!| | | |]; cbn.
  - intros p t Hp Ht. destruct (decide (p = o)) as [->|Hpo].
    + simplify_eq. exists (u s). by rewrite lookup_insert_eq.
    + exists t. by rewrite lookup_insert_ne by done.
  - rewrite lookup_insert_ne by done. apply Hok.
  - eapply list_ok_same; [exact (so_active _ _ _ _ _ Hok)|by eapply svc_names_some|].
    intros p t Hp Ht. destruct (decide (p = o)) as [->|Hpo].
    + simplify_eq. exists (u s). by rewrite lookup_insert_eq.
    + exists t. by rewrite lookup_insert_ne by done.
  - eapply list_ok_same; [exact (so_sigwake _ _ _ _ _ Hok)|by eapply svc_names_some|].
    intros p t Hp Ht. destruct (decide (p = o)) as [->|Hpo].
    + simplify_eq. exists (u s). by rewrite lookup_insert_eq.
    + exists t. by rewrite lookup_insert_ne by done.
Qed.

Lemma svc_frame_svc g f : svc_pool (f (g_svc g)) = svc_pool (g_svc g) → svc_frame g (on_svc f g).
Proof. split; cbn; try done; [by destruct (g_wake g)|by exists []]. Qed.

(** States that differ elsewhere. *)
Lemma svc_ok_same g g' names pids act sigw : svc_ok g names pids act sigw →
  g_svc g' = g_svc g → g_rb g' = g_rb g → g_next g' = g_next g → svc_ok g' names pids act sigw.
Proof. intros [] E1 E2 E3. split; rewrite ?E1, ?E2, ?E3; done. Qed.

(** ** The active list *)

(** [l] with [o] in it, or without it. *)
Definition list_set (b : bool) (o : Z) (l : list Z) : list Z :=
  if b then if decide (o ∈ l) then l else o :: l else filter (λ x, x ≠ o) l.

Lemma list_set_in b o l : o ∈ list_set b o l ↔ b = true.
Proof.
  unfold list_set. destruct b.
  - case_decide; [done|]. split; [done|]. intros _. by left.
  - rewrite list_elem_of_filter. split; [by intros []|done].
Qed.

Lemma list_set_other b o l p : p ≠ o → p ∈ list_set b o l ↔ p ∈ l.
Proof.
  intros Hne. unfold list_set. destruct b.
  - case_decide; [done|]. rewrite elem_of_cons. naive_solver.
  - rewrite list_elem_of_filter. tauto.
Qed.

Lemma filter_middle (o : Z) l1 l2 : NoDup (l1 ++ o :: l2) → filter (λ x, x ≠ o) (l1 ++ o :: l2) = l1 ++ l2.
Proof.
  intros Hnd. rewrite <-Permutation_middle in Hnd. apply NoDup_cons in Hnd as [Ho _]. rewrite elem_of_app in Ho.
  assert (Hid : ∀ l : list Z, o ∉ l → filter (λ x, x ≠ o) l = l).
  { induction l as [|x l IH]; [done|]. intros [Hx Hl]%not_elem_of_cons. rewrite filter_cons_True by congruence. by rewrite IH. }
  rewrite filter_app, filter_cons_False by tauto. rewrite !Hid by tauto. done.
Qed.

Lemma filter_absent (o : Z) (l : list Z) : o ∉ l → filter (λ x, x ≠ o) l = l.
Proof.
  induction l as [|x l IH]; [done|]. intros [Hx Hl]%not_elem_of_cons. rewrite filter_cons_True by congruence. by rewrite IH.
Qed.

(** The same service but for the links of the active list. *)
Definition unlinked (s : service_t) : service_t := set_active_prev_ptr prev_null (set_active_next 0 s).

(** Objects that differ in the links of the active list at most. *)
Definition relinked (objs objs' : gmap Z service_t) : Prop :=
  ∀ p, unlinked <$> objs' !! p = unlinked <$> objs !! p.

#[local] Instance relinked_preorder : PreOrder relinked.
Proof. split; [by intros ? ?|]. intros a b c H1 H2 p. by rewrite H2, H1. Qed.

Lemma relinked_insert objs p s s' : objs !! p = Some s → unlinked s' = unlinked s → relinked objs (<[p := s']> objs).
Proof.
  intros Hs He q. destruct (decide (q = p)) as [->|]; [|by rewrite lookup_insert_ne by done].
  rewrite lookup_insert_eq, Hs. cbn. by rewrite He.
Qed.

Lemma relinked_upd objs p f : (∀ s, unlinked (f s) = unlinked s) → relinked objs (upd_at p f objs).
Proof.
  intros Hf. unfold upd_at. destruct (objs !! p) eqn:E; [|reflexivity]. by eapply relinked_insert.
Qed.

Lemma unlinked_fields s s' : unlinked s' = unlinked s →
  svc_name s' = svc_name s ∧ svc_pid s' = svc_pid s ∧ svc_vars s' = svc_vars s ∧
  sigwake_prev_ptr s' = sigwake_prev_ptr s ∧ sigwake_next s' = sigwake_next s.
Proof. destruct s, s'. unfold unlinked. cbn. intros [= ]. by subst. Qed.

Lemma unlinked_state s s' : unlinked s' = unlinked s → svc_state s' = svc_state s.
Proof. destruct s, s'. unfold unlinked. cbn. intros [= ]. by subst. Qed.

Lemma relinked_some objs objs' p s : relinked objs objs' → objs !! p = Some s →
  ∃ s', objs' !! p = Some s' ∧ unlinked s' = unlinked s.
Proof.
  intros Hr Hs. specialize (Hr p). rewrite Hs in Hr. destruct (objs' !! p) as [s'|]; [|done]. exists s'.
  split; [done|]. by apply (inj Some) in Hr.
Qed.

(** The state after the links and the head changed. *)
Definition with_active (objs : gmap Z service_t) (head : Z) (g : G) : G :=
  on_svc (set_svc_active_list head) (on_svc (set_svc_objs objs) g).

Lemma svc_ok_active g names pids act sigw act' objs head : svc_ok g names pids act sigw →
  relinked (svc_objs (g_svc g)) objs →
  list_ok active_prev_ptr active_next objs head names act' →
  svc_ok (with_active objs head g) names pids act' sigw.
Proof.
  intros Hok Hr Hl. eapply (svc_ok_objs g); [exact Hok|done|done|by split_and!|..]; cbn.
  - intros o s Ho Es. destruct (relinked_some _ _ _ _ Hr Es) as (s' & Es' & Eu). exists s'.
    destruct (unlinked_fields _ _ Eu) as (U1 & U2 & U3 & _). split_and!; [done|done|done|].
    unfold svc_wf, state_known. by rewrite U1, U3, (unlinked_state _ _ Eu).
  - specialize (Hr 0). rewrite (so_null _ _ _ _ _ Hok) in Hr. by destruct (objs !! 0).
  - exact Hl.
  - eapply list_ok_same; [exact (so_sigwake _ _ _ _ _ Hok)|by eapply svc_names_some|].
    intros o s Ho Es. destruct (relinked_some _ _ _ _ Hr Es) as (s' & Es' & Eu). exists s'.
    destruct (unlinked_fields _ _ Eu) as (_ & _ & _ & U4 & U5). done.
Qed.

Lemma names_pos g names pids act sigw : svc_ok g names pids act sigw → 0 ∉ names.
Proof. intros Hok H0. pose proof (so_range _ _ _ _ _ Hok 0 H0). lia. Qed.

Lemma svc_set_active_ok g names pids act sigw o b : svc_ok g names pids act sigw → o ∈ names →
  ∃ objs head, svc_set_active o b g = Done (tt, with_active objs head g) ∧
    svc_ok (with_active objs head g) names pids (list_set b o act) sigw ∧ relinked (svc_objs (g_svc g)) objs.
Proof.
  intros Hok Ho. destruct (so_objs _ _ _ _ _ Hok o Ho) as (s & Hs & Hwf).
  pose proof (so_active _ _ _ _ _ Hok) as Hl. pose proof (names_pos _ _ _ _ _ Hok) as H0.
  pose proof (svc_names_some _ _ _ _ _ Hok) as Hsome.
  pose proof (li_iff _ _ _ _ _ _ Hl o s Ho Hs) as Hiff. pose proof (li_head _ _ _ _ _ _ Hl) as Hh.
  assert (Hfin : ∀ objs head act', relinked (svc_objs (g_svc g)) objs →
    list_ok active_prev_ptr active_next objs head names act' → svc_check o (with_active objs head g) = Done (tt, with_active objs head g)).
  { intros objs head act' Hr Hlo. eapply svc_check_ok; [|exact Ho]. by eapply svc_ok_active. }
  assert (Hid : with_active (svc_objs (g_svc g)) (svc_active_list (g_svc g)) g = g) by (by destruct g as [? ? ? ? ? []]).
  unfold svc_set_active. rewrite (bind_done _ _ _ _ _ (svc_obj_eq _ _ _ Hs)).
  destruct b; cbn [andb negb].
  - case_bool_decide as Eb.
    + apply Hiff in Eb as Hol. unfold list_set. rewrite decide_False by done.
      pose proof (list_push_ok active_prev_ptr active_next set_active_prev_ptr set_active_next
        ltac:(done) ltac:(done) ltac:(done) ltac:(done) _ _ _ _ _ _ Hl Ho Hol H0 Hsome Hs) as Hp.
      set (objs := push set_active_prev_ptr set_active_next (svc_objs (g_svc g)) o (svc_active_list (g_svc g))) in *.
      assert (Hr : relinked (svc_objs (g_svc g)) objs).
      { unfold objs, push. case_match; [by apply relinked_upd|]. etransitivity; by apply relinked_upd. }
      exists objs, o. split_and!; [|by eapply svc_ok_active|done].
      erewrite (bind_done _ _ _ tt (with_active objs o g)); [by eapply Hfin|].
      erewrite bind_done by by apply upd_svc_eq. erewrite bind_done by reflexivity.
      erewrite bind_done by (apply upd_svc_eq; apply lookup_insert_eq).
      cbn [on_svc set_g_svc g_svc set_svc_objs svc_objs svc_active_list]. rewrite insert_insert_eq.
      unfold objs, push. set (h := svc_active_list (g_svc g)) in *.
      assert (Eo : upd_at o (λ s, set_active_next h (set_active_prev_ptr prev_head s)) (svc_objs (g_svc g)) =
        <[o := set_active_next h (set_active_prev_ptr prev_head s)]> (svc_objs (g_svc g))) by (unfold upd_at; by rewrite Hs).
      rewrite Eo. destruct (Z.eqb_spec h 0) as [E0|E0]; cbn [negb when]; [by erewrite bind_done by reflexivity|].
      assert (Hhin : h ∈ act) by (rewrite Hh in E0 |- *; destruct act; [done|by left]).
      destruct (Hsome h) as [sh Hsh]; [by apply (li_sub _ _ _ _ _ _ Hl)|].
      assert (Hho : h ≠ o) by (intros ->; done).
      unfold upd_at. rewrite lookup_insert_ne, Hsh by done.
      erewrite bind_done; [|apply upd_svc_eq; cbn; rewrite lookup_insert_ne by done; exact Hsh]. done.
    + assert (Hol : o ∈ act) by (destruct (decide (o ∈ act)) as [|Hn]; [done|]; by apply Hiff in Hn).
      unfold list_set. rewrite decide_True by done.
      exists (svc_objs (g_svc g)), (svc_active_list (g_svc g)). rewrite Hid. split_and!; [|done|reflexivity].
      rewrite (bind_done (mret tt) _ _ _ _ eq_refl). by eapply svc_check_ok.
  - case_bool_decide as Eb; cbn [negb].
    + apply Hiff in Eb as Hol. unfold list_set. rewrite filter_absent by done.
      exists (svc_objs (g_svc g)), (svc_active_list (g_svc g)). rewrite Hid. split_and!; [|done|reflexivity].
      rewrite (bind_done (mret tt) _ _ _ _ eq_refl). by eapply svc_check_ok.
    + assert (Hol : o ∈ act) by (destruct (decide (o ∈ act)) as [|Hn]; [done|]; by apply Hiff in Hn).
      apply list_elem_of_split in Hol as (l1 & l2 & ->). unfold list_set. rewrite filter_middle by apply Hl.
      destruct (list_unlink_ok active_prev_ptr active_next set_active_prev_ptr set_active_next
        ltac:(done) ltac:(done) ltac:(done) ltac:(done) _ _ _ _ _ _ _ Hl H0 Hsome Hs) as (Hself & _ & Hp).
      pose proof (li_dll _ _ _ _ _ _ Hl) as Hd.
      destruct (dll_unlink active_prev_ptr active_next set_active_prev_ptr set_active_next
        ltac:(done) ltac:(done) ltac:(done) ltac:(done) _ l1 o l2 s Hd) as (Ep & En & _);
        [apply Hl|intros Hz; by apply H0, (li_sub _ _ _ _ _ _ Hl)|done|].
      set (objs1 := unlink set_active_prev_ptr set_active_next (svc_objs (g_svc g)) (active_prev_ptr s) (active_next s)) in *.
      set (objs := <[o := set_active_prev_ptr prev_null s]> objs1) in *.
      set (head := match active_prev_ptr s with prev_head => active_next s | _ => svc_active_list (g_svc g) end) in *.
      assert (Hr1 : relinked (svc_objs (g_svc g)) objs1).
      { unfold objs1, unlink. destruct (active_next s =? 0), (active_prev_ptr s); try reflexivity; try by apply relinked_upd.
        etransitivity; by apply relinked_upd. }
      assert (Hr : relinked (svc_objs (g_svc g)) objs).
      { etransitivity; [exact Hr1|]. by eapply relinked_insert. }
      exists objs, head. split_and!; [|by eapply svc_ok_active|done].
      erewrite (bind_done _ _ _ tt (with_active objs head g)); [by eapply Hfin|].
      set (objs0 := if active_next s =? 0 then svc_objs (g_svc g) else upd_at (active_next s) (set_active_prev_ptr (active_prev_ptr s)) (svc_objs (g_svc g))).
      assert (E0 : when (negb (active_next s =? 0)) (upd_svc (active_next s) (set_active_prev_ptr (active_prev_ptr s))) g =
        Done (tt, on_svc (set_svc_objs objs0) g)).
      { unfold objs0. destruct (Z.eqb_spec (active_next s) 0) as [E0|E0]; cbn [negb when]; [by destruct g as [? ? ? ? ? []]|].
        rewrite En in E0 |- *. destruct l2 as [|h l2]; [done|]. cbn [hd].
        destruct (Hsome h) as [sh Hsh]; [apply (li_sub _ _ _ _ _ _ Hl); rewrite elem_of_app, !elem_of_cons; tauto|].
        unfold upd_at. rewrite Hsh. by apply upd_svc_eq. }
      rewrite (bind_done _ _ _ _ _ E0).
      assert (E1 : match active_prev_ptr s with
          | prev_null => fault
          | prev_head => modify (on_svc (set_svc_active_list (active_next s)))
          | prev_next p => upd_svc p (set_active_next (active_next s))
          end (on_svc (set_svc_objs objs0) g) = Done (tt, with_active objs1 head g)).
      { unfold objs1, unlink, head. fold objs0. rewrite Ep. unfold last_prev.
        destruct (last l1) as [q|] eqn:El; [|by destruct g as [? ? ? ? ? []]].
        assert (Hq : is_Some (objs0 !! q)).
        { assert (Hqn : q ∈ names). { apply (li_sub _ _ _ _ _ _ Hl). rewrite elem_of_app. left. by apply last_Some_elem_of. }
          destruct (Hsome q Hqn) as [sq Hsq]. unfold objs0. case_match; [by eauto|]. rewrite upd_at_lookup, Hsq. case_decide; cbn; eauto. }
        destruct Hq as [sq Hsq]. unfold upd_at. rewrite Hsq. rewrite (upd_svc_eq q _ _ sq) by done.
        by destruct g as [? ? ? ? ? []]. }
      rewrite (bind_done _ _ _ _ _ E1). rewrite (upd_svc_eq o _ _ s) by done. done.
Qed.

(** ** The process id *)

Lemma svc_pid_compare_key objs pid o : svc_by_pid_compare objs pid o = compare_key (svc_pid_key objs) pid_cmp pid o.
Proof. done. Qed.

Definition pid_cell (a : ptr) : Prop := a = Sentinel ∨ a = svc_by_pid_index ∨ a mod 16 = 6.

(** A change of the pid tree does not touch the name tree. *)
Lemma names_agree key h h' l : table_at lex_cmp svc_by_name_index name_node key h l →
  (∀ a, ¬ pid_cell a → h' !! a = h !! a) → sent_at h' → table_at lex_cmp svc_by_name_index name_node key h' l.
Proof.
  intros Ht Hd Hs. eapply table_agree; [done| |done]. intros a [->|(o & _ & ->)]%names_cell; apply Hd.
  - unfold pid_cell. intros [?|[?|?]]; done.
  - destruct (svc_node_ne o Sentinel) as [? _]; [tauto|]. destruct (svc_node_ne o svc_by_pid_index) as [? _]; [tauto|].
    unfold pid_cell. rewrite name_node_mod. intros [?|[?|?]]; done.
Qed.

Lemma pid_cell_svc a : pid_cell a → svc_cell a.
Proof. unfold pid_cell, svc_cell. tauto. Qed.

(** The pid index after the service [o] got the process id [pid]. *)
Definition pids_set (o pid : Z) (pids pids' : list Z) : Prop :=
  ∀ q, q ∈ pids' ↔ (q = o ∧ pid ≠ 0) ∨ (q ≠ o ∧ q ∈ pids).

(** A service leaves the index, if it is there. *)
Lemma svc_pid_out g names pids act sigw o s : svc_ok g names pids act sigw → o ∈ names → svc_objs (g_svc g) !! o = Some s →
  ∃ h1 rest n, when (negb (svc_pid s =? 0)) (rb (RBTreeNode_Prune (pid_node o));; mret tt) g = Done (tt, set_g_rb h1 g) ∧
    table_at pid_cmp svc_by_pid_index pid_node (svc_pid_key (svc_objs (g_svc g))) h1 rest ∧
    (∀ q, q ∈ rest ↔ q ≠ o ∧ q ∈ pids) ∧ h1 !! pid_node o = Some n ∧ Color n = RBTreeNode_Unassigned ∧ Object n = o ∧
    (∀ a, a ∉ Sentinel :: table_cells svc_by_pid_index pid_node pids → h1 !! a = g_rb g !! a).
Proof.
  intros Hok Ho Hs. pose proof (so_pid_iff _ _ _ _ _ Hok) as Hpi.
  assert (Hkey : svc_pid_key (svc_objs (g_svc g)) o = svc_pid s) by (unfold svc_pid_key; by rewrite Hs).
  destruct (Z.eqb_spec (svc_pid s) 0) as [E0|E0]; cbn [negb when].
  - assert (Hno : o ∉ pids) by (rewrite Hpi, Hkey; tauto).
    destruct (so_idle _ _ _ _ _ Hok o Ho Hno) as (n & Hn & Hc & Hob).
    exists (g_rb g), pids, n. split_and!; [by destruct g|exact (so_pids _ _ _ _ _ Hok)| |done|done|done|done].
    intros q. split; [|tauto]. intros Hq. split; [|done]. by intros ->.
  - assert (Hin : o ∈ pids) by (rewrite Hpi, Hkey; tauto).
    apply list_elem_of_split in Hin as (l1 & l2 & El). pose proof (so_pids _ _ _ _ _ Hok) as Ht. rewrite El in Ht.
    pose proof (table_nodup _ _ _ _ _ _ Ht) as Hnd. unfold table_cells in Hnd. rewrite !NoDup_cons in Hnd.
    destruct Hnd as (_ & _ & _ & Hnd). apply NoDup_fmap_1 in Hnd.
    destruct (table_prune _ _ _ _ _ _ _ _ Ht) as (h1 & n & E1 & Ht1 & Hn & Hc & Hob & Hk).
    exists h1, (l1 ++ l2), n. split_and!; [|done| |done|done|done|].
    + erewrite bind_done by (apply rb_done; exact E1). done.
    + intros q. rewrite El, !elem_of_app, elem_of_cons. rewrite <-Permutation_middle in Hnd.
      apply NoDup_cons in Hnd as [Hnd _]. rewrite elem_of_app in Hnd. split; [|tauto].
      intros Hq. split; [intros ->; tauto|tauto].
    + intros a Ha. apply Hk. by rewrite elem_of_list_to_set, <-El.
Qed.

(** It comes back with another process id. *)
Lemma svc_pid_in g2 objs o pid pids rest h1 n : svc_objs (g_svc g2) = objs → svc_pid_key objs o = pid →
  table_at pid_cmp svc_by_pid_index pid_node (svc_pid_key objs) h1 rest → (∀ q, q ∈ rest ↔ q ≠ o ∧ q ∈ pids) →
  h1 !! pid_node o = Some n →
  ∃ h2 pids', (if negb (pid =? 0) then
      rb (RBTreeNode_Init (pid_node o));; rb (store (pid_node o) (set_Object o));;
      objs ← gets (λ g, svc_objs (g_svc g));
      rb (RBTree_Add (svc_by_pid_compare objs) svc_by_pid_index (pid_node o) pid);; mret tt
     else mret tt) (set_g_rb h1 g2) = Done (tt, set_g_rb h2 g2) ∧
    table_at pid_cmp svc_by_pid_index pid_node (svc_pid_key objs) h2 pids' ∧ pids_set o pid pids pids' ∧
    (∀ a, a ∉ Sentinel :: pid_node o :: table_cells svc_by_pid_index pid_node rest → h2 !! a = h1 !! a) ∧ (pid = 0 → h2 = h1).
Proof.
  intros Eobjs Hko Ht1' Hrest Hn.
  destruct (Z.eqb_spec pid 0) as [E0|E0]; cbn [negb].
  - exists h1, rest. split_and!; [done|done| |done|done]. intros q. rewrite Hrest. tauto.
  - assert (Hno : pid_node o ∉ table_cells svc_by_pid_index pid_node rest).
    { intros [Hx|(q & Hq & Hx)]%pids_cell.
      - destruct (svc_node_ne o svc_by_pid_index) as [_ ?]; tauto.
      - apply pid_node_inj in Hx as <-. apply Hrest in Hq. tauto. }
    set (n' := mkNode (Left n) (Right n) (Parent n) RBTreeNode_Unassigned o).
    assert (Ht1n : table_at pid_cmp svc_by_pid_index pid_node (svc_pid_key objs) (<[pid_node o := n']> h1) rest).
    { eapply table_agree; [exact Ht1'| |].
      - intros a Ha. rewrite lookup_insert_ne; [done|]. by intros <-.
      - destruct (table_sent _ _ _ _ _ _ Ht1') as [q Hq]. exists q. rewrite lookup_insert_ne; [done|].
        apply (svc_node_ne o). tauto. }
    destruct (table_add pid_cmp svc_by_pid_index pid_node (svc_pid_key objs) _ rest o n' Ht1n)
      as (h2 & l1 & l2 & E2 & Hl & Ht2 & Hk2); [| |done|apply lookup_insert_eq|done|done|].
    { apply not_eq_sym, (svc_node_ne o). tauto. } { apply not_eq_sym, (svc_node_ne o). tauto. }
    exists h2, (l1 ++ o :: l2). split_and!; [|done| | |done].
    + erewrite bind_done by (apply rb_done; apply store_eq; exact Hn).
      erewrite bind_done by (apply rb_done; apply store_eq; apply lookup_insert_eq).
      erewrite bind_done by reflexivity. cbn [set_g_rb g_rb g_svc]. rewrite Eobjs, insert_insert_eq.
      rewrite Hko in E2. erewrite bind_done; [done|]. erewrite rb_done; [done|]. exact E2.
    + intros q. rewrite elem_of_app, elem_of_cons. rewrite Hl in Hrest. specialize (Hrest q). rewrite elem_of_app in Hrest. tauto.
    + intros a Ha. rewrite Hk2 by by rewrite elem_of_list_to_set. apply lookup_insert_ne. intros <-. apply Ha. right. by left.
Qed.

Lemma svc_change_pid_ok g names pids act sigw o s pid : svc_ok g names pids act sigw → o ∈ names →
  svc_objs (g_svc g) !! o = Some s →
  let objs := <[o := set_svc_pid pid s]> (svc_objs (g_svc g)) in
  ∃ h pids', svc_change_pid o pid g = Done (tt, set_g_rb h (on_svc (set_svc_objs objs) g)) ∧
    svc_ok (set_g_rb h (on_svc (set_svc_objs objs) g)) names pids' act sigw ∧ pids_set o pid pids pids' ∧
    (∀ a, ¬ pid_cell a → h !! a = g_rb g !! a).
Proof.
  intros Hok Ho Hs objs. set (g2 := on_svc (set_svc_objs objs) g).
  pose proof (so_pid_iff _ _ _ _ _ Hok) as Hpi.
  assert (Hkey : svc_pid_key (svc_objs (g_svc g)) o = svc_pid s) by (unfold svc_pid_key; by rewrite Hs).
  assert (Hko : svc_pid_key objs o = pid) by (unfold svc_pid_key, objs; by rewrite lookup_insert_eq).
  assert (Hkn : ∀ q, q ≠ o → svc_pid_key objs q = svc_pid_key (svc_objs (g_svc g)) q).
  { intros q Hq. unfold svc_pid_key, objs. by rewrite lookup_insert_ne by done. }
  destruct (svc_pid_out _ _ _ _ _ _ _ Hok Ho Hs) as (h1 & rest & n & E1 & Ht1 & Hrest & Hn & Hc & Hob & Hk1).
  assert (Ht1' : table_at pid_cmp svc_by_pid_index pid_node (svc_pid_key objs) h1 rest).
  { eapply table_ext; [|exact Ht1]. intros q Hq. apply Hrest in Hq as [Hq _]. symmetry. by apply Hkn. }
  assert (Hk1' : ∀ a, ¬ pid_cell a → h1 !! a = g_rb g !! a).
  { intros a Ha. apply Hk1. intros [->|[->|(q & _ & ->)]%pids_cell]%elem_of_cons; apply Ha; unfold pid_cell;
      rewrite ?pid_node_mod; tauto. }
  destruct (svc_pid_in g2 objs o pid pids rest h1 n eq_refl Hko Ht1' Hrest Hn) as (h2 & pids' & E2 & Ht2 & Hset & Hk2 & Hz).
  assert (Hk2' : ∀ a, ¬ pid_cell a → h2 !! a = g_rb g !! a).
  { intros a Ha. rewrite Hk2; [by apply Hk1'|].
    intros [->|[->|[->|(q & _ & ->)]%pids_cell]%elem_of_cons]%elem_of_cons; apply Ha; unfold pid_cell;
      rewrite ?pid_node_mod; tauto. }
  assert (Hok2 : svc_ok (set_g_rb h2 g2) names pids' act sigw).
  { assert (Hok1 : svc_ok (on_svc (set_svc_objs (<[o := s]> (svc_objs (g_svc g)))) g) names pids act sigw) by
      (by apply (svc_ok_upd _ _ _ _ _ _ s id)).
    destruct Hok. split; cbn; try done.
    - eapply table_ext; [|eapply names_agree; [eassumption|exact Hk2'|by eapply table_sent]].
      intros q Hq. unfold svc_name_key, objs. destruct (decide (q = o)) as [->|]; [by rewrite lookup_insert_eq, Hs|by rewrite lookup_insert_ne].
    - intros q. rewrite (Hset q), (Hpi q). destruct (decide (q = o)) as [->|Hq].
      + rewrite Hko. tauto.
      + rewrite Hkn by done. tauto.
    - intros q Hq Hnp. destruct (decide (q = o)) as [->|Hqo].
      + assert (pid = 0) as Hp0. { destruct (decide (pid = 0)); [done|]. destruct Hnp. apply Hset. auto. }
        rewrite Hz by done. exists n. done.
      + assert (Hqp : q ∉ pids) by (intros Hqp; apply Hnp, Hset; auto).
        destruct (so_idle0 q Hq Hqp) as (nq & Hnq & Hx). exists nq. split; [|done]. rewrite Hk2, Hk1; [done| |].
        * intros [Ha|[Ha|(r & Hr & Ha)]%pids_cell]%elem_of_cons.
          -- destruct (svc_node_ne q Sentinel); tauto.
          -- destruct (svc_node_ne q svc_by_pid_index); tauto.
          -- by apply pid_node_inj in Ha as ->.
        * intros [Ha|[Ha|[Ha|(r & Hr & Ha)]%pids_cell]%elem_of_cons]%elem_of_cons.
          -- destruct (svc_node_ne q Sentinel); tauto.
          -- by apply pid_node_inj in Ha.
          -- destruct (svc_node_ne q svc_by_pid_index); tauto.
          -- apply pid_node_inj in Ha as ->. apply Hrest in Hr. tauto.
    - erewrite <-list_fmap_ext; [exact so_unique0|]. intros i q Hq. unfold svc_name_key, objs.
      destruct (decide (q = o)) as [->|]; [by rewrite lookup_insert_eq, Hs|by rewrite lookup_insert_ne].
    - intros q Hq. unfold objs. destruct (decide (q = o)) as [->|Hqo].
      + exists (set_svc_pid pid s). rewrite lookup_insert_eq. split; [done|].
        destruct (so_objs0 o Ho) as (s' & Es' & Hwf). simplify_eq. exact Hwf.
      + rewrite lookup_insert_ne by done. auto.
    - unfold objs. rewrite lookup_insert_ne; [done|]. specialize (so_range0 o Ho). lia.
    - eapply list_ok_same; [exact so_active0|intros q Hq; destruct (so_objs0 q Hq) as (t & -> & _); eauto|].
      intros q t Hq Ht. unfold objs. destruct (decide (q = o)) as [->|Hqo]; [rewrite lookup_insert_eq|rewrite lookup_insert_ne by done].
      + simplify_eq. eexists. split; [done|]. done.
      + eauto.
    - eapply list_ok_same; [exact so_sigwake0|intros q Hq; destruct (so_objs0 q Hq) as (t & -> & _); eauto|].
      intros q t Hq Ht. unfold objs. destruct (decide (q = o)) as [->|Hqo]; [rewrite lookup_insert_eq|rewrite lookup_insert_ne by done].
      + simplify_eq. eexists. split; [done|]. done.
      + eauto. }
  exists h2, pids'. split_and!; [|done|done|done].
  unfold svc_change_pid. rewrite (bind_done _ _ _ _ _ (svc_obj_eq _ _ _ Hs)). rewrite (bind_done _ _ _ _ _ E1).
  erewrite bind_done by (apply (upd_svc_eq o _ _ s); done).
  rewrite (bind_done _ _ _ _ _ E2). by eapply svc_check_ok.
Qed.

Lemma svc_by_pid_ok g names pids act sigw pid : svc_ok g names pids act sigw →
  ∃ o, svc_by_pid pid g = Done (o, g) ∧
    ((o ∈ pids ∧ o ≠ 0 ∧ svc_pid_key (svc_objs (g_svc g)) o = pid) ∨
     (o = 0 ∧ ∀ p, p ∈ pids → svc_pid_key (svc_objs (g_svc g)) p ≠ pid)).
Proof.
  intros Hok. unfold svc_by_pid. rewrite (bind_done (gets (λ g, svc_objs (g_svc g))) _ _ _ _ eq_refl).
  destruct (table_find pid_cmp svc_by_pid_index pid_node pid_cmp_eq _ _ _ pid (so_pids _ _ _ _ _ Hok)) as (s & E1 & Hs).
  rewrite (bind_done _ _ _ _ _ (rb_pure _ _ _ E1)).
  destruct Hs as [(-> & o & Ho & Hk & Hn)|(Hr & Hno)].
  - rewrite Z.eqb_refl. destruct (table_node _ _ _ _ _ _ _ (so_pids _ _ _ _ _ Hok) Ho) as (n & Hnode & Hobj & _).
    exists o. split.
    + apply rb_pure. unfold load. by rewrite Hn, Hnode, Hobj.
    + left. apply (so_pid_iff _ _ _ _ _ Hok) in Ho as Ho'. destruct Ho' as [Hn' _].
      pose proof (so_range _ _ _ _ _ Hok o Hn'). split_and!; [done|lia|done].
  - rewrite (proj2 (Z.eqb_neq _ _)) by done. exists 0. split; [done|]. by right.
Qed.

(** ** Output *)

Context `{!WriteOk}.

Lemma log_step_ctls g g' tr : ctls_ok g → log_step g g' tr → ctls_ok g'.
Proof.
  intros [Hl Hc] Hs. split; [exact (ls_ok _ _ _ Hs)|]. intros i c Hi. rewrite (lf_ctl _ _ (ls_frame _ _ _ Hs)) in Hi.
  exact (Hc i c Hi).
Qed.

(** Logging and events change nothing but the output. *)
Definition output_only (m : DP unit) : Prop := ∀ g, ctls_ok g →
  ∃ g', m g = Done (tt, g') ∧ io_frame g g' ∧ ctls_ok g'.

Lemma log_output level msg : output_only (log_write level msg;; mret tt).
Proof.
  intros g Hc. destruct (log_msg_spec level msg g) as (g' & tr & E1 & S1); [apply Hc|].
  exists g'. split_and!; [done|by eapply log_step_io|by eapply log_step_ctls].
Qed.

Lemma ctls_ok_same g g' : ctls_ok g → g_log g' = g_log g → g_ctl g' = g_ctl g → ctls_ok g'.
Proof. unfold ctls_ok. intros Hc -> ->. done. Qed.

(** The services and the output are in order. *)
Definition good (g : G) (names pids act sigw : list Z) : Prop := svc_ok g names pids act sigw ∧ ctls_ok g.

Lemma good_io g g' names pids act sigw : good g names pids act sigw → io_frame g g' → ctls_ok g' → good g' names pids act sigw.
Proof. intros [Hok _] [] Hc. split; [|done]. by eapply svc_ok_same. Qed.

Lemma svc_state_msg_lines now name up reap wstat pid : whole_lines (svc_state_msg now name up reap wstat pid).
Proof. unfold svc_state_msg. repeat case_match; apply tab_join_lines. Qed.

Lemma svc_notify_ok g o s : ctls_ok g → svc_objs (g_svc g) !! o = Some s →
  ∃ g', svc_notify_state o g = Done (tt, g') ∧ io_frame g g' ∧ ctls_ok g'.
Proof.
  intros Hc Hs. unfold svc_notify_state. rewrite (bind_done _ _ _ _ _ (svc_obj_eq _ _ _ Hs)).
  unfold ctl_notify_svc_state.
  destruct (ctl_write_io None (svc_state_msg (wake_now (g_wake g)) (svc_name s) (start_time s) (reap_time s) (wait_status s) (svc_pid s)) g)
    as (g' & E1 & F1 & C1); [done|apply svc_state_msg_lines|done|].
  exists g'. split_and!; [|done|done]. rewrite (bind_bind (gets _)). erewrite bind_done by reflexivity.
  erewrite bind_done by exact E1. done.
Qed.

Lemma good_upd g names pids act sigw o s u : good g names pids act sigw → o ∈ names → svc_objs (g_svc g) !! o = Some s →
  keeps_links u → svc_vars (u s) = svc_vars s → (state_known s → state_known (u s)) →
  let g' := on_svc (set_svc_objs (<[o := u s]> (svc_objs (g_svc g)))) g in
  upd_svc o u g = Done (tt, g') ∧ good g' names pids act sigw ∧ svc_frame g g'.
Proof.
  intros [Hok Hc] Ho Hs Hu Hv Hst g'. split_and!; [by apply upd_svc_eq| |by apply svc_frame_svc].
  split; [|by eapply ctls_ok_same]. apply (svc_ok_upd g names pids act sigw o s u); try done.
  unfold svc_wf. destruct (Hu s) as (-> & _). rewrite Hv. tauto.
Qed.

Lemma good_active g names pids act sigw o b : good g names pids act sigw → o ∈ names →
  ∃ g', svc_set_active o b g = Done (tt, g') ∧ good g' names pids (list_set b o act) sigw ∧ svc_frame g g' ∧
    relinked (svc_objs (g_svc g)) (svc_objs (g_svc g')) ∧ g_wake g' = g_wake g.
Proof.
  intros [Hok Hc] Ho. destruct (svc_set_active_ok g names pids act sigw o b Hok Ho) as (objs & head & E1 & K1 & R1).
  exists (with_active objs head g). split_and!; [done| |split; try done|done|done].
  - split; [done|]. by eapply ctls_ok_same.
  - by destruct g as [[]].
  - by exists [].
Qed.

Lemma good_change_pid g names pids act sigw o s pid : good g names pids act sigw → o ∈ names →
  svc_objs (g_svc g) !! o = Some s →
  ∃ g' pids', svc_change_pid o pid g = Done (tt, g') ∧ good g' names pids' act sigw ∧ svc_frame g g' ∧
    pids_set o pid pids pids' ∧ svc_objs (g_svc g') = <[o := set_svc_pid pid s]> (svc_objs (g_svc g)) ∧ g_wake g' = g_wake g.
Proof.
  intros [Hok Hc] Ho Hs. destruct (svc_change_pid_ok g names pids act sigw o s pid Hok Ho Hs) as (h & pids' & E1 & K1 & P1 & Hk).
  do 2 eexists. split_and!; [exact E1|split; [exact K1|by eapply ctls_ok_same]|split; try done|exact P1|done|done].
  - by destruct g as [[]].
  - intros a Ha. cbn. apply Hk. intros Hp. by apply Ha, pid_cell_svc.
  - by exists [].
Qed.

(** ** Starting, cancelling, reaping *)

(** The time a start requested for [when] is set to. *)
Definition start_at (now time : Z) : Z :=
  let t := if wrap64 (time - now) >? 0 then time else now in if t =? 0 then 1 else t.

Definition started (now time : Z) (s : service_t) : service_t :=
  set_wait_status (-1) (set_reap_time 0 (set_svc_pid 0
    (set_start_time (start_at now time) (set_svc_state SVC_STATE_START s)))).

Lemma wake_now_again_eq g : wake_now_again g = Done (tt, on_wake (λ w, set_wake_next (wake_now w) w) g).
Proof. done. Qed.

Lemma svc_frame_wake g : svc_frame g (on_wake (λ w, set_wake_next (wake_now w) w) g).
Proof. split; try done. by exists []. Qed.

Lemma svc_handle_start_ok g names pids act sigw o s time : good g names pids act sigw → o ∈ names →
  svc_objs (g_svc g) !! o = Some s → svc_state s = SVC_STATE_DOWN ∨ svc_state s = SVC_STATE_START →
  ∃ g' pids', svc_handle_start o time g = Done (true, g') ∧ good g' names pids' (list_set true o act) sigw ∧
    svc_frame g g' ∧ pids_set o 0 pids pids' ∧
    relinked (<[o := started (wake_now (g_wake g)) time s]> (svc_objs (g_svc g))) (svc_objs (g_svc g')) ∧
    wake_next (g_wake g') = wake_now (g_wake g).
Proof.
  intros Hg Ho Hs Hst. unfold svc_handle_start. rewrite (bind_done _ _ _ _ _ (svc_obj_eq _ _ _ Hs)).
  rewrite (bind_done (gets _) _ _ _ _ eq_refl). set (now := wake_now (g_wake g)).
  assert (Eb : negb (svc_state s =? SVC_STATE_DOWN) && negb (svc_state s =? SVC_STATE_START) = false).
  { destruct Hst as [-> | ->]; done. }
  rewrite Eb. set (t := if wrap64 (time - now) >? 0 then time else now).
  assert (Hlog : ∃ g1, (if wrap64 (time - now) >? 0 then
      log_debug (str "start service " ++ quoted (svc_name s) ++ str " in " ++ fmt_d (secs (wrap64 (time - now))) ++ str " seconds");; mret time
     else log_debug (str "start service " ++ quoted (svc_name s) ++ str " now");; mret now) g = Done (t, g1) ∧ io_frame g g1 ∧ ctls_ok g1).
  { unfold t. case_match.
    - destruct (log_output LOG_LEVEL_DEBUG (str "start service " ++ quoted (svc_name s) ++ str " in " ++
        fmt_d (secs (wrap64 (time - now))) ++ str " seconds") g) as (g1 & E1 & F1 & C1); [apply Hg|].
      exists g1. split_and!; [|done|done]. unfold log_debug. by rewrite (bind_done _ _ _ _ _ E1).
    - destruct (log_output LOG_LEVEL_DEBUG (str "start service " ++ quoted (svc_name s) ++ str " now") g) as (g1 & E1 & F1 & C1); [apply Hg|].
      exists g1. split_and!; [|done|done]. unfold log_debug. by rewrite (bind_done _ _ _ _ _ E1). }
  destruct Hlog as (g1 & E1 & F1 & C1). rewrite (bind_done _ _ _ _ _ E1).
  pose proof (good_io _ _ _ _ _ _ Hg F1 C1) as Hg1.
  assert (Hs1 : svc_objs (g_svc g1) !! o = Some s) by by rewrite (io_svc _ _ F1).
  destruct (good_upd _ _ _ _ _ _ _ (set_svc_state SVC_STATE_START) Hg1 Ho Hs1) as (E2 & Hg2 & F2); [by intros ?|done|done|].
  rewrite (bind_done _ _ _ _ _ E2). set (g2 := on_svc _ g1) in *.
  assert (Hs2 : svc_objs (g_svc g2) !! o = Some (set_svc_state SVC_STATE_START s)) by apply lookup_insert_eq.
  destruct (good_upd _ _ _ _ _ _ _ (set_start_time (if t =? 0 then 1 else t)) Hg2 Ho Hs2) as (E3 & Hg3 & F3); [by intros ?|done|done|].
  rewrite (bind_done _ _ _ _ _ E3). set (g3 := on_svc _ g2) in *.
  assert (Hs3 : svc_objs (g_svc g3) !! o = Some (set_start_time (start_at now time) (set_svc_state SVC_STATE_START s))) by apply lookup_insert_eq.
  destruct (good_change_pid _ _ _ _ _ _ _ 0 Hg3 Ho Hs3) as (g4 & pids' & E4 & Hg4 & F4 & P4 & Eo4 & W4).
  rewrite (bind_done _ _ _ _ _ E4).
  assert (Hs4 : svc_objs (g_svc g4) !! o = Some (set_svc_pid 0 (set_start_time (start_at now time) (set_svc_state SVC_STATE_START s)))).
  { rewrite Eo4. apply lookup_insert_eq. }
  destruct (good_upd _ _ _ _ _ _ _ (set_reap_time 0) Hg4 Ho Hs4) as (E5 & Hg5 & F5); [by intros ?|done|done|].
  rewrite (bind_done _ _ _ _ _ E5). set (g5 := on_svc _ g4) in *.
  assert (Hs5 : svc_objs (g_svc g5) !! o = Some (set_reap_time 0 (set_svc_pid 0 (set_start_time (start_at now time) (set_svc_state SVC_STATE_START s))))) by apply lookup_insert_eq.
  destruct (good_upd _ _ _ _ _ _ _ (set_wait_status (-1)) Hg5 Ho Hs5) as (E6 & Hg6 & F6); [by intros ?|done|done|].
  rewrite (bind_done _ _ _ _ _ E6). set (g6 := on_svc _ g5) in *.
  destruct (good_active g6 _ _ _ _ o true Hg6 Ho) as (g7 & E7 & Hg7 & F7 & R7 & W7).
  rewrite (bind_done _ _ _ _ _ E7).
  assert (Eo6 : svc_objs (g_svc g6) = <[o := started now time s]> (svc_objs (g_svc g))).
  { unfold g6, g5. cbn. rewrite Eo4. unfold g3, g2. cbn. rewrite !insert_insert_eq. by rewrite (io_svc _ _ F1). }
  rewrite Eo6 in R7.
  destruct (relinked_some _ _ o (started now time s) R7) as (s7 & Hs7 & _); [apply lookup_insert_eq|].
  destruct (svc_notify_ok g7 o s7) as (g8 & E8 & F8 & C8); [apply Hg7|done|].
  rewrite (bind_done _ _ _ _ _ E8). pose proof (good_io _ _ _ _ _ _ Hg7 F8 C8) as Hg8.
  rewrite (bind_done _ _ _ _ _ (wake_now_again_eq g8)).
  assert (HF : svc_frame g g8).
  { etransitivity; [by apply io_svc_frame|]. etransitivity; [exact F2|]. etransitivity; [exact F3|]. etransitivity; [exact F4|].
    etransitivity; [exact F5|]. etransitivity; [exact F6|]. etransitivity; [exact F7|]. by apply io_svc_frame. }
  do 2 eexists. split_and!; [reflexivity| | |exact P4| |].
  - destruct Hg8 as [K8 C8']. split; [by eapply svc_ok_same|by eapply ctls_ok_same].
  - etransitivity; [exact HF|apply svc_frame_wake].
  - cbn. by rewrite (io_svc _ _ F8).
  - cbn. exact (sf_now _ _ HF).
Qed.
End svc_spec.
