(* ===== verification/SvcRun.v ===== *)
(** * Properties of services: the state machine

    [svc_run] and the operations that start, cancel and reap a service are shown to
    follow the transition relation [svc_trans]. *)

From S2P Require Import Prelude Strseg State RBTree Table Log Signal SignalSpec CtlOut CtlOutSpec Fd CtlObj Service Preserves SvcFork Dll ServiceSpec.

(** ** The effect on the other services *)

(** Only the service [o] differs, and its place in the pid index and the active list. *)
Record touched (o : Z) (g g' : G) (pids pids' act act' : list Z) : Prop := {
  to_frame : svc_frame g g';
  to_others : ∀ p, p ≠ o → unlinked <$> svc_objs (g_svc g') !! p = unlinked <$> svc_objs (g_svc g) !! p;
  to_pids : ∀ p, p ≠ o → p ∈ pids' ↔ p ∈ pids;
  to_act : ∀ p, p ≠ o → p ∈ act' ↔ p ∈ act;
}.

Lemma touched_refl o g pids act : touched o g g pids pids act act.
Proof. by split. Qed.

Lemma touched_trans o g1 g2 g3 p1 p2 p3 a1 a2 a3 :
  touched o g1 g2 p1 p2 a1 a2 → touched o g2 g3 p2 p3 a2 a3 → touched o g1 g3 p1 p3 a1 a3.
Proof.
  intros [F1 O1 P1 A1] [F2 O2 P2 A2]. split.
  - by transitivity g2.
  - intros p Hp. by rewrite O2, O1.
  - intros p Hp. by rewrite P2, P1.
  - intros p Hp. by rewrite A2, A1.
Qed.

Lemma touched_io `{OS} o g g' pids act : io_frame g g' → touched o g g' pids pids act act.
Proof. intros F. split; [by apply io_svc_frame|by rewrite (io_svc _ _ F)|done|done]. Qed.

(** ** The transition relation *)

(** The service after its daemon was forked. *)
Definition running (now pid : Z) (s : service_t) : service_t :=
  set_svc_state SVC_STATE_UP (set_start_time (if now =? 0 then 1 else now) (set_svc_pid pid s)).

(** When a service that ended is started again. *)
Definition restart_at (now : Z) (s : service_t) : Z :=
  if wrap64 (reap_time s - start_time s) <? restart_interval s then wrap64 (now + restart_interval s) else now.

(** The service has a daemon to be forked, now or later. *)
Definition waits (now : Z) (s : service_t) : Prop := 0 < wrap64 (start_time s - now).
#[export] Instance waits_dec now s : Decision (waits now s).
Proof. unfold waits. apply _. Defined.

(** What [svc_run] does to a service at the time [now]; [wakes] tells if a signal
    that triggers it is pending, and [fs] is what [fork] answered meanwhile. *)
Inductive svc_trans (now : Z) (wakes : Prop) : list Z → service_t → service_t → Prop :=
| trans_wait s : svc_state s = SVC_STATE_START → waits now s → svc_trans now wakes [] s s
| trans_fork s pid : svc_state s = SVC_STATE_START → ¬ waits now s → 0 < pid →
    svc_trans now wakes [pid] s (running now pid s)
| trans_retry s r : svc_state s = SVC_STATE_START → ¬ waits now s → r < 0 →
    svc_trans now wakes [r] s (started now (wrap64 (now + FORK_RETRY_DELAY)) s)
| trans_up s : svc_state s = SVC_STATE_UP → svc_trans now wakes [] s s
| trans_down s : svc_state s = SVC_STATE_DOWN → svc_trans now wakes [] s s
| trans_reaped s : svc_state s = SVC_STATE_REAPED → auto_restart s = false → ¬ wakes →
    svc_trans now wakes [] s (set_svc_state SVC_STATE_DOWN s)
| trans_restart fs s s' : svc_state s = SVC_STATE_REAPED → auto_restart s = true ∨ wakes →
    svc_trans now wakes fs (started now (restart_at now s) s) s' → svc_trans now wakes fs s s'.

Lemma wrap64_plus_minus x d k : in64 (d + k) → wrap64 (wrap64 (x + d) + k - x) = d + k.
Proof.
  intros Hd. destruct (wrap64_shift (x + d)) as [j ->]. apply (wrap64_unique _ _ (- j)); [done|lia].
Qed.

(** A start that is delayed by [d] is in the future. *)
Lemma started_waits now d s : 0 < d < 2 ^ 62 → waits now (started now (wrap64 (now + d)) s).
Proof.
  intros Hd. unfold waits, started, start_at. cbn [start_time set_wait_status set_reap_time set_svc_pid set_start_time].
  pose proof (wrap64_plus_minus now d 0) as H0. rewrite !Z.add_0_r in H0.
  rewrite H0 by (unfold in64, int64_min, int64_max; lia).
  rewrite (proj2 (Z.gtb_lt d 0)) by lia. destruct (Z.eqb_spec (wrap64 (now + d)) 0) as [E|_].
  - pose proof (wrap64_plus_minus now d 1) as H1. rewrite E in H1. change (0 + 1) with 1 in H1. rewrite H1 by (unfold in64, int64_min, int64_max; lia). lia.
  - rewrite H0 by (unfold in64, int64_min, int64_max; lia). lia.
Qed.

Definition settled (now : Z) (s : service_t) : Prop :=
  svc_state s = SVC_STATE_START ∧ waits now s ∨ svc_state s = SVC_STATE_UP ∨ svc_state s = SVC_STATE_DOWN.

(** After a transition a service waits for its start, runs, or is down. *)
Lemma svc_trans_settled now wakes fs s s' : svc_trans now wakes fs s s' → settled now s'.
Proof.
  induction 1 as [s Hs Hw|s pid Hs Hw Hp|s r Hs Hw Hr|s Hs|s Hs|s Hs|fs s s' Hs Ha Ht IH]; unfold settled; auto.
  left. split; [done|]. apply started_waits. unfold FORK_RETRY_DELAY. lia.
Qed.

(** ** The loop over the pending signals *)

(** The table of signals as the handler and [sig_run] keep it, at most one of the
    pending signals having a time. *)
Record sigs_ok (a : list sig_status_t) : Prop := {
  sg_inv : sig_inv a;
  sg_ts : Forall ts_ok a;
  sg_distinct : ∀ s1 s2, s1 ∈ a → s2 ∈ a → 0 < number_pending s1 →
    last_received_ts s1 = last_received_ts s2 → 0 < number_pending s2 → s1 = s2;
}.

(** A pending signal of the set. *)
Definition pending_in (a : list sig_status_t) (since : Z) (sigs : gset Z) : Prop :=
  ∃ s, s ∈ a ∧ eligible since s ∧ signum s ∈ sigs.

(** The signals that start [s]. *)
Definition wakes (a : list sig_status_t) (s : service_t) : Prop :=
  svc_sigwake s = true ∧ pending_in a 0 (autostart_signals s).

(** The signals after [since] are the first one and those after it. *)
Lemma pending_in_step a since s sigs : 0 ≤ since → sigs_ok a → s ∈ a → eligible since s →
  (∀ x, x ∈ a → eligible since x → last_received_ts s ≤ last_received_ts x) →
  pending_in a since sigs ↔ signum s ∈ sigs ∨ pending_in a (last_received_ts s) sigs.
Proof.
  intros Hs Hok Hin He Hmin. pose proof (sg_ts _ Hok) as Hts. rewrite Forall_forall in Hts.
  pose proof (Hts s Hin (proj1 He)) as Hpos. split.
  - intros (x & Hx & Hex & Hsx). pose proof (Hmin x Hx Hex).
    destruct (decide (last_received_ts s = last_received_ts x)) as [Heq|Hne].
    + left. rewrite (sg_distinct _ Hok s x); try done; [apply He|apply Hex].
    + right. exists x. split_and!; [done| |done]. split; [apply Hex|]. right. lia.
  - intros [Hsig|(x & Hx & Hex & Hsx)]; [by exists s|]. exists x. split_and!; [done| |done].
    destruct Hex as [H1 [H2|H2]]; [lia|]. split; [done|]. destruct (proj2 He) as [->|?]; [by left|right; lia].
Qed.

Section run.
Context `{OS}.

Lemma svc_sigwake_loop_ok fuel sigs since g : 0 ≤ since < 2 ^ 62 → sigs_ok (signals (g_sig g)) →
  (to_report since (signals (g_sig g)) < fuel)%nat →
  ∃ b : bool, svc_sigwake_loop fuel sigs since g = Done (b, g) ∧ (b = true ↔ pending_in (signals (g_sig g)) since sigs).
Proof.
  intros Hs Hok. revert since Hs. induction fuel as [|fuel IH]; intros since Hs Hf; [lia|]. cbn [svc_sigwake_loop].
  destruct (sig_get_new_events_spec since g Hs (sg_ts _ Hok)) as [[E1 Hno]|(s & E1 & Hin & He & Hmin)];
    rewrite (bind_done _ _ _ _ _ E1).
  - exists false. split; [done|]. split; [done|]. intros (s & Hin & He & _). by destruct (Hno s).
  - unfold SignalSpec.entry. cbn [fst snd]. case_bool_decide as Hsig.
    + exists true. split; [done|]. split; [|done]. intros _. by exists s.
    + pose proof (sg_ts _ Hok) as Hts. rewrite Forall_forall in Hts. pose proof (Hts s Hin (proj1 He)) as Hpos.
      pose proof (to_report_lt since s _ Hin He (proj1 Hpos) Hmin) as Hlt.
      destruct (IH (last_received_ts s)) as (b & E2 & Hb); [lia|lia|].
      exists b. split; [done|]. rewrite Hb, (pending_in_step _ since s) by (done || lia). tauto.
Qed.

Lemma svc_check_sigwake_ok g o s : sigs_ok (signals (g_sig g)) → svc_objs (g_svc g) !! o = Some s →
  ∃ b : bool, svc_check_sigwake o g = Done (b, g) ∧ (b = true ↔ wakes (signals (g_sig g)) s).
Proof.
  intros Hok Hs. unfold svc_check_sigwake, wakes. rewrite (bind_done _ _ _ _ _ (svc_obj_eq _ _ _ Hs)).
  destruct (svc_sigwake s); cbn [negb].
  - destruct (svc_sigwake_loop_ok sig_events_fuel (autostart_signals s) 0 g) as (b & E & Hb); [lia|done| |].
    + pose proof (sig_inv_slots _ (sg_inv _ Hok)) as Hl. unfold to_report.
      pose proof (length_filter (eligible 0) (signals (g_sig g))). unfold sig_events_fuel. lia.
    + exists b. split; [done|]. naive_solver.
  - exists false. split; [done|]. naive_solver.
Qed.

Context `{!WriteOk}.

(** ** Steps that touch one service *)

Lemma log_good level msg g names pids act sigw : good g names pids act sigw →
  ∃ g', (log_write level msg;; mret tt) g = Done (tt, g') ∧ good g' names pids act sigw ∧ io_frame g g'.
Proof.
  intros Hg. destruct (log_output level msg g) as (g' & E & F & C); [apply Hg|]. exists g'.
  split_and!; [done|by eapply good_io|done].
Qed.

Lemma sys_good c g names pids act sigw : good g names pids act sigw →
  ∃ g', sys c g = Done (os (g_trace g) c, g') ∧ good g' names pids act sigw ∧ io_frame g g'.
Proof.
  intros Hg. eexists. split; [apply sys_eq|].
  assert (F : io_frame g (set_g_errno (if ret (os (g_trace g) c) <? 0 then err (os (g_trace g) c) else g_errno g)
    (set_g_trace ((c, os (g_trace g) c) :: g_trace g) g))).
  { split; try done; [|by exists [(c, os (g_trace g) c)]]. intros i x Hi. exists x. split; [done|apply same_rest_refl]. }
  split; [|exact F]. eapply good_io; [done|exact F|]. by eapply ctls_ok_same; [apply Hg|..].
Qed.

Lemma notify_good g names pids act sigw o : good g names pids act sigw → o ∈ names →
  ∃ g', svc_notify_state o g = Done (tt, g') ∧ good g' names pids act sigw ∧ io_frame g g'.
Proof.
  intros Hg Ho. destruct (so_objs _ _ _ _ _ (proj1 Hg) o Ho) as (s & Hs & _).
  destruct (svc_notify_ok g o s) as (g' & E & F & C); [apply Hg|done|]. exists g'.
  split_and!; [done|by eapply good_io|done].
Qed.

Lemma upd_touched g names pids act sigw o s u : good g names pids act sigw → o ∈ names →
  svc_objs (g_svc g) !! o = Some s → keeps_links u → svc_vars (u s) = svc_vars s → (state_known s → state_known (u s)) →
  ∃ g', upd_svc o u g = Done (tt, g') ∧ good g' names pids act sigw ∧ touched o g g' pids pids act act ∧
    svc_objs (g_svc g') !! o = Some (u s) ∧ g_wake g' = g_wake g ∧ g_sig g' = g_sig g.
Proof.
  intros Hg Ho Hs Hu Hv Hst. destruct (good_upd _ _ _ _ _ _ _ u Hg Ho Hs Hu Hv Hst) as (E & Hg' & F).
  eexists. split_and!; [exact E|exact Hg'|split; try done|apply lookup_insert_eq|done|done].
  intros p Hp. cbn. by rewrite lookup_insert_ne by done.
Qed.

Lemma active_touched g names pids act sigw o s b : good g names pids act sigw → o ∈ names →
  svc_objs (g_svc g) !! o = Some s →
  ∃ g' s', svc_set_active o b g = Done (tt, g') ∧ good g' names pids (list_set b o act) sigw ∧
    touched o g g' pids pids act (list_set b o act) ∧
    svc_objs (g_svc g') !! o = Some s' ∧ unlinked s' = unlinked s ∧ g_wake g' = g_wake g ∧ g_sig g' = g_sig g.
Proof.
  intros Hg Ho Hs. destruct (good_active g _ _ _ _ o b Hg Ho) as (g' & E & Hg' & F & R & W).
  destruct (relinked_some _ _ _ _ R Hs) as (s' & Hs' & Hu). exists g', s'.
  split_and!; [done|done|split; [done|by intros p _|done|by intros p Hp; apply list_set_other]|done|done|done|apply F].
Qed.

Lemma start_touched g names pids act sigw o s time : good g names pids act sigw → o ∈ names →
  svc_objs (g_svc g) !! o = Some s → svc_state s = SVC_STATE_DOWN ∨ svc_state s = SVC_STATE_START →
  ∃ g' pids' s', svc_handle_start o time g = Done (true, g') ∧ good g' names pids' (list_set true o act) sigw ∧
    touched o g g' pids pids' act (list_set true o act) ∧ o ∉ pids' ∧
    svc_objs (g_svc g') !! o = Some s' ∧ unlinked s' = unlinked (started (wake_now (g_wake g)) time s) ∧
    wake_next (g_wake g') = wake_now (g_wake g).
Proof.
  intros Hg Ho Hs Hst. destruct (svc_handle_start_ok _ _ _ _ _ _ _ time Hg Ho Hs Hst) as (g' & pids' & E & Hg' & F & P & R & W).
  destruct (relinked_some _ _ o _ R (lookup_insert_eq _ _ _)) as (s' & Hs' & Hu). exists g', pids', s'.
  split_and!; [done|done| | |done|done|done].
  - split; [done| | |by intros p Hp; apply list_set_other].
    + intros p Hp. by rewrite (R p), lookup_insert_ne.
    + intros p Hp. rewrite (P p). naive_solver.
  - rewrite (P o). naive_solver.
Qed.

(** ** Cancelling a start, and the end of a daemon *)

Definition cancelled (s : service_t) : service_t := set_start_time 0 (set_svc_state SVC_STATE_DOWN s).

Lemma svc_cancel_start_ok g names pids act sigw o s : good g names pids act sigw → o ∈ names →
  svc_objs (g_svc g) !! o = Some s → svc_state s = SVC_STATE_START →
  ∃ g' s', svc_cancel_start o g = Done (true, g') ∧ good g' names pids (list_set false o act) sigw ∧
    touched o g g' pids pids act (list_set false o act) ∧
    svc_objs (g_svc g') !! o = Some s' ∧ unlinked s' = unlinked (cancelled s) ∧ g_wake g' = g_wake g.
Proof.
  intros Hg Ho Hs Hst. unfold svc_cancel_start. rewrite (bind_done _ _ _ _ _ (svc_obj_eq _ _ _ Hs)).
  rewrite Hst. cbn [negb Z.eqb SVC_STATE_START Pos.eqb].
  destruct (upd_touched _ _ _ _ _ _ _ (set_svc_state SVC_STATE_DOWN) Hg Ho Hs) as (g1 & E1 & Hg1 & T1 & Hs1 & W1 & _); [done|done|done|].
  rewrite (bind_done _ _ _ _ _ E1).
  destruct (upd_touched _ _ _ _ _ _ _ (set_start_time 0) Hg1 Ho Hs1) as (g2 & E2 & Hg2 & T2 & Hs2 & W2 & _); [done|done|done|].
  rewrite (bind_done _ _ _ _ _ E2).
  destruct (active_touched _ _ _ _ _ _ _ false Hg2 Ho Hs2) as (g3 & s3 & E3 & Hg3 & T3 & Hs3 & U3 & W3 & _).
  rewrite (bind_done _ _ _ _ _ E3).
  destruct (notify_good _ _ _ _ _ _ Hg3 Ho) as (g4 & E4 & Hg4 & F4). rewrite (bind_done _ _ _ _ _ E4).
  exists g4, s3. split_and!; [done|done| |by rewrite (io_svc _ _ F4)|done|].
  - eapply touched_trans; [exact T1|]. eapply touched_trans; [exact T2|]. eapply touched_trans; [exact T3|]. by apply touched_io.
  - rewrite (io_wake _ _ F4). congruence.
Qed.

Lemma svc_cancel_start_refused g names pids act sigw o s : good g names pids act sigw →
  svc_objs (g_svc g) !! o = Some s → svc_state s ≠ SVC_STATE_START →
  ∃ g', svc_cancel_start o g = Done (false, g') ∧ good g' names pids act sigw ∧ io_frame g g'.
Proof.
  intros Hg Hs Hst. unfold svc_cancel_start. rewrite (bind_done _ _ _ _ _ (svc_obj_eq _ _ _ Hs)).
  rewrite (proj2 (Z.eqb_neq _ _) Hst). cbn [negb]. unfold log_debug.
  edestruct log_good as (g' & E & Hg' & F); [exact Hg|]. rewrite (bind_done _ _ _ _ _ E). by exists g'.
Qed.

Lemma svc_handle_start_refused g names pids act sigw o s time : good g names pids act sigw →
  svc_objs (g_svc g) !! o = Some s → svc_state s ≠ SVC_STATE_DOWN → svc_state s ≠ SVC_STATE_START →
  ∃ g', svc_handle_start o time g = Done (false, g') ∧ good g' names pids act sigw ∧ io_frame g g'.
Proof.
  intros Hg Hs Hd Hst. unfold svc_handle_start. rewrite (bind_done _ _ _ _ _ (svc_obj_eq _ _ _ Hs)).
  rewrite (bind_done (gets _) _ _ _ _ eq_refl).
  rewrite (proj2 (Z.eqb_neq _ _) Hd), (proj2 (Z.eqb_neq _ _) Hst). cbn [negb andb]. unfold log_debug.
  edestruct log_good as (g' & E & Hg' & F); [exact Hg|]. rewrite (bind_done _ _ _ _ _ E). by exists g'.
Qed.

Definition reaped (now wstat : Z) (s : service_t) : service_t :=
  set_reap_time now (set_svc_state SVC_STATE_REAPED (set_wait_status wstat s)).

Lemma svc_handle_reaped_ok g names pids act sigw o s wstat : good g names pids act sigw → o ∈ names →
  svc_objs (g_svc g) !! o = Some s → svc_state s = SVC_STATE_UP →
  ∃ g' s', svc_handle_reaped o wstat g = Done (tt, g') ∧ good g' names pids (list_set true o act) sigw ∧
    touched o g g' pids pids act (list_set true o act) ∧
    svc_objs (g_svc g') !! o = Some s' ∧ unlinked s' = unlinked (reaped (wake_now (g_wake g)) wstat s) ∧
    wake_next (g_wake g') = wake_now (g_wake g).
Proof.
  intros Hg Ho Hs Hst. unfold svc_handle_reaped. rewrite (bind_done _ _ _ _ _ (svc_obj_eq _ _ _ Hs)).
  rewrite (bind_done (gets _) _ _ _ _ eq_refl). rewrite Hst. cbn [Z.eqb SVC_STATE_UP Pos.eqb].
  set (now := wake_now (g_wake g)).
  destruct (upd_touched _ _ _ _ _ _ _ (set_wait_status wstat) Hg Ho Hs) as (g1 & E1 & Hg1 & T1 & Hs1 & W1 & _); [done|done|done|].
  rewrite (bind_done _ _ _ _ _ E1).
  destruct (upd_touched _ _ _ _ _ _ _ (set_svc_state SVC_STATE_REAPED) Hg1 Ho Hs1) as (g2 & E2 & Hg2 & T2 & Hs2 & W2 & _); [done|done|done|].
  rewrite (bind_done _ _ _ _ _ E2).
  destruct (upd_touched _ _ _ _ _ _ _ (set_reap_time now) Hg2 Ho Hs2) as (g3 & E3 & Hg3 & T3 & Hs3 & W3 & _); [done|done|done|].
  rewrite (bind_done _ _ _ _ _ E3).
  destruct (active_touched _ _ _ _ _ _ _ true Hg3 Ho Hs3) as (g4 & s4 & E4 & Hg4 & T4 & Hs4 & U4 & W4 & _).
  rewrite (bind_done _ _ _ _ _ E4). rewrite wake_now_again_eq.
  assert (T : touched o g g4 pids pids act (list_set true o act)).
  { eapply touched_trans; [exact T1|]. eapply touched_trans; [exact T2|]. eapply touched_trans; [exact T3|exact T4]. }
  do 2 eexists. split_and!; [reflexivity| | |exact Hs4|exact U4|].
  - destruct Hg4 as [K C]. split; [by eapply svc_ok_same|by eapply ctls_ok_same].
  - eapply touched_trans; [exact T|]. split; [apply svc_frame_wake|done..].
  - cbn. by rewrite W4, W3, W2, W1.
Qed.

(** ** Forking, for services without control descriptors *)

(** The process that keeps running: [fork] does not return 0 in it. *)
Definition fork_in_parent : Prop := ∀ tr, ret (os tr CFork) ≠ 0.

Definition no_control (s : service_t) : Prop :=
  uses_control_event s = false ∧ uses_control_cmd s = false ∧ uses_control_socket s = false.

Lemma svc_do_fork_ok g names pids act sigw o s : fork_in_parent → good g names pids act sigw → o ∈ names →
  svc_objs (g_svc g) !! o = Some s → no_control s →
  (∃ g' r, svc_do_fork o g = Done (false, g') ∧ good g' names pids act sigw ∧ r < 0 ∧ forked [r] g g' ∧ io_frame g g') ∨
  (∃ g' pids' pid, svc_do_fork o g = Done (true, g') ∧ good g' names pids' act sigw ∧ 0 < pid ∧ forked [pid] g g' ∧
     touched o g g' pids pids' act act ∧ svc_objs (g_svc g') !! o = Some (set_svc_pid pid s) ∧
     g_wake g' = g_wake g ∧ g_sig g' = g_sig g ∧ o ∈ pids').
Proof.
  intros Hp Hg Ho Hs (N1 & N2 & N3). unfold svc_do_fork. rewrite (bind_done _ _ _ _ _ (svc_obj_eq _ _ _ Hs)).
  rewrite N1, N2, N3. cbn [orb]. unfold svc_fork_child.
  destruct (sys_good CFork g names pids act sigw Hg) as (g1 & E1 & Hg1 & F1). rewrite (bind_done _ _ _ _ _ E1).
  assert (K1 : forked [ret (os (g_trace g) CFork)] g g1) by (by injection E1 as <-).
  specialize (Hp (g_trace g)). set (pid := ret (os (g_trace g) CFork)) in *.
  destruct (Z.ltb_spec pid 0) as [Hneg|Hpos].
  - left. rewrite (bind_done (gets g_errno) _ _ _ _ eq_refl). unfold log_error.
    edestruct log_good as (g2 & E2 & Hg2 & F2); [exact Hg1|]. rewrite (bind_done _ _ _ _ _ E2).
    exists g2, pid. split_and!; [done|done|done| |by transitivity g1].
    by eapply forked_after, forkless_log_tt.
  - right. rewrite (proj2 (Z.eqb_neq _ _) Hp). cbn [when Z.geb Z.compare]. rewrite (bind_done (mret tt) _ _ _ _ eq_refl).
    assert (Hs1 : svc_objs (g_svc g1) !! o = Some s) by by rewrite (io_svc _ _ F1).
    destruct (good_change_pid _ _ _ _ _ _ _ pid Hg1 Ho Hs1) as (g2 & pids' & E2 & Hg2 & F2 & P2 & Eo & W2).
    rewrite (bind_done _ _ _ _ _ E2). exists g2, pids', pid.
    split_and!; [done|done|lia|by eapply forked_after, forkless_change_pid| |by rewrite Eo, lookup_insert_eq|by rewrite W2, (io_wake _ _ F1)|by rewrite (sf_sig _ _ F2), (io_sig _ _ F1)|].
    + eapply touched_trans; [by apply touched_io|]. split; [done| | |done].
      * intros p Hpo. by rewrite Eo, lookup_insert_ne.
      * intros p Hpo. rewrite (P2 p). naive_solver.
    + rewrite (P2 o). naive_solver.
Qed.

(** ** [svc_run] *)

(** The fields of services that differ in their links. *)
Lemma unlinked_field {A} (f : service_t → A) s s' : (∀ x, f (unlinked x) = f x) → unlinked s' = unlinked s → f s' = f s.
Proof. intros Hf Hu. rewrite <-(Hf s'), <-(Hf s). by rewrite Hu. Qed.

Lemma waits_unlinked now s s' : unlinked s' = unlinked s → waits now s' ↔ waits now s.
Proof. intros Hu. unfold waits. by rewrite (unlinked_field start_time _ _ ltac:(done) Hu). Qed.

Lemma no_control_unlinked s s' : unlinked s' = unlinked s → no_control s → no_control s'.
Proof.
  intros Hu. unfold no_control. rewrite (unlinked_field uses_control_event _ _ ltac:(done) Hu),
    (unlinked_field uses_control_cmd _ _ ltac:(done) Hu), (unlinked_field uses_control_socket _ _ ltac:(done) Hu). done.
Qed.

(** What a run of the machine from the state [g] ends in. *)
Definition ran (g : G) (names pids act sigw : list Z) (o : Z) (s : service_t) (m : DP unit) : Prop :=
  ∃ g' pids' s', m g = Done (tt, g') ∧
    good g' names pids' (list_set (svc_state s' =? SVC_STATE_START) o act) sigw ∧
    touched o g g' pids pids' act (list_set (svc_state s' =? SVC_STATE_START) o act) ∧
    svc_objs (g_svc g') !! o = Some s' ∧
    (∃ fs, forked fs g g' ∧
      svc_trans (wake_now (g_wake g)) (wakes (signals (g_sig g)) s) fs (unlinked s) (unlinked s')) ∧
    (svc_state s' = SVC_STATE_START → 0 ≤ wrap64 (start_time s' - wake_next (g_wake g'))).

(** A service with nothing to do is taken off the list. *)
Lemma run_idle fuel g names pids act sigw o s : good g names pids act sigw → o ∈ names →
  svc_objs (g_svc g) !! o = Some s → svc_state s = SVC_STATE_UP ∨ svc_state s = SVC_STATE_DOWN →
  ran g names pids act sigw o s (svc_run_switch (S fuel) o).
Proof.
  intros Hg Ho Hs Hst. unfold ran. cbn [svc_run_switch]. rewrite (bind_done _ _ _ _ _ (svc_obj_eq _ _ _ Hs)).
  rewrite (bind_done (gets g_wake) _ _ _ _ eq_refl).
  destruct (active_touched _ _ _ _ _ _ _ false Hg Ho Hs) as (g1 & s1 & E1 & Hg1 & T1 & Hs1 & U1 & W1 & _).
  pose proof (unlinked_field svc_state _ _ ltac:(done) U1) as Est.
  exists g1, pids, s1.
  assert (Ens : (svc_state s1 =? SVC_STATE_START) = false) by (rewrite Est; by destruct Hst as [-> | ->]).
  rewrite Ens. split_and!; [|done|done|done| |intros E; by rewrite E in Ens].
  - assert (Ec : svc_check o g1 = Done (tt, g1)) by (by eapply svc_check_ok; [apply Hg1|]).
    destruct Hst as [-> | ->]; cbn [Z.eqb Pos.eqb SVC_STATE_START SVC_STATE_UP SVC_STATE_DOWN SVC_STATE_REAPED];
      rewrite (bind_done _ _ _ _ _ E1); exact Ec.
  - exists []. split; [by eapply forkless_active|]. rewrite U1. destruct Hst; [by apply trans_up|by apply trans_down].
Qed.

(** The next wake-up is no later than the start that is waited for. *)
Lemma wake_min_ok g names pids act sigw t : good g names pids act sigw →
  ∃ g', when (wrap64 (t - wake_next (g_wake g)) <? 0) (modify (on_wake (set_wake_next t))) g = Done (tt, g') ∧
    good g' names pids act sigw ∧ svc_frame g g' ∧ g_svc g' = g_svc g ∧ forked [] g g' ∧ 0 ≤ wrap64 (t - wake_next (g_wake g')).
Proof.
  intros Hg. destruct (Z.ltb_spec (wrap64 (t - wake_next (g_wake g))) 0) as [Hlt|Hge]; cbn [when].
  - eexists. split_and!; [reflexivity| | |done|done|cbn; by rewrite Z.sub_diag].
    + destruct Hg as [K C]. split; [by eapply svc_ok_same|by eapply ctls_ok_same].
    + split; try done. by exists [].
  - exists g. split_and!; [done|done|reflexivity|done|done|done].
Qed.

Lemma run_wait fuel g names pids act sigw o s : good g names pids act sigw → o ∈ names →
  svc_objs (g_svc g) !! o = Some s → svc_state s = SVC_STATE_START → waits (wake_now (g_wake g)) s →
  ran g names pids act sigw o s (svc_run_switch (S fuel) o).
Proof.
  intros Hg Ho Hs Hst Hw. unfold ran. cbn [svc_run_switch]. rewrite (bind_done _ _ _ _ _ (svc_obj_eq _ _ _ Hs)).
  rewrite (bind_done (gets g_wake) _ _ _ _ eq_refl). rewrite Hst. cbn [Z.eqb Pos.eqb SVC_STATE_START].
  rewrite (proj2 (Z.gtb_lt _ _) Hw).
  destruct (wake_min_ok _ _ _ _ _ (start_time s) Hg) as (g1 & E1 & Hg1 & F1 & S1 & K1 & W1). rewrite (bind_done _ _ _ _ _ E1).
  assert (Hs1 : svc_objs (g_svc g1) !! o = Some s) by by rewrite S1.
  destruct (active_touched _ _ _ _ _ _ _ true Hg1 Ho Hs1) as (g2 & s2 & E2 & Hg2 & T2 & Hs2 & U2 & W2 & _).
  pose proof (unlinked_field svc_state _ _ ltac:(done) U2) as Est.
  pose proof (unlinked_field start_time _ _ ltac:(done) U2) as Ett.
  rewrite (bind_done _ _ _ _ _ E2). exists g2, pids, s2.
  rewrite Est, Hst. cbn [Z.eqb Pos.eqb SVC_STATE_START]. split_and!; [by eapply svc_check_ok; [apply Hg2|]|done| |done| |].
  - eapply touched_trans; [|exact T2]. split; [done|by rewrite S1|done|done].
  - exists []. split; [by eapply forked_after, forkless_active|]. rewrite U2. by apply trans_wait.
  - intros _. by rewrite Ett, W2.
Qed.

Lemma list_set_again b o l : list_set b o (list_set true o l) = list_set b o l.
Proof.
  unfold list_set. destruct b; destruct (decide (o ∈ l)) as [Ho|Ho]; try by rewrite decide_True by (done || by left).
  - done.
  - by rewrite filter_cons_False by tauto.
Qed.

(** A run that continues from a state in which the service is on the list. *)
Lemma ran_after fs1 g g1 names pids pids1 act sigw o s s1 m m' : m g = m' g1 → forked fs1 g g1 →
  touched o g g1 pids pids1 act (list_set true o act) →
  ran g1 names pids1 (list_set true o act) sigw o s1 m' →
  (∀ fs t, svc_trans (wake_now (g_wake g)) (wakes (signals (g_sig g)) s1) fs (unlinked s1) t →
     svc_trans (wake_now (g_wake g)) (wakes (signals (g_sig g)) s) (fs ++ fs1) (unlinked s) t) →
  ran g names pids act sigw o s m.
Proof.
  intros Em K1 T1 (g2 & pids2 & s2 & E2 & Hg2 & T2 & Hs2 & (fs & K2 & R2) & W2) Htr. rewrite list_set_again in Hg2, T2.
  exists g2, pids2, s2. split_and!; [by rewrite Em|done|by eapply touched_trans|done| |done].
  exists (fs ++ fs1). split; [by eapply forked_trans|]. apply Htr. by rewrite <-(sf_now _ _ (to_frame _ _ _ _ _ _ _ T1)), <-(sf_sig _ _ (to_frame _ _ _ _ _ _ _ T1)).
Qed.

(** One pass over a service that is due: the fork failed, or the daemon runs. *)
Lemma run_due fuel g names pids act sigw o s : fork_in_parent → good g names pids act sigw → o ∈ names →
  svc_objs (g_svc g) !! o = Some s → no_control s → svc_state s = SVC_STATE_START → ¬ waits (wake_now (g_wake g)) s →
  (∃ g' pids' s' r, svc_run_switch (S fuel) o g = svc_run_switch fuel o g' ∧ r < 0 ∧ forked [r] g g' ∧
     good g' names pids' (list_set true o act) sigw ∧ touched o g g' pids pids' act (list_set true o act) ∧
     svc_objs (g_svc g') !! o = Some s' ∧
     unlinked s' = unlinked (started (wake_now (g_wake g)) (wrap64 (wake_now (g_wake g) + FORK_RETRY_DELAY)) s)) ∨
  (∃ g' pids' s' pid, svc_run_switch (S fuel) o g = Done (tt, g') ∧ 0 < pid ∧ forked [pid] g g' ∧
     good g' names pids' (list_set false o act) sigw ∧ touched o g g' pids pids' act (list_set false o act) ∧
     svc_objs (g_svc g') !! o = Some s' ∧ unlinked s' = unlinked (running (wake_now (g_wake g)) pid s)).
Proof.
  intros Hp Hg Ho Hs Hn Hst Hw. set (now := wake_now (g_wake g)) in *.
  assert (Hw' : (wrap64 (start_time s - now) >? 0) = false).
  { unfold waits in Hw. destruct (Z.gtb_spec (wrap64 (start_time s - now)) 0); [lia|done]. }
  cbn [svc_run_switch].
  rewrite (bind_done _ _ _ _ _ (svc_obj_eq _ _ _ Hs)), (bind_done (gets g_wake) _ _ _ _ eq_refl).
  rewrite Hst. cbn [Z.eqb Pos.eqb SVC_STATE_START]. fold now. rewrite Hw'.
  destruct (svc_do_fork_ok _ _ _ _ _ _ _ Hp Hg Ho Hs Hn) as
    [(g1 & r & E1 & Hg1 & Hr & K1 & F1)|(g1 & pids1 & pid & E1 & Hg1 & Hpid & K1 & T1 & Hs1 & W1 & S1 & Hin)];
    rewrite (bind_done _ _ _ _ _ E1), (bind_done (gets _) _ _ _ _ eq_refl); cbn [negb]; [left|right].
  - rewrite (io_wake _ _ F1). fold now. unfold log_info.
    edestruct log_good as (g2 & E2 & Hg2 & F2); [exact Hg1|]. rewrite (bind_done _ _ _ _ _ E2).
    assert (Hs2 : svc_objs (g_svc g2) !! o = Some s) by by rewrite (io_svc _ _ F2), (io_svc _ _ F1).
    destruct (start_touched _ _ _ _ _ _ _ (wrap64 (now + FORK_RETRY_DELAY)) Hg2 Ho Hs2) as
      (g3 & pids3 & s3 & E3 & Hg3 & T3 & Hin3 & Hs3 & U3 & W3); [by right|].
    rewrite (bind_done _ _ _ _ _ E3). exists g3, pids3, s3, r. split_and!; [reflexivity|done| |exact Hg3| |exact Hs3|].
    + eapply forked_after; [by eapply forked_after, forkless_log_tt|by eapply forkless_start].
    + eapply touched_trans; [by apply touched_io|]. eapply touched_trans; [by apply touched_io|]. exact T3.
    + rewrite U3. by rewrite (io_wake _ _ F2), (io_wake _ _ F1).
  - rewrite W1. fold now.
    destruct (upd_touched _ _ _ _ _ _ _ (set_start_time (if now =? 0 then 1 else now)) Hg1 Ho Hs1)
      as (g2 & E2 & Hg2 & T2 & Hs2 & W2 & _); [done|done|done|]. rewrite (bind_done _ _ _ _ _ E2).
    destruct (upd_touched _ _ _ _ _ _ _ (set_svc_state SVC_STATE_UP) Hg2 Ho Hs2)
      as (g3 & E3 & Hg3 & T3 & Hs3 & W3 & _); [done|done|done|]. rewrite (bind_done _ _ _ _ _ E3).
    destruct (notify_good _ _ _ _ _ _ Hg3 Ho) as (g4 & E4 & Hg4 & F4). rewrite (bind_done _ _ _ _ _ E4).
    assert (Hs4 : svc_objs (g_svc g4) !! o = Some (running now pid s)) by by rewrite (io_svc _ _ F4).
    destruct (active_touched _ _ _ _ _ _ _ false Hg4 Ho Hs4) as (g5 & s5 & E5 & Hg5 & T5 & Hs5 & U5 & W5 & _).
    rewrite (bind_done _ _ _ _ _ E5). exists g5, pids1, s5, pid.
    split_and!; [by eapply svc_check_ok; [apply Hg5|]|done| |exact Hg5| |exact Hs5|exact U5].
    { eapply forked_after; [|by eapply forkless_active]. eapply forked_after; [|by eapply forkless_notify].
      eapply forked_after; [|by eapply forkless_upd_svc]. by eapply forked_after, forkless_upd_svc. }
    eapply touched_trans; [exact T1|]. eapply touched_trans; [exact T2|]. eapply touched_trans; [exact T3|].
    eapply touched_trans; [by apply touched_io|exact T5].
Qed.

Lemma trans_start_inv now w fs s t : svc_state s = SVC_STATE_START → waits now s → svc_trans now w fs s t → fs = [] ∧ t = s.
Proof. intros Hs Hw Ht. inversion Ht; subst; done || (rewrite Hs in *; done). Qed.

Lemma run_start fuel g names pids act sigw o s : fork_in_parent → good g names pids act sigw → o ∈ names →
  svc_objs (g_svc g) !! o = Some s → no_control s → svc_state s = SVC_STATE_START →
  ran g names pids act sigw o s (svc_run_switch (S (S fuel)) o).
Proof.
  intros Hp Hg Ho Hs Hn Hst. destruct (decide (waits (wake_now (g_wake g)) s)) as [Hw|Hw]; [by apply run_wait|].
  assert (Hw' : ¬ waits (wake_now (g_wake g)) (unlinked s)) by by rewrite (waits_unlinked _ s).
  destruct (run_due (S fuel) _ _ _ _ _ _ _ Hp Hg Ho Hs Hn Hst Hw) as
    [(g1 & pids1 & s1 & r & E1 & Hr & K1 & Hg1 & T1 & Hs1 & U1)|(g1 & pids1 & s1 & pid & E1 & Hpid & K1 & Hg1 & T1 & Hs1 & U1)].
  - pose proof (unlinked_field svc_state _ _ ltac:(done) U1) as Est.
    pose proof (sf_now _ _ (to_frame _ _ _ _ _ _ _ T1)) as En1.
    assert (Hw1 : waits (wake_now (g_wake g)) s1).
    { rewrite (waits_unlinked _ _ _ U1). apply started_waits. unfold FORK_RETRY_DELAY. lia. }
    eapply ran_after; [exact E1|exact K1|exact T1| |].
    + apply run_wait; [done|done|done|exact Est|by rewrite En1].
    + intros fs t Ht. apply trans_start_inv in Ht as [-> ->]; [|exact Est|by rewrite (waits_unlinked _ s1)].
      rewrite U1. by apply (trans_retry (wake_now (g_wake g)) _ (unlinked s)).
  - exists g1, pids1, s1. rewrite (unlinked_field svc_state _ _ ltac:(done) U1).
    cbn [svc_state running set_svc_state Z.eqb Pos.eqb SVC_STATE_START SVC_STATE_UP].
    split_and!; [done|done|done|done| |done]. exists [pid]. split; [done|]. rewrite U1. by apply (trans_fork (wake_now (g_wake g)) _ (unlinked s) pid).
Qed.

Lemma trans_down_inv now w fs s t : svc_state s = SVC_STATE_DOWN → svc_trans now w fs s t → fs = [] ∧ t = s.
Proof. intros Hs Ht. inversion Ht; subst; done || (rewrite Hs in *; done). Qed.

(** Signals matter only to a service that was reaped. *)
Lemma svc_trans_wakes now w w' fs s t : svc_state s ≠ SVC_STATE_REAPED → svc_trans now w fs s t → svc_trans now w' fs s t.
Proof.
  intros Hs Ht. inversion Ht; subst; try (by destruct Hs).
  - by apply trans_wait.
  - by apply trans_fork.
  - by apply trans_retry.
  - by apply trans_up.
  - by apply trans_down.
Qed.

(** The service after [REAPED] was left, which is started again or stays down. *)
Lemma run_reaped fuel g names pids act sigw o s : fork_in_parent → good g names pids act sigw → o ∈ names →
  sigs_ok (signals (g_sig g)) →
  svc_objs (g_svc g) !! o = Some s → no_control s → svc_state s = SVC_STATE_REAPED →
  ran g names pids act sigw o s (svc_run_switch (S (S (S fuel))) o).
Proof.
  intros Hp Hg Ho Hsig Hs Hn Hst. set (now := wake_now (g_wake g)) in *.
  destruct (notify_good _ _ _ _ _ _ Hg Ho) as (g1 & E1 & Hg1 & F1).
  assert (Hs1 : svc_objs (g_svc g1) !! o = Some s) by by rewrite (io_svc _ _ F1).
  destruct (upd_touched _ _ _ _ _ _ _ (set_svc_state SVC_STATE_DOWN) Hg1 Ho Hs1)
    as (g2 & E2 & Hg2 & T2 & Hs2 & W2 & S2); [done|done|done|].
  destruct (svc_check_sigwake_ok g2 o (set_svc_state SVC_STATE_DOWN s)) as (b & E3 & Hb);
    [by rewrite S2, (io_sig _ _ F1)|done|].
  rewrite S2, (io_sig _ _ F1) in Hb. change (wakes _ (set_svc_state SVC_STATE_DOWN s)) with (wakes (signals (g_sig g)) s) in Hb.
  assert (En2 : wake_now (g_wake g2) = now) by by rewrite W2, (io_wake _ _ F1).
  assert (K12 : forked [] g g2).
  { eapply forked_after; [by eapply forkless_notify|by eapply forkless_upd_svc]. }
  assert (T12 : touched o g g2 pids pids act act) by (eapply touched_trans; [by apply touched_io|exact T2]).
  assert (Ea : (if auto_restart s then mret true else svc_check_sigwake o) g2 = Done (auto_restart s || b, g2)).
  { by destruct (auto_restart s). }
  assert (Hab : auto_restart s || b = true ↔ auto_restart s = true ∨ wakes (signals (g_sig g)) s).
  { rewrite <-Hb. destruct (auto_restart s), b; naive_solver. }
  assert (Erun : svc_run_switch (S (S (S fuel))) o g = (if auto_restart s || b then
      svc_handle_start o (restart_at now s);; svc_notify_state o;; svc_run_switch (S (S fuel)) o
      else svc_run_switch (S (S fuel)) o) g2).
  { remember (S (S fuel)) as fuel' eqn:Ef. cbn [svc_run_switch].
    rewrite (bind_done _ _ _ _ _ (svc_obj_eq _ _ _ Hs)), (bind_done (gets g_wake) _ _ _ _ eq_refl).
    rewrite Hst. cbn [Z.eqb Pos.eqb SVC_STATE_START SVC_STATE_UP SVC_STATE_REAPED].
    rewrite (bind_done _ _ _ _ _ E1), (bind_done _ _ _ _ _ E2), (bind_done _ _ _ _ _ Ea).
    destruct (auto_restart s || b); [|by rewrite (bind_done (mret tt) _ _ _ _ eq_refl)].
    rewrite !bind_bind, (bind_done (gets _) _ _ _ _ eq_refl), En2.
    fold (restart_at now s). rewrite !bind_bind. done. }
  destruct (auto_restart s || b) eqn:Eab.
  - destruct (start_touched _ _ _ _ _ _ _ (restart_at now s) Hg2 Ho Hs2) as
      (g3 & pids3 & s3 & E4 & Hg3 & T3 & Hin3 & Hs3 & U3 & W3); [by left|].
    destruct (notify_good _ _ _ _ _ _ Hg3 Ho) as (g4 & E5 & Hg4 & F5).
    rewrite (bind_done _ _ _ _ _ E4), (bind_done _ _ _ _ _ E5) in Erun.
    rewrite En2 in U3. change (started now (restart_at now s) (set_svc_state SVC_STATE_DOWN s)) with (started now (restart_at now s) s) in U3.
    eapply (ran_after []); [exact Erun| | | |].
    + eapply forked_after; [|by eapply forkless_notify]. by eapply forked_after, forkless_start.
    + eapply touched_trans; [exact T12|]. eapply touched_trans; [exact T3|]. by apply touched_io.
    + apply run_start; [done|done|done|by rewrite (io_svc _ _ F5)| |by rewrite (unlinked_field svc_state _ _ ltac:(done) U3)].
      by eapply no_control_unlinked; [exact U3|].
    + intros fs t Ht. rewrite app_nil_r. rewrite U3 in Ht. apply trans_restart; [done|by apply Hab|].
      fold now in Ht |- *. change (started now (restart_at now (unlinked s)) (unlinked s)) with (unlinked (started now (restart_at now s) s)).
      eapply svc_trans_wakes; [|exact Ht]. done.
  - destruct (run_idle (S fuel) _ _ _ _ _ _ _ Hg2 Ho Hs2) as (g3 & pids3 & s3 & E4 & Hg3 & T3 & Hs3 & (fs & K3 & R3) & W3); [by right|].
    exists g3, pids3, s3. split_and!; [by rewrite Erun|done|by eapply touched_trans|done| |done].
    exists []. apply trans_down_inv in R3 as [-> Es3]; [|done]. split; [by eapply forked_after|].
    change (unlinked s3 = set_svc_state SVC_STATE_DOWN (unlinked s)) in Es3.
    apply orb_false_iff in Eab as [Ea0 Eb0]. rewrite Es3. apply trans_reaped; [done|done|]. rewrite <-Hb. by rewrite Eb0.
Qed.

(** [svc_run] on any service without control descriptors. *)
Lemma svc_run_ok g names pids act sigw o s : fork_in_parent → good g names pids act sigw → o ∈ names →
  sigs_ok (signals (g_sig g)) →
  svc_objs (g_svc g) !! o = Some s → no_control s → ran g names pids act sigw o s (svc_run o).
Proof.
  intros Hp Hg Ho Hsig Hs Hn. unfold svc_run. destruct (so_objs _ _ _ _ _ (proj1 Hg) o Ho) as (s0 & Hs0 & _ & _ & _ & Hst).
  assert (s0 = s) as -> by congruence. unfold state_known in Hst.
  assert (Hc : svc_state s = SVC_STATE_START ∨ (svc_state s = SVC_STATE_UP ∨ svc_state s = SVC_STATE_DOWN) ∨ svc_state s = SVC_STATE_REAPED).
  { unfold SVC_STATE_DOWN, SVC_STATE_START, SVC_STATE_UP, SVC_STATE_REAPED in *. lia. }
  destruct Hc as [Hc|[Hc|Hc]]; [by apply run_start|by apply run_idle|by apply run_reaped].
Qed.
End run.
