(* ===== verification/SvcActive.v ===== *)
(** * Properties of services: a pass over all of them

    [svc_run_active] starts the services whose signals arrived, then runs each
    service of the active list; afterwards only services that wait for their start
    are on it. *)

From S2P Require Import Prelude Strseg State RBTree Table Log Signal SignalSpec CtlOut CtlOutSpec Fd CtlObj Service SvcFork Dll ServiceSpec SvcRun.

(** No service has control descriptors. *)
Definition no_controls (g : G) (names : list Z) : Prop := ∀ o s, o ∈ names → svc_objs (g_svc g) !! o = Some s → no_control s.

Lemma svc_trans_no_control now w fs s s' : svc_trans now w fs s s' → no_control s → no_control s'.
Proof. by induction 1; auto. Qed.

(** Objects that are the same but for links. *)
Definition same_at (g g' : G) (p : Z) : Prop := unlinked <$> svc_objs (g_svc g') !! p = unlinked <$> svc_objs (g_svc g) !! p.

Lemma same_at_some g g' p s : same_at g g' p → svc_objs (g_svc g) !! p = Some s →
  ∃ s', svc_objs (g_svc g') !! p = Some s' ∧ unlinked s' = unlinked s.
Proof.
  intros Hs Hp. unfold same_at in Hs. rewrite Hp in Hs. destruct (svc_objs (g_svc g') !! p) as [s'|]; [|done].
  exists s'. split; [done|]. by apply (inj Some) in Hs.
Qed.

Lemma same_at_no_control g g' p s' : same_at g g' p → svc_objs (g_svc g') !! p = Some s' →
  (∀ s, svc_objs (g_svc g) !! p = Some s → no_control s) → no_control s'.
Proof.
  intros Hs Hp Hg. unfold same_at in Hs. rewrite Hp in Hs. destruct (svc_objs (g_svc g) !! p) as [s|] eqn:E; [|done].
  apply (inj Some) in Hs. eapply no_control_unlinked; [exact Hs|]. by apply Hg.
Qed.

Section active.
Context `{OS} `{!WriteOk}.

(** ** The services of the active list *)

(** Each service of [l] made its transitions, and stays on the list if it waits. *)
Record ran_all (g g' : G) (l kept : list Z) : Prop := {
  ra_frame : svc_frame g g';
  ra_others : ∀ p, p ∉ l → same_at g g' p;
  ra_kept : ∀ p, p ∈ kept → p ∈ l;
  ra_each : ∀ p s, p ∈ l → svc_objs (g_svc g) !! p = Some s → ∃ s', svc_objs (g_svc g') !! p = Some s' ∧
    (∃ fs, svc_trans (wake_now (g_wake g)) (wakes (signals (g_sig g)) s) fs (unlinked s) (unlinked s')) ∧
    (p ∈ kept ↔ svc_state s' = SVC_STATE_START);
}.

Lemma next_in_list g names pids l1 o l2 sigw s : good g names pids (l1 ++ o :: l2) sigw →
  svc_objs (g_svc g) !! o = Some s → active_next s = hd 0 l2.
Proof.
  intros [Hok _] Hs. pose proof (li_dll _ _ _ _ _ _ (so_active _ _ _ _ _ Hok)) as Hd.
  apply dll_app in Hd as [_ (s' & Hs' & _ & Hn & _)]. congruence.
Qed.

Lemma svc_run_all_ok rest : ∀ fuel g names pids l1 sigw, (length rest < fuel)%nat → fork_in_parent →
  good g names pids (l1 ++ rest) sigw → no_controls g names → sigs_ok (signals (g_sig g)) →
  ∃ g' pids' kept, svc_run_all fuel (hd 0 rest) g = Done (tt, g') ∧ good g' names pids' (l1 ++ kept) sigw ∧
    ran_all g g' rest kept.
Proof.
  induction rest as [|o rest IH]; intros fuel g names pids l1 sigw Hf Hp Hg Hctl Hsig.
  { destruct fuel as [|fuel]; [cbn in Hf; lia|]. exists g, pids, []. split_and!; [done|done|].
    split; [reflexivity|done|done|]. intros p s Hin. by apply elem_of_nil in Hin. }
  destruct fuel as [|fuel]; [cbn in Hf; lia|]. cbn [svc_run_all hd].
  pose proof (so_active _ _ _ _ _ (proj1 Hg)) as Hl. pose proof (li_nodup _ _ _ _ _ _ Hl) as Hnd.
  assert (Ho : o ∈ names) by (apply (li_sub _ _ _ _ _ _ Hl); rewrite elem_of_app, elem_of_cons; tauto).
  destruct (so_objs _ _ _ _ _ (proj1 Hg) o Ho) as (s & Hs & _).
  pose proof (so_range _ _ _ _ _ (proj1 Hg) o Ho) as Hr. rewrite (proj2 (Z.eqb_neq o 0)) by lia.
  rewrite (bind_done _ _ _ _ _ (svc_obj_eq _ _ _ Hs)). rewrite (next_in_list _ _ _ _ _ _ _ _ Hg Hs).
  destruct (svc_run_ok _ _ _ _ _ _ _ Hp Hg Ho Hsig Hs (Hctl o s Ho Hs)) as (g1 & pids1 & s1 & E1 & Hg1 & T1 & Hs1 & (fs1 & _ & R1) & _).
  rewrite (bind_done _ _ _ _ _ E1). set (b := svc_state s1 =? SVC_STATE_START) in *.
  assert (Hsplit : list_set b o (l1 ++ o :: rest) = (l1 ++ (if b then [o] else [])) ++ rest).
  { unfold list_set. destruct b.
    - rewrite decide_True by (rewrite elem_of_app, elem_of_cons; tauto). by rewrite <-app_assoc.
    - rewrite filter_middle by done. by rewrite app_nil_r. }
  rewrite Hsplit in Hg1. rewrite <-Permutation_middle in Hnd. apply NoDup_cons in Hnd as [Hno _].
  rewrite elem_of_app in Hno.
  assert (Hoth : ∀ p, p ≠ o → same_at g g1 p) by (intros p Hpo; exact (to_others _ _ _ _ _ _ _ T1 p Hpo)).
  pose proof (sf_sig _ _ (to_frame _ _ _ _ _ _ _ T1)) as Esig.
  pose proof (sf_now _ _ (to_frame _ _ _ _ _ _ _ T1)) as Enow.
  destruct (IH fuel g1 names pids1 (l1 ++ (if b then [o] else [])) sigw) as (g2 & pids2 & kept & E2 & Hg2 & [F2 O2 K2 R2]); [cbn in Hf; lia|done|exact Hg1| |by rewrite Esig|].
  { intros p t Hpn Hpt. destruct (decide (p = o)) as [->|Hpo].
    - assert (t = s1) as -> by congruence. apply svc_trans_no_control in R1; [exact R1|exact (Hctl o s Ho Hs)].
    - eapply same_at_no_control; [by apply Hoth|done|]. intros. by eapply Hctl. }
  exists g2, pids2, ((if b then [o] else []) ++ kept). split_and!; [done|by rewrite app_assoc|].
  assert (Hok : o ∉ kept) by (intros Hk; apply Hno; right; by apply K2).
  split.
  - etransitivity; [apply T1|done].
  - intros p Hpl. rewrite elem_of_cons in Hpl. unfold same_at. rewrite (O2 p) by tauto. apply Hoth. tauto.
  - intros p [Hpb|Hpk]%elem_of_app; [|right; by apply K2]. destruct b; [|by apply elem_of_nil in Hpb]. apply list_elem_of_singleton in Hpb as ->. by left.
  - intros p t Hpl Hpt. destruct (decide (p = o)) as [->|Hpo].
    + assert (t = s) as -> by congruence.
      destruct (same_at_some g1 g2 o s1) as (s2 & Hs2 & U2); [apply O2; tauto|done|].
      exists s2. split_and!; [done|by exists fs1; rewrite U2|]. rewrite (unlinked_field svc_state _ _ ltac:(done) U2), elem_of_app.
      unfold b. destruct (Z.eqb_spec (svc_state s1) SVC_STATE_START) as [->|Hne]; [rewrite list_elem_of_singleton; tauto|].
      rewrite elem_of_nil. tauto.
    + apply elem_of_cons in Hpl as [->|Hpl]; [done|]. destruct (same_at_some g g1 p t) as (t1 & Ht1 & U1); [by apply Hoth|done|].
      destruct (R2 p t1 Hpl Ht1) as (t2 & Ht2 & (fs & Htr) & Hk). exists t2. split_and!; [done|exists fs|].
      * rewrite U1, Enow, Esig in Htr. unfold wakes in Htr |- *.
        by rewrite (unlinked_field svc_sigwake _ _ ltac:(done) U1), (unlinked_field autostart_signals _ _ ltac:(done) U1) in Htr.
      * rewrite elem_of_app, Hk. destruct b; [|rewrite elem_of_nil; tauto]. rewrite list_elem_of_singleton. tauto.
Qed.

(** ** The services woken by signals *)

Definition startable (s : service_t) : Prop := svc_state s = SVC_STATE_DOWN ∨ svc_state s = SVC_STATE_START.

#[export] Instance startable_dec s : Decision (startable s).
Proof. unfold startable. apply _. Defined.

Lemma startable_unlinked s s' : unlinked s' = unlinked s → startable s' ↔ startable s.
Proof. intros Hu. unfold startable. by rewrite (unlinked_field svc_state _ _ ltac:(done) Hu). Qed.

(** [s'] is [s], started if it is triggered ([P]) and can be. *)
Definition triggered (now : Z) (P : Prop) (s s' : service_t) : Prop :=
  P ∧ startable s ∧ unlinked s' = unlinked (started now now s) ∨ ¬ (P ∧ startable s) ∧ unlinked s' = unlinked s.

#[export] Instance triggered_proper now : Proper (iff ==> eq ==> eq ==> iff) (triggered now).
Proof. intros P Q HPQ s ? <- s' ? <-. unfold triggered. by rewrite HPQ. Qed.

Lemma triggered_trans now (P Q : Prop) s1 s2 s3 : triggered now P s1 s2 → triggered now Q s2 s3 →
  triggered now (P ∨ Q) s1 s3.
Proof.
  unfold triggered. intros [(Hp & Hs & U1)|[Hn U1]].
  - intros Hq. left. split_and!; [by left|done|]. destruct Hq as [(_ & _ & U2)|[_ U2]]; [|by rewrite U2].
    rewrite U2. change (unlinked (started now now s2)) with (started now now (unlinked s2)). by rewrite U1.
  - rewrite (startable_unlinked _ _ U1). intros [(Hq & Hs & U2)|[Hq U2]]; [left|right].
    + split_and!; [by right|done|]. rewrite U2.
      change (unlinked (started now now s2)) with (started now now (unlinked s2)). by rewrite U1.
    + split; [tauto|]. by rewrite U2.
Qed.

Lemma triggered_field {A} (f : service_t → A) now P s s' : (∀ x, f (unlinked x) = f x) → (∀ x, f (started now now x) = f x) →
  triggered now P s s' → f s' = f s.
Proof.
  intros Hf Hst [(_ & _ & U)|[_ U]]; rewrite (unlinked_field f _ _ Hf U); [apply Hst|done].
Qed.

Lemma triggered_startable now P s s' : triggered now P s s' → startable s' ↔ startable s.
Proof.
  intros [(_ & Hs & U)|[_ U]]; rewrite (startable_unlinked _ _ U); [|done]. split; [done|]. intros _. by right.
Qed.

(** Each service of [l] is started if [P] holds for its signals. *)
Record woken (g g' : G) (P : gset Z → Prop) (l act act' : list Z) : Prop := {
  wo_frame : svc_frame g g';
  wo_others : ∀ p, p ∉ l → same_at g g' p;
  wo_each : ∀ p s, p ∈ l → svc_objs (g_svc g) !! p = Some s → ∃ s', svc_objs (g_svc g') !! p = Some s' ∧
    triggered (wake_now (g_wake g)) (P (autostart_signals s)) s s';
  wo_act : ∀ p, p ∈ act' ↔ p ∈ act ∨ ∃ s, p ∈ l ∧ svc_objs (g_svc g) !! p = Some s ∧ startable s ∧ P (autostart_signals s);
}.

Lemma next_in_sigwake g names pids act l1 o l2 s : good g names pids act (l1 ++ o :: l2) →
  svc_objs (g_svc g) !! o = Some s → sigwake_next s = hd 0 l2.
Proof.
  intros [Hok _] Hs. pose proof (li_dll _ _ _ _ _ _ (so_sigwake _ _ _ _ _ Hok)) as Hd.
  apply dll_app in Hd as [_ (s' & Hs' & _ & Hn & _)]. congruence.
Qed.

(** One service, whether it can be started or not. *)
Lemma wake_one g names pids act sigw o s (b : bool) : good g names pids act sigw → o ∈ names →
  svc_objs (g_svc g) !! o = Some s →
  ∃ g' pids' act' s', when b (svc_handle_start o (wake_now (g_wake g));; mret tt) g = Done (tt, g') ∧
    good g' names pids' act' sigw ∧ svc_frame g g' ∧ (∀ p, p ≠ o → same_at g g' p) ∧
    svc_objs (g_svc g') !! o = Some s' ∧ triggered (wake_now (g_wake g)) (b = true) s s' ∧
    (∀ p, p ∈ act' ↔ p ∈ act ∨ p = o ∧ startable s ∧ b = true).
Proof.
  intros Hg Ho Hs. destruct b; cbn [when].
  2:{ exists g, pids, act, s. split_and!; [done|done|reflexivity|done|done|right; naive_solver|naive_solver]. }
  destruct (decide (startable s)) as [Hst|Hst].
  - destruct (start_touched _ _ _ _ _ _ _ (wake_now (g_wake g)) Hg Ho Hs Hst) as (g1 & pids1 & s1 & E1 & Hg1 & T1 & _ & Hs1 & U1 & _).
    exists g1, pids1, (list_set true o act), s1. split_and!; [by rewrite (bind_done _ _ _ _ _ E1)|done|apply T1|apply T1|done|by left|].
    intros p. destruct (decide (p = o)) as [->|Hp]; [rewrite list_set_in; naive_solver|].
    rewrite list_set_other by done. naive_solver.
  - destruct (svc_handle_start_refused g names pids act sigw o s (wake_now (g_wake g)) Hg Hs) as (g1 & E1 & Hg1 & F1);
      [unfold startable in Hst; tauto..|].
    exists g1, pids, act, s. split_and!; [by rewrite (bind_done _ _ _ _ _ E1)|done|by apply io_svc_frame| |by rewrite (io_svc _ _ F1)|right; naive_solver|naive_solver].
    intros p _. unfold same_at. by rewrite (io_svc _ _ F1).
Qed.

Lemma svc_sigwake_all_ok rest : ∀ fuel g names pids act l1 signum, (length rest < fuel)%nat →
  good g names pids act (l1 ++ rest) →
  ∃ g' pids' act', svc_sigwake_all fuel (hd 0 rest) signum g = Done (tt, g') ∧ good g' names pids' act' (l1 ++ rest) ∧
    woken g g' (λ sigs, signum ∈ sigs) rest act act'.
Proof.
  induction rest as [|o rest IH]; intros fuel g names pids act l1 signum Hf Hg.
  { destruct fuel as [|fuel]; [cbn in Hf; lia|]. exists g, pids, act. split_and!; [done|done|].
    split; [reflexivity|done|intros p s Hin; by apply elem_of_nil in Hin|]. intros p. setoid_rewrite elem_of_nil. naive_solver. }
  destruct fuel as [|fuel]; [cbn in Hf; lia|]. cbn [svc_sigwake_all hd].
  pose proof (so_sigwake _ _ _ _ _ (proj1 Hg)) as Hl. pose proof (li_nodup _ _ _ _ _ _ Hl) as Hnd.
  assert (Ho : o ∈ names) by (apply (li_sub _ _ _ _ _ _ Hl); rewrite elem_of_app, elem_of_cons; tauto).
  destruct (so_objs _ _ _ _ _ (proj1 Hg) o Ho) as (s & Hs & _).
  pose proof (so_range _ _ _ _ _ (proj1 Hg) o Ho) as Hr. rewrite (proj2 (Z.eqb_neq o 0)) by lia.
  rewrite (bind_done _ _ _ _ _ (svc_obj_eq _ _ _ Hs)), (bind_done (gets _) _ _ _ _ eq_refl).
  rewrite (next_in_sigwake _ _ _ _ _ _ _ _ Hg Hs).
  destruct (wake_one _ _ _ _ _ _ _ (bool_decide (signum ∈ autostart_signals s)) Hg Ho Hs)
    as (g1 & pids1 & act1 & s1 & E1 & Hg1 & F1 & O1 & Hs1 & T1 & A1).
  rewrite (bind_done _ _ _ _ _ E1). rewrite bool_decide_eq_true in T1. setoid_rewrite bool_decide_eq_true in A1.
  rewrite cons_middle, app_assoc in Hg1.
  destruct (IH fuel g1 names pids1 act1 (l1 ++ [o]) signum) as (g2 & pids2 & act2 & E2 & Hg2 & [F2 O2 R2 A2]); [cbn in Hf; lia|done|].
  rewrite <-app_assoc in Hg2. exists g2, pids2, act2. split_and!; [done|exact Hg2|].
  apply NoDup_app in Hnd as (_ & _ & [Hno _]%NoDup_cons).
  pose proof (sf_now _ _ F1) as Enow. split.
  - by etransitivity.
  - intros p [Hpo Hpr]%not_elem_of_cons. unfold same_at. rewrite (O2 p) by done. by apply O1.
  - intros p t [->|Hp]%elem_of_cons Ht.
    + assert (t = s) as -> by congruence. destruct (same_at_some g1 g2 o s1 (O2 o Hno) Hs1) as (s2 & Hs2 & U2).
      exists s2. split; [done|]. unfold triggered. by rewrite U2.
    + assert (Hpo : p ≠ o) by by intros ->. destruct (same_at_some g g1 p t (O1 p Hpo) Ht) as (t1 & Ht1 & U1).
      destruct (R2 p t1 Hp Ht1) as (t2 & Ht2 & Htr). exists t2. split; [done|]. rewrite Enow in Htr. unfold triggered in *.
      rewrite (unlinked_field autostart_signals _ _ ltac:(done) U1), (startable_unlinked _ _ U1), U1 in Htr.
      change (unlinked (started (wake_now (g_wake g)) (wake_now (g_wake g)) t1)) with (started (wake_now (g_wake g)) (wake_now (g_wake g)) (unlinked t1)) in Htr.
      by rewrite U1 in Htr.
  - intros p. rewrite A2, A1. setoid_rewrite elem_of_cons. destruct (decide (p = o)) as [->|Hpo].
    + rewrite Hs. naive_solver.
    + specialize (O1 p Hpo). split.
      * intros [[?|?]|(t1 & Hp & Ht1 & Hst & Hsg)]; [by left|naive_solver|]. right. unfold same_at in O1. rewrite Ht1 in O1.
        destruct (svc_objs (g_svc g) !! p) as [t|]; [|done]. apply (inj Some) in O1. exists t.
        by rewrite <-(startable_unlinked _ _ O1), <-(unlinked_field autostart_signals _ _ ltac:(done) O1); auto.
      * intros [?|(t & [?|Hp] & Ht & Hst & Hsg)]; [by left; left|done|]. right.
        destruct (same_at_some g g1 p t O1 Ht) as (t1 & Ht1 & U1). exists t1.
        rewrite (startable_unlinked _ _ U1), (unlinked_field autostart_signals _ _ ltac:(done) U1). auto.
Qed.

(** The fuel of the walks along the lists. *)
Lemma list_fuel g names pids act sigw l : svc_ok g names pids act sigw → NoDup l → (∀ o, o ∈ l → o ∈ names) →
  (length l < S (size (svc_objs (g_svc g))))%nat.
Proof.
  intros Hok Hnd Hsub. rewrite <-(size_dom (svc_objs (g_svc g))), <-(size_list_to_set (C := gset Z) l Hnd).
  assert (Hs : (list_to_set l : gset Z) ⊆ dom (svc_objs (g_svc g))).
  { intros o Ho. apply elem_of_list_to_set in Ho. apply elem_of_dom. eapply svc_names_some; [exact Hok|by apply Hsub]. }
  apply subseteq_size in Hs. lia.
Qed.

Lemma woken_refl g P l act : (∀ p s, p ∈ l → svc_objs (g_svc g) !! p = Some s → ¬ P (autostart_signals s)) → woken g g P l act act.
Proof.
  intros Hn. split; [reflexivity|done| |].
  - intros p s Hp Hs. exists s. split; [done|]. right. split; [|done]. intros [HP _]. by destruct (Hn p s).
  - intros p. split; [by left|]. intros [?|(s & Hp & Hs & _ & HP)]; [done|]. by destruct (Hn p s).
Qed.

Lemma woken_trans g1 g2 g3 (P Q : gset Z → Prop) l a1 a2 a3 : (∀ p, p ∈ l → is_Some (svc_objs (g_svc g1) !! p)) → woken g1 g2 P l a1 a2 → woken g2 g3 Q l a2 a3 →
  woken g1 g3 (λ sigs, P sigs ∨ Q sigs) l a1 a3.
Proof.
  intros Hsome [F1 O1 R1 A1] [F2 O2 R2 A2]. split.
  - by etransitivity.
  - intros p Hp. unfold same_at. by rewrite (O2 p Hp), (O1 p Hp).
  - intros p s Hp Hs. destruct (R1 p s Hp Hs) as (s2 & Hs2 & T1). destruct (R2 p s2 Hp Hs2) as (s3 & Hs3 & T2).
    exists s3. split; [done|]. rewrite (sf_now _ _ F1) in T2.
    rewrite (triggered_field autostart_signals _ _ _ _ ltac:(done) ltac:(done) T1) in T2. by eapply triggered_trans.
  - intros p. rewrite A2, A1. split.
    + intros [[?|(s & ? & ? & ? & ?)]|(s2 & Hp & Hs2 & Hst & HQ)]; [by left|right; eauto 10|]. right.
      destruct (Hsome p Hp) as [s Hs]. destruct (R1 p s Hp Hs) as (s2' & Hs2' & T1). simplify_eq. exists s.
      rewrite <-(triggered_startable _ _ _ _ T1), <-(triggered_field autostart_signals _ _ _ _ ltac:(done) ltac:(done) T1). auto.
    + intros [?|(s & Hp & Hs & Hst & [HP|HQ])]; [by left; left|left; right; eauto|]. right.
      destruct (R1 p s Hp Hs) as (s2 & Hs2 & T1). exists s2.
      rewrite (triggered_startable _ _ _ _ T1), (triggered_field autostart_signals _ _ _ _ ltac:(done) ltac:(done) T1). auto.
Qed.

Lemma woken_ext g g' (P Q : gset Z → Prop) l a a' : (∀ x, P x ↔ Q x) → woken g g' P l a a' → woken g g' Q l a a'.
Proof.
  intros HPQ [F O R A]. split; [done|done| |].
  - intros p s Hp Hs. destruct (R p s Hp Hs) as (s' & Hs' & T). exists s'. by rewrite <-HPQ.
  - intros p. rewrite A. by setoid_rewrite HPQ.
Qed.

Lemma svc_signals_loop_ok fuel : ∀ g names pids act sigw, let since := svc_last_signal_ts (g_svc g) in
  (to_report since (signals (g_sig g)) < fuel)%nat → 0 ≤ since < 2 ^ 62 → sigs_ok (signals (g_sig g)) →
  good g names pids act sigw →
  ∃ g' pids' act', svc_signals_loop fuel g = Done (tt, g') ∧ good g' names pids' act' sigw ∧
    woken g g' (pending_in (signals (g_sig g)) since) sigw act act' ∧ 0 ≤ svc_last_signal_ts (g_svc g') < 2 ^ 62.
Proof.
  induction fuel as [|fuel IH]; intros g names pids act sigw since Hf Hs Hsig Hg; [lia|]. cbn [svc_signals_loop].
  rewrite (bind_done (gets _) _ _ _ _ eq_refl). fold since.
  destruct (sig_get_new_events_spec since g Hs (sg_ts _ Hsig)) as [[E1 Hno]|(e & E1 & Hin & He & Hmin)];
    rewrite (bind_done _ _ _ _ _ E1).
  { exists g, pids, act. split; [done|]. split; [done|]. split; [|exact Hs]. apply woken_refl. intros p s _ _ (x & Hx & Hex & _). by destruct (Hno x). }
  unfold SignalSpec.entry. rewrite (bind_done (gets g_svc) _ _ _ _ eq_refl).
  pose proof (so_sigwake _ _ _ _ _ (proj1 Hg)) as Hl.
  rewrite (li_head _ _ _ _ _ _ Hl).
  destruct (svc_sigwake_all_ok sigw (S (size (svc_objs (g_svc g)))) g names pids act [] (signum e)) as (g1 & pids1 & act1 & E2 & Hg1 & W1).
  { eapply list_fuel; [apply Hg|apply Hl|apply Hl]. } { exact Hg. }
  rewrite (bind_done _ _ _ _ _ E2). rewrite (bind_done (modify _) _ _ _ _ eq_refl).
  set (g2 := on_svc (set_svc_last_signal_ts (last_received_ts e)) g1).
  pose proof (sf_sig _ _ (wo_frame _ _ _ _ _ _ W1)) as Esig.
  pose proof (sg_ts _ Hsig) as Hts. rewrite Forall_forall in Hts. pose proof (Hts e Hin (proj1 He)) as Hpos.
  pose proof (to_report_lt since e _ Hin He (proj1 Hpos) Hmin) as Hlt.
  assert (Hg2 : good g2 names pids1 act1 sigw).
  { destruct Hg1 as [K C]. split; [|by eapply ctls_ok_same]. destruct K. by split. }
  destruct (IH g2 names pids1 act1 sigw) as (g3 & pids3 & act3 & E3 & Hg3 & W3 & L3);
    [cbn; rewrite Esig; lia|cbn; lia|cbn; by rewrite Esig|done|].
  exists g3, pids3, act3. split; [done|]. split; [done|]. split; [|exact L3].
  assert (W2 : woken g g2 (λ sigs, signum e ∈ sigs) sigw act act1).
  { destruct W1 as [F1 O1 R1 A1]. split; [|done..]. etransitivity; [exact F1|by apply svc_frame_svc]. }
  eapply woken_ext; [|eapply woken_trans; [|exact W2|exact W3]].
  - intros x. cbn. rewrite Esig. symmetry. by apply pending_in_step; [lia|..].
  - intros p Hp. eapply svc_names_some; [apply Hg|]. by apply (li_sub _ _ _ _ _ _ Hl).
Qed.

(** ** [svc_run_active] *)

(** What a pass does to the service [s]: it is started if a signal arrived that
    triggers it, and then runs if it was or is on the active list. *)
Definition passed (g : G) (act sigw : list Z) (p : Z) (s s' : service_t) : Prop :=
  ∃ s1, triggered (wake_now (g_wake g)) (p ∈ sigw ∧ pending_in (signals (g_sig g)) (svc_last_signal_ts (g_svc g)) (autostart_signals s)) s s1 ∧
    ((∃ fs, svc_trans (wake_now (g_wake g)) (wakes (signals (g_sig g)) s1) fs (unlinked s1) (unlinked s')) ∨
     p ∉ act ∧ unlinked s' = unlinked s).

(** The services that a signal triggers. *)
Lemma svc_wake_ok g names pids act sigw : good g names pids act sigw → sigs_ok (signals (g_sig g)) → 0 ≤ svc_last_signal_ts (g_svc g) < 2 ^ 62 →
  ∃ g1 pids1 act1, when (negb (svc_sigwake_list (g_svc g) =? 0)) (svc_signals_loop sig_events_fuel) g = Done (tt, g1) ∧
    good g1 names pids1 act1 sigw ∧ woken g g1 (pending_in (signals (g_sig g)) (svc_last_signal_ts (g_svc g))) sigw act act1 ∧
    0 ≤ svc_last_signal_ts (g_svc g1) < 2 ^ 62.
Proof.
  intros Hg Hsig Hlast. pose proof (so_sigwake _ _ _ _ _ (proj1 Hg)) as Hls.
  destruct (Z.eqb_spec (svc_sigwake_list (g_svc g)) 0) as [E0|E0]; cbn [negb when].
  - exists g, pids, act. split; [done|]. split; [done|]. split; [|done]. apply woken_refl. intros p s Hin. exfalso.
    rewrite (li_head _ _ _ _ _ _ Hls) in E0. destruct sigw as [|x sigw]; [by apply elem_of_nil in Hin|]. cbn in E0. subst x.
    apply (names_pos _ _ _ _ _ (proj1 Hg)), (li_sub _ _ _ _ _ _ Hls). by left.
  - apply (svc_signals_loop_ok sig_events_fuel g names pids); try done.
    pose proof (sig_inv_slots _ (sg_inv _ Hsig)). unfold to_report, sig_events_fuel.
    pose proof (length_filter (eligible (svc_last_signal_ts (g_svc g))) (signals (g_sig g))). lia.
Qed.

Lemma svc_run_active_ok g names pids act sigw : fork_in_parent → good g names pids act sigw → no_controls g names →
  sigs_ok (signals (g_sig g)) → 0 ≤ svc_last_signal_ts (g_svc g) < 2 ^ 62 →
  ∃ g' pids' act', svc_run_active g = Done (tt, g') ∧ good g' names pids' act' sigw ∧ svc_frame g g' ∧
    (∀ p s, p ∈ names → svc_objs (g_svc g) !! p = Some s → ∃ s', svc_objs (g_svc g') !! p = Some s' ∧ passed g act sigw p s s') ∧
    (∀ p s', p ∈ act' → svc_objs (g_svc g') !! p = Some s' →
       svc_state s' = SVC_STATE_START ∧ waits (wake_now (g_wake g)) s').
Proof.
  intros Hp Hg Hctl Hsig Hlast.
  destruct (svc_wake_ok g names pids act sigw Hg Hsig Hlast) as (g1 & pids1 & act1 & E1 & Hg1 & [F1 O1 R1 A1] & _).
  assert (Hone : ∀ p s, p ∈ names → svc_objs (g_svc g) !! p = Some s → ∃ s1, svc_objs (g_svc g1) !! p = Some s1 ∧
    triggered (wake_now (g_wake g)) (p ∈ sigw ∧ pending_in (signals (g_sig g)) (svc_last_signal_ts (g_svc g)) (autostart_signals s)) s s1).
  { intros p s Hpn Hs. destruct (decide (p ∈ sigw)) as [Hin|Hin].
    - destruct (R1 p s Hin Hs) as (s1 & Hs1 & T). exists s1. split; [done|]. unfold triggered in *. tauto.
    - destruct (same_at_some g g1 p s (O1 p Hin) Hs) as (s1 & Hs1 & U). exists s1. split; [done|]. right. tauto. }
  assert (Hctl1 : no_controls g1 names).
  { intros p s1 Hpn Hs1. destruct (svc_names_some _ _ _ _ _ (proj1 Hg) p Hpn) as [s Hs].
    destruct (Hone p s Hpn Hs) as (s1' & Hs1' & T). simplify_eq. pose proof (Hctl p s Hpn Hs) as Hss.
    destruct T as [(_ & _ & U)|[_ U]]; by apply (no_control_unlinked _ _ U). }
  pose proof (so_active _ _ _ _ _ (proj1 Hg1)) as Hla.
  destruct (svc_run_all_ok act1 (S (size (svc_objs (g_svc g1)))) g1 names pids1 [] sigw) as (g2 & pids2 & kept & E2 & Hg2 & [F2 O2 K2 R2]).
  { eapply list_fuel; [apply Hg1|apply Hla|apply Hla]. } { done. } { done. } { done. } { by rewrite (sf_sig _ _ F1). }
  rewrite (sf_now _ _ F1), (sf_sig _ _ F1) in R2.
  exists g2, pids2, kept. split_and!; [|done|by etransitivity| |].
  - unfold svc_run_active. rewrite (bind_done (gets g_svc) _ _ _ _ eq_refl), (bind_done _ _ _ _ _ E1).
    rewrite (bind_done (gets g_svc) _ _ _ _ eq_refl), (li_head _ _ _ _ _ _ Hla). exact E2.
  - intros p s Hpn Hs. destruct (Hone p s Hpn Hs) as (s1 & Hs1 & T). destruct (decide (p ∈ act1)) as [Hin|Hin].
    + destruct (R2 p s1 Hin Hs1) as (s2 & Hs2 & Htr & _). exists s2. split; [done|]. exists s1. auto.
    + destruct (same_at_some g1 g2 p s1 (O2 p Hin) Hs1) as (s2 & Hs2 & U2). exists s2. split; [done|].
      exists s1. split; [done|]. right. rewrite A1 in Hin. split; [tauto|]. rewrite U2.
      destruct T as [((Hsw & Hpe) & Hst & _)|[_ U]]; [|done]. destruct Hin. right. by exists s.
  - intros p s' Hpk Hs'. pose proof (K2 p Hpk) as Hin. pose proof (li_sub _ _ _ _ _ _ Hla p Hin) as Hpn.
    destruct (svc_names_some _ _ _ _ _ (proj1 Hg1) p Hpn) as [s1 Hs1]. destruct (R2 p s1 Hin Hs1) as (s2 & Hs2 & (fs & Htr) & Hk).
    simplify_eq. apply Hk in Hpk. split; [done|]. apply svc_trans_settled in Htr as [[_ Hw]|[Hw|Hw]].
    + by apply (waits_unlinked _ s').
    + change (svc_state s' = SVC_STATE_UP) in Hw. by rewrite Hpk in Hw.
    + change (svc_state s' = SVC_STATE_DOWN) in Hw. by rewrite Hpk in Hw.
Qed.
End active.
