(* ===== verification/SvcNew.v ===== *)
(** * Properties of services: lookup by name, creation, deletion *)

From S2P Require Import Prelude Strseg State RBTree RBTreeRep OrdIndex RBTreeIndex Table Log CtlOut CtlOutSpec SvcVars PtrArray Fd FdSpec CtlObj Service Dll ServiceSpec.

Lemma svc_compare_key objs name o : seg_wf name →
  svc_by_name_compare objs name o = compare_key (svc_name_key objs) lex_cmp (seg_view name) o.
Proof.
  intros Hw. unfold svc_by_name_compare, compare_key. rewrite strseg_cmp_spec; [|done|apply STRSEG_wf].
  by rewrite STRSEG_view.
Qed.

Lemma svc_name_key_insert_ne objs obj s o : o ≠ obj → svc_name_key (<[obj := s]> objs) o = svc_name_key objs o.
Proof. intros Hne. unfold svc_name_key. by rewrite lookup_insert_ne by done. Qed.
Lemma svc_pid_key_insert_ne objs obj s o : o ≠ obj → svc_pid_key (<[obj := s]> objs) o = svc_pid_key objs o.
Proof. intros Hne. unfold svc_pid_key. by rewrite lookup_insert_ne by done. Qed.

(** A change of the name tree does not touch the pid tree. *)
Definition name_cell (a : ptr) : Prop := a = Sentinel ∨ a = svc_by_name_index ∨ a mod 16 = 5.

Lemma name_cell_svc a : name_cell a → svc_cell a.
Proof. unfold name_cell, svc_cell. tauto. Qed.

Lemma name_node_cell o : name_cell (name_node o).
Proof. right; right. apply name_node_mod. Qed.

Lemma not_name_cell_pid o : ¬ name_cell (pid_node o).
Proof.
  unfold name_cell. rewrite pid_node_mod. destruct (svc_node_ne o Sentinel) as [_ ?]; [tauto|].
  destruct (svc_node_ne o svc_by_name_index) as [_ ?]; [tauto|]. intros [?|[?|?]]; done.
Qed.

Lemma pids_agree key h h' l : table_at pid_cmp svc_by_pid_index pid_node key h l →
  (∀ a, ¬ name_cell a → h' !! a = h !! a) → sent_at h' → table_at pid_cmp svc_by_pid_index pid_node key h' l.
Proof.
  intros Ht Hd Hs. eapply table_agree; [done| |done]. intros a [->|(o & _ & ->)]%pids_cell; apply Hd.
  - unfold name_cell. intros [?|[?|?]]; done.
  - apply not_name_cell_pid.
Qed.

(** A new object that is on no list. *)
Lemma list_ok_new prevf nextf objs head names names' l obj s : list_ok prevf nextf objs head names l → obj ∉ names →
  (∀ p, p ∈ names' ↔ p = obj ∨ p ∈ names) → prevf s = prev_null → list_ok prevf nextf (<[obj := s]> objs) head names' l.
Proof.
  intros [Hd Hh Hnd Hsub Hiff] Hobj Hn Hs. assert (Hol : obj ∉ l) by by intros Hx%Hsub.
  split; [by apply dll_insert_ne|done|done|intros o Ho; apply Hn; right; auto|].
  intros o t Ho Ht. destruct (decide (o = obj)) as [->|Hne].
  - rewrite lookup_insert_eq in Ht. simplify_eq. tauto.
  - rewrite lookup_insert_ne in Ht by done. apply Hiff; [|done]. apply Hn in Ho. tauto.
Qed.

Section new.
Context `{OS}.

(** ** Lookup *)

Lemma svc_find_ok g names pids act sigw name : svc_ok g names pids act sigw → seg_wf name →
  ∃ s, RBTree_Find (svc_by_name_compare (svc_objs (g_svc g))) svc_by_name_index name (g_rb g) = Done (s, g_rb g) ∧
    ((Relation s = 0 ∧ ∃ o, o ∈ names ∧ svc_name_key (svc_objs (g_svc g)) o = seg_view name ∧ load (Nearest s) Object (g_rb g) = Done (o, g_rb g)) ∨
     (Relation s ≠ 0 ∧ (∀ o, o ∈ names → svc_name_key (svc_objs (g_svc g)) o ≠ seg_view name))).
Proof.
  intros Hok Hw.
  destruct (table_find lex_cmp svc_by_name_index name_node (λ a b, proj1 (lex_cmp_eq a b)) _ _ _ (seg_view name) (so_names _ _ _ _ _ Hok))
    as (s & E1 & Hs).
  erewrite <-RBTree_Find_ext in E1 by (intros; by apply svc_compare_key).
  exists s. split; [exact E1|]. destruct Hs as [(Hr & o & Ho & Hk & Hn)|Hs]; [left|by right].
  split; [done|]. exists o. split_and!; [done|done|].
  destruct (table_node _ _ _ _ _ _ _ (so_names _ _ _ _ _ Hok) Ho) as (n & Hnode & Hobj & _).
  unfold load. by rewrite Hn, Hnode, Hobj.
Qed.

(** ** Construction *)

(** A state that differs from an invariant one in the array of services, where the
    new object [obj] was entered. *)
Record entered (g g1 : G) (names : list Z) (obj : Z) : Prop := {
  en_objs : svc_objs (g_svc g1) = svc_objs (g_svc g);
  en_rb : g_rb g1 = g_rb g;
  en_active : svc_active_list (g_svc g1) = svc_active_list (g_svc g);
  en_sigwake : svc_sigwake_list (g_svc g1) = svc_sigwake_list (g_svc g);
  en_pool : svc_pool (g_svc g1) = svc_pool (g_svc g);
  en_size : svc_pool_size_each (g_svc g1) = svc_pool_size_each (g_svc g);
  en_limit : svc_list_limit (g_svc g1) = svc_list_limit (g_svc g);
  en_count : svc_list_count (g_svc g1) = svc_list_count (g_svc g) + 1;
  en_room : svc_list_count (g_svc g) + 1 ≤ svc_list_limit (g_svc g);
  en_len : length (svc_list (g_svc g1)) = length (svc_list (g_svc g));
  en_used : take (Z.to_nat (svc_list_count (g_svc g1))) (svc_list (g_svc g1)) ≡ₚ obj :: names;
  en_slots : svc_pool (g_svc g) = true → svc_list (g_svc g1) = svc_list (g_svc g);
  en_fresh : obj ∉ names;
  en_range : 0 < obj < g_next g1;
  en_next : g_next g ≤ g_next g1;
}.

Lemma svc_ok_entered g g1 names pids act sigw obj nm h l1 l2 : let objs := <[obj := svc_fresh nm]> (svc_objs (g_svc g)) in
  svc_ok g names pids act sigw → entered g g1 names obj → names = l1 ++ l2 → 0 < Z.of_nat (length nm) < NAME_BUF_SIZE →
  (∀ o, o ∈ names → svc_name_key (svc_objs (g_svc g)) o ≠ nm) →
  table_at lex_cmp svc_by_name_index name_node (svc_name_key objs) h (l1 ++ obj :: l2) →
  table_at pid_cmp svc_by_pid_index pid_node (svc_pid_key objs) h pids →
  (∃ n, h !! pid_node obj = Some n ∧ Color n = RBTreeNode_Unassigned ∧ Object n = obj) →
  (∀ o, o ∈ names → h !! pid_node o = g_rb g !! pid_node o) →
  svc_ok (set_g_rb h (on_svc (set_svc_objs objs) g1)) (l1 ++ obj :: l2) pids act sigw.
Proof.
  intros objs Hok He -> Hlen Hnew Hnt Hpt Hnode Hidle. pose proof (en_fresh _ _ _ _ He) as Hobj.
  assert (Hin : ∀ p, p ∈ l1 ++ obj :: l2 ↔ p = obj ∨ p ∈ l1 ++ l2).
  { intros p. rewrite !elem_of_app, elem_of_cons. tauto. }
  assert (Hne : ∀ p, p ∈ l1 ++ l2 → p ≠ obj) by by intros p Hp ->.
  assert (Hkn : ∀ p, p ∈ l1 ++ l2 → svc_name_key objs p = svc_name_key (svc_objs (g_svc g)) p).
  { intros p Hp. apply svc_name_key_insert_ne, Hne, Hp. }
  assert (Hkp : ∀ p, p ∈ l1 ++ l2 → svc_pid_key objs p = svc_pid_key (svc_objs (g_svc g)) p).
  { intros p Hp. apply svc_pid_key_insert_ne, Hne, Hp. }
  assert (Hnp : obj ∉ pids) by by (intros Hx; apply (so_pid_iff _ _ _ _ _ Hok) in Hx as [? _]).
  destruct Hok. destruct He. split; cbn.
  - exact Hnt.
  - exact Hpt.
  - intros o. rewrite so_pid_iff, Hin. split.
    + intros [Ho Hk]. split; [by right|]. by rewrite Hkp.
    + intros [[->|Ho] Hk]; [unfold svc_pid_key, objs in Hk; by rewrite lookup_insert_eq in Hk|]. split; [done|]. by rewrite <-Hkp.
  - intros o [->|Ho]%Hin Hop; [done|]. destruct (so_idle o Ho Hop) as (n & Hn & Hc). exists n. by rewrite Hidle.
  - rewrite <-Permutation_middle. apply NoDup_cons. split.
    + intros (p & Hk & Hp)%list_elem_of_fmap. rewrite (Hkn p Hp) in Hk. apply (Hnew p Hp). rewrite <-Hk.
      unfold svc_name_key, objs. by rewrite lookup_insert_eq.
    + change (NoDup (svc_name_key objs <$> (l1 ++ l2))). erewrite list_fmap_ext; [exact so_unique|]. intros i p Hp. apply Hkn. by apply list_elem_of_lookup_2 in Hp.
  - rewrite en_pool0. intros o [->|Ho]%Hin.
    + exists (svc_fresh nm). unfold objs. rewrite lookup_insert_eq. split; [done|]. split; [done|].
      split; [exists []; split_and!; constructor|]. split; [cbn; unfold NAME_BUF_SIZE in *; lia|done].
    + unfold objs. rewrite lookup_insert_ne by (apply not_eq_sym, Hne, Ho). auto.
  - unfold objs. by rewrite lookup_insert_ne by lia.
  - rewrite en_active0. eapply list_ok_new; [exact so_active|exact Hobj|exact Hin|done].
  - rewrite en_sigwake0. eapply list_ok_new; [exact so_sigwake|exact Hobj|exact Hin|done].
  - lia.
  - lia.
  - rewrite en_used0. apply Permutation_middle.
  - intros o [->|Ho]%Hin; [done|]. specialize (so_range o Ho). lia.
  - rewrite en_pool0, en_size0. intros Hp. rewrite en_slots0 by done. destruct (so_pool Hp) as (Hsz & Hnd & Hr).
    split_and!; [done|done|]. intros o Ho. specialize (Hr o Ho). lia.
  - lia.
Qed.

Lemma svc_ctor_ok g g1 names pids act sigw obj name : svc_ok g names pids act sigw → entered g g1 names obj →
  seg_wf name → 0 < seg_len name < NAME_BUF_SIZE →
  (∀ o, o ∈ names → svc_name_key (svc_objs (g_svc g)) o ≠ seg_view name) →
  ∃ h l1 l2, let objs := <[obj := svc_fresh (seg_view name)]> (svc_objs (g_svc g)) in
    let g' := set_g_rb h (on_svc (set_svc_objs objs) g1) in
    svc_ctor obj name g1 = Done (tt, g') ∧ names = l1 ++ l2 ∧ svc_ok g' (l1 ++ obj :: l2) pids act sigw ∧
    (∀ a, ¬ svc_cell a → h !! a = g_rb g !! a).
Proof.
  intros Hok He Hw Hlen Hnew. set (objs := <[obj := svc_fresh (seg_view name)]> (svc_objs (g_svc g))).
  pose proof (seg_view_length name Hw) as Hv. pose proof (en_fresh _ _ _ _ He) as Hobj.
  set (n1 := mkNode 0 0 0 RBTreeNode_Unassigned obj).
  set (h1 := <[pid_node obj := n1]> (<[name_node obj := n1]> (g_rb g))).
  pose proof (name_pid_node obj obj) as Hnp.
  assert (Hn1 : h1 !! name_node obj = Some n1) by (unfold h1; rewrite lookup_insert_ne by done; apply lookup_insert_eq).
  assert (Hn2 : h1 !! pid_node obj = Some n1) by apply lookup_insert_eq.
  assert (Hd1 : ∀ a, a ≠ name_node obj → a ≠ pid_node obj → h1 !! a = g_rb g !! a).
  { intros a H1 H2. unfold h1. by rewrite !lookup_insert_ne by done. }
  assert (Hs1 : sent_at h1).
  { destruct (table_sent _ _ _ _ _ _ (so_names _ _ _ _ _ Hok)) as [q Hq]. exists q. rewrite Hd1; [done|..];
      apply not_eq_sym, (svc_node_ne obj); tauto. }
  assert (Hsub : ∀ o, o ∈ pids → o ∈ names) by (intros o Ho; by apply (so_pid_iff _ _ _ _ _ Hok) in Ho as [? _]).
  assert (Hnout : name_node obj ∉ table_cells svc_by_name_index name_node names).
  { intros [Hx|(q & Hq & Hx)]%names_cell.
    - destruct (svc_node_ne obj svc_by_name_index) as [? _]; tauto.
    - apply name_node_inj in Hx as <-. done. }
  assert (Ht1 : table_at lex_cmp svc_by_name_index name_node (svc_name_key objs) h1 names).
  { eapply (table_ext _ _ _ (svc_name_key (svc_objs (g_svc g)))).
    - intros o Ho. unfold objs. rewrite svc_name_key_insert_ne; [done|]. by intros ->.
    - eapply table_agree; [exact (so_names _ _ _ _ _ Hok)| |done]. intros a Ha. apply Hd1; [by intros ->|].
      intros ->. apply names_cell in Ha as [Hx|(q & _ & Hx)]; [destruct (svc_node_ne obj svc_by_name_index) as [_ ?]; tauto|by apply (name_pid_node q obj)]. }
  assert (Hp1 : table_at pid_cmp svc_by_pid_index pid_node (svc_pid_key objs) h1 pids).
  { eapply (table_ext _ _ _ (svc_pid_key (svc_objs (g_svc g)))).
    - intros o Ho. unfold objs. rewrite svc_pid_key_insert_ne; [done|]. intros ->. by apply Hobj, Hsub.
    - eapply table_agree; [exact (so_pids _ _ _ _ _ Hok)| |done]. intros a Ha. apply Hd1; intros ->;
        apply pids_cell in Ha as [Hx|(q & Hq & Hx)].
      + destruct (svc_node_ne obj svc_by_pid_index) as [? _]; tauto.
      + by apply (name_pid_node obj q).
      + destruct (svc_node_ne obj svc_by_pid_index) as [_ ?]; tauto.
      + apply pid_node_inj in Hx as ->. by apply Hobj, Hsub. }
  destruct (table_add lex_cmp svc_by_name_index name_node (svc_name_key objs) h1 names obj n1 Ht1)
    as (h & l1 & l2 & E1 & Hl & Ht & Hk); [apply not_eq_sym, (svc_node_ne obj); tauto|apply not_eq_sym, (svc_node_ne obj); tauto|done|done|done|done|].
  assert (Hk' : ∀ a, ¬ name_cell a → h !! a = h1 !! a).
  { intros a Ha. apply Hk. rewrite elem_of_list_to_set, !elem_of_cons. intros [->|[->|Hc]]; apply Ha.
    - by left.
    - apply name_node_cell.
    - apply names_cell in Hc as [->|(q & _ & ->)]; [by right; left|apply name_node_cell]. }
  set (g' := set_g_rb h (on_svc (set_svc_objs objs) g1)).
  assert (Hok' : svc_ok g' (l1 ++ obj :: l2) pids act sigw).
  { apply (svc_ok_entered g g1 names pids act sigw obj (seg_view name) h l1 l2); try done.
    - lia.
    - eapply pids_agree; [exact Hp1|exact Hk'|by eapply table_sent].
    - exists n1. rewrite Hk' by apply not_name_cell_pid. done.
    - intros o Ho. rewrite Hk' by apply not_name_cell_pid. apply Hd1; [apply not_eq_sym, name_pid_node|].
      intros Hx%pid_node_inj. by subst o. }
  exists h, l1, l2. split_and!; [|done|exact Hok'|].
  - unfold svc_ctor. rewrite (proj2 (Z.ltb_lt _ _)) by lia. rewrite (bind_done (assert true) _ _ _ _ eq_refl).
    unfold lift at 1. rewrite (seg_str_view name Hw). do 3 (erewrite bind_done by reflexivity).
    cbn [set_g_rb on_svc set_g_svc g_rb g_svc]. rewrite (en_rb _ _ _ _ He).
    erewrite bind_done by (apply rb_done; apply store_eq; apply lookup_insert_eq).
    erewrite bind_done by (apply rb_done; apply store_eq; apply lookup_insert_eq).
    cbn [set_g_rb on_svc set_g_svc g_rb g_svc]. rewrite !insert_insert_eq.
    erewrite bind_done by (apply rb_done; apply store_eq; cbn; rewrite lookup_insert_ne by done; apply lookup_insert_eq).
    erewrite bind_done by (apply rb_done; apply store_eq; apply lookup_insert_eq).
    cbn [set_g_rb on_svc set_g_svc g_rb g_svc]. rewrite !insert_insert_eq.
    erewrite bind_done by reflexivity.
    match goal with |- context [set_g_rb ?a ?b] => assert (Eg : set_g_rb a b = set_g_rb h1 (on_svc (set_svc_objs objs) g1)) end.
    { assert (Eh : ∀ x, <[pid_node obj := x]> (<[name_node obj := n1]> (<[pid_node obj := mkNode 0 0 0 0 0]> (g_rb g))) =
        <[pid_node obj := x]> (<[name_node obj := n1]> (g_rb g))).
      { intros x. rewrite (insert_insert_ne _ (name_node obj)) by done. by rewrite insert_insert_eq. }
      unfold h1. rewrite <-Eh. unfold objs. rewrite <-(en_objs _ _ _ _ He). done. }
    rewrite Eg. cbn [set_g_rb on_svc set_g_svc g_rb g_svc set_svc_objs svc_objs].
    erewrite bind_done by (apply rb_done; cbn [g_rb set_g_rb on_svc set_g_svc];
      erewrite RBTree_Add_ext by (intros; by apply svc_compare_key);
      assert (Ek : svc_name_key objs obj = seg_view name) by (unfold svc_name_key, objs; by rewrite lookup_insert_eq);
      rewrite <-Ek; exact E1).
    eapply (svc_check_ok g'); [exact Hok'|]. rewrite elem_of_app, elem_of_cons. tauto.
  - intros a Ha. rewrite Hk' by (by intros Hx; apply Ha, name_cell_svc). apply Hd1; intros ->; apply Ha;
      unfold svc_cell; rewrite ?name_node_mod, ?pid_node_mod; tauto.
Qed.

(** A system call changes nothing that services depend on. *)
Lemma sys_svc_frame c g r g' : sys c g = Done (r, g') →
  svc_frame g g' ∧ g_svc g' = g_svc g ∧ g_rb g' = g_rb g ∧ g_next g' = g_next g ∧ g_log g' = g_log g ∧ g_ctl g' = g_ctl g.
Proof.
  intros [= <- <-]. split_and!; try done. split; cbn; try done; [destruct (g_wake g); reflexivity|by eexists [_]].
Qed.

(** More room: the used part of the array stays. *)
Lemma svc_list_resize_ok g names pids act sigw n : svc_ok g names pids act sigw → svc_pool (g_svc g) = false →
  svc_list_limit (g_svc g) ≤ n →
  ∃ ok g', svc_list_resize n g = Done (ok, g') ∧ svc_frame g g' ∧ svc_ok g' names pids act sigw ∧
    svc_objs (g_svc g') = svc_objs (g_svc g) ∧ g_log g' = g_log g ∧ g_ctl g' = g_ctl g ∧
    svc_list_count (g_svc g') = svc_list_count (g_svc g) ∧ svc_pool (g_svc g') = false ∧
    (ok = true → svc_list_limit (g_svc g') = n).
Proof.
  intros Hok Hp Hn. pose proof (so_count _ _ _ _ _ Hok) as Hc. pose proof (so_len _ _ _ _ _ Hok) as Hl.
  unfold svc_list_resize. destruct (sys (CMalloc (n * 8)) g) as [[r g1]| | | |] eqn:E1; try discriminate E1.
  destruct (sys_svc_frame _ _ _ _ E1) as (F1 & S1 & R1 & N1 & L1 & C1). rewrite (bind_done _ _ _ _ _ E1).
  assert (K1 : svc_ok g1 names pids act sigw) by by eapply svc_ok_same.
  case_match; [exists false, g1; by rewrite S1|]. erewrite bind_done by reflexivity. do 2 eexists. split; [reflexivity|].
  split_and!; [etransitivity; [exact F1|by apply svc_frame_svc]| |cbn; rewrite ?S1; congruence..].
  destruct K1. rewrite S1 in *. split; cbn; rewrite ?S1; try done.
  - lia.
  - rewrite grow_length. lia.
  - rewrite grow_take by lia. done.
  - congruence.
Qed.

(** [svc_new] fails and leaves the services alone, or adds one. *)
Definition svc_created (g g' : G) (names pids act sigw : list Z) (name : strseg_t) (o : Z) : Prop :=
  o ∉ names ∧ o ≠ 0 ∧ ∃ l1 l2, names = l1 ++ l2 ∧ svc_ok g' (l1 ++ o :: l2) pids act sigw ∧
    svc_objs (g_svc g') = <[o := svc_fresh (seg_view name)]> (svc_objs (g_svc g)).

Definition svc_kept (g g' : G) (names pids act sigw : list Z) : Prop :=
  svc_ok g' names pids act sigw ∧ svc_objs (g_svc g') = svc_objs (g_svc g).

Lemma svc_ctor_created g g1 names pids act sigw o name : svc_ok g names pids act sigw → entered g g1 names o →
  seg_wf name → 0 < seg_len name < NAME_BUF_SIZE →
  (∀ p, p ∈ names → svc_name_key (svc_objs (g_svc g)) p ≠ seg_view name) → svc_frame g g1 →
  ∃ g', (svc_ctor o name;; mret o) g1 = Done (o, g') ∧ svc_frame g g' ∧ g_log g' = g_log g1 ∧ g_ctl g' = g_ctl g1 ∧
    svc_created g g' names pids act sigw name o.
Proof.
  intros Hok He Hw Hlen Hnew F. destruct (svc_ctor_ok g g1 names pids act sigw o name Hok He Hw Hlen Hnew) as (h & l1 & l2 & E & Hl & K & Hk).
  rewrite (bind_done _ _ _ _ _ E). eexists. split; [reflexivity|]. split_and!; [|done|done|].
  - destruct F. split; cbn; try done.
  - split; [by eapply en_fresh|]. split; [pose proof (en_range _ _ _ _ He); lia|]. exists l1, l2. done.
Qed.

Lemma svc_new_ok g names pids act sigw name : svc_ok g names pids act sigw → seg_wf name → 0 < seg_len name < NAME_BUF_SIZE →
  (∀ p, p ∈ names → svc_name_key (svc_objs (g_svc g)) p ≠ seg_view name) →
  ∃ o g', svc_new name g = Done (o, g') ∧ svc_frame g g' ∧ g_log g' = g_log g ∧ g_ctl g' = g_ctl g ∧
    ((o = 0 ∧ svc_kept g g' names pids act sigw) ∨ svc_created g g' names pids act sigw name o).
Proof.
  intros Hok Hw Hlen Hnew. unfold svc_new. rewrite (proj2 (Z.ltb_lt _ _)) by lia.
  rewrite (bind_done (assert true) _ _ _ _ eq_refl), (bind_done (gets g_svc) _ _ _ _ eq_refl).
  pose proof (so_count _ _ _ _ _ Hok) as Hc. pose proof (so_len _ _ _ _ _ Hok) as Hl.
  destruct (svc_pool (g_svc g)) eqn:Epool.
  - destruct (Z.geb_spec (svc_list_count (g_svc g)) (svc_list_limit (g_svc g))) as [|Hroom];
      rewrite (bind_done (mret _) _ _ _ _ eq_refl); cbn [negb];
      [exists 0, g; split_and!; [done|reflexivity|done|done|left; split; [done|split; done]]|].
    destruct (so_pool _ _ _ _ _ Hok Epool) as (Hsz & Hnd & Hpr).
    destruct (lookup_lt_is_Some_2 (svc_list (g_svc g)) (Z.to_nat (svc_list_count (g_svc g)))) as [o Ho]; [lia|].
    pose proof (slot_lookup _ _ _ Ho) as Es. rewrite Z2Nat.id in Es by lia.
    erewrite bind_done by (unfold lift; rewrite Es; reflexivity). erewrite bind_done by reflexivity.
    set (g1 := on_svc _ g).
    assert (Hused : take (Z.to_nat (svc_list_count (g_svc g1))) (svc_list (g_svc g1)) ≡ₚ o :: names).
    { cbn. replace (Z.to_nat (svc_list_count (g_svc g) + 1)) with (S (Z.to_nat (svc_list_count (g_svc g)))) by lia.
      rewrite (take_S_r _ _ _ Ho), (so_used _ _ _ _ _ Hok). by rewrite Permutation_app_comm. }
    assert (He : entered g g1 names o).
    { split; try done; cbn; try lia.
      - intros Hin. rewrite <-(so_used _ _ _ _ _ Hok) in Hin. apply list_elem_of_lookup in Hin as (j & Hj).
        pose proof (lookup_lt_Some _ _ _ Hj) as Hjl. rewrite length_take in Hjl. rewrite lookup_take_lt in Hj by lia.
        pose proof (NoDup_lookup _ _ _ _ Hnd Hj Ho). lia.
      - eapply Hpr, list_elem_of_lookup_2, Ho. }
    destruct (svc_ctor_created g g1 names pids act sigw o name) as (g' & E & F & L & C & K); [done..|by apply svc_frame_svc|].
    exists o, g'. split_and!; [done|done|done|done|by right].
  - assert (Hres : ∃ room g1, (if svc_list_count (g_svc g) >=? svc_list_limit (g_svc g)
        then svc_list_resize (svc_list_limit (g_svc g) + 32) else mret true) g = Done (room, g1) ∧ svc_frame g g1 ∧
        svc_ok g1 names pids act sigw ∧ svc_objs (g_svc g1) = svc_objs (g_svc g) ∧ g_log g1 = g_log g ∧ g_ctl g1 = g_ctl g ∧
        svc_list_count (g_svc g1) = svc_list_count (g_svc g) ∧ svc_pool (g_svc g1) = false ∧
        (room = true → svc_list_count (g_svc g1) < svc_list_limit (g_svc g1))).
    { destruct (Z.geb_spec (svc_list_count (g_svc g)) (svc_list_limit (g_svc g))).
      - destruct (svc_list_resize_ok g names pids act sigw (svc_list_limit (g_svc g) + 32)) as (ok & g1 & E1 & F1 & K1 & Eo & El & Ect & Ec & Ep & Hlim);
          [done|done|lia|]. exists ok, g1. split_and!; try done. intros ->. rewrite Hlim by done. lia.
      - exists true, g. by split_and!. }
    destruct Hres as (room & g1 & E1 & F1 & K1 & Eo & El & Ect & Ec & Ep & Hroom).
    rewrite (bind_done _ _ _ _ _ E1). destruct room; cbn [negb];
      [|exists 0, g1; split_and!; [done|done|done|done|left; split; [done|split; done]]].
    specialize (Hroom eq_refl).
    destruct (sys (CMalloc sizeof_service_t) g1) as [[r g2]| | | |] eqn:E2; try discriminate E2.
    destruct (sys_svc_frame _ _ _ _ E2) as (F2 & S2 & R2 & N2 & L2 & C2). rewrite (bind_done _ _ _ _ _ E2).
    assert (K2 : svc_ok g2 names pids act sigw) by by eapply svc_ok_same.
    destruct (ret r <? 0).
    { exists 0, g2. split_and!; [done|by etransitivity|congruence|congruence|left; split; [done|split; [done|by rewrite S2]]]. }
    rewrite (bind_done (gets g_next) _ _ _ _ eq_refl). erewrite bind_done by reflexivity.
    rewrite (bind_done (gets g_svc) _ _ _ _ eq_refl). set (o := g_next g2).
    pose proof (so_next _ _ _ _ _ K2) as Hnx. pose proof (so_len _ _ _ _ _ K2) as Hl2. pose proof (so_count _ _ _ _ _ K2) as Hc2.
    assert (Es : set_slot (svc_list (g_svc g2)) (svc_list_count (g_svc g2)) o =
      Done (<[Z.to_nat (svc_list_count (g_svc g2)) := o]> (svc_list (g_svc g2)))).
    { rewrite <-(Z2Nat.id (svc_list_count (g_svc g2))) at 1 by lia. apply set_slot_insert. rewrite S2 in *. lia. }
    erewrite bind_done by (unfold lift; cbn [g_svc set_g_next]; rewrite Es; reflexivity). erewrite bind_done by reflexivity.
    set (g3 := on_svc _ _).
    assert (He : entered g2 g3 names o).
    { split; try done; cbn; try lia.
      - rewrite S2. lia.
      - by rewrite length_insert.
      - rewrite S2 in *. replace (Z.to_nat (svc_list_count (g_svc g1) + 1)) with (S (Z.to_nat (svc_list_count (g_svc g1)))) by lia.
        rewrite (take_S_r _ _ o) by (apply list_lookup_insert_eq; lia). rewrite take_insert_ge by lia.
        rewrite <-S2, (so_used _ _ _ _ _ K2). by rewrite Permutation_app_comm.
      - rewrite S2, Ep. done.
      - intros Hin. pose proof (so_range _ _ _ _ _ K2 o Hin). lia. }
    destruct (svc_ctor_created g2 g3 names pids act sigw o name) as (g' & E & F & L & C & K); [done|done|done|done| | |].
    { intros p Hp. rewrite S2, Eo. by apply Hnew. }
    { split; cbn; try done; [by destruct (g_wake g2)|lia|by exists []]. }
    exists o, g'. split_and!; [done|etransitivity; [exact F1|by etransitivity]|cbn in L; congruence|cbn in C; congruence|].
    right. destruct K as (K3 & K4 & l1 & l2 & K5 & K6 & K7). split_and!; [done|done|]. exists l1, l2. rewrite K7, S2, Eo. done.
Qed.

(** ** Lookup with creation *)

Definition legal_name (k : list Z) : Prop := Z.of_nat (length k) < NAME_BUF_SIZE ∧ Forall (λ c, name_char c = true) k.

Lemma svc_check_name_loop_spec n name i k : seg_wf name → 0 ≤ i → i + Z.of_nat n = seg_len name →
  k = drop (Z.to_nat i) (seg_view name) →
  ∃ b, svc_check_name_loop n name i = Done b ∧ (b = true ↔ Forall (λ c, name_char c = true) k).
Proof.
  intros Hw. revert i k; induction n as [|n IH]; intros i k Hi Hn ->; cbn [svc_check_name_loop].
  - exists true. split; [done|]. pose proof (seg_view_length name Hw). rewrite drop_ge by lia. split; [constructor|done].
  - pose proof (seg_view_length name Hw) as Hl.
    destruct (seg_at_view name i Hw) as (c & Hc & Ha); [lia|]. rewrite Ha. cbn [mbind outcome_bind].
    rewrite (drop_S _ c) by done. destruct (name_char c) eqn:Ec.
    + destruct (IH (i + 1) (drop (S (Z.to_nat i)) (seg_view name))) as (b & E & Hb); [lia|lia|f_equal; lia|].
      exists b. split; [done|]. rewrite Hb, Forall_cons. tauto.
    + exists false. split; [done|]. rewrite Forall_cons. split; [done|]. intros [? _]. congruence.
Qed.

Lemma svc_check_name_spec name : seg_wf name → ∃ b, svc_check_name name = Done b ∧ (b = true ↔ legal_name (seg_view name)).
Proof.
  intros Hw. unfold svc_check_name, legal_name. pose proof (seg_view_length name Hw) as Hl. rewrite Hl.
  destruct (Z.geb_spec (seg_len name) NAME_BUF_SIZE) as [Hge|Hlt].
  - exists false. split; [done|]. split; [done|]. intros [? _]. lia.
  - assert (0 ≤ seg_len name) by apply Hw.
    destruct (svc_check_name_loop_spec (Z.to_nat (seg_len name)) name 0 (seg_view name)) as (b & E & Hb); [done|lia|lia|done|].
    exists b. split; [done|]. rewrite Hb. tauto.
Qed.

(** The service of the name, if there is one; else 0, or a new service if one may be
    made, the name is legal and there is room. *)
Lemma svc_by_name_ok g names pids act sigw name create : svc_ok g names pids act sigw → seg_wf name →
  (create = true → 0 < seg_len name) →
  ∃ o g', svc_by_name name create g = Done (o, g') ∧ svc_frame g g' ∧ g_log g' = g_log g ∧ g_ctl g' = g_ctl g ∧
    ((o ∈ names ∧ o ≠ 0 ∧ svc_name_key (svc_objs (g_svc g)) o = seg_view name ∧ g' = g) ∨
     (∀ p, p ∈ names → svc_name_key (svc_objs (g_svc g)) p ≠ seg_view name) ∧
     (o = 0 ∧ svc_kept g g' names pids act sigw ∨
      create = true ∧ legal_name (seg_view name) ∧ svc_created g g' names pids act sigw name o)).
Proof.
  intros Hok Hw Hlen. unfold svc_by_name. rewrite (bind_done (gets _) _ _ _ _ eq_refl).
  destruct (svc_find_ok _ _ _ _ _ name Hok Hw) as (s & E1 & [(Hr & o & Ho & Hk & El)|(Hr & Hno)]);
    rewrite (bind_done _ _ _ _ _ (rb_pure _ _ _ E1)).
  - rewrite Hr. cbn [Z.eqb]. exists o, g. pose proof (so_range _ _ _ _ _ Hok o Ho).
    split_and!; [by apply rb_pure|reflexivity|done|done|]. left. split_and!; [done|lia|done|done].
  - rewrite (proj2 (Z.eqb_neq _ _) Hr).
    destruct (svc_check_name_spec name Hw) as (b & Eb & Hb).
    assert (Ec : (if create then lift (svc_check_name name) else mret false) g = Done (create && b, g)).
    { destruct create; [|done]. unfold lift. by rewrite Eb. }
    rewrite (bind_done _ _ _ _ _ Ec). destruct create, b; cbn [andb];
      try (exists 0, g; split_and!; [done|reflexivity|done|done|right; split; [done|left; split; [done|split; done]]]).
    destruct (proj1 Hb eq_refl) as [Hl Hc]. pose proof (seg_view_length name Hw) as Hv.
    destruct (svc_new_ok g names pids act sigw name) as (o & g' & E & F & L & C & K); [done|done|specialize (Hlen eq_refl); lia|done|].
    exists o, g'. split_and!; [done|done|done|done|]. right. split; [done|]. destruct K as [[-> K]|K]; [left|right]; done.
Qed.

(** ** Variables *)

Lemma svc_get_var_ok g o s l name : svc_objs (g_svc g) !! o = Some s → vars_are (svc_vars s) l → seg_wf name →
  ∃ val, svc_get_var o name g = Done (val, g) ∧ seg_view <$> val = assoc (seg_view name) l ∧
    (∀ v, val = Some v → seg_wf v ∧ seg_buf v = svc_vars s ∧ svc_vars s !! Z.to_nat (seg_off v + seg_len v) = Some NUL).
Proof.
  intros Hs Hv Hw. unfold svc_get_var. rewrite (bind_done _ _ _ _ _ (svc_obj_eq _ _ _ Hs)).
  rewrite (proj2 (Z.geb_le _ _)) by apply Hw. rewrite (bind_done (assert true) _ _ _ _ eq_refl).
  destruct (var_lookup_spec _ _ _ Hv Hw) as (found & tail & E & Hf & Hval).
  exists found. split_and!; [|done|exact Hval].
  unfold lift. by erewrite bind_done by (rewrite E; reflexivity).
Qed.

(** The bindings fit the object if it comes from a pool. *)
Definition vars_fit (m : svcmod_t) (s : service_t) (l : list binding) : Prop :=
  svc_pool m = true → Z.of_nat (length (svc_name s)) + 1 + Z.of_nat (length (pack l)) ≤ NAME_BUF_SIZE.

Lemma svc_var_room_ok g names pids act sigw s d : svc_ok g names pids act sigw →
  (svc_pool (g_svc g) = true → Z.of_nat (length (svc_name s)) + 1 + (Z.of_nat (length (svc_vars s)) + d) ≤ NAME_BUF_SIZE) →
  ∃ room g', svc_var_room s d g = Done (room, g') ∧ svc_frame g g' ∧ g_svc g' = g_svc g ∧ g_rb g' = g_rb g ∧
    g_next g' = g_next g ∧ g_log g' = g_log g ∧ g_ctl g' = g_ctl g ∧ (svc_pool (g_svc g) = true → room = true).
Proof.
  intros Hok Hfit. unfold svc_var_room. rewrite (bind_done (gets g_svc) _ _ _ _ eq_refl).
  destruct (d >? 0); [|by exists true, g].
  destruct (svc_pool (g_svc g)) eqn:Ep.
  - destruct (so_pool _ _ _ _ _ Hok Ep) as [Hsz _]. specialize (Hfit eq_refl). unfold sizeof_service_t, offset_name_buf, NAME_BUF_SIZE in *.
    rewrite (Z.gtb_ltb _ _), (proj2 (Z.ltb_ge _ _)) by lia. rewrite (proj2 (Z.leb_le _ _)) by lia.
    rewrite (bind_done (assert true) _ _ _ _ eq_refl). by exists true, g.
  - destruct (sys (CMalloc (Z.of_nat (length (svc_vars s)) + d)) g) as [[r g1]| | | |] eqn:E1; try discriminate E1.
    destruct (sys_svc_frame _ _ _ _ E1) as (F1 & S1 & R1 & N1 & L1 & C1). rewrite (bind_done _ _ _ _ _ E1).
    exists (negb (ret r <? 0)), g1. done.
Qed.

Lemma svc_set_var_ok g names pids act sigw o s l name value : svc_ok g names pids act sigw → o ∈ names →
  svc_objs (g_svc g) !! o = Some s → vars_are (svc_vars s) l → seg_wf name → name_ok (seg_view name) →
  (∀ v, value = Some v → seg_wf v ∧ NUL ∉ seg_view v) →
  vars_fit (g_svc g) s (assoc_set (seg_view name) (seg_view <$> value) l) →
  ∃ b g', svc_set_var o name value g = Done (b, g') ∧ svc_ok g' names pids act sigw ∧ svc_frame g g' ∧
    g_log g' = g_log g ∧ g_ctl g' = g_ctl g ∧ (svc_pool (g_svc g) = true → b = true) ∧
    (b = false → g_svc g' = g_svc g) ∧
    (b = true → ∃ vars, svc_objs (g_svc g') = <[o := set_svc_vars vars s]> (svc_objs (g_svc g)) ∧
       vars_are vars (assoc_set (seg_view name) (seg_view <$> value) l)).
Proof.
  intros Hok Ho Hs Hv Hw Hn Hval Hfit.
  destruct (var_set_spec _ _ _ _ Hv Hw Hn Hval) as (found & tail & vars & E1 & E2 & Hv' & Hlen).
  unfold svc_set_var. rewrite (bind_done _ _ _ _ _ (svc_obj_eq _ _ _ Hs)).
  rewrite (proj2 (Z.geb_le _ _)) by apply Hw. rewrite (bind_done (assert true) _ _ _ _ eq_refl).
  assert (Ea : assert (match value with Some v => seg_len v >=? 0 | None => true end) g = Done (tt, g)).
  { destruct value as [v|]; [|done]. rewrite (proj2 (Z.geb_le _ _)); [done|]. by apply (Hval v). }
  rewrite (bind_done _ _ _ _ _ Ea). unfold lift at 1. erewrite bind_done by (rewrite E1; reflexivity).
  assert (Hl : length vars = length (pack (assoc_set (seg_view name) (seg_view <$> value) l))) by by destruct Hv' as [-> _].
  destruct (svc_var_room_ok g names pids act sigw s (var_sizediff found name value)) as (room & g1 & E3 & F1 & S1 & R1 & N1 & L1 & C1 & Hroom);
    [done|intros Hp; specialize (Hfit Hp); lia|].
  rewrite (bind_done _ _ _ _ _ E3). destruct room; cbn [negb].
  2:{ exists false, g1. split_and!; try done. by eapply svc_ok_same. }
  unfold lift. erewrite bind_done by (rewrite E2; reflexivity).
  assert (Hs1 : svc_objs (g_svc g1) !! o = Some s) by by rewrite S1.
  rewrite (bind_done _ _ _ _ _ (upd_svc_eq _ _ _ _ Hs1)).
  assert (Hok1 : svc_ok g1 names pids act sigw) by by eapply svc_ok_same.
  assert (Hok2 : svc_ok (on_svc (set_svc_objs (<[o := set_svc_vars vars s]> (svc_objs (g_svc g1)))) g1) names pids act sigw).
  { eapply (svc_ok_upd g1 _ _ _ _ o s (set_svc_vars vars)); try done. intros (W1 & _ & W3 & W4). split; [done|]. split; [by eexists|].
    split; [|exact W4]. rewrite S1. intros Hp. cbn. rewrite Hl. by apply Hfit. }
  rewrite (bind_done _ _ _ _ _ (svc_check_ok _ _ _ _ _ _ Hok2 Ho)). exists true. eexists. split; [reflexivity|].
  split_and!; [done|etransitivity; [exact F1|by apply svc_frame_svc]|done|done|done|done|].
  intros _. exists vars. split; [|done]. cbn. by rewrite S1.
Qed.
End new.
