(* ===== verification/SvcThms.v ===== *)
(** * The theorems about services *)

From S2P Require Import Prelude Strseg State RBTree RBTreeRep OrdIndex RBTreeIndex Table Log Signal SignalSpec CtlOut CtlOutSpec SvcVars PtrArray Fd FdSpec CtlObj Service SvcFork Dll ServiceSpec SvcRun SvcActive SvcNew.

(** ** Concrete states *)

(** A system whose [fork] returns a new process id in the parent. *)
Definition parent_os : OS := {|
  os tr c := match c with
             | CFork => mkRet (100 + Z.of_nat (length tr)) 0 [] []
             | CWrite _ data => mkRet (Z.of_nat (length data)) 0 [] []
             | _ => mkRet 0 0 [] []
             end;
  strerror := @strerror ideal_os;
  alloca_cap := @alloca_cap ideal_os;
  sig_list := @sig_list ideal_os;
|}.

#[export] Instance parent_write_ok : @WriteOk parent_os.
Proof. split; intros; cbn; [lia|]. destruct data; cbn; [done|lia]. Qed.

Lemma parent_forks : @fork_in_parent parent_os.
Proof. intros tr. cbn. lia. Qed.

(** The state after [svc_init], one second after the clock started. *)
Definition G_1 : G := on_wake (set_wake_now (2 ^ 32)) G_0.
Definition svc_state_0 : G := match @svc_init G_1 with Done (_, g) => g | _ => G_1 end.

Lemma svc_state_0_good : good svc_state_0 [] [] [] [].
Proof.
  assert (Hinit : ∃ h, svc_state_0 = set_g_rb h G_1 ∧
    table_at lex_cmp svc_by_name_index name_node (svc_name_key ∅) h [] ∧
    table_at pid_cmp svc_by_pid_index pid_node (svc_pid_key ∅) h []).
  { destruct (RBTree_Init_empty (svc_name_key ∅) lex_cmp svc_by_name_index (g_rb G_1) (mkNode 0 0 0 0 0) Sentinel)
      as (h1 & E1 & Ht1 & Hk1); [done..|].
    destruct (RBTree_Init_empty (svc_pid_key ∅) pid_cmp svc_by_pid_index h1 (mkNode 0 0 0 0 0) Sentinel)
      as (h2 & E2 & Ht2 & Hk2); [by rewrite Hk1|done|done|by rewrite Hk1|].
    exists h2. split_and!; [|eapply table_agree; [exact Ht1| |by apply (table_sent pid_cmp svc_by_pid_index pid_node (svc_pid_key ∅) h2 [])]|exact Ht2].
    - unfold svc_state_0, svc_init. rewrite (bind_done _ _ _ _ _ (rb_done _ _ _ _ E1)). rewrite (rb_done (RBTree_Init svc_by_pid_index) (set_g_rb h1 G_1) tt h2 E2). done.
    - intros a [->|(o & Ho & _)]%names_cell; [|by apply elem_of_nil in Ho]. by apply Hk2. }
  destruct Hinit as (h & -> & Hn & Hp). split.
  - split; cbn; try done; try lia; try (by intros o Ho; apply elem_of_nil in Ho).
    + intros o. rewrite elem_of_nil. tauto.
    + constructor.
    + split; try done; [constructor|by intros o Ho; apply elem_of_nil in Ho..].
    + split; try done; [constructor|by intros o Ho; apply elem_of_nil in Ho..].
  - split; [split; [done|by unfold in32; cbn]|]. intros i c Hi.
    destruct i as [|[|i]]; cbn in Hi; [| |done]; injection Hi as <-; (split; [done|by left]).
Qed.

(** One service, called "web", that is down; then started. *)
Definition ex_svc : G := match @svc_by_name parent_os (STRSEG (str "web")) true svc_state_0 with Done (_, g) => g | _ => G_0 end.
Definition ex_started : G := match @svc_handle_start parent_os 1 0 ex_svc with Done (_, g) => g | _ => G_0 end.

Lemma ex_svc_good : good ex_svc [1] [] [] [] ∧ svc_objs (g_svc ex_svc) = {[1 := svc_fresh (str "web")]}.
Proof.
  destruct svc_state_0_good as [Hok Hc].
  destruct (@svc_by_name_ok parent_os svc_state_0 [] [] [] [] (STRSEG (str "web")) true Hok (STRSEG_wf _))
    as (o & g' & E & F & L & C & K); [done|].
  assert (Eo : o = 1 ∧ svc_objs (g_svc g') = {[1 := svc_fresh (str "web")]}).
  { assert (E2 : match @svc_by_name parent_os (STRSEG (str "web")) true svc_state_0 with
      | Done (o, g) => Some (o, map_to_list (svc_objs (g_svc g))) | _ => None end = Some (1, [(1, svc_fresh (str "web"))])) by (vm_compute; reflexivity).
    rewrite E in E2. injection E2 as -> Hm. split; [done|]. rewrite <-(list_to_map_to_list (svc_objs (g_svc g'))), Hm. done. }
  destruct Eo as [-> Em]. unfold ex_svc. rewrite E. split; [|done].
  destruct K as [(Ho & _)|(_ & [(? & _)|(_ & _ & _ & _ & l1 & l2 & Hl & K & _)])]; [by apply elem_of_nil in Ho|done|].
  symmetry in Hl. apply app_nil in Hl as [-> ->]. split; [exact K|by eapply ctls_ok_same].
Qed.

Lemma ex_started_good : good ex_started [1] [] [1] [] ∧ ∃ s, svc_objs (g_svc ex_started) = {[1 := s]} ∧ unlinked s = unlinked (started (2 ^ 32) 0 (svc_fresh (str "web"))).
Proof.
  destruct ex_svc_good as [Hg Eobjs].
  assert (Hs : svc_objs (g_svc ex_svc) !! 1 = Some (svc_fresh (str "web"))) by by rewrite Eobjs.
  assert (Hin : 1 ∈ [1]) by by left.
  destruct (@svc_handle_start_ok parent_os _ ex_svc _ _ _ _ 1 _ 0 Hg Hin Hs (or_introl eq_refl)) as (g' & pids & E & Hg' & F & P & R & W).
  assert (Ep : pids = []). { clear - P. destruct pids as [|p l]; [done|]. exfalso. destruct (proj1 (P p) (list_elem_of_here _ _)) as [[_ H0]|[_ Hx]]; [by apply H0|]. by apply elem_of_nil in Hx. }
  subst pids. unfold ex_started. rewrite E. split; [exact Hg'|].
  assert (En : wake_now (g_wake ex_svc) = 2 ^ 32) by (vm_compute; reflexivity). rewrite En, Eobjs in R.
  destruct (relinked_some _ _ 1 (started (2 ^ 32) 0 (svc_fresh (str "web"))) R) as (s & Hs' & Hu); [apply lookup_insert_eq|].
  exists s. split; [|done]. apply map_eq. intros i. destruct (decide (i = 1)) as [->|Hi]; [by rewrite Hs', lookup_singleton_eq|].
  rewrite lookup_singleton_ne by done. specialize (R i). rewrite lookup_insert_ne, lookup_singleton_ne in R by done. cbn in R. by destruct (svc_objs (g_svc g') !! i).
Qed.

Lemma ex_sigs : sigs_ok (signals (g_sig ex_started)).
Proof.
  assert (E : signals (g_sig ex_started) = sig_slots_0) by (vm_compute; reflexivity). rewrite E. split.
  - apply sig_inv_empty.
  - apply (bool_decide_unpack _). vm_compute. done.
  - assert (Hp : Forall (λ s, number_pending s = 0) sig_slots_0) by (apply (bool_decide_unpack _); vm_compute; done).
    rewrite Forall_forall in Hp. intros s1 s2 H1 H2 Hp1 _ Hp2. specialize (Hp s1 H1). lia.
Qed.

(** ** The state machine *)

Section theorems.
Context `{OS} `{!WriteOk}.

(** C11. [svc_run] of a service without control descriptors, while no two pending
    signals share a time, makes a transition of [svc_trans] and ends: a service whose
    start is due is forked once and keeps the process id that [fork] returned, or is
    tried again in 3 seconds if [fork] failed; in no other case is [fork] called; one
    that was reaped is restarted if it is set to or a signal that triggers it is
    pending, no sooner than its restart interval, and else goes down.  Afterwards it
    waits for its start (and is then on the active list, and the main loop wakes up in
    time), runs or is down; no other service changes, and indexes, lists and every
    assertion hold.  The model follows the parent of a fork ([fork_in_parent]).  With
    control descriptors the code may fault ([svc_do_fork_no_controller]). *)
Theorem svc_run_transition g names pids act sigw o s : fork_in_parent → good g names pids act sigw → o ∈ names →
  sigs_ok (signals (g_sig g)) →
  svc_objs (g_svc g) !! o = Some s → no_control s →
  ∃ g' pids' s', svc_run o g = Done (tt, g') ∧
    let act' := list_set (svc_state s' =? SVC_STATE_START) o act in
    good g' names pids' act' sigw ∧ touched o g g' pids pids' act act' ∧
    svc_objs (g_svc g') !! o = Some s' ∧ settled (wake_now (g_wake g)) s' ∧
    (∃ fs, forked fs g g' ∧
      svc_trans (wake_now (g_wake g)) (wakes (signals (g_sig g)) s) fs (unlinked s) (unlinked s')) ∧
    (svc_state s' = SVC_STATE_START → 0 ≤ wrap64 (start_time s' - wake_next (g_wake g'))).
Proof.
  intros. destruct (svc_run_ok g names pids act sigw o s) as (g' & pids' & s' & E & Hg & T & Hs & R & W); try done.
  exists g', pids', s'. split; [done|]. cbv zeta. destruct R as (fs & K & R).
  split_and!; try done; [exact (svc_trans_settled _ _ _ _ _ R)|by exists fs].
Qed.

(** C12. When no service has control descriptors and no two pending signals share a
    time, a pass of [svc_run_active] ends, and leaves only services that wait for their
    start on the active list: each service is first started if a signal it has not
    seen triggers it, then makes its transitions if it is on the list.  The time of the
    last signal the services saw is one of the clock (between 0 and 2^62), and the
    model follows the parent of a fork. *)
Theorem svc_run_active_settles g names pids act sigw : fork_in_parent → good g names pids act sigw → no_controls g names →
  sigs_ok (signals (g_sig g)) → 0 ≤ svc_last_signal_ts (g_svc g) < 2 ^ 62 →
  ∃ g' pids' act', svc_run_active g = Done (tt, g') ∧ good g' names pids' act' sigw ∧ svc_frame g g' ∧
    (∀ p s, p ∈ names → svc_objs (g_svc g) !! p = Some s → ∃ s', svc_objs (g_svc g') !! p = Some s' ∧ passed g act sigw p s s') ∧
    (∀ p s', p ∈ act' → svc_objs (g_svc g') !! p = Some s' →
       svc_state s' = SVC_STATE_START ∧ waits (wake_now (g_wake g)) s').
Proof. apply svc_run_active_ok. Qed.

(** C14. A start request is refused, and no service changes, unless the service is down
    or waiting already; else the service waits for the given time (or for now, if that is
    past), has no process id, is on the active list, and the main loop runs again at
    once. *)
Theorem svc_handle_start_schedules g names pids act sigw o s time : good g names pids act sigw → o ∈ names →
  svc_objs (g_svc g) !! o = Some s →
  ∃ b g' pids' act', svc_handle_start o time g = Done (b, g') ∧ good g' names pids' act' sigw ∧
    (b = true ↔ startable s) ∧
    (b = false → io_frame g g') ∧
    (b = true → touched o g g' pids pids' act act' ∧ o ∉ pids' ∧ act' = list_set true o act ∧
       (∃ s', svc_objs (g_svc g') !! o = Some s' ∧ unlinked s' = unlinked (started (wake_now (g_wake g)) time s)) ∧
       wake_next (g_wake g') = wake_now (g_wake g)).
Proof.
  intros Hg Ho Hs. destruct (decide (startable s)) as [Hst|Hst].
  - destruct (start_touched _ _ _ _ _ _ _ time Hg Ho Hs Hst) as (g' & pids' & s' & E & Hg' & T & Hn & Hs' & U & W).
    exists true, g', pids', (list_set true o act). split_and!; try done. intros _. split_and!; try done. by exists s'.
  - destruct (svc_handle_start_refused g names pids act sigw o s time Hg Hs) as (g' & E & Hg' & F); [unfold startable in Hst; tauto..|].
    by exists false, g', pids, act.
Qed.

(** C15. A request to cancel takes a waiting service off the active list and leaves it
    down; in any other state it is refused and no service changes. *)
Theorem svc_cancel_start_undoes g names pids act sigw o s : good g names pids act sigw → o ∈ names →
  svc_objs (g_svc g) !! o = Some s →
  ∃ b g' act', svc_cancel_start o g = Done (b, g') ∧ good g' names pids act' sigw ∧
    (b = true ↔ svc_state s = SVC_STATE_START) ∧
    (b = false → io_frame g g') ∧
    (b = true → touched o g g' pids pids act act' ∧ o ∉ act' ∧
       ∃ s', svc_objs (g_svc g') !! o = Some s' ∧ unlinked s' = unlinked (cancelled s)).
Proof.
  intros Hg Ho Hs. destruct (decide (svc_state s = SVC_STATE_START)) as [Hst|Hst].
  - destruct (svc_cancel_start_ok _ _ _ _ _ _ _ Hg Ho Hs Hst) as (g' & s' & E & Hg' & T & Hs' & U & W).
    exists true, g', (list_set false o act). split_and!; try done. intros _. split_and!; [done|by rewrite list_set_in|by exists s'].
  - destruct (svc_cancel_start_refused g names pids act sigw o s Hg Hs Hst) as (g' & E & Hg' & F). by exists false, g', act.
Qed.

(** C13. The end of a daemon is recorded once: a running service keeps the status and
    the time, is put on the active list and the main loop runs again at once; for a
    service in any other state nothing at all changes. *)
Theorem svc_handle_reaped_once g names pids act sigw o s wstat : good g names pids act sigw → o ∈ names →
  svc_objs (g_svc g) !! o = Some s →
  (svc_state s ≠ SVC_STATE_UP → svc_handle_reaped o wstat g = Done (tt, g)) ∧
  (svc_state s = SVC_STATE_UP → ∃ g' s', svc_handle_reaped o wstat g = Done (tt, g') ∧
     good g' names pids (list_set true o act) sigw ∧ touched o g g' pids pids act (list_set true o act) ∧
     svc_objs (g_svc g') !! o = Some s' ∧ unlinked s' = unlinked (reaped (wake_now (g_wake g)) wstat s) ∧
     wake_next (g_wake g') = wake_now (g_wake g)).
Proof.
  intros Hg Ho Hs. split; intros Hst; [|by apply svc_handle_reaped_ok].
  unfold svc_handle_reaped. rewrite (bind_done _ _ _ _ _ (svc_obj_eq _ _ _ Hs)), (bind_done (gets _) _ _ _ _ eq_refl).
  by rewrite (proj2 (Z.eqb_neq _ _) Hst).
Qed.


End theorems.

(** ** Instances *)

Lemma fresh_no_control : no_control (started (2 ^ 32) 0 (svc_fresh (str "web"))).
Proof. by split_and!. Qed.

Lemma svc_run_transition_witness :
  ∃ g' s', @svc_run parent_os 1 ex_started = Done (tt, g') ∧ svc_objs (g_svc g') !! 1 = Some s' ∧ settled (2 ^ 32) s'.
Proof.
  destruct ex_started_good as (Hg & s & Es & U).
  assert (Hs : svc_objs (g_svc ex_started) !! 1 = Some s) by by rewrite Es.
  destruct (@svc_run_transition parent_os _ ex_started [1] [] [1] [] 1 s parent_forks Hg (list_elem_of_here _ _) ex_sigs Hs)
    as (g' & pids' & s' & E & _ & _ & Hs' & Hset & _).
  - exact (no_control_unlinked _ _ U fresh_no_control).
  - exists g', s'. split_and!; [exact E|exact Hs'|]. assert (En : wake_now (g_wake ex_started) = 2 ^ 32) by (vm_compute; reflexivity).
    rewrite En in Hset. exact Hset.
Defined.

Lemma ex_started_no_controls : no_controls ex_started [1].
Proof.
  destruct ex_started_good as (_ & s & Es & U). intros o t Ho Ht. apply list_elem_of_singleton in Ho as ->.
  rewrite Es, lookup_singleton_eq in Ht. injection Ht as <-. exact (no_control_unlinked _ _ U fresh_no_control).
Qed.

Lemma svc_run_active_settles_witness :
  ∃ g' pids' act', @svc_run_active parent_os ex_started = Done (tt, g') ∧ good g' [1] pids' act' [].
Proof.
  destruct ex_started_good as (Hg & _).
  assert (El : svc_last_signal_ts (g_svc ex_started) = 0) by (vm_compute; reflexivity).
  destruct (@svc_run_active_settles parent_os _ ex_started [1] [] [1] [] parent_forks Hg ex_started_no_controls ex_sigs)
    as (g' & pids' & act' & E & Hg' & _); [rewrite El; lia|].
  exists g', pids', act'. split; [exact E|exact Hg'].
Defined.

Lemma svc_handle_start_schedules_witness :
  ∃ g', @svc_handle_start parent_os 1 (6 * 2 ^ 32) ex_svc = Done (true, g') ∧ wake_next (g_wake g') = 2 ^ 32.
Proof.
  destruct ex_svc_good as [Hg Eo].
  assert (Hs : svc_objs (g_svc ex_svc) !! 1 = Some (svc_fresh (str "web"))) by by rewrite Eo.
  destruct (@svc_handle_start_schedules parent_os _ ex_svc [1] [] [] [] 1 _ (6 * 2 ^ 32) Hg (list_elem_of_here _ _) Hs)
    as (b & g' & pids' & act' & E & _ & Hb & _ & Ht).
  assert (b = true) as -> by (apply Hb; left; reflexivity). exists g'. split; [exact E|].
  destruct (Ht eq_refl) as (_ & _ & _ & _ & W). rewrite W. vm_compute. reflexivity.
Defined.

Lemma svc_cancel_start_undoes_witness :
  ∃ g' (act' : list Z), @svc_cancel_start parent_os 1 ex_started = Done (true, g') ∧ 1 ∉ act'.
Proof.
  destruct ex_started_good as (Hg & s & Es & U).
  assert (Hs : svc_objs (g_svc ex_started) !! 1 = Some s) by by rewrite Es.
  destruct (@svc_cancel_start_undoes parent_os _ ex_started [1] [] [1] [] 1 s Hg (list_elem_of_here _ _) Hs)
    as (b & g' & act' & E & _ & Hb & _ & Ht).
  assert (b = true) as -> by (apply Hb; rewrite (unlinked_field svc_state _ _ (λ _, eq_refl) U); reflexivity).
  exists g', act'. split; [exact E|]. exact (proj1 (proj2 (Ht eq_refl))).
Defined.

Lemma svc_handle_reaped_once_witness : svc_handle_reaped 1 0 ex_svc = Done (tt, ex_svc).
Proof.
  destruct ex_svc_good as [Hg Eo].
  assert (Hs : svc_objs (g_svc ex_svc) !! 1 = Some (svc_fresh (str "web"))) by by rewrite Eo.
  apply (svc_handle_reaped_once ex_svc [1] [] [] [] 1 _ 0 Hg (list_elem_of_here _ _) Hs). discriminate.
Defined.



(** ** Where the code fails *)

(** A system whose [fork] gives every child the same process id, as a system may once
    the child before was reaped. *)
Definition same_pid_os : OS := {|
  os tr c := match c with
             | CFork => mkRet 42 0 [] []
             | CWrite _ data => mkRet (Z.of_nat (length data)) 0 [] []
             | _ => mkRet 0 0 [] []
             end;
  strerror := @strerror ideal_os;
  alloca_cap := @alloca_cap ideal_os;
  sig_list := @sig_list ideal_os;
|}.

(** The daemon of "a" ends; then "b" is started and its daemon ends. *)
Definition start_and_run (name : list Z) : DP Z :=
  o ← @svc_by_name same_pid_os (STRSEG name) true;
  @svc_handle_start same_pid_os o 0;;
  @svc_run same_pid_os o;;
  mret o.

Definition reap (pid : Z) : DP Z :=
  p ← svc_by_pid pid;
  svc_handle_reaped p 0;;
  @svc_run same_pid_os p;;
  mret p.

Definition reuse_run : DP (bool * Z * Z) :=
  a ← start_and_run (str "a");
  reap 42;;
  b ← start_and_run (str "b");
  p ← reap 42;
  sa ← svc_obj a;
  sb ← svc_obj b;
  mret (p =? a, svc_state sa, svc_state sb).

(** An instance: a service that went down keeps its process id in the index: when the system
    gives the id to the daemon of another service, the end of that daemon is
    attributed to the service that is down, and the other one is taken to be running
    for ever. *)
Example svc_pid_reuse_confuses :
  match reuse_run svc_state_0 with Done (r, _) => Some r | _ => None end = Some (true, SVC_STATE_DOWN, SVC_STATE_UP).
Proof. vm_compute. reflexivity. Qed.

(** Arguments given to a service from a pool of objects with 1024 bytes for data. *)
Definition pool_run (args : list Z) : DP bool :=
  @svc_preallocate parent_os 4 1024;;
  o ← @svc_by_name parent_os (STRSEG (str "web")) true;
  @svc_set_argv parent_os o (STRSEG args).

(** An instance: a service from a pool keeps its variables inside [name_buf], 32 bytes
    long, though the pool gives each object more room.  Arguments of 22 characters still
    fit behind the name "web"; those of 23 fail the bounds check of [svc_var_room], which
    the model adds where the code writes on without one. *)
Example svc_pool_vars_overrun :
  (∃ g, pool_run (str "/usr/bin/httpd-daemons") svc_state_0 = Done (true, g)) ∧
  pool_run (str "/usr/bin/httpd-daemon a") svc_state_0 = Fault.
Proof. split; [eexists; vm_compute; reflexivity|vm_compute; reflexivity]. Qed.
