(* ===== verification/Walk.v ===== *)
(** * Walks through the named descriptors and the services

    [fd_iter_next] and [svc_iter_next], by which a statedump goes through the two
    indexes in the order of the names. *)

From Stdlib Require Import Sorted.
From S2P Require Import Prelude Strseg State RBTree RBTreeRep OrdIndex RBTreeIndex Table Log Signal SignalSpec CtlOut CtlOutSpec SvcVars Fd FdSpec FdThms CtlObj Service Dll ServiceSpec SvcRun SvcActive SvcNew SvcThms.

Lemma load_Object {A} (node : Z → Z) (cmp : A → A → Z) Tree key h l o : table_at cmp Tree node key h l → o ∈ l →
  load (node o) Object h = Done (o, h).
Proof. intros Ht Ho. destruct (table_node _ _ _ _ _ _ _ Ht Ho) as (n & Hn & E & _). unfold load. by rewrite Hn, E. Qed.

(** ** The two walks are the same walk *)

Section walk.
Variables (Tree : Z) (node : Z → Z) (key : Z → list Z) (C : list Z → Z → Z).
Hypothesis HC : ∀ d o, C d o = compare_key key lex_cmp d o.
Hypothesis node_ne : ∀ o, node o ≠ NULL.

(** From an object to the next one, or from a name to the first object after it. *)
Definition walk_next (current : Z) (d : list Z) : RB Z :=
  n ← (if negb (current =? 0) then RBTreeNode_GetNext (node current)
       else
         s ← RBTree_Find C Tree d;
         if Nearest s =? NULL then mret NULL
         else if Relation s <? 0 then mret (Nearest s)
         else RBTreeNode_GetNext (Nearest s));
  if negb (n =? NULL) then load n Object else mret 0.

(** [hd 0 l2] when the walk has the objects [l2] before it. *)
Lemma walk_end h l l1 l2 : table_at lex_cmp Tree node key h l → l = l1 ++ l2 → (∀ o, o ∈ l → o ≠ 0) →
  (if negb (match l2 with [] => NULL | o :: _ => node o end =? NULL)
   then load (match l2 with [] => NULL | o :: _ => node o end) Object else mret 0) h = Done (hd 0 l2, h).
Proof.
  intros Ht -> Hz. destruct l2 as [|o l2]; [done|]. rewrite (proj2 (Z.eqb_neq (node o) NULL)) by apply node_ne.
  cbn. eapply load_Object; [exact Ht|]. rewrite elem_of_app, elem_of_cons. tauto.
Qed.

Lemma walk_next_from h l1 o l2 d : table_at lex_cmp Tree node key h (l1 ++ o :: l2) → (∀ p, p ∈ l1 ++ o :: l2 → p ≠ 0) →
  walk_next o d h = Done (hd 0 l2, h).
Proof.
  intros Ht Hz. unfold walk_next. rewrite (proj2 (Z.eqb_neq o 0)) by (apply Hz; rewrite elem_of_app, elem_of_cons; tauto).
  cbn [negb]. rewrite (bind_done _ _ _ _ _ (table_next _ _ _ _ _ _ _ _ Ht)).
  apply (walk_end h _ (l1 ++ [o]) l2 Ht); [by rewrite <-app_assoc|done].
Qed.

Lemma walk_next_first h l d : table_at lex_cmp Tree node key h l → (∀ p, p ∈ l → p ≠ 0) →
  ∃ l1 l2, l = l1 ++ l2 ∧ walk_next 0 d h = Done (hd 0 l2, h) ∧
    (∀ o, o ∈ l1 → lex_cmp d (key o) >= 0) ∧ (NoDup (key <$> l) → ∀ o, o ∈ l2 → lex_cmp d (key o) < 0).
Proof.
  intros Ht Hz. unfold walk_next. cbn [Z.eqb negb].
  destruct (table_find_next lex_cmp Tree node (λ a b, proj1 (lex_cmp_eq a b)) key h l d Ht) as (s & E & Hs).
  erewrite <-RBTree_Find_ext in E by (intros; apply HC).
  destruct Hs as [[Hn ->]|(l1 & o & l2 & Hl & Hn & Hne & Hlt & Hgt & H0)].
  - exists [], []. split; [done|]. split; [|by split; intros; exfalso; by eapply elem_of_nil]. erewrite bind_done; [|rewrite (bind_done _ _ _ _ _ E), Hn; reflexivity]. done.
  - assert (Hstep : ∀ m1 m2, l = m1 ++ m2 → (if Relation s <? 0 then mret (Nearest s) else RBTreeNode_GetNext (Nearest s)) h =
      Done (match m2 with [] => NULL | o :: _ => node o end, h) → (∀ o, o ∈ m1 → lex_cmp d (key o) >= 0) →
      (NoDup (key <$> l) → ∀ o, o ∈ m2 → lex_cmp d (key o) < 0) →
      ∃ l1 l2, l = l1 ++ l2 ∧ (n ← (s ← RBTree_Find C Tree d; if Nearest s =? NULL then mret NULL
         else if Relation s <? 0 then mret (Nearest s) else RBTreeNode_GetNext (Nearest s));
         if negb (n =? NULL) then load n Object else mret 0) h = Done (hd 0 l2, h) ∧ (∀ o, o ∈ l1 → lex_cmp d (key o) >= 0) ∧
         (NoDup (key <$> l) → ∀ o, o ∈ l2 → lex_cmp d (key o) < 0)).
    { intros m1 m2 Em Es Ho Ho2. exists m1, m2. split; [done|]. split; [|done].
      erewrite bind_done; [|rewrite (bind_done _ _ _ _ _ E), (proj2 (Z.eqb_neq _ _)) by done; exact Es].
      by apply (walk_end h l m1 m2 Ht). }
    pose proof Ht as [Hord _]. rewrite Hl, fmap_app, fmap_cons in Hord.
    assert (Hent : ∀ p q, p ∈ q → ent node p ∈ ent node <$> q) by (intros; by apply list_elem_of_fmap_2).
    destruct (Z.ltb_spec (Relation s) 0) as [Hr|Hr].
    + destruct (Hlt Hr) as [Hf Hc]. rewrite Forall_forall in Hf. apply (Hstep l1 (o :: l2)); [done|by rewrite Hn| |].
      * intros p Hp. specialize (Hf p Hp). lia.
      * intros _ p Hp. pose proof (cut_right key lex_cmp d _ (ent node o) _ Hord Hc) as Hg.
        rewrite Forall_forall in Hg. apply (Hg (ent node p)). rewrite <-fmap_cons. by apply Hent.
    + apply (Hstep (l1 ++ [o]) l2).
      * by rewrite <-app_assoc.
      * rewrite Hn. rewrite Hl in Ht. exact (table_next _ _ _ _ _ _ _ _ Ht).
      * assert (Hc : 0 ≤ lex_cmp d (key o)).
        { destruct (Z.eq_dec (Relation s) 0) as [E0|]; [rewrite (H0 E0), cmp_refl; lia|]. destruct Hgt; lia. }
        pose proof (cut_left key lex_cmp d _ _ _ Hord Hc) as Hf. rewrite Forall_forall in Hf.
        intros p Hp. specialize (Hf (ent node p)). cbn in Hf. unfold compare_key in Hf. apply Z.le_ge, Hf.
        apply elem_of_app in Hp as [Hp| ->%list_elem_of_singleton]; rewrite elem_of_app; [left; by apply Hent|right; by left].
      * intros Hnd p Hp. destruct (Z.eq_dec (Relation s) 0) as [E0|Hne0].
        -- assert (Hle : lex_cmp d (key p) ≤ 0).
           { rewrite <-(H0 E0). apply ordered_app in Hord as (_ & Hord & _). apply StronglySorted_inv in Hord as [_ Hf].
             rewrite Forall_forall in Hf. by apply (Hf (ent node p)), Hent. }
           destruct (Z.eq_dec (lex_cmp d (key p)) 0) as [Ed|]; [|lia]. apply lex_cmp_eq in Ed. exfalso.
           rewrite Hl, fmap_app, fmap_cons in Hnd. apply NoDup_app in Hnd as (_ & _ & Hnd). apply NoDup_cons in Hnd as [Hnd _].
           apply Hnd. rewrite (H0 E0), Ed. by apply list_elem_of_fmap_2.
        -- destruct Hgt as [_ Hf]; [lia|]. rewrite Forall_forall in Hf. by apply Hf.
Qed.
End walk.

(** ** The descriptors *)

(** Running the steps of a walk one by one on the daemon's heap. *)
Lemma rb_bind {A B} (m : RB A) (f : A → RB B) g : rb (m ≫= f) g = (rb m ≫= λ a, rb (f a)) g.
Proof. unfold rb, mbind, M_bind. by destruct (m (g_rb g)) as [[a h]| | | |]. Qed.

Lemma rb_ret {A} (a : A) g : rb (mret a) g = Done (a, g).
Proof. by destruct g. Qed.

Lemma fd_iter_walk cur d g : fd_iter_next cur d g =
  rb (walk_next fd_by_name_index fd_node (λ d, fd_by_name_compare (fd_objs (g_fd g)) (STRSEG d)) cur d) g.
Proof.
  unfold walk_next, fd_iter_next.
  unfold gets, rb, mbind, M_bind, mret, M_ret. destruct (negb (cur =? 0)).
  - destruct (RBTreeNode_GetNext _ _) as [[n h]| | | |]; [|done..]. by destruct (negb _).
  - cbn beta iota.
    rewrite (RBTree_Find_ext (fd_by_name_compare (fd_objs (g_fd g))) (λ d, fd_by_name_compare (fd_objs (g_fd g)) (STRSEG d)) (STRSEG d) d) by done.
    destruct (RBTree_Find _ _ _ _) as [[s h]| | | |]; [|done..]. destruct (Nearest s =? NULL); [done|].
    destruct (Relation s <? 0); [by destruct (negb _)|]. cbn [g_rb set_g_rb].
    destruct (RBTreeNode_GetNext _ _) as [[n h2]| | | |]; [|done..]. by destruct (negb _).
Qed.

Lemma svc_iter_walk cur d g : svc_iter_next cur d g =
  rb (walk_next svc_by_name_index name_node (λ d, svc_by_name_compare (svc_objs (g_svc g)) (STRSEG d)) cur d) g.
Proof.
  unfold walk_next, svc_iter_next.
  unfold gets, rb, mbind, M_bind, mret, M_ret. destruct (negb (cur =? 0)).
  - destruct (RBTreeNode_GetNext _ _) as [[n h]| | | |]; [|done..]. by destruct (negb _).
  - cbn beta iota.
    rewrite (RBTree_Find_ext (svc_by_name_compare (svc_objs (g_svc g))) (λ d, svc_by_name_compare (svc_objs (g_svc g)) (STRSEG d)) (STRSEG d) d) by done.
    destruct (RBTree_Find _ _ _ _) as [[s h]| | | |]; [|done..]. destruct (Nearest s =? NULL); [done|].
    destruct (Relation s <? 0); [by destruct (negb _)|]. cbn [g_rb set_g_rb].
    destruct (RBTreeNode_GetNext _ _) as [[n h2]| | | |]; [|done..]. by destruct (negb _).
Qed.

Lemma fd_compare_STRSEG objs d o : fd_by_name_compare objs (STRSEG d) o = compare_key (fd_key objs) lex_cmp d o.
Proof. rewrite fd_compare_key by apply STRSEG_wf. by rewrite STRSEG_view. Qed.

Lemma svc_compare_STRSEG objs d o : svc_by_name_compare objs (STRSEG d) o = compare_key (svc_name_key objs) lex_cmp d o.
Proof. rewrite svc_compare_key by apply STRSEG_wf. by rewrite STRSEG_view. Qed.

(** ** The descriptors *)

Lemma fd_iter_from g l1 o l2 d : fd_ok g (l1 ++ o :: l2) → fd_iter_next o d g = Done (hd 0 l2, g).
Proof.
  intros Hok. rewrite fd_iter_walk. apply rb_pure. eapply walk_next_from; [|exact (fo_table _ _ Hok)|].
  - intros p. apply fd_node_ne.
  - intros p Hp. pose proof (fo_range _ _ Hok p Hp). lia.
Qed.

Lemma fd_iter_first g fds d : fd_ok g fds → ∃ l1 l2, fds = l1 ++ l2 ∧ fd_iter_next 0 d g = Done (hd 0 l2, g) ∧
  (∀ o, o ∈ l1 → lex_cmp d (fd_key (fd_objs (g_fd g)) o) >= 0) ∧
  (fd_unique g fds → ∀ o, o ∈ l2 → lex_cmp d (fd_key (fd_objs (g_fd g)) o) < 0).
Proof.
  intros Hok.
  destruct (walk_next_first fd_by_name_index fd_node (fd_key (fd_objs (g_fd g))) (λ d, fd_by_name_compare (fd_objs (g_fd g)) (STRSEG d))
    (fd_compare_STRSEG _) (λ p, proj2 (proj2 (fd_node_ne p))) (g_rb g) fds d (fo_table _ _ Hok)) as (l1 & l2 & -> & E & Ho & Hu).
  - intros p Hp. pose proof (fo_range _ _ Hok p Hp). lia.
  - exists l1, l2. split; [done|]. split; [|done]. rewrite fd_iter_walk. by apply rb_pure.
Qed.

(** ** The services *)

Lemma svc_iter_from g l1 o l2 pids act sigw d : svc_ok g (l1 ++ o :: l2) pids act sigw → svc_iter_next o d g = Done (hd 0 l2, g).
Proof.
  intros Hok. rewrite svc_iter_walk. apply rb_pure. eapply walk_next_from; [|exact (so_names _ _ _ _ _ Hok)|].
  - intros p. apply svc_node_ne. tauto.
  - intros p Hp. pose proof (so_range _ _ _ _ _ Hok p Hp). lia.
Qed.

Lemma svc_iter_first g names pids act sigw d : svc_ok g names pids act sigw → ∃ l1 l2, names = l1 ++ l2 ∧
  svc_iter_next 0 d g = Done (hd 0 l2, g) ∧
  (∀ o, o ∈ l1 → lex_cmp d (svc_name_key (svc_objs (g_svc g)) o) >= 0) ∧
  (∀ o, o ∈ l2 → lex_cmp d (svc_name_key (svc_objs (g_svc g)) o) < 0).
Proof.
  intros Hok.
  assert (Hne : ∀ p, name_node p ≠ NULL) by (intros p; apply svc_node_ne; tauto).
  destruct (walk_next_first svc_by_name_index name_node (svc_name_key (svc_objs (g_svc g))) (λ d, svc_by_name_compare (svc_objs (g_svc g)) (STRSEG d))
    (svc_compare_STRSEG _) Hne (g_rb g) names d (so_names _ _ _ _ _ Hok)) as (l1 & l2 & -> & E & Ho & Hu).
  - intros p Hp. pose proof (so_range _ _ _ _ _ Hok p Hp). lia.
  - exists l1, l2. split; [done|]. split_and!; [|done|by apply Hu, Hok]. rewrite svc_iter_walk. by apply rb_pure.
Qed.

(** ** The whole walk *)

(** What a client sees that calls [next] until it returns 0. *)
Fixpoint walk_all (next : Z → DP Z) (fuel : nat) (cur : Z) : DP (list Z) :=
  match fuel with
  | O => nofuel
  | S fuel =>
      o ← next cur;
      if o =? 0 then mret [] else l ← walk_all next fuel o; mret (o :: l)
  end.

Lemma walk_all_suffix next g l1 l2 fuel cur : (∀ o, o ∈ l1 ++ l2 → o ≠ 0) →
  (∀ m1 o m2, l1 ++ l2 = m1 ++ o :: m2 → next o g = Done (hd 0 m2, g)) →
  next cur g = Done (hd 0 l2, g) → (length l2 < fuel)%nat → walk_all next fuel cur g = Done (l2, g).
Proof.
  intros Hz Hn. revert l1 cur fuel Hz Hn. induction l2 as [|o l2 IH]; intros l1 cur [|fuel] Hz Hn E Hf; cbn in Hf; [lia| |lia|];
    cbn [walk_all]; rewrite (bind_done _ _ _ _ _ E); [done|]. cbn [hd].
  rewrite (proj2 (Z.eqb_neq o 0)) by (apply Hz; rewrite elem_of_app, elem_of_cons; tauto).
  assert (Eo : next o g = Done (hd 0 l2, g)) by by eapply Hn.
  erewrite bind_done; [done|]. apply (IH (l1 ++ [o])); [rewrite <-app_assoc; done|rewrite <-app_assoc; exact Hn|done|lia].
Qed.

(** The list of a walk: increasing names, everything after [d]. *)
Definition walked (key : Z → list Z) (d : list Z) (all l : list Z) : Prop :=
  StronglySorted (λ a b, lex_cmp (key a) (key b) < 0) l ∧ ∀ o, o ∈ l ↔ o ∈ all ∧ lex_cmp d (key o) < 0.

Lemma walked_suffix Tree node key h l1 l2 d : table_at lex_cmp Tree node key h (l1 ++ l2) → NoDup (key <$> l1 ++ l2) →
  (∀ o, o ∈ l1 → lex_cmp d (key o) >= 0) → (∀ o, o ∈ l2 → lex_cmp d (key o) < 0) → walked key d (l1 ++ l2) l2.
Proof.
  intros [Hord _] Hnd H1 H2. rewrite fmap_app in Hord. rewrite fmap_app in Hnd. apply ordered_app in Hord as (_ & Hord & _).
  apply NoDup_app in Hnd as (_ & _ & Hnd). split.
  - clear H1 H2. induction l2 as [|o l2 IH]; [constructor|]. rewrite fmap_cons in Hord. rewrite fmap_cons in Hnd.
    apply StronglySorted_inv in Hord as [Ho Hf]. apply NoDup_cons in Hnd as [Hno Hnd]. constructor; [by apply IH|].
    rewrite Forall_forall in Hf. apply Forall_forall. intros p Hp. specialize (Hf (ent node p) ltac:(by apply list_elem_of_fmap_2)).
    unfold key_le in Hf. cbn in Hf. destruct (Z.eq_dec (lex_cmp (key o) (key p)) 0) as [E|]; [|lia].
    apply lex_cmp_eq in E. exfalso. apply Hno. rewrite E. by apply list_elem_of_fmap_2.
  - intros o. rewrite elem_of_app. split; [auto|]. intros [[Ho|Ho] Hd]; [|done]. specialize (H1 o Ho). lia.
Qed.

Definition fd_walk (fuel : nat) (d : list Z) : DP (list Z) := walk_all (λ cur, fd_iter_next cur d) fuel 0.
Definition svc_walk (fuel : nat) (d : list Z) : DP (list Z) := walk_all (λ cur, svc_iter_next cur d) fuel 0.

(** C23. Calling [fd_iter_next] from the name [d] on until it returns null lists every
    descriptor whose name is greater than [d] once, in the order of the names, and
    ends: a statedump that goes on after the object it stopped at was deleted misses
    nothing and repeats nothing. *)
Theorem fd_walk_complete g fds d fuel : fd_ok g fds → fd_unique g fds → (length fds < fuel)%nat →
  ∃ l, fd_walk fuel d g = Done (l, g) ∧ walked (fd_key (fd_objs (g_fd g))) d fds l.
Proof.
  intros Hok Hu Hf. destruct (fd_iter_first g fds d Hok) as (l1 & l2 & -> & E & H1 & H2). exists l2. split.
  - apply (walk_all_suffix _ g l1 l2); [|intros m1 o m2 Em; rewrite Em in Hok; by eapply fd_iter_from|done|rewrite length_app in Hf; lia].
    intros o Ho. pose proof (fo_range _ _ Hok o Ho). lia.
  - apply (walked_suffix _ _ _ _ _ _ _ (fo_table _ _ Hok) Hu H1). by apply H2.
Qed.

Lemma fd_walk_complete_witness : ∃ l, fd_walk 2 [] ex_fd_state = Done (l, ex_fd_state) ∧ l = [1].
Proof.
  destruct ex_fd_ok as (names & Hok & Hu & _).
  assert (Hl : (length names < 2)%nat).
  { rewrite <-(fo_used _ _ Hok). apply (bool_decide_unpack _). vm_compute. done. }
  destruct (fd_walk_complete ex_fd_state names [] 2 Hok Hu Hl) as (l & E & _).
  exists l. split; [exact E|].
  assert (E2 : match fd_walk 2 [] ex_fd_state with Done (l, _) => l | _ => [] end = [1]) by (vm_compute; reflexivity).
  by rewrite E in E2.
Defined.

(** C24. The same for the services and [svc_iter_next]. *)
Theorem svc_walk_complete g names pids act sigw d fuel : svc_ok g names pids act sigw → (length names < fuel)%nat →
  ∃ l, svc_walk fuel d g = Done (l, g) ∧ walked (svc_name_key (svc_objs (g_svc g))) d names l.
Proof.
  intros Hok Hf. destruct (svc_iter_first g names pids act sigw d Hok) as (l1 & l2 & -> & E & H1 & H2). exists l2. split.
  - apply (walk_all_suffix _ g l1 l2); [|intros m1 o m2 Em; rewrite Em in Hok; by eapply svc_iter_from|done|rewrite length_app in Hf; lia].
    intros o Ho. pose proof (so_range _ _ _ _ _ Hok o Ho). lia.
  - by apply (walked_suffix _ _ _ _ _ _ _ (so_names _ _ _ _ _ Hok) (so_unique _ _ _ _ _ Hok) H1).
Qed.

Lemma svc_walk_complete_witness : ∃ l, svc_walk 2 (str "va") ex_svc = Done (l, ex_svc) ∧ l = [1].
Proof.
  destruct ex_svc_good as [[Hok _] _].
  destruct (svc_walk_complete ex_svc [1] [] [] [] (str "va") 2 Hok) as (l & E & _); [cbn; lia|].
  exists l. split; [exact E|].
  assert (E2 : match svc_walk 2 (str "va") ex_svc with Done (l, _) => l | _ => [] end = [1]) by (vm_compute; reflexivity).
  by rewrite E in E2.
Defined.
