(* ===== verification/SvcLists.v ===== *)
(** * Properties of services: the list of those that wait for signals, and deletion *)

From S2P Require Import Prelude Strseg State RBTree RBTreeRep OrdIndex RBTreeIndex Table Log Signal CtlOut CtlOutSpec SvcVars PtrArray Fd FdSpec CtlObj Service Dll ServiceSpec SvcNew.

(** ** The sigwake list *)

(** A service without the links of the sigwake list. *)
Definition unhooked (s : service_t) : service_t := set_sigwake_prev_ptr prev_null (set_sigwake_next 0 s).

(** Objects that differ in those links at most. *)
Definition rehooked (objs objs' : gmap Z service_t) : Prop := ∀ p, unhooked <$> objs' !! p = unhooked <$> objs !! p.

#[local] Instance rehooked_preorder : PreOrder rehooked.
Proof. split; [by intros ? ?|]. intros a b c H1 H2 p. by rewrite H2, H1. Qed.

Lemma rehooked_insert objs p s s' : objs !! p = Some s → unhooked s' = unhooked s → rehooked objs (<[p := s']> objs).
Proof.
  intros Hs He q. destruct (decide (q = p)) as [->|]; [|by rewrite lookup_insert_ne by done].
  rewrite lookup_insert_eq, Hs. cbn. by rewrite He.
Qed.

Lemma rehooked_upd objs p f : (∀ s, unhooked (f s) = unhooked s) → rehooked objs (upd_at p f objs).
Proof. intros Hf. unfold upd_at. destruct (objs !! p) eqn:E; [|reflexivity]. by eapply rehooked_insert. Qed.

Lemma unhooked_fields s s' : unhooked s' = unhooked s →
  svc_name s' = svc_name s ∧ svc_pid s' = svc_pid s ∧ svc_vars s' = svc_vars s ∧ svc_state s' = svc_state s ∧
  active_prev_ptr s' = active_prev_ptr s ∧ active_next s' = active_next s.
Proof. destruct s, s'. unfold unhooked. cbn. intros [= ]. by subst. Qed.

Lemma rehooked_some objs objs' p s : rehooked objs objs' → objs !! p = Some s →
  ∃ s', objs' !! p = Some s' ∧ unhooked s' = unhooked s.
Proof.
  intros Hr Hs. specialize (Hr p). rewrite Hs in Hr. destruct (objs' !! p) as [s'|]; [|done]. exists s'.
  split; [done|]. by apply (inj Some) in Hr.
Qed.

Definition with_sigwake (objs : gmap Z service_t) (head : Z) (g : G) : G :=
  on_svc (set_svc_sigwake_list head) (on_svc (set_svc_objs objs) g).

Lemma svc_ok_sigwake g names pids act sigw sigw' objs head : svc_ok g names pids act sigw →
  rehooked (svc_objs (g_svc g)) objs → list_ok sigwake_prev_ptr sigwake_next objs head names sigw' →
  svc_ok (with_sigwake objs head g) names pids act sigw'.
Proof.
  intros Hok Hr Hl. eapply (svc_ok_objs g); [exact Hok|done|done|by split_and!|..]; cbn.
  - intros o s Ho Es. destruct (rehooked_some _ _ _ _ Hr Es) as (s' & Es' & Eu). exists s'.
    destruct (unhooked_fields _ _ Eu) as (U1 & U2 & U3 & U4 & _). split_and!; [done|done|done|].
    unfold svc_wf, state_known. by rewrite U1, U3, U4.
  - specialize (Hr 0). rewrite (so_null _ _ _ _ _ Hok) in Hr. by destruct (objs !! 0).
  - eapply list_ok_same; [exact (so_active _ _ _ _ _ Hok)|by eapply svc_names_some|].
    intros o s Ho Es. destruct (rehooked_some _ _ _ _ Hr Es) as (s' & Es' & Eu). exists s'.
    destruct (unhooked_fields _ _ Eu) as (_ & _ & _ & U4 & U5). done.
  - exact Hl.
Qed.

(** The links, after the flag of the service has been set. *)
Definition sigwake_links (svc : Z) (sigwake : bool) : DP unit :=
  s ← svc_obj svc;
  if sigwake && bool_decide (sigwake_prev_ptr s = prev_null) then
    head ← gets (λ g, svc_sigwake_list (g_svc g));
    upd_svc svc (set_sigwake_next head);;
    when (negb (head =? 0)) (upd_svc head (set_sigwake_prev_ptr (prev_next svc)));;
    modify (on_svc (set_svc_sigwake_list svc));;
    upd_svc svc (set_sigwake_prev_ptr prev_head)
  else if negb sigwake && negb (bool_decide (sigwake_prev_ptr s = prev_null)) then
    when (negb (sigwake_next s =? 0)) (upd_svc (sigwake_next s) (set_sigwake_prev_ptr (sigwake_prev_ptr s)));;
    match sigwake_prev_ptr s with
    | prev_null => fault
    | prev_head => modify (on_svc (set_svc_sigwake_list (sigwake_next s)))
    | prev_next p => upd_svc p (set_sigwake_next (sigwake_next s))
    end;;
    upd_svc svc (set_sigwake_prev_ptr prev_null)
  else mret tt.

Lemma on_svc_objs_id g : on_svc (set_svc_objs (svc_objs (g_svc g))) g = g.
Proof. by destruct g as [? ? ? ? ? []]. Qed.

Lemma with_sigwake_id g : with_sigwake (svc_objs (g_svc g)) (svc_sigwake_list (g_svc g)) g = g.
Proof. by destruct g as [? ? ? ? ? []]. Qed.

Section lists.
Context (g : G) (names pids act sigw : list Z) (Hok : svc_ok g names pids act sigw).

Lemma sigwake_push o s : o ∈ names → svc_objs (g_svc g) !! o = Some s → o ∉ sigw → sigwake_prev_ptr s = prev_null →
  ∃ objs head, sigwake_links o true g = Done (tt, with_sigwake objs head g) ∧
    svc_ok (with_sigwake objs head g) names pids act (o :: sigw) ∧ rehooked (svc_objs (g_svc g)) objs.
Proof.
  intros Ho Hs Hol Eb. pose proof (so_sigwake _ _ _ _ _ Hok) as Hl. pose proof (names_pos _ _ _ _ _ Hok) as H0.
  pose proof (svc_names_some _ _ _ _ _ Hok) as Hsome. pose proof (li_head _ _ _ _ _ _ Hl) as Hh.
  pose proof (list_push_ok sigwake_prev_ptr sigwake_next set_sigwake_prev_ptr set_sigwake_next
    ltac:(done) ltac:(done) ltac:(done) ltac:(done) _ _ _ _ _ _ Hl Ho Hol H0 Hsome Hs) as Hp.
  set (objs := push set_sigwake_prev_ptr set_sigwake_next (svc_objs (g_svc g)) o (svc_sigwake_list (g_svc g))) in *.
  assert (Hr : rehooked (svc_objs (g_svc g)) objs).
  { unfold objs, push. case_match; [by apply rehooked_upd|]. etransitivity; by apply rehooked_upd. }
  exists objs, o. split_and!; [|by eapply svc_ok_sigwake|done].
  unfold sigwake_links. rewrite (bind_done _ _ _ _ _ (svc_obj_eq _ _ _ Hs)). rewrite bool_decide_true by done. cbn [andb].
  erewrite bind_done by reflexivity. erewrite bind_done by by apply upd_svc_eq.
  set (h := svc_sigwake_list (g_svc g)) in *. unfold objs, push, upd_at. rewrite Hs.
  destruct (Z.eqb_spec h 0) as [E0|E0]; cbn [negb when].
  - do 2 erewrite bind_done by reflexivity. erewrite upd_svc_eq by apply lookup_insert_eq.
    cbn [on_svc set_g_svc g_svc set_svc_objs svc_objs set_svc_sigwake_list]. by rewrite insert_insert_eq.
  - assert (Hhin : h ∈ sigw) by (rewrite Hh in E0 |- *; destruct sigw; [done|by left]).
    destruct (Hsome h) as [sh Hsh]; [by apply (li_sub _ _ _ _ _ _ Hl)|].
    assert (Hho : h ≠ o) by (intros ->; done).
    erewrite bind_done by (apply upd_svc_eq; cbn; rewrite lookup_insert_ne by done; exact Hsh).
    erewrite bind_done by reflexivity.
    erewrite upd_svc_eq by (cbn; rewrite lookup_insert_ne by done; apply lookup_insert_eq).
    cbn [on_svc set_g_svc g_svc set_svc_objs svc_objs set_svc_sigwake_list].
    rewrite lookup_insert_ne, Hsh by done. rewrite (insert_insert_ne _ o h) by done. by rewrite insert_insert_eq.
Qed.

Lemma sigwake_unlink l1 o l2 s : o ∈ names → svc_objs (g_svc g) !! o = Some s → sigw = l1 ++ o :: l2 → sigwake_prev_ptr s ≠ prev_null →
  ∃ objs head, sigwake_links o false g = Done (tt, with_sigwake objs head g) ∧
    svc_ok (with_sigwake objs head g) names pids act (l1 ++ l2) ∧ rehooked (svc_objs (g_svc g)) objs.
Proof.
  intros Ho Hs Hsig Eb. pose proof (so_sigwake _ _ _ _ _ Hok) as Hl. pose proof (names_pos _ _ _ _ _ Hok) as H0.
  pose proof (svc_names_some _ _ _ _ _ Hok) as Hsome. rewrite Hsig in Hl.
  destruct (list_unlink_ok sigwake_prev_ptr sigwake_next set_sigwake_prev_ptr set_sigwake_next
    ltac:(done) ltac:(done) ltac:(done) ltac:(done) _ _ _ _ _ _ _ Hl H0 Hsome Hs) as (Hself & _ & Hp).
  pose proof (li_dll _ _ _ _ _ _ Hl) as Hd.
  destruct (dll_unlink sigwake_prev_ptr sigwake_next set_sigwake_prev_ptr set_sigwake_next
    ltac:(done) ltac:(done) ltac:(done) ltac:(done) _ l1 o l2 s Hd) as (Ep & En & _);
    [apply Hl|intros Hz; by apply H0, (li_sub _ _ _ _ _ _ Hl)|done|].
  set (objs1 := unlink set_sigwake_prev_ptr set_sigwake_next (svc_objs (g_svc g)) (sigwake_prev_ptr s) (sigwake_next s)) in *.
  set (objs := <[o := set_sigwake_prev_ptr prev_null s]> objs1) in *.
  set (head := match sigwake_prev_ptr s with prev_head => sigwake_next s | _ => svc_sigwake_list (g_svc g) end) in *.
  assert (Hr : rehooked (svc_objs (g_svc g)) objs).
  { transitivity objs1; [|by eapply rehooked_insert].
    unfold objs1, unlink. destruct (sigwake_next s =? 0), (sigwake_prev_ptr s); try reflexivity; try by apply rehooked_upd.
    etransitivity; by apply rehooked_upd. }
  exists objs, head. split_and!; [|by eapply svc_ok_sigwake|done].
  unfold sigwake_links. rewrite (bind_done _ _ _ _ _ (svc_obj_eq _ _ _ Hs)). rewrite bool_decide_false by done. cbn [andb negb].
  set (objs0 := if sigwake_next s =? 0 then svc_objs (g_svc g) else upd_at (sigwake_next s) (set_sigwake_prev_ptr (sigwake_prev_ptr s)) (svc_objs (g_svc g))).
  assert (E0 : when (negb (sigwake_next s =? 0)) (upd_svc (sigwake_next s) (set_sigwake_prev_ptr (sigwake_prev_ptr s))) g =
    Done (tt, on_svc (set_svc_objs objs0) g)).
  { unfold objs0. destruct (Z.eqb_spec (sigwake_next s) 0) as [E0|E0]; cbn [negb when]; [by rewrite on_svc_objs_id|].
    rewrite En in E0 |- *. destruct l2 as [|h l2']; [done|]. cbn [hd].
    destruct (Hsome h) as [sh Hsh]; [apply (li_sub _ _ _ _ _ _ Hl); rewrite elem_of_app, !elem_of_cons; tauto|].
    unfold upd_at. rewrite Hsh. by apply upd_svc_eq. }
  rewrite (bind_done _ _ _ _ _ E0).
  assert (E1 : match sigwake_prev_ptr s with
      | prev_null => fault
      | prev_head => modify (on_svc (set_svc_sigwake_list (sigwake_next s)))
      | prev_next p => upd_svc p (set_sigwake_next (sigwake_next s))
      end (on_svc (set_svc_objs objs0) g) = Done (tt, with_sigwake objs1 head g)).
  { unfold objs1, unlink, head. fold objs0. rewrite Ep. unfold last_prev.
    destruct (last l1) as [q|] eqn:El; [|by destruct g as [? ? ? ? ? []]].
    assert (Hq : is_Some (objs0 !! q)).
    { assert (Hqn : q ∈ names). { apply (li_sub _ _ _ _ _ _ Hl). rewrite elem_of_app. left. by apply last_Some_elem_of. }
      destruct (Hsome q Hqn) as [sq Hsq]. unfold objs0. case_match; [by eauto|]. rewrite upd_at_lookup, Hsq. case_decide; cbn; eauto. }
    destruct Hq as [sq Hsq]. unfold upd_at. rewrite Hsq. rewrite (upd_svc_eq q _ _ sq) by done.
    by destruct g as [? ? ? ? ? []]. }
  rewrite (bind_done _ _ _ _ _ E1). rewrite (upd_svc_eq o _ _ s) by done. done.
Qed.

Lemma sigwake_links_ok o b : o ∈ names → ∃ objs head, sigwake_links o b g = Done (tt, with_sigwake objs head g) ∧
  svc_ok (with_sigwake objs head g) names pids act (list_set b o sigw) ∧ rehooked (svc_objs (g_svc g)) objs.
Proof.
  intros Ho. destruct (so_objs _ _ _ _ _ Hok o Ho) as (s & Hs & _).
  pose proof (li_iff _ _ _ _ _ _ (so_sigwake _ _ _ _ _ Hok) o s Ho Hs) as Hiff. unfold list_set.
  destruct (decide (o ∈ sigw)) as [Hin|Hn].
  - assert (Hne : sigwake_prev_ptr s ≠ prev_null) by tauto. destruct b.
    + exists (svc_objs (g_svc g)), (svc_sigwake_list (g_svc g)). rewrite with_sigwake_id. split_and!; [|done|reflexivity].
      unfold sigwake_links. rewrite (bind_done _ _ _ _ _ (svc_obj_eq _ _ _ Hs)). by rewrite bool_decide_false.
    + apply list_elem_of_split in Hin as (l1 & l2 & E). rewrite E, filter_middle.
      * by apply (sigwake_unlink l1 o l2 s).
      * rewrite <-E. apply (so_sigwake _ _ _ _ _ Hok).
  - assert (Eb : sigwake_prev_ptr s = prev_null) by tauto. destruct b; [by apply (sigwake_push o s)|].
    rewrite filter_absent by done. exists (svc_objs (g_svc g)), (svc_sigwake_list (g_svc g)). rewrite with_sigwake_id.
    split_and!; [|done|reflexivity]. unfold sigwake_links. rewrite (bind_done _ _ _ _ _ (svc_obj_eq _ _ _ Hs)). by rewrite bool_decide_true.
Qed.
End lists.

Lemma svc_set_sigwake_ok g names pids act sigw o b : good g names pids act sigw → o ∈ names →
  ∃ g', svc_set_sigwake o b g = Done (tt, g') ∧ good g' names pids act (list_set b o sigw) ∧ svc_frame g g' ∧ g_ctl g' = g_ctl g ∧
    g_rb g' = g_rb g ∧ svc_list (g_svc g') = svc_list (g_svc g) ∧ svc_list_count (g_svc g') = svc_list_count (g_svc g).
Proof.
  intros [Hok Hc] Ho. destruct (so_objs _ _ _ _ _ Hok o Ho) as (s & Hs & Hwf).
  pose proof (svc_ok_upd g names pids act sigw o s (set_svc_sigwake b) Hok Ho Hs ltac:(done) (λ x, x)) as Hok1.
  set (g1 := on_svc (set_svc_objs (<[o := set_svc_sigwake b s]> (svc_objs (g_svc g)))) g) in *.
  destruct (sigwake_links_ok g1 names pids act sigw Hok1 o b Ho) as (objs & head & E & Hok2 & _).
  exists (with_sigwake objs head g1). split_and!; try done.
  - unfold svc_set_sigwake. by rewrite (bind_done _ _ _ _ _ (upd_svc_eq o _ g s Hs)).
  - transitivity g1; [by apply svc_frame_svc|]. transitivity (on_svc (set_svc_objs objs) g1); by apply svc_frame_svc.
Qed.

(** ** Deletion *)

Lemma svc_names_nodup g names pids act sigw : svc_ok g names pids act sigw → NoDup names.
Proof.
  intros Hok. pose proof (table_nodup _ _ _ _ _ _ (so_names _ _ _ _ _ Hok)) as Hx. unfold table_cells in Hx.
  rewrite !NoDup_cons in Hx. destruct Hx as (_ & _ & _ & Hx). by apply NoDup_fmap_1 in Hx.
Qed.

Lemma list_ok_delete prevf nextf objs head names names' l o : list_ok prevf nextf objs head names l → o ∉ l →
  (∀ p, p ∈ names' ↔ p ≠ o ∧ p ∈ names) → list_ok prevf nextf (delete o objs) head names' l.
Proof.
  intros [Hd Hh Hnd Hsub Hiff] Ho Hn. split; try done.
  - eapply dll_ext; [|exact Hd]. intros p s Hp Hs. exists s. rewrite lookup_delete_ne by (by intros ->). done.
  - intros p Hp. apply Hn. split; [by intros ->|auto].
  - intros p s Hp Hs. apply Hn in Hp as [Hne Hp]. rewrite lookup_delete_ne in Hs by done. by apply Hiff.
Qed.

(** The array of services without [o]; its object is freed. *)
Lemma svc_list_remove_ok g n1 o n2 : svc_pool (g_svc g) = false → NoDup (n1 ++ o :: n2) →
  0 ≤ svc_list_count (g_svc g) ≤ svc_list_limit (g_svc g) → Z.of_nat (length (svc_list (g_svc g))) = svc_list_limit (g_svc g) →
  take (Z.to_nat (svc_list_count (g_svc g))) (svc_list (g_svc g)) ≡ₚ n1 ++ o :: n2 →
  ∃ l, let m := g_svc g in let c := svc_list_count m - 1 in
    let m' := set_svc_objs (delete o (svc_objs m)) (set_svc_list_count c (set_svc_list l m)) in
    svc_list_remove o g = Done (tt, set_g_rb (delete (name_node o) (delete (pid_node o) (g_rb g))) (on_svc (λ _, m') g)) ∧
    length l = length (svc_list m) ∧ take (Z.to_nat c) l ≡ₚ n1 ++ n2 ∧ 0 ≤ c.
Proof.
  intros Hpool Hnd Hc Hl Hu.
  assert (Hnd' : NoDup (take (Z.to_nat (svc_list_count (g_svc g))) (svc_list (g_svc g)))) by by rewrite Hu.
  assert (Hin : o ∈ take (Z.to_nat (svc_list_count (g_svc g))) (svc_list (g_svc g))).
  { rewrite Hu, elem_of_app, elem_of_cons. tauto. }
  assert (Hpos : 0 < svc_list_count (g_svc g)).
  { destruct (decide (svc_list_count (g_svc g) = 0)) as [E0|]; [|lia]. rewrite E0 in Hin. by apply elem_of_nil in Hin. }
  destruct (array_remove (svc_list (g_svc g)) (Z.to_nat (svc_list_count (g_svc g))) o 0)
    as (i & y & a1 & a2 & E1 & E2 & E3 & E4 & Ha & Hp & _); [lia|done|done|].
  rewrite Z2Nat.id in E2, E4 by lia. exists a2. cbv zeta. split_and!; [|done| |lia].
  - unfold svc_list_remove. rewrite (bind_done (gets g_svc) _ _ _ _ eq_refl).
    erewrite bind_done by (unfold lift; rewrite E1; reflexivity). cbv beta iota zeta.
    erewrite bind_done by (unfold lift; rewrite E2; reflexivity).
    erewrite bind_done by (unfold lift; rewrite E3; reflexivity). rewrite Hpool.
    erewrite bind_done by (unfold lift; rewrite E4; reflexivity).
    erewrite bind_done by reflexivity. by destruct g as [? ? ? ? ? []].
  - replace (Z.to_nat (svc_list_count (g_svc g) - 1)) with (Z.to_nat (svc_list_count (g_svc g)) - 1)%nat by lia.
    rewrite Hu, <-Permutation_middle in Hp. by apply Permutation_cons_inv in Hp.
Qed.

(** The invariant of the services without [o], whose cells are gone. *)
Lemma svc_ok_removed g names pids act sigw o n1 n2 rest h l : svc_ok g names pids act sigw → svc_pool (g_svc g) = false →
  names = n1 ++ o :: n2 → o ∉ act → o ∉ sigw →
  table_at lex_cmp svc_by_name_index name_node (svc_name_key (svc_objs (g_svc g))) h (n1 ++ n2) →
  table_at pid_cmp svc_by_pid_index pid_node (svc_pid_key (svc_objs (g_svc g))) h rest →
  (∀ q, q ∈ rest ↔ q ≠ o ∧ q ∈ pids) →
  (∀ q, q ∈ n1 ++ n2 → q ∉ pids → h !! pid_node q = g_rb g !! pid_node q) →
  length l = length (svc_list (g_svc g)) → take (Z.to_nat (svc_list_count (g_svc g) - 1)) l ≡ₚ n1 ++ n2 → 0 ≤ svc_list_count (g_svc g) - 1 →
  let m := g_svc g in
  let m' := set_svc_objs (delete o (svc_objs m)) (set_svc_list_count (svc_list_count m - 1) (set_svc_list l m)) in
  svc_ok (set_g_rb (delete (name_node o) (delete (pid_node o) h)) (on_svc (λ _, m') g)) (n1 ++ n2) rest act sigw.
Proof.
  intros Hok Hpool En Hact Hsig Ht1 Ht2 Hrest Hidle Hlen Hused Hpos m m'.
  destruct (svc_node_ne o Sentinel) as [NS PS]; [tauto|]. destruct (svc_node_ne o svc_by_name_index) as [NN PN]; [tauto|].
  destruct (svc_node_ne o svc_by_pid_index) as [NP PP]; [tauto|].
  assert (Hnd : NoDup names).
  { by eapply svc_names_nodup. }
  assert (Hin : ∀ q, q ∈ n1 ++ n2 ↔ q ≠ o ∧ q ∈ names).
  { intros q. rewrite En in Hnd |- *. rewrite <-Permutation_middle in Hnd |- *. apply NoDup_cons in Hnd as [Hno _].
    rewrite elem_of_cons. split; [|naive_solver]. intros Hq. split; [by intros ->|by right]. }
  assert (Hne : ∀ q, q ≠ o → name_node q ≠ name_node o ∧ pid_node q ≠ pid_node o).
  { intros q Hq. split; [by intros ?%name_node_inj|by intros ?%pid_node_inj]. }
  assert (Hsent : sent_at (delete (name_node o) (delete (pid_node o) h))).
  { destruct (table_sent _ _ _ _ _ _ Ht1) as [q Hq]. exists q. by rewrite !lookup_delete_ne. }
  assert (Hkey : ∀ q, q ≠ o → delete o (svc_objs m) !! q = svc_objs m !! q) by (intros; by apply lookup_delete_ne).
  destruct Hok as [_ _ Hpi Hi Hu Hobjs H0 Ha Hs Hc Hl _ Hr _ Hnext]. split; cbn; try done.
  - eapply table_ext; [|eapply table_agree; [exact Ht1| |exact Hsent]].
    + intros q Hq. apply Hin in Hq as [Hq _]. unfold svc_name_key. by rewrite Hkey.
    + intros a [->|(q & Hq & ->)]%names_cell; rewrite !lookup_delete_ne; try done; [by apply not_eq_sym, name_pid_node|].
      apply not_eq_sym. apply Hin in Hq as [Hq _]. by apply Hne.
  - eapply table_ext; [|eapply table_agree; [exact Ht2| |exact Hsent]].
    + intros q Hq. apply Hrest in Hq as [Hq _]. unfold svc_pid_key. by rewrite Hkey.
    + intros a [->|(q & Hq & ->)]%pids_cell; rewrite !lookup_delete_ne; try done; [|apply name_pid_node].
      apply not_eq_sym. apply Hrest in Hq as [Hq _]. by apply Hne.
  - intros q. rewrite Hrest, Hin, (Hpi q). unfold svc_pid_key. destruct (decide (q = o)); [tauto|]. rewrite Hkey by done. tauto.
  - intros q Hq Hnr. assert (Hqo : q ≠ o) by (apply Hin in Hq; tauto). assert (Hqp : q ∉ pids) by (intros Hp; apply Hnr, Hrest; done).
    rewrite !lookup_delete_ne; [|by apply not_eq_sym, Hne|by apply name_pid_node].
    rewrite Hidle by done. apply Hi; [by apply Hin|done].
  - rewrite En in Hu. rewrite <-Permutation_middle, fmap_cons, NoDup_cons in Hu. destruct Hu as [_ Hu].
    erewrite list_fmap_ext; [exact Hu|]. intros i q Hq%list_elem_of_lookup_2%Hin. unfold svc_name_key. by rewrite Hkey by apply Hq.
  - intros q Hq. apply Hin in Hq as [Hq Hq']. rewrite Hkey by done. by apply Hobjs.
  - destruct (decide (o = 0)) as [->|]; [apply lookup_delete_eq|by rewrite lookup_delete_ne].
  - by eapply list_ok_delete.
  - by eapply list_ok_delete.
  - unfold m. lia.
  - unfold m. by rewrite Hlen.
  - intros q Hq. apply Hin in Hq as [_ Hq]. by apply Hr.
  - unfold m. by rewrite Hpool.
Qed.

(** Both prunes of [svc_dtor], and the free of the object. *)
Lemma svc_free_ok g names pids act sigw o s : svc_ok g names pids act sigw → svc_pool (g_svc g) = false → o ∈ names →
  o ∉ act → o ∉ sigw → svc_objs (g_svc g) !! o = Some s →
  ∃ g' n1 n2 rest, ((when (negb (svc_pid s =? 0)) (rb (RBTreeNode_Prune (pid_node o));; mret tt);;
      rb (RBTreeNode_Prune (name_node o));; mret tt);; svc_list_remove o) g = Done (tt, g') ∧
    svc_ok g' (n1 ++ n2) rest act sigw ∧ names = n1 ++ o :: n2 ∧ svc_frame g g' ∧ g_ctl g' = g_ctl g ∧ g_log g' = g_log g.
Proof.
  intros Hok Hpool Ho Hact Hsig Hs.
  destruct (svc_pid_out _ _ _ _ _ _ _ Hok Ho Hs) as (h1 & rest & n & E1 & Ht1 & Hrest & _ & _ & _ & Hk1).
  assert (Hk1' : ∀ a, ¬ pid_cell a → h1 !! a = g_rb g !! a).
  { intros a Ha. apply Hk1. intros [->|[->|(q & _ & ->)]%pids_cell]%elem_of_cons; apply Ha; unfold pid_cell;
      rewrite ?pid_node_mod; tauto. }
  pose proof (names_agree _ _ h1 _ (so_names _ _ _ _ _ Hok) Hk1' ltac:(by eapply table_sent)) as Hn1.
  pose proof (svc_names_nodup _ _ _ _ _ Hok) as Hnd.
  apply list_elem_of_split in Ho as (n1 & n2 & En). rewrite En in Hn1.
  destruct (table_prune _ _ _ _ _ _ _ _ Hn1) as (h2 & nn & E2 & Ht2 & _ & _ & _ & Hk2).
  assert (Hk2' : ∀ a, ¬ name_cell a → h2 !! a = h1 !! a).
  { intros a Ha. apply Hk2. rewrite elem_of_list_to_set. intros [->|[->|(q & _ & ->)]%names_cell]%elem_of_cons; apply Ha;
      unfold name_cell; rewrite ?name_node_mod; tauto. }
  destruct (svc_list_remove_ok (set_g_rb h2 g) n1 o n2) as (l & E3 & Hlen & Hused & Hpos);
    [done|by rewrite <-En|apply (so_count _ _ _ _ _ Hok)|apply (so_len _ _ _ _ _ Hok)|rewrite <-En; apply (so_used _ _ _ _ _ Hok)|].
  eexists _, n1, n2, rest. split.
  { rewrite bind_bind. rewrite (bind_done _ _ _ _ _ E1), bind_bind. erewrite bind_done by (apply rb_done; exact E2).
    rewrite (bind_done (mret tt) _ _ _ _ eq_refl). exact E3. }
  split_and!; [|done| |done|done].
  - apply (svc_ok_removed g names pids act sigw o n1 n2 rest h2 l); try done.
    + by eapply pids_agree; [exact Ht1|exact Hk2'|eapply table_sent].
    + intros q Hq Hqp. rewrite Hk2', Hk1; [done| |apply not_name_cell_pid].
      intros [Ha|[Ha|(r & Hr & Ha)]%pids_cell]%elem_of_cons.
      * destruct (svc_node_ne q Sentinel); tauto.
      * destruct (svc_node_ne q svc_by_pid_index); tauto.
      * by apply pid_node_inj in Ha as ->.
  - split; cbn; try done; [by destruct (g_wake g)| |by exists []].
    intros a Ha. rewrite !lookup_delete_ne, Hk2', Hk1'; [done|..].
    + by intros ?%pid_cell_svc.
    + by intros ?%name_cell_svc.
    + intros <-. apply Ha. unfold svc_cell. rewrite pid_node_mod. tauto.
    + intros <-. apply Ha. unfold svc_cell. rewrite name_node_mod. tauto.
Qed.

Lemma svc_delete_ok g names pids act sigw o : good g names pids act sigw → svc_pool (g_svc g) = false → o ∈ names →
  ∃ g' n1 n2 pids' act' sigw', svc_delete o g = Done (tt, g') ∧ good g' (n1 ++ n2) pids' act' sigw' ∧
    names = n1 ++ o :: n2 ∧ svc_frame g g' ∧ g_ctl g' = g_ctl g.
Proof.
  intros [Hok Hc] Hpool Ho. destruct (svc_set_active_ok _ _ _ _ _ o false Hok Ho) as (objs & head & E1 & Hok1 & _).
  set (g1 := with_active objs head g) in *.
  destruct (svc_set_sigwake_ok g1 names pids (list_set false o act) sigw o false) as (g2 & E2 & [Hok2 Hc2] & F2 & C2 & _);
    [split; [done|by eapply ctls_ok_same]|done|].
  assert (F1 : svc_frame g g1) by (transitivity (on_svc (set_svc_objs objs) g); by apply svc_frame_svc).
  assert (Hout : ∀ l, o ∉ list_set false o l) by (intros l Hx; by apply list_set_in in Hx).
  destruct (so_objs _ _ _ _ _ Hok2 o Ho) as (s & Hs & _).
  destruct (svc_free_ok g2 names pids _ _ o s Hok2) as (g3 & n1 & n2 & rest & E3 & Hok3 & En & F3 & C3 & L3);
    [rewrite (sf_pool _ _ F2), (sf_pool _ _ F1); exact Hpool|done|apply Hout|apply Hout|done|].
  exists g3, n1, n2, rest, (list_set false o act), (list_set false o sigw). split.
  { unfold svc_delete, svc_dtor. rewrite bind_bind. rewrite (bind_done _ _ _ _ _ E1), bind_bind.
    rewrite (bind_done _ _ _ _ _ E2), bind_bind. by rewrite (bind_done _ _ _ _ _ (svc_obj_eq _ _ _ Hs)). }
  split; [split; [done|by apply (ctls_ok_same g2)]|]. split; [done|]. split; [|by rewrite C3, C2].
  transitivity g1; [done|]. by transitivity g2.
Qed.
