(* ===== verification/Sound.v ===== *)
(** * The state of the daemon between two operations

    [sound] collects the invariants of the components: the services and their
    indexes, the named descriptors, the output buffers, the log and the signals.  The
    operations of the components keep it, and commands are made of such operations. *)

From S2P Require Import Prelude Strseg State RBTree RBTreeRep OrdIndex RBTreeIndex Table Log Signal SignalSpec CtlOut CtlOutSpec SvcVars Fd FdSpec CtlObj Service Dll ServiceSpec SvcRun SvcActive SvcNew.

(** ** Computations that return *)

Section returns.
Context {S A B : Type}.

Lemma returns_ret (a : A) (s : S) Q : Q a s → returns (mret a) s Q.
Proof. intros HQ. by exists a, s. Qed.

Lemma returns_seq (m : M S A) (f : A → M S B) s P Q : returns m s P → (∀ a s', P a s' → returns (f a) s' Q) →
  returns (m ≫= f) s Q.
Proof.
  intros (a & s1 & E & HP) Hf. destruct (Hf a s1 HP) as (b & s2 & E2 & HQ). exists b, s2.
  split; [|done]. by rewrite (bind_done _ _ _ _ _ E).
Qed.

Lemma returns_mono (m : M S A) s (P Q : A → S → Prop) : returns m s P → (∀ a s', P a s' → Q a s') → returns m s Q.
Proof. intros (a & s1 & E & HP) HQ. exists a, s1. auto. Qed.

Lemma returns_done (m : M S A) (f : A → M S B) s a s' Q : m s = Done (a, s') → returns (f a) s' Q → returns (m ≫= f) s Q.
Proof. intros E (b & s2 & E2 & HQ). exists b, s2. split; [|done]. by rewrite (bind_done _ _ _ _ _ E). Qed.
End returns.

(** ** The services and descriptors in use *)

Definition is_svc (g : G) (o : Z) : Prop := o ∈ take (Z.to_nat (svc_list_count (g_svc g))) (svc_list (g_svc g)).

Lemma is_svc_names g names pids act sigw o : svc_ok g names pids act sigw → is_svc g o ↔ o ∈ names.
Proof. intros Hok. unfold is_svc. by rewrite (so_used _ _ _ _ _ Hok). Qed.

(** A pipe has a peer or has lost it, everything else has a path. *)
Definition attr_ok (f : fd_t) : Prop :=
  if fl_pipe (fd_flags f) then ∃ p, fd_attr f = attr_peer p else ∃ s, fd_attr f = attr_path s.

Lemma looks_like_attr f f' : looks_like f f' → attr_ok f → attr_ok f'.
Proof.
  unfold attr_ok. intros (_ & -> & _ & [->|[-> ->]]); [done|]. by exists 0.
Qed.

Record sound (g : G) : Prop := {
  sd_svc : ∃ names pids act sigw, good g names pids act sigw;
  sd_pool : svc_pool (g_svc g) = false;
  sd_fd : ∃ fds, fd_ok g fds ∧ fd_unique g fds;
  sd_files : ∀ o f, is_fd g o → fd_objs (g_fd g) !! o = Some f → attr_ok f;
  sd_sig : sigs_ok (signals (g_sig g));
  sd_sock : control_socket (g_main g) < FD_SETSIZE;
  sd_seen : ∀ i c, g_ctl g !! i = Some c → 0 ≤ last_signal_ts c < 2 ^ 62;
}.

(** What an operation leaves alone that takes nothing out of use. *)
Record kept (g g' : G) : Prop := {
  kp_len : length (g_ctl g') = length (g_ctl g);
  kp_cmd : ∀ i c, g_ctl g !! i = Some c → ∃ c', g_ctl g' !! i = Some c' ∧ command c' = command c;
  kp_svc : ∀ o, is_svc g o → is_svc g' o;
}.

#[export] Instance kept_preorder : PreOrder kept.
Proof.
  split.
  - intros g. split; [done| |done]. intros i c Hi. by exists c.
  - intros g1 g2 g3 [L1 C1 S1] [L2 C2 S2]. split; [congruence| |auto].
    intros i c Hi. destruct (C1 i c Hi) as (c1 & Hi1 & E1). destruct (C2 i c1 Hi1) as (c2 & Hi2 & E2).
    exists c2. split; [done|congruence].
Qed.

Lemma sound_ctls g : sound g → ctls_ok g.
Proof. intros [(names & pids & act & sigw & _ & Hc) _ _ _ _ _ _]. done. Qed.

(** ** Steps of the components *)

Lemma sound_io `{OS} g g' : sound g → io_frame g g' → ctls_ok g' → sound g' ∧ kept g g'.
Proof.
  intros [(names & pids & act & sigw & Hg) Hp (fds & Hf & Hu) Hfiles Hs Hm Hz] F Hc. split.
  - split.
    + exists names, pids, act, sigw. by eapply good_io.
    + by rewrite (io_svc _ _ F).
    + exists fds. split; [apply (fd_ok_same g); [done|apply F..]|]. unfold fd_unique. by rewrite (io_fd _ _ F).
    + unfold is_fd. rewrite (io_fd _ _ F). exact Hfiles.
    + by rewrite (io_sig _ _ F).
    + by rewrite (io_main _ _ F).
    + intros i c' Hc'. destruct (lookup_lt_is_Some_2 (g_ctl g) i) as [c Hi]; [rewrite <-(io_len _ _ F); by eapply lookup_lt_Some|].
      destruct (io_ctl _ _ F i c Hi) as (c2 & Hi2 & E). rewrite Hc' in Hi2. injection Hi2 as <-. rewrite (proj1 E). exact (Hz i c Hi).
  - split; [apply F| |].
    + intros i c Hi. destruct (io_ctl _ _ F i c Hi) as (c' & Hi' & E). exists c'. split; [done|]. by rewrite (proj1 E).
    + intros o. unfold is_svc. by rewrite (io_svc _ _ F).
Qed.

(** The tables of the services and of the descriptors share only the sentinel. *)
Lemma fd_cell_svc a : fd_cell a → svc_cell a → a = Sentinel.
Proof. unfold fd_cell, svc_cell. intros [|[->|Ha]] [|[|[|[]]]]; subst; try done; lia. Qed.

Lemma svc_tables_agree g g' names pids act sigw : svc_ok g names pids act sigw → g_svc g' = g_svc g → g_next g ≤ g_next g' →
  (∀ a, ¬ fd_cell a → g_rb g' !! a = g_rb g !! a) → sent_at (g_rb g') → svc_ok g' names pids act sigw.
Proof.
  intros Hok E Hn Hrb Hsent.
  assert (Hcell : ∀ a, svc_cell a → a ≠ Sentinel → g_rb g' !! a = g_rb g !! a).
  { intros a Ha Hne. apply Hrb. intros Hf. by destruct (fd_cell_svc a Hf Ha). }
  destruct Hok as [Ht1 Ht2 ? Hidle ? ? ? ? ? ? ? ? Hr Hpool ?]. split; rewrite ?E; try done.
  - eapply table_agree; [exact Ht1| |done]. intros a Ha. apply Hcell; [by eapply names_svc_cell|].
    intros ->. apply names_cell in Ha as [?|(o & _ & E2)]; [done|]. destruct (svc_node_ne o Sentinel) as [? _]; [tauto|done].
  - eapply table_agree; [exact Ht2| |done]. intros a Ha. apply Hcell; [by eapply pids_svc_cell|].
    intros ->. apply pids_cell in Ha as [?|(o & _ & E2)]; [done|]. destruct (svc_node_ne o Sentinel) as [_ ?]; [tauto|done].
  - intros o Ho Hp. rewrite Hcell; [by apply Hidle| |].
    + unfold svc_cell. rewrite pid_node_mod. tauto.
    + apply (svc_node_ne o). tauto.
  - intros o Ho. specialize (Hr o Ho). lia.
  - intros Hp. destruct (Hpool Hp) as (? & ? & Hr2). split_and!; [done|done|]. intros o Ho. specialize (Hr2 o Ho). lia.
  - lia.
Qed.

Lemma fd_table_agree g g' fds : fd_ok g fds → g_fd g' = g_fd g → g_next g ≤ g_next g' →
  (∀ a, ¬ svc_cell a → g_rb g' !! a = g_rb g !! a) → sent_at (g_rb g') → fd_ok g' fds.
Proof.
  intros Hok E Hn Hrb Hsent. destruct Hok as [Ht ? ? ? ? Hr Hpool ?]. split; rewrite ?E; try done.
  - eapply table_agree; [exact Ht| |done]. intros a Ha. apply Hrb. intros Hs.
    pose proof (fd_cell_svc a (fd_cells_sep _ _ Ha) Hs) as ->.
    unfold table_cells in Ha. apply elem_of_cons in Ha as [?|(o & E2 & _)%list_elem_of_fmap]; [done|].
    by destruct (fd_node_ne o) as (? & _).
  - intros o Ho. specialize (Hr o Ho). lia.
  - intros Hp. destruct (Hpool Hp) as (? & Hr2). split; [done|]. intros o Ho. specialize (Hr2 o Ho). lia.
  - lia.
Qed.

Lemma sound_fd g g' fds' new : sound g → fd_frame g g' → fd_ok g' fds' → fd_unique g' fds' → others_kept g g' fds' new →
  (∀ o f, o ∈ new → fd_objs (g_fd g') !! o = Some f → attr_ok f) → sound g' ∧ kept g g'.
Proof.
  intros [(names & pids & act & sigw & Hok & Hlog & Hctl) Hp (fds & Hf & Hu) Hfiles Hs Hm Hz] F Hf' Hu' Hk Hnew. split.
  - split.
    + exists names, pids, act, sigw. split.
      * eapply svc_tables_agree; [exact Hok|apply F..|]. eapply table_sent, (fo_table _ _ Hf').
      * split; [|by rewrite (ff_ctl _ _ F)]. destruct (ff_log _ _ F) as [->| ->]; exact Hlog.
    + by rewrite (ff_svc _ _ F).
    + by exists fds'.
    + intros o f Ho E. apply (is_fd_names _ _ _ Hf') in Ho. destruct (Hk o Ho) as [Hn|(Hold & f1 & f2 & E1 & E2 & L)]; [by eapply Hnew|].
      rewrite E in E2. injection E2 as <-. eapply looks_like_attr; [exact L|]. by eapply Hfiles.
    + by rewrite (ff_sig _ _ F).
    + by rewrite (ff_main _ _ F).
    + by rewrite (ff_ctl _ _ F).
  - split.
    + by rewrite (ff_ctl _ _ F).
    + intros i c Hi. exists c. by rewrite (ff_ctl _ _ F).
    + intros o. unfold is_svc. by rewrite (ff_svc _ _ F).
Qed.

(** What [svc_frame] says of the controllers. *)
Lemma sf_len g g' : svc_frame g g' → length (g_ctl g') = length (g_ctl g).
Proof. intros F. symmetry. eapply Forall2_length, sf_ctl, F. Qed.

Lemma sf_ctl_at g g' i c' : svc_frame g g' → g_ctl g' !! i = Some c' → ∃ c, g_ctl g !! i = Some c ∧ same_rest c c'.
Proof. intros F Hi. by eapply Forall2_lookup_r in Hi; [|apply F]. Qed.

Lemma sound_svc g g' names pids act sigw : sound g → svc_frame g g' → good g' names pids act sigw → sound g'.
Proof.
  intros [(? & ? & ? & ? & Hold) Hp (fds & Hf & Hu) Hfiles Hs Hm Hz] F Hg. split.
  - by exists names, pids, act, sigw.
  - by rewrite (sf_pool _ _ F).
  - exists fds. split.
    + eapply fd_table_agree; [exact Hf|apply F..|]. eapply table_sent, (so_names _ _ _ _ _ (proj1 Hg)).
    + unfold fd_unique. by rewrite (sf_fd _ _ F).
  - unfold is_fd. rewrite (sf_fd _ _ F). exact Hfiles.
  - by rewrite (sf_sig _ _ F).
  - by rewrite (sf_main _ _ F).
  - intros i c' Hi. destruct (sf_ctl_at _ _ _ _ F Hi) as (c & Hc & E). rewrite (proj1 E). exact (Hz i c Hc).
Qed.

(** The services are as before, but for what their objects say. *)
Lemma kept_svc g g' : g_ctl g' = g_ctl g → (∀ o, is_svc g o → is_svc g' o) → kept g g'.
Proof. intros E Hs. split; [by rewrite E| |done]. intros i c Hi. exists c. by rewrite E. Qed.

Lemma sound_is_svc g o : sound g → is_svc g o → ∃ names pids act sigw s, good g names pids act sigw ∧ o ∈ names ∧
  svc_objs (g_svc g) !! o = Some s ∧ svc_wf false s.
Proof.
  intros [(names & pids & act & sigw & Hg) Hp _ _ _ _ _] Ho. destruct Hg as [Hok Hc].
  apply (is_svc_names _ _ _ _ _ _ Hok) in Ho. destruct (so_objs _ _ _ _ _ Hok o Ho) as (s & Es & Hwf). rewrite Hp in Hwf.
  by exists names, pids, act, sigw, s.
Qed.

Lemma kept_svc_frame g g' : svc_frame g g' → (∀ o, is_svc g o → is_svc g' o) → kept g g'.
Proof.
  intros F Hs. split; [by apply sf_len| |done]. intros i c Hi. eapply Forall2_lookup_l in Hi as (c' & Hi' & E); [|apply F].
  exists c'. split; [done|]. by rewrite (proj1 E).
Qed.

(** ** Output *)

Section output.
Context `{OS} `{!WriteOk}.

(** The operation returns, keeps the daemon sound, and takes nothing out of use. *)
Definition keeps {A} (m : DP A) (Q : A → Prop) : Prop := ∀ g, sound g →
  returns m g (λ a g', sound g' ∧ kept g g' ∧ Q a).

Lemma keeps_log level msg : keeps (log_write level msg;; mret tt) (λ _, True).
Proof.
  intros g Hg. destruct (log_output level msg g (sound_ctls _ Hg)) as (g' & E & F & C).
  exists tt, g'. destruct (sound_io g g' Hg F C). by split_and!.
Qed.

Lemma keeps_sys c : keeps (sys c) (λ _, True).
Proof.
  intros g Hg. destruct Hg as [(names & pids & act & sigw & Hgood) Hp Hf Hfiles Hs Hm Hz].
  destruct (sys_good c g names pids act sigw Hgood) as (g' & E & Hg' & F).
  eexists _, g'. split; [exact E|]. destruct (sound_io g g') as [? ?]; [split; eauto|done|apply Hg'|done].
Qed.

Lemma sound_write g dest msg : sound g → whole_lines msg → (∀ i, dest = Some i → (i < length (g_ctl g))%nat) →
  returns (ctl_write dest msg) g (λ _ g', sound g' ∧ kept g g' ∧ io_frame g g').
Proof.
  intros Hg Hm Hd. destruct (ctl_write_io dest msg g (sound_ctls _ Hg) Hm Hd) as (g' & E & F & C).
  exists true, g'. destruct (sound_io g g' Hg F C). by split_and!.
Qed.
End output.
