(* ===== verification/SoundSvc.v ===== *)
(** * The operations on services keep the daemon sound *)

From S2P Require Import Prelude Strseg State RBTree RBTreeRep OrdIndex RBTreeIndex Table Log Signal SignalSpec CtlOut CtlOutSpec SvcVars Fd FdSpec CtlObj Service Dll ServiceSpec SvcRun SvcActive SvcNew SvcLists Sound.

(** A string up to the next NUL. *)
Lemma cstr_ok buf off k : 0 ≤ off → off ≤ k → buf !! Z.to_nat k = Some NUL → ∃ l, cstr buf off = Done l.
Proof.
  intros H0 Hk Hn. unfold cstr. assert (Hd : NUL ∈ drop (Z.to_nat off) buf).
  { apply list_elem_of_lookup. exists (Z.to_nat k - Z.to_nat off)%nat. rewrite lookup_drop. by replace (_ + _)%nat with (Z.to_nat k) by lia. }
  destruct (Nat.ltb_spec (sep_index NUL (drop (Z.to_nat off) buf)) (length (drop (Z.to_nat off) buf))) as [_|Hge]; [by eexists|].
  exfalso. revert Hd Hge. generalize (drop (Z.to_nat off) buf). clear. induction l as [|x l IH]; [by intros ?%elem_of_nil|].
  cbn. intros Hx. destruct (Z.eqb_spec x NUL) as [->|Hne]; cbn; [lia|].
  apply elem_of_cons in Hx as [E|Hx]; [by destruct Hne|]. intros Hge. apply IH; [done|lia].
Qed.

(** ** Segments that may be used up *)

Definition tok_seg (s : strseg_t) : Prop := seg_wf s ∨ seg_len s = -1.

(** One token: the length of the rest is a measure. *)
Lemma tok_ok s sep : tok_seg s → ∃ more s' tok, strseg_tok_next s sep = Done (more, s', tok) ∧
  (more = false → s' = s ∧ seg_len s = -1) ∧
  (more = true → seg_wf s ∧ seg_wf tok ∧ tok_seg s' ∧ seg_len s' < seg_len s ∧ seg_buf tok = seg_buf s ∧
     seg_view tok = take (sep_index sep (seg_view s)) (seg_view s)).
Proof.
  intros [Hw|Hl]; [|exists false, s, s; by rewrite strseg_tok_next_done by lia].
  destruct (strseg_tok_next_spec s sep Hw) as (s' & tok & E & Hwt & Hv & Hlen & Hrest).
  exists true, s', tok. split_and!; [done|done|]. intros _.
  assert (Eb : seg_buf tok = seg_buf s).
  { unfold strseg_tok_next in E. destruct (seg_len s <? 0); [done|].
    destruct (strseg_scan _ s sep 0); cbn in E; try discriminate E. by injection E as <- <-. }
  split_and!; try done; [|lia]. pose proof (seg_view_length s Hw).
  destruct (Nat.lt_ge_cases (sep_index sep (seg_view s)) (length (seg_view s))) as [Hlt|Hge]; [left; by apply Hrest|right].
  pose proof (sep_index_le sep (seg_view s)). lia.
Qed.

(** The characters of a token are characters of the string. *)
Lemma view_take_sub (c : Z) n l : c ∉ l → c ∉ take n l.
Proof. intros Hc Hin. by apply Hc, (elem_of_subseteq (take n l)); [apply subseteq_take|]. Qed.

Lemma cmp_str_ok s l : seg_wf s → ∃ c, strseg_cmp s (STRSEG l) = Done c.
Proof. intros Hw. eexists. apply strseg_cmp_spec; [done|apply STRSEG_wf]. Qed.

Lemma seg_str_ok s : seg_wf s → seg_str s = Done (seg_view s).
Proof. apply seg_bytes_view. Qed.

Lemma seg_at_ok s i : seg_wf s → 0 ≤ i < seg_len s → ∃ c, seg_at s i = Done c.
Proof. intros Hw Hi. destruct (seg_at_view s i Hw Hi) as (c & _ & E). by exists c. Qed.

Lemma sig_num_ok `{OS} s : seg_wf s → ∃ n, sig_num_by_name s = Done n.
Proof.
  intros Hw. unfold sig_num_by_name.
  assert (Hsig : ∃ b : bool, (if seg_len s >? 3 then
      a ← seg_at s 0; b ← seg_at s 1; c ← seg_at s 2; Done ((a =? ch "S") && (b =? ch "I") && (c =? ch "G"))
    else Done false) = Done b ∧ (b = true → 3 < seg_len s)).
  { destruct (Z.gtb_spec (seg_len s) 3); [|by eexists].
    destruct (seg_at_ok s 0) as [a ->]; [done|lia|]. destruct (seg_at_ok s 1) as [b ->]; [done|lia|].
    destruct (seg_at_ok s 2) as [c ->]; [done|lia|]. by eexists. }
  destruct Hsig as (b & -> & Hb). cbn [mbind outcome_bind].
  assert (Hw' : seg_wf (if b then seg_advance s 3 else s)) by (destruct b; [apply seg_advance_wf; [done|lia]|done]).
  destruct (_ >? 8); [by eexists|]. rewrite seg_bytes_view by done. by eexists.
Qed.

Section svc.
Context `{OS} `{!WriteOk}.

Lemma sound_by_name g name create : sound g → seg_wf name → (create = true → 0 < seg_len name) →
  returns (svc_by_name name create) g (λ o g', sound g' ∧ kept g g' ∧ (o ≠ 0 → is_svc g' o)).
Proof.
  intros Hg Hw Hlen. destruct (sd_svc _ Hg) as (names & pids & act & sigw & Hok & Hc).
  destruct (svc_by_name_ok g names pids act sigw name create Hok Hw Hlen) as (o & g' & E & F & L & C & Hcase).
  assert (Hc' : ctls_ok g') by by eapply ctls_ok_same. exists o, g'. split; [done|].
  destruct Hcase as [(Ho & _ & _ & ->)|[_ [(-> & Hok' & _)|(_ & _ & Ho & Hne & l1 & l2 & -> & Hok' & _)]]].
  - split_and!; [done|done|]. intros _. by eapply is_svc_names.
  - split_and!; [by eapply sound_svc; [| |split]| |done].
    apply kept_svc; [done|]. intros p Hp. by apply (is_svc_names _ _ _ _ _ _ Hok'), (is_svc_names _ _ _ _ _ _ Hok).
  - split_and!; [by eapply sound_svc; [| |split]| |].
    + apply kept_svc; [done|]. intros p Hp. apply (is_svc_names _ _ _ _ _ _ Hok'). apply (is_svc_names _ _ _ _ _ _ Hok) in Hp.
      rewrite elem_of_app, elem_of_cons in *. tauto.
    + intros _. apply (is_svc_names _ _ _ _ _ _ Hok'). rewrite elem_of_app, elem_of_cons. tauto.
Qed.

Lemma sound_set_var g o name value : sound g → is_svc g o → seg_wf name → name_ok (seg_view name) →
  (∀ v, value = Some v → seg_wf v ∧ NUL ∉ seg_view v) →
  returns (svc_set_var o name value) g (λ _ g', sound g' ∧ kept g g').
Proof.
  intros Hg Ho Hw Hn Hv. destruct (sound_is_svc g o Hg Ho) as (names & pids & act & sigw & s & [Hok Hc] & Hin & Es & _ & (l & Hl) & _).
  destruct (svc_set_var_ok g names pids act sigw o s l name value Hok Hin Es Hl Hw Hn Hv) as (b & g' & E & Hok' & F & L & C & _ & _ & _).
  { unfold vars_fit. by rewrite (sd_pool _ Hg). }
  exists b, g'. split_and!; [done|by eapply sound_svc; [| |split; [|by eapply ctls_ok_same]]|].
  apply kept_svc; [done|]. intros p Hp. by apply (is_svc_names _ _ _ _ _ _ Hok'), (is_svc_names _ _ _ _ _ _ Hok).
Qed.

Lemma sound_get_cstr g o name dflt : sound g → is_svc g o → returns (svc_get_cstr o name dflt) g (λ _ g', g' = g).
Proof.
  intros Hg Ho. destruct (sound_is_svc g o Hg Ho) as (names & pids & act & sigw & s & [Hok Hc] & Hin & Es & _ & (l & Hl) & _).
  destruct (svc_get_var_ok g o s l (STRSEG name) Es Hl (STRSEG_wf _)) as (val & E & _ & Hval).
  unfold svc_get_cstr. eapply returns_done; [exact E|]. destruct val as [v|]; [|by apply returns_ret].
  destruct (Hval v eq_refl) as ((W1 & W2 & W3) & -> & Hnul).
  destruct (cstr_ok _ (seg_off v) (seg_off v + seg_len v) ltac:(lia) ltac:(lia) Hnul) as (r & Er). exists r, g. unfold lift. by rewrite Er.
Qed.

(** The service after an assignment to members other than the links. *)
Lemma sound_upd_svc g o u : sound g → is_svc g o → keeps_links u → (∀ s, svc_vars (u s) = svc_vars s) →
  (∀ s, svc_state (u s) = svc_state s) → returns (upd_svc o u) g (λ _ g', sound g' ∧ kept g g' ∧ g_wake g' = g_wake g).
Proof.
  intros Hg Ho Hu Hv Hst. destruct (sound_is_svc g o Hg Ho) as (names & pids & act & sigw & s & Hgood & Hin & Es & _).
  destruct (good_upd g names pids act sigw o s u Hgood Hin Es Hu (Hv s)) as (E & Hgood' & F); [unfold state_known; by rewrite Hst|].
  exists tt. eexists. split; [exact E|]. split_and!; [by eapply sound_svc| |done]. by apply kept_svc.
Qed.

(** An operation that leaves the set of services as it is. *)
Lemma sound_same_names g g' names pids act sigw pids' act' sigw' : sound g → good g names pids act sigw →
  good g' names pids' act' sigw' → svc_frame g g' → sound g' ∧ kept g g'.
Proof.
  intros Hg [Hok _] Hgood' F. split; [by eapply sound_svc|]. apply kept_svc_frame; [done|].
  intros o Ho. by apply (is_svc_names _ _ _ _ _ _ (proj1 Hgood')), (is_svc_names _ _ _ _ _ _ Hok).
Qed.

Lemma sound_start g o time : sound g → is_svc g o → returns (svc_handle_start o time) g (λ _ g', sound g' ∧ kept g g').
Proof.
  intros Hg Ho. destruct (sound_is_svc g o Hg Ho) as (names & pids & act & sigw & s & Hgood & Hin & Es & _).
  destruct (decide (startable s)) as [Hs|Hs].
  - destruct (svc_handle_start_ok g names pids act sigw o s time Hgood Hin Es Hs) as (g' & pids' & E & Hgood' & F & _).
    exists true, g'. split; [done|]. by eapply sound_same_names.
  - unfold startable in Hs. destruct (svc_handle_start_refused g names pids act sigw o s time Hgood Es) as (g' & E & Hgood' & F); [tauto..|].
    exists false, g'. split; [done|]. eapply sound_same_names; [done..|by apply io_svc_frame].
Qed.

Lemma sound_cancel g o : sound g → is_svc g o → returns (svc_cancel_start o) g (λ _ g', sound g' ∧ kept g g').
Proof.
  intros Hg Ho. destruct (sound_is_svc g o Hg Ho) as (names & pids & act & sigw & s & Hgood & Hin & Es & _).
  destruct (decide (svc_state s = SVC_STATE_START)) as [Hs|Hs].
  - destruct (svc_cancel_start_ok g names pids act sigw o s Hgood Hin Es Hs) as (g' & s' & E & Hgood' & T & _).
    exists true, g'. split; [done|]. eapply sound_same_names; [done..|apply T].
  - destruct (svc_cancel_start_refused g names pids act sigw o s Hgood Es Hs) as (g' & E & Hgood' & F).
    exists false, g'. split; [done|]. eapply sound_same_names; [done..|by apply io_svc_frame].
Qed.

Lemma sound_svc_delete g o : sound g → is_svc g o → returns (svc_delete o) g (λ _ g', sound g' ∧ length (g_ctl g') = length (g_ctl g)).
Proof.
  intros Hg Ho. destruct (sound_is_svc g o Hg Ho) as (names & pids & act & sigw & s & Hgood & Hin & _).
  destruct (svc_delete_ok g names pids act sigw o Hgood (sd_pool _ Hg) Hin) as (g' & n1 & n2 & pids' & act' & sigw' & E & Hgood' & _ & F & _).
  exists tt, g'. split; [done|]. split; [by eapply sound_svc|by apply sf_len].
Qed.

Lemma svc_field g o {A} (f : service_t → A) : sound g → is_svc g o →
  returns (s ← svc_obj o; mret (f s)) g (λ _ g', g' = g).
Proof.
  intros Hg Ho. destruct (sound_is_svc g o Hg Ho) as (names & pids & act & sigw & s & _ & _ & Es & _).
  eexists _, g. split; [|done]. by rewrite (bind_done _ _ _ _ _ (svc_obj_eq _ _ _ Es)).
Qed.

Lemma sound_interval g o v : sound g → is_svc g o → returns (svc_set_restart_interval o v) g (λ _ g', sound g' ∧ kept g g').
Proof.
  intros Hg Ho. unfold svc_set_restart_interval. case_match; [by apply returns_ret|].
  eapply returns_seq; [by apply (sound_upd_svc g o (set_restart_interval v))|]. intros _ g' (? & ? & _). by apply returns_ret.
Qed.

Lemma sound_send_signal g o sig group : sound g → is_svc g o → returns (svc_send_signal o sig group) g (λ _ g', sound g' ∧ kept g g').
Proof.
  intros Hg Ho. destruct (sound_is_svc g o Hg Ho) as (names & pids & act & sigw & s & _ & _ & Es & _).
  unfold svc_send_signal. case_match; [by apply returns_ret|]. eapply returns_done; [by apply svc_obj_eq|].
  case_match; [by apply returns_ret|]. eapply returns_seq; [by apply keeps_log|]. intros _ g1 (Hg1 & K1 & _).
  eapply returns_seq; [by apply keeps_sys|]. intros r g2 (Hg2 & K2 & _). apply returns_ret. split; [done|]. by transitivity g1.
Qed.

(** ** Lists of names *)

Lemma triggers_loop_ok fuel s sigs a e : tok_seg s → seg_len s + 1 < Z.of_nat fuel →
  ∃ r, svc_triggers_loop fuel s sigs a e = Done r.
Proof.
  revert s sigs a e; induction fuel as [|fuel IH]; intros s sigs a e Hs Hf; [destruct Hs as [Hs|]; unfold seg_wf in *; lia|].
  cbn [svc_triggers_loop]. destruct (tok_ok s TAB Hs) as (more & s' & tok & -> & _ & Hm). cbn [mbind outcome_bind].
  destruct more; [|by eexists]. destruct (Hm eq_refl) as (_ & Hwt & Hs' & Hl & _). cbn [andb].
  destruct (seg_len tok >? 0); [|by eexists].
  destruct (cmp_str_ok tok (str "always") Hwt) as [c ->]. cbn [mbind outcome_bind].
  destruct (c =? 0); [apply IH; [done|lia]|]. destruct (sig_num_ok tok Hwt) as [n ->]. cbn [mbind outcome_bind].
  destruct (n >? 0); [|by eexists]. destruct (n >? 64); [by eexists|]. apply IH; [done|lia].
Qed.

Lemma nonempty_ok s v : tok_seg s → NUL ∉ seg_view s → nonempty s = Some v → seg_wf v ∧ NUL ∉ seg_view v.
Proof. unfold nonempty. intros Hs Hn. destruct (Z.leb_spec (seg_len s) 0); [done|]. intros [= <-]. destruct Hs as [|]; [done|lia]. Qed.

Lemma sound_set_named g o name v : sound g → is_svc g o → forallb (λ c, negb (c =? EQ) && negb (c =? NUL)) name = true →
  (∀ x, v = Some x → seg_wf x ∧ NUL ∉ seg_view x) →
  returns (svc_set_var o (STRSEG name) v) g (λ _ g', sound g' ∧ kept g g').
Proof.
  intros Hg Ho Hn Hv. apply sound_set_var; [done|done|apply STRSEG_wf| |done]. rewrite STRSEG_view. unfold name_ok.
  rewrite forallb_forall in Hn. split; intros Hin%list_elem_of_In%Hn; done.
Qed.

Lemma sound_set_sigwake g o b : sound g → is_svc g o → returns (svc_set_sigwake o b) g (λ _ g', sound g' ∧ kept g g').
Proof.
  intros Hg Ho. destruct (sound_is_svc g o Hg Ho) as (names & pids & act & sigw & s & Hgood & Hin & _).
  destruct (svc_set_sigwake_ok g names pids act sigw o b Hgood Hin) as (g' & E & Hgood' & F & C & R & L & N).
  exists tt, g'. split_and!; [done|by eapply sound_svc|]. apply kept_svc; [done|]. unfold is_svc. by rewrite L, N.
Qed.

Lemma check_sigwake_ok g o : sound g → is_svc g o → returns (svc_check_sigwake o) g (λ _ g', g' = g).
Proof.
  intros Hg Ho. destruct (sound_is_svc g o Hg Ho) as (names & pids & act & sigw & s & _ & _ & Es & _).
  destruct (svc_check_sigwake_ok g o s (sd_sig _ Hg) Es) as (b & E & _). by exists b, g.
Qed.

Lemma sound_set_triggers g o s : sound g → is_svc g o → seg_wf s → NUL ∉ seg_view s →
  returns (svc_set_triggers o s) g (λ _ g', sound g' ∧ kept g g').
Proof.
  intros Hg Ho Hw Hn. unfold svc_set_triggers.
  destruct (triggers_loop_ok (Z.to_nat (seg_len s) + 3) s ∅ false false) as [r Er]; [by left|unfold seg_wf in *; lia|].
  eapply returns_done; [unfold lift; rewrite Er; reflexivity|]. destruct r as [[[sigs autostart] enable]|]; [|by apply returns_ret].
  eapply returns_seq.
  { apply sound_set_named; [done|done|done|]. intros x Hx. eapply nonempty_ok; [by left|done|exact Hx]. }
  intros ok g1 (Hg1 & K1). destruct ok; cbn [negb]; [|by apply returns_ret].
  eapply returns_seq; [apply (sound_upd_svc g1 o (set_auto_restart autostart)); [done|by apply K1|done..]|].
  intros _ g2 (Hg2 & K2 & _).
  assert (Ho2 : is_svc g2 o) by (apply K2, K1; done).
  eapply returns_seq; [by apply (sound_upd_svc g2 o (set_autostart_signals sigs))|]. intros _ g3 (Hg3 & K3 & _).
  eapply returns_seq; [apply sound_set_sigwake; [done|by apply K3]|]. intros _ g4 (Hg4 & K4).
  assert (Ho4 : is_svc g4 o) by by apply K4, K3.
  assert (K : kept g g4) by (transitivity g1; [done|]; transitivity g2; [done|]; by transitivity g3).
  destruct (sound_is_svc g4 o Hg4 Ho4) as (_ & _ & _ & _ & s4 & _ & _ & Es4 & _).
  eapply returns_done; [by apply svc_obj_eq|].
  eapply (returns_seq _ _ _ (λ _ g', g' = g4)).
  { destruct (auto_restart s4); [by apply returns_ret|by apply check_sigwake_ok]. }
  intros wake g5 ->. eapply (returns_seq _ _ _ (λ _ g', sound g' ∧ kept g4 g')).
  { destruct wake; [|by apply returns_ret]. eapply returns_done; [reflexivity|].
    eapply returns_seq; [by apply sound_start|]. intros ? g6 ?. by apply returns_ret. }
  intros _ g6 (Hg6 & K6). apply returns_ret. split; [done|by transitivity g4].
Qed.

(** One comparison of the loop of [svc_set_fds], and the flag it sets. *)
Lemma fds_flag_ok g o tok l u : sound g → is_svc g o → seg_wf tok → keeps_links u → (∀ s, svc_vars (u s) = svc_vars s) →
  (∀ s, svc_state (u s) = svc_state s) →
  returns (e ← lift (strseg_cmp tok (STRSEG l)); when (e =? 0) (upd_svc o u)) g (λ _ g', sound g' ∧ kept g g').
Proof.
  intros Hg Ho Hw Hu Hv Hst. destruct (cmp_str_ok tok l Hw) as [c Ec].
  eapply returns_done; [unfold lift; rewrite Ec; reflexivity|]. destruct (c =? 0); cbn [when]; [|by apply returns_ret].
  eapply returns_mono; [by apply sound_upd_svc|]. intros _ g' (? & ? & _). done.
Qed.

Lemma sound_fds_loop fuel : ∀ g o s, sound g → is_svc g o → tok_seg s → seg_len s + 1 < Z.of_nat fuel →
  returns (svc_fds_loop fuel o s) g (λ _ g', sound g' ∧ kept g g').
Proof.
  induction fuel as [|fuel IH]; intros g o s Hg Ho Hs Hf; [destruct Hs as [Hs|]; unfold seg_wf in *; lia|].
  cbn [svc_fds_loop]. destruct (tok_ok s TAB Hs) as (more & s' & tok & E & _ & Hm).
  eapply returns_done; [unfold lift; rewrite E; reflexivity|]. destruct more; [|by apply returns_ret].
  destruct (Hm eq_refl) as (_ & Hwt & Hs' & Hl & _).
  assert (Hflag : ∀ {B} l u (m : DP B) g Q, sound g → is_svc g o → keeps_links u → (∀ s, svc_vars (u s) = svc_vars s) →
    (∀ s, svc_state (u s) = svc_state s) →
    (∀ g', sound g' → kept g g' → returns m g' Q) →
    returns (e ← lift (strseg_cmp tok (STRSEG l)); when (e =? 0) (upd_svc o u);; m) g Q).
  { intros B l u m g0 Q Hg0 Ho0 Hu Hv Hst Hm0. destruct (fds_flag_ok g0 o tok l u Hg0 Ho0 Hwt Hu Hv Hst) as ([] & g1 & E1 & Hg1 & K1).
    destruct (Hm0 g1 Hg1 K1) as (b & g2 & E2 & HQ). exists b, g2. split; [|done].
    rewrite <-bind_bind, (bind_done _ _ _ _ _ E1). exact E2. }
  apply Hflag; [done..|]. intros g1 Hg1 K1. assert (Ho1 : is_svc g1 o) by by apply K1.
  apply Hflag; [done..|]. intros g2 Hg2 K2. assert (Ho2 : is_svc g2 o) by by apply K2.
  apply Hflag; [done..|]. intros g3 Hg3 K3. assert (Ho3 : is_svc g3 o) by by apply K3.
  eapply returns_mono; [apply IH; [done|done|done|lia]|]. intros _ g4 (Hg4 & K4). split; [done|].
  transitivity g1; [done|]. transitivity g2; [done|]. by transitivity g3.
Qed.

Lemma sound_set_fds g o s : sound g → is_svc g o → tok_seg s → (seg_len s < 0 → seg_wf (Seg (seg_buf s) (seg_off s) 0)) →
  NUL ∉ seg_view s → returns (svc_set_fds o s) g (λ _ g', sound g' ∧ kept g g').
Proof.
  intros Hg Ho Hs Hneg Hn. unfold svc_set_fds. set (s0 := if seg_len s <? 0 then _ else _).
  assert (Hw : seg_wf s0 ∧ NUL ∉ seg_view s0).
  { unfold s0. destruct (Z.ltb_spec (seg_len s) 0) as [Hl|Hl]; [split; [auto|apply not_elem_of_nil]|].
    destruct Hs as [Hs|]; [done|lia]. }
  destruct Hw as [Hw Hn0]. destruct (cmp_str_ok s0 null_fds Hw) as [c Ec].
  eapply returns_done; [unfold lift; rewrite Ec; reflexivity|].
  eapply (returns_seq _ _ _ (λ _ g', sound g' ∧ kept g g')).
  { destruct (c =? 0).
    - eapply returns_seq; [by apply sound_set_named|]. intros ? g1 ?. by apply returns_ret.
    - apply sound_set_named; [done|done|done|]. by intros x [= <-]. }
  intros ok g1 (Hg1 & K1). destruct ok; cbn [negb]; [|by apply returns_ret]. assert (Ho1 : is_svc g1 o) by by apply K1.
  eapply returns_seq; [by apply (sound_upd_svc g1 o (set_uses_control_event false))|]. intros _ g2 (Hg2 & K2 & _).
  assert (Ho2 : is_svc g2 o) by by apply K2.
  eapply returns_seq; [by apply (sound_upd_svc g2 o (set_uses_control_cmd false))|]. intros _ g3 (Hg3 & K3 & _).
  assert (Ho3 : is_svc g3 o) by by apply K3.
  eapply returns_seq; [by apply (sound_upd_svc g3 o (set_uses_control_socket false))|]. intros _ g4 (Hg4 & K4 & _).
  eapply returns_seq; [apply (sound_fds_loop _ g4 o s0); [done|by apply K4|by left|unfold seg_wf in Hw; lia]|].
  intros _ g5 (Hg5 & K5). apply returns_ret. split; [done|].
  transitivity g1; [done|]. transitivity g2; [done|]. transitivity g3; [done|]. by transitivity g4.
Qed.
End svc.
