(* ===== verification/CtlArg.v ===== *)
(** * controller.c: the arguments of a command

    The functions that take the next argument off [ctl->command] and convert it.  On
    failure they set [ctl->command_error]; what they take off stays off. *)

From S2P Require Import Prelude Strseg State Signal CtlOut Fd Service.

(** [%s] and [%.*s] of a segment: up to a NUL or to the length, a negative length
    being none. *)
Fixpoint seg_fmt_loop (n : nat) (s : strseg_t) (i : Z) : outcome (list Z) :=
  match n with
  | O => Done []
  | S n => c ← seg_at s i; if c =? NUL then Done [] else l ← seg_fmt_loop n s (i + 1); Done (c :: l)
  end.

Definition seg_fmt (s : strseg_t) : outcome (list Z) :=
  if seg_len s <? 0 then cstr (seg_buf s) (seg_off s) else seg_fmt_loop (Z.to_nat (seg_len s)) s 0.

(** What [snprintf] leaves in [command_error_buf[64]]. *)
Definition error_buf (msg : list Z) : list Z := take 63 msg.

(** The test [STRMATCH(flag)] of the commands. *)
Definition STRMATCH (opt : strseg_t) (flag : list Z) : outcome bool :=
  if seg_len opt =? Z.of_nat (length flag) then
    l ← seg_str opt; Done (bool_decide (l = flag))
  else Done false.

Section arg.
Context `{OS}.

(** [ctl->command_error= msg; return false;], [None] or [false] being the result. *)
Definition fail_with {A} (i : nat) (msg : list Z) (a : A) : DP A :=
  upd_ctl i (set_command_error msg);; mret a.

(** [None] for [false]. *)
Definition ctl_peek_arg (i : nat) : DP (option strseg_t) :=
  c ← get_ctl i;
  '(more, _, arg) ← lift (strseg_tok_next (command c) TAB);
  mret (if (more : bool) then Some arg else None).

(** [strseg_tok_next(&ctl->command, '\t', &arg)]. *)
Definition tok_command (i : nat) : DP (option strseg_t) :=
  c ← get_ctl i;
  '(more, rest, arg) ← lift (strseg_tok_next (command c) TAB);
  upd_ctl i (set_command rest);;
  mret (if (more : bool) then Some arg else None).

Definition ctl_get_arg (i : nat) : DP (option strseg_t) :=
  arg ← tok_command i;
  match arg with
  | Some arg => mret (Some arg)
  | None => fail_with i (str "missing argument") None
  end.

(** The value of an argument that is an integer and nothing else. *)
Definition arg_int (arg : option strseg_t) : outcome (option Z) :=
  match arg with
  | None => Done None
  | Some arg =>
      r ← strseg_atoi arg;
      Done (match r with Some (rest, v) => if seg_len rest >? 0 then None else Some v | None => None end)
  end.

Definition ctl_get_arg_int (i : nat) : DP (option Z) :=
  arg ← tok_command i;
  v ← lift (arg_int arg);
  match v with
  | Some v => mret (Some v)
  | None => fail_with i (str "Expected integer") None
  end.

Definition ctl_get_arg_ts (i : nat) : DP (option Z) :=
  arg ← tok_command i;
  v ← lift (arg_int arg);
  match v with
  | Some v => mret (Some (wrap64 (Z.shiftl v 32)))
  | None => fail_with i (str "Expected integer") None
  end.

(** Returns the name and the service. *)
Definition ctl_get_arg_service (i : nat) (existing : bool) : DP (option (strseg_t * Z)) :=
  arg ← tok_command i;
  match arg with
  | None => fail_with i (str "Expected service name") None
  | Some name =>
      if seg_len name =? 0 then fail_with i (str "Expected service name") None
      else
        ok ← lift (svc_check_name name);
        if negb ok then fail_with i (str "Invalid service name") None
        else
          svc ← svc_by_name name (negb existing);
          if svc =? 0 then
            fail_with i (if existing then str "No such service" else str "Unable to allocate new service") None
          else mret (Some (name, svc))
  end.

(** Returns the name and the object, 0 for [NULL]. *)
Definition ctl_get_arg_fd (i : nat) (existing assignable : bool) : DP (option (strseg_t * Z)) :=
  arg ← tok_command i;
  match arg with
  | None => fail_with i (str "Expected file descriptor name") None
  | Some name =>
      if seg_len name =? 0 then fail_with i (str "Expected file descriptor name") None
      else
        ok ← lift (svc_check_name name);
        if negb ok then fail_with i (str "Invalid file descriptor name") None
        else
          fd ← fd_by_name name;
          const ← (if assignable then fd_is_const fd else mret false);
          if (const : bool) then fail_with i (str "File descriptor cannot be altered") None
          else if existing && (fd =? 0) then fail_with i (str "No such file descriptor") None
          else mret (Some (name, fd))
  end.

(** A signal given by its number. *)
Definition arg_signum (signame : strseg_t) : outcome (option Z) :=
  r ← strseg_atoi signame;
  Done (match r with
        | Some (rest, v) =>
            if negb (seg_len rest =? 0) || (v <? 0) || negb (Z.shiftr v 16 =? 0) then None else Some v
        | None => None
        end).

Definition ctl_get_arg_signal (i : nat) : DP (option Z) :=
  arg ← tok_command i;
  match arg with
  | None => fail_with i (str "Expected signal argument") None
  | Some signame =>
      if seg_len signame =? 0 then fail_with i (str "Expected signal argument") None
      else
        c ← lift (seg_at signame 0);
        if (c >=? ch "0") && (c <=? ch "9") then
          v ← lift (arg_signum signame);
          match v with
          | Some v => mret (Some v)
          | None => fail_with i (str "Invalid signal number") None
          end
        else
          signum ← lift (sig_num_by_name signame);
          if 0 >? signum then fail_with i (str "Invalid signal argument") None
          else mret (Some signum)
  end.
End arg.
