(* ===== verification/CtlSock.v ===== *)
(** * control-socket.c: the socket on which controllers connect

    The address is a structure of fixed size; [control_socket_path] is the C string in
    its [sun_path]. *)

From S2P Require Import Prelude Strseg State Log CtlOut Fd CtlObj Service.

Definition sun_path_size : Z := 108.
Definition ENAMETOOLONG : Z := 36.
Definition EINVAL : Z := 22.
Definition S_IFSOCK : Z := 0xC000.

Section sock.
Context `{OS}.

Definition strerror_errno : DP (list Z) := e ← gets g_errno; mret (strerror e).

Definition control_socket_init : DP unit := modify (on_main (set_control_socket_path [])).

Definition control_socket_run : DP unit :=
  m ← gets g_main;
  if control_socket m >=? 0 then
    woke ← woke_on_readable (control_socket m);
    ran ← (if (woke : bool) then
      log_debug (str "control_socket is ready for accept()");;
      ctl ← ctl_alloc;
      match ctl with
      | None =>
          log_warn (str "No free controllers to accpet socket connection");;
          modify (on_wake (λ w, if wrap64 (wake_now w + 5 * 2 ^ 32) <? wake_next w
                                then set_wake_next (wrap64 (wake_now w + 5 * 2 ^ 32)) w else w));;
          mret false
      | Some i =>
          client ← sys (CAccept (control_socket m));
          (if ret client <? 0 then
             e ← strerror_errno;
             log_debug (str "accept: " ++ e);;
             ctl_free ctl
           else mret tt);;
          ok ← ctl_ctor i (ret client) (ret client);
          (if negb ok then
             ctl_dtor i;;
             ctl_free ctl;;
             sys (CClose (ret client));;
             mret tt
           else mret tt);;
          mret true
      end
    else mret true);
    m ← gets g_main;
    when ran (wake_on_readable (control_socket m))
  else mret tt.

(** [stat] gives the mode and the owner. *)
Definition remove_any_socket (path : list Z) : DP bool :=
  st ← sys (CStat path);
  if ret st <? 0 then mret true
  else
    let st_mode := nth 0 (out st) 0 in
    let st_uid := nth 1 (out st) 0 in
    owned ← (if negb (Z.land st_mode S_IFSOCK =? 0) then
               u ← sys CGeteuid;
               if st_uid =? ret u then mret true
               else u ← sys CGeteuid; mret (st_uid =? ret u)
             else mret false);
    if negb owned then mret false
    else
      r ← sys (CUnlink path);
      if ret r =? 0 then
        log_info (str "Unlinked control socket " ++ path);;
        mret true
      else
        e ← strerror_errno;
        log_error (str "Can't unlink control socket: " ++ e);;
        mret false.

Definition control_socket_stop : DP unit :=
  m ← gets g_main;
  if control_socket m >=? 0 then
    wake_cancel_fd (control_socket m);;
    sys (CClose (control_socket m));;
    modify (on_main (set_control_socket (-1)));;
    remove_any_socket (control_socket_path m);;
    mret tt
  else mret tt.

(** The steps from [bind] on; [true] when all succeed. *)
Definition control_socket_setup : DP bool :=
  m ← gets g_main;
  let fd := control_socket m in
  r ← sys (CBind fd (AF_UNIX :: control_socket_path m));
  if ret r <? 0 then
    e ← strerror_errno;
    log_error (str "bind(control_socket, " ++ control_socket_path m ++ str ": " ++ e);;
    mret false
  else
    r ← sys (CListen fd 2);
    if ret r <? 0 then
      e ← strerror_errno;
      log_error (str "listen(control_socket): " ++ e);;
      mret false
    else
      ok ← fd_set_nonblock fd;
      if negb ok then
        e ← strerror_errno;
        log_error (str "fcntl(control_socket, O_NONBLOCK): " ++ e);;
        mret false
      else
        wake_on_readable fd;;
        mret true.

(** The first two tests of [control_socket_start]: the [errno] of a bad path. *)
Definition bad_socket_path (path : strseg_t) : outcome (option Z) :=
  if seg_len path >=? sun_path_size then Done (Some ENAMETOOLONG)
  else if seg_len path <=? 0 then Done (Some EINVAL)
  else c ← seg_at path 0; Done (if c =? NUL then Some EINVAL else None).

Definition control_socket_start (path : strseg_t) : DP bool :=
  bad ← lift (bad_socket_path path);
  match bad with
  | Some e => modify (set_g_errno e);; mret false
  | None =>
      m ← gets g_main;
      when (control_socket m >=? 0) control_socket_stop;;
      p ← lift (seg_str path);
      let p := take (sep_index NUL p) p in
      modify (on_main (set_control_socket_path p));;
      ok ← remove_any_socket p;
      if negb ok then mret false
      else
        r ← sys (CSocket AF_UNIX SOCK_STREAM);
        modify (on_main (set_control_socket (ret r)));;
        if ret r <? 0 then
          e ← strerror_errno;
          log_error (str "socket: " ++ e);;
          mret false
        else
          ok ← control_socket_setup;
          if (ok : bool) then mret true
          else control_socket_stop;; mret false
  end.
End sock.
