(* ===== verification/Fatal.v ===== *)
(** * daemonproxy.c: [fatal]; and what it calls

    [fatal] executes another program if the exec-on-exit feature is on, else it ends
    the process unless the terminate guard is set.  A program that cannot be executed
    makes it set the signals up again, and that may call [fatal] again.  This file
    also has [log_running_services] of log.c, the rest of signal.c and the special
    descriptors of fd.c, which all meet here. *)

From S2P Require Import Prelude Strseg State Log Signal CtlOut Fd Service.

Definition EXIT_NO_OP : Z := 1.
Definition EXIT_BAD_OPTIONS : Z := 2.
Definition EXIT_BROKEN_PROGRAM_STATE : Z := 4.
Definition EXIT_IMPOSSIBLE_SCENARIO : Z := 5.

Definition O_NOCTTY : Z := 256.
Definition FD_CLOEXEC : Z := 1.

(** The handlers of [signal_spec]: [sig_handler] (1), [sig_handler_wake_only] (2) and
    [fatal_sig_handler] (3). *)
Definition signal_handlers : list Z := replicate 6 1 ++ replicate 3 2 ++ replicate 6 3.

(** The strings between the NULs of [opt_exec_on_exit_buf]. *)
Fixpoint exec_args_loop (fuel : nat) (args : strseg_t) : outcome (list (list Z)) :=
  match fuel with
  | O => OutOfFuel
  | S fuel =>
      '(more, args, arg) ← strseg_tok_next args NUL;
      if (more : bool) then
        s ← cstr (seg_buf arg) (seg_off arg);
        l ← exec_args_loop fuel args;
        Done (s :: l)
      else Done []
  end.

Definition exec_args (args : list Z) : outcome (list (list Z)) :=
  exec_args_loop (length args + 3) (Seg (args ++ [NUL]) 0 (Z.of_nat (length args))).

Section fatal.
Context `{OS}.

(** The loop of [log_running_services]; every round goes on to the next service. *)
Fixpoint log_running_loop (fuel : nat) (svc : Z) : DP unit :=
  match fuel with
  | O => nofuel
  | S fuel =>
      svc ← svc_iter_next svc [];
      if svc =? 0 then mret tt
      else
        s ← svc_obj svc;
        when (negb (svc_pid s =? 0) && (reap_time s =? 0))
          (log_warn (str "service '" ++ svc_name s ++ str "' running as pid " ++ fmt_d (svc_pid s)));;
        log_running_loop fuel svc
  end.

Definition log_running_services : DP unit :=
  objs ← gets (λ g, svc_objs (g_svc g));
  log_running_loop (S (size objs)) 0.

Section init.
Variable fatal : Z → list Z → DP unit.

(** The loop of [sig_init] over [signal_spec]. *)
Fixpoint sig_set_handlers (l : list (Z * Z)) : DP unit :=
  match l with
  | [] => mret tt
  | (signum, handler) :: l =>
      r ← sys (CSigaction signum handler);
      (if negb (ret r =? 0) then
         e ← gets g_errno;
         fatal EXIT_IMPOSSIBLE_SCENARIO (str "signal handler setup: " ++ strerror e)
       else mret tt);;
      sig_set_handlers l
  end.

(** The condition of the first [if] of [sig_init] after [pipe]. *)
Definition sig_pipe_fails (rd wr : Z) : DP bool :=
  a ← sys (CSetfd rd FD_CLOEXEC);
  if ret a <? 0 then mret true
  else
    b ← sys (CSetfd wr FD_CLOEXEC);
    if ret b <? 0 then mret true
    else
      c ← fd_set_nonblock rd;
      if negb c then mret true
      else
        d ← fd_set_nonblock wr;
        mret (negb d).

Definition sig_init_with : DP unit :=
  s ← gets g_sig;
  when (sig_wake_rd s >=? 0) (sys (CClose (sig_wake_rd s));; mret tt);;
  when (sig_wake_wr s >=? 0) (sys (CClose (sig_wake_wr s));; mret tt);;
  (if sig_main_pid s =? 0 then
     p ← sys CGetpid;
     modify (on_sig (set_sig_main_pid (ret p)))
   else mret tt);;
  modify (on_sig (set_signals sig_slots_0));;
  p ← sys CPipe;
  let rd := nth 0 (fds p) 0 in
  let wr := nth 1 (fds p) 0 in
  fails ← (if ret p <? 0 then mret true else sig_pipe_fails rd wr);
  (if (fails : bool) then
     e ← gets g_errno;
     fatal EXIT_IMPOSSIBLE_SCENARIO (str "signal pipe setup: " ++ strerror e)
   else mret tt);;
  modify (on_sig (set_sig_wake_rd rd));;
  modify (on_sig (set_sig_wake_wr wr));;
  sig_set_handlers (zip signal_spec signal_handlers);;
  sys CSigprocmask;;
  mret tt.
End init.

(** The part of [fatal] for exec-on-exit. *)
Definition fatal_exec (sig_init : DP unit) (exitcode : Z) (msgbuf : list Z) : DP unit :=
  o ← gets g_opt;
  if opt_exec_on_exit o then
    sys (CSetenv (str "DAEMONPROXY_EXITCODE") (fmt_d exitcode));;
    sys (CSetenv (str "DAEMONPROXY_ERROR") msgbuf);;
    argv ← lift (exec_args (opt_exec_on_exit_args o));
    log_debug (fmt_d (Z.of_nat (length argv)) ++ str " arguments to exec");;
    sig_reset_for_exec;;
    log_warn (str "daemonproxy exec_on_exit to '" ++ hd [] argv ++ str "'");;
    log_running_services;;
    r ← sys (CExec argv);
    if ret r >=? 0 then execed argv
    else
      sig_init;;
      e ← gets g_errno;
      log_error (str "Unable to exec " ++ quoted (hd [] argv) ++ str ": " ++ strerror e)
  else mret tt.

Definition fatal_body (sig_init : DP unit) (exitcode : Z) (msg : list Z) : DP unit :=
  let msgbuf := take 1023 msg in
  fatal_exec sig_init exitcode msgbuf;;
  guard ← gets (λ g, opt_terminate_guard (g_opt g));
  when (negb (length msgbuf =? 0)%nat)
    (log_write LOG_LEVEL_FATAL
       ((if guard =? 0 then [] else str "(attempting to continue) ") ++ msgbuf);; mret tt);;
  if guard =? 0 then
    log_running_services;;
    exited exitcode
  else mret tt.

(** [fatal] and [sig_init] call each other; the fuel is the depth of the stack. *)
Fixpoint fatal_at (depth : nat) (exitcode : Z) (msg : list Z) : DP unit :=
  match depth with
  | O => nofuel
  | S depth => fatal_body (sig_init_with (fatal_at depth)) exitcode msg
  end.

Definition fatal_depth : nat := 16.

Definition fatal (exitcode : Z) (msg : list Z) : DP unit := fatal_at fatal_depth exitcode msg.

Definition sig_init : DP unit := sig_init_with fatal.

Definition fatal_sig_handler (sig : Z) : DP unit :=
  sig_handler_check sig;;
  let signame := sig_name_by_num sig in
  fatal EXIT_BROKEN_PROGRAM_STATE
    (str "Received signal " ++ match signame with Some n => str "SIG" ++ n | None => str "???" end ++
     str " (" ++ fmt_d sig ++ str ")").

(** ** fd.c: the special descriptors *)

Definition special_flags (read write : bool) : fd_flags_t :=
  set_fl_special true (set_fl_read read (set_fl_write write (set_fl_is_const true flags_0))).

Definition fd_init_special_handles : DP bool :=
  n ← sys (COpen (str "/dev/null") (Z.lor O_RDWR O_NOCTTY));
  modify (on_fd (set_fd_dev_null (ret n)));;
  (if ret n <? 0 then
     e ← gets g_errno;
     fatal EXIT_INVALID_ENVIRONMENT (str "Can't open /dev/null: " ++ strerror e);;
     log_error (str "Services using 'null' descriptor will get closed handles instead!");;
     modify (on_fd (set_fd_dev_null (-1)))
   else mret tt);;
  dev_null ← gets (λ g, fd_dev_null (g_fd g));
  a ← fd_new_file (STRSEG (str "null")) dev_null (special_flags true true) (STRSEG (str "/dev/null"));
  if a =? 0 then mret false
  else
    b ← fd_new_file (STRSEG (str "control.cmd")) (-1) (special_flags false true)
          (STRSEG (str "daemonproxy command pipe"));
    if b =? 0 then mret false
    else
      c ← fd_new_file (STRSEG (str "control.event")) (-1) (special_flags true false)
            (STRSEG (str "daemonproxy event stream"));
      if c =? 0 then mret false
      else
        d ← fd_new_file (STRSEG (str "control.socket")) (-1) (special_flags true true)
              (STRSEG (str "daemonproxy control socket"));
        mret (negb (d =? 0)).
End fatal.
