(* ===== verification/Options.v ===== *)
(** * options.c: the command line

    [argv] is the list of the arguments that are left; [None] once the parser has
    gone past the null pointer that closes it.  The table of options is generated
    from the comments of the file. *)

From S2P Require Import Prelude Strseg State Log CtlOut Fd Service Fatal.

Definition SERVICE_POOL_SIZE_MIN : Z := 1.
Definition SERVICE_POOL_SIZE_MAX : Z := 65535.
Definition SERVICE_DATA_SIZE_MIN : Z := 64.
Definition SERVICE_DATA_SIZE_DEFAULT : Z := 512.
Definition FD_POOL_SIZE_MIN : Z := 7.
Definition FD_POOL_SIZE_MAX : Z := FD_SETSIZE.
Definition FD_DATA_SIZE_MIN : Z := 32.
Definition FD_DATA_SIZE_MAX : Z := 4096.
Definition FD_DATA_SIZE_DEFAULT : Z := 96.

(** The handlers of the options. *)
Inductive opt_handler_t :=
  | H_set_opt_configfile
  | H_set_opt_stdin
  | H_opt_set_socket_path
  | H_opt_set_daemonize
  | H_set_opt_failsafe
  | H_set_opt_exec_on_exit
  | H_set_opt_fd_prealloc
  | H_set_opt_svc_prealloc
  | H_set_opt_mlockall
  | H_set_opt_verbose
  | H_set_opt_quiet
  | H_show_help
  | H_show_version.

(** [option_table_entry_s]; 0 for an option without a short name, and whether the
    option has an argument. *)
Record option_table_entry_s := mkOption {
  shortname : Z;
  longname : list Z;
  argname : bool;
  handler : opt_handler_t;
}.

(** The table of options_data.autogen.c, without the entry that closes it. *)
Class OptTable := option_table : list option_table_entry_s.

(** ** [strtol] with base 10 *)

Definition is_space (c : Z) : bool := (c =? 32) || ((9 <=? c) && (c <=? 13)).

Fixpoint skip_space (l : list Z) : list Z :=
  match l with c :: l' => if is_space c then skip_space l' else l | [] => [] end.

Fixpoint span_digits (l : list Z) : list Z * list Z :=
  match l with
  | c :: l' => if is_digit c then let '(d, r) := span_digits l' in (c :: d, r) else ([], l)
  | [] => ([], [])
  end.

(** The value and what follows it; a value that does not fit is the nearest that does. *)
Definition strtol (l : list Z) : Z * list Z :=
  let s := skip_space l in
  let '(neg, s) :=
    match s with
    | c :: s' => if c =? ch "-" then (true, s') else if c =? ch "+" then (false, s') else (false, s)
    | [] => (false, [])
    end in
  let '(ds, rest) := span_digits s in
  if (length ds =? 0)%nat then (0, l)
  else
    let v := dec_value 0 ds in
    (Z.max int64_min (Z.min int64_max (if (neg : bool) then - v else v)), rest).

(** ** Exec-on-exit *)

(** [args] as they are stored: a TAB becomes a NUL. *)
Definition set_exec_on_exit (args : strseg_t) : DP bool :=
  if seg_len args <=? 0 then
    modify (on_opt (set_opt_exec_on_exit false));;
    mret true
  else if seg_len args >=? 256 then mret false
  else
    buf ← lift (seg_str args);
    modify (on_opt (set_opt_exec_on_exit true));;
    modify (on_opt (set_opt_exec_on_exit_args (nul_tabs buf)));;
    mret true.

Section options.
Context `{OS, OptTable}.

(** [val] is what [*size] holds before. *)
Definition nxm_size (arg : strseg_t) (val : Z) : outcome (bool * Z) :=
  if seg_len arg <=? 0 then Done (true, val)
  else
    '(ok, rest, v) ← strseg_parse_size arg;
    Done (ok && (seg_len rest =? 0), default val v).

(** Returns the count and the size; a count that is never assigned is 0. *)
Definition parse_NxM (arg : strseg_t) (size : Z) : DP (Z * Z) :=
  let fail count size :=
    fatal EXIT_BAD_OPTIONS (str "Expected 'N' or 'NxM' where N and M are integers and M has an optional size suffix");;
    mret (count, size) in
  '(more, arg, count_str) ← lift (strseg_tok_next arg (ch "x"));
  if negb more then fail 0 size
  else
    r ← lift (strseg_atoi count_str);
    match r with
    | None => fail 0 size
    | Some (rest, count) =>
        if seg_len rest >? 0 then fail count size
        else
          '(ok, size) ← lift (nxm_size arg size);
          if (ok : bool) then mret (count, size) else fail count size
    end.

Definition set_opt_fd_prealloc (arg : list Z) : DP unit :=
  '(val_n, val_m) ← parse_NxM (STRSEG arg) FD_DATA_SIZE_DEFAULT;
  val_n ←
    (if val_n <? FD_POOL_SIZE_MIN then
       log_warn (str "At least " ++ fmt_d FD_POOL_SIZE_MIN ++ str " fd objects required; using minimum");;
       mret FD_POOL_SIZE_MIN
     else if val_n >? FD_POOL_SIZE_MAX then
       log_warn (str "fd pool size exceeds max number of allowed file descriptors; limiting to " ++ fmt_d FD_POOL_SIZE_MAX);;
       mret FD_POOL_SIZE_MAX
     else mret val_n);
  val_m ←
    (if val_m <? FD_DATA_SIZE_MIN then
       log_warn (str "fd obj size increased to minimum of " ++ fmt_d FD_DATA_SIZE_MIN);;
       mret FD_DATA_SIZE_MIN
     else if val_m >? FD_DATA_SIZE_MAX then
       log_warn (str "fd obj size limited to maximum of " ++ fmt_d FD_DATA_SIZE_MAX);;
       mret FD_DATA_SIZE_MAX
     else mret val_m);
  modify (on_opt (set_opt_fd_pool_count (wrap32 val_n)));;
  modify (on_opt (set_opt_fd_pool_size_each (wrap32 val_m))).

Definition set_opt_svc_prealloc (arg : list Z) : DP unit :=
  '(val_n, val_m) ← parse_NxM (STRSEG arg) SERVICE_DATA_SIZE_DEFAULT;
  val_n ←
    (if val_n <? SERVICE_POOL_SIZE_MIN then
       log_warn (str "At least " ++ fmt_d SERVICE_POOL_SIZE_MIN ++ str " service objects required; using minimum");;
       mret SERVICE_POOL_SIZE_MIN
     else if val_n >? SERVICE_POOL_SIZE_MAX then
       log_warn (str "service pool size exceeds maximum; limiting to " ++ fmt_d SERVICE_POOL_SIZE_MAX);;
       mret SERVICE_POOL_SIZE_MAX
     else mret val_n);
  val_m ←
    (if val_m <? SERVICE_DATA_SIZE_MIN then
       log_warn (str "servce obj size increased to minimum of " ++ fmt_d SERVICE_DATA_SIZE_MIN);;
       mret SERVICE_DATA_SIZE_MIN
     else mret val_m);
  modify (on_opt (set_opt_svc_pool_count (wrap32 val_n)));;
  modify (on_opt (set_opt_svc_pool_size_each (wrap32 val_m))).

Definition set_opt_configfile (arg : list Z) : DP unit :=
  (if bool_decide (arg = str "-") then mret tt
   else
     r ← sys (CStat arg);
     if negb (ret r =? 0) then fatal EXIT_BAD_OPTIONS (str "Cannot stat configfile " ++ quoted arg) else mret tt);;
  modify (on_opt (set_opt_config_file (Some arg))).

Definition set_opt_failsafe (arg : list Z) : DP unit :=
  let '(n, rest) := strtol arg in
  when (negb (length rest =? 0)%nat) (fatal EXIT_BAD_OPTIONS (str "Terminate guard must be an integer"));;
  modify (on_opt (set_opt_terminate_guard n)).

Definition set_opt_exec_on_exit_arg (arg : list Z) : DP unit :=
  ok ← set_exec_on_exit (STRSEG arg);
  when (negb ok) (fatal EXIT_BAD_OPTIONS (str "exec-on-exit arguments exceed buffer size")).

(** The help text and the version go to stdout only. *)
Definition show_and_exit : DP unit := fatal EXIT_NO_OP [].

(** [arg] is [argv[0]], [None] for the null pointer: all handlers that look at it but
    [opt_set_socket_path] dereference it. *)
Definition run_handler (h : opt_handler_t) (arg : option (list Z)) : DP unit :=
  let deref f := match arg with Some a => f a | None => fault end in
  match h with
  | H_set_opt_configfile => deref set_opt_configfile
  | H_set_opt_stdin => modify (on_opt (set_opt_interactive true))
  | H_opt_set_socket_path => modify (on_opt (set_opt_socket_path arg))
  | H_opt_set_daemonize => modify (on_opt (set_opt_daemonize true))
  | H_set_opt_failsafe => deref set_opt_failsafe
  | H_set_opt_exec_on_exit => deref set_opt_exec_on_exit_arg
  | H_set_opt_fd_prealloc => deref set_opt_fd_prealloc
  | H_set_opt_svc_prealloc => deref set_opt_svc_prealloc
  | H_set_opt_mlockall => modify (on_opt (set_opt_mlockall true))
  | H_set_opt_verbose => f ← gets (λ g, log_filter (g_log g)); log_set_filter (f - 1)
  | H_set_opt_quiet => f ← gets (λ g, log_filter (g_log g)); log_set_filter (f + 1)
  | H_show_help => show_and_exit
  | H_show_version => show_and_exit
  end.

(** The entry for a short name, or for a long one if the short name is 0. *)
Fixpoint find_option (l : list option_table_entry_s) (short : Z) (long : option (list Z))
    : option option_table_entry_s :=
  match l with
  | [] => None
  | e :: l =>
      if (negb (short =? 0) && (short =? shortname e))
         || (match long with Some n => bool_decide (n = longname e) | None => false end)
      then Some e else find_option l short long
  end.

(** ["-%c%s"] *)
Definition option_text (short : Z) (long : option (list Z)) : list Z :=
  ch "-" :: match long with Some n => ch "-" :: n | None => [short] end.

(** Returns what is left of [argv]. *)
Definition parse_option (short : Z) (long : option (list Z)) (argv : option (list (list Z)))
    : DP (option (list (list Z))) :=
  match find_option option_table short long, argv with
  | Some e, Some argv =>
      when (argname e && (length argv =? 0)%nat)
        (fatal EXIT_BAD_OPTIONS (str "Missing argument for " ++ option_text short long));;
      run_handler (handler e) (head argv);;
      mret (if argname e then match argv with _ :: argv => Some argv | [] => None end else Some argv)
  | Some e, None => fault
  | None, _ =>
      fatal EXIT_BAD_OPTIONS (str "Unknown option " ++ option_text short long ++ str "  (see --help)");;
      mret argv
  end.

(** The loop over the letters of an argument that starts with one dash. *)
Fixpoint parse_short (letters : list Z) (argv : option (list (list Z))) : DP (option (list (list Z))) :=
  match letters with
  | [] => mret argv
  | c :: letters => argv ← parse_option c None argv; parse_short letters argv
  end.

Fixpoint parse_opts_loop (fuel : nat) (argv : option (list (list Z))) : DP unit :=
  match fuel with
  | O => nofuel
  | S fuel =>
      match argv with
      | None => fault
      | Some [] => mret tt
      | Some (current :: argv) =>
          rest ←
            (match current with
             | c :: letters =>
                 if c =? ch "-" then
                   match letters with
                   | d :: long => if d =? ch "-" then parse_option 0 (Some long) (Some argv)
                                  else parse_short letters (Some argv)
                   | [] => mret (Some argv)
                   end
                 else
                   fatal EXIT_BAD_OPTIONS (str "Unexpected argument " ++ quoted current ++ [LF]);;
                   mret (Some argv)
             | [] =>
                 fatal EXIT_BAD_OPTIONS (str "Unexpected argument " ++ quoted current ++ [LF]);;
                 mret (Some argv)
             end);
          parse_opts_loop fuel rest
      end
  end.

(** Every round takes an argument. *)
Definition parse_opts (argv : list (list Z)) : DP unit := parse_opts_loop (S (length argv)) (Some argv).
End options.
