(* ===== verification/CtlCmd.v ===== *)
(** * controller.c: the commands

    One definition per function [ctl_cmd_...]; [i] is the index of the controller
    that gave the command.  A command returns [true], or sets [ctl->command_error]
    and returns [false]. *)

From S2P Require Import Prelude Strseg State Log Signal CtlOut Fd CtlObj Service CtlArg CtlSock Fatal Options.

Definition O_RDONLY : Z := 0.

(** [inet_pton(AF_INET, ...)]: the four bytes of an address, of the C library. *)
Class Inet := inet_pton : list Z → option (list Z).

(** ** Flags of descriptors *)

(** One flag of fd.pipe; [None] for an unknown one.  The [switch] on the first
    character only saves comparisons. *)
Definition pipe_flag (opt : strseg_t) (f : fd_flags_t) : outcome (option fd_flags_t) :=
  m ← STRMATCH opt (str "-"); if (m : bool) then Done (Some f) else
  m ← STRMATCH opt (str "unix"); if (m : bool) then Done (Some (set_fl_sock_inet false (set_fl_socket true f))) else
  m ← STRMATCH opt (str "udp");
  if (m : bool) then Done (Some (set_fl_sock_dgram true (set_fl_sock_inet true (set_fl_socket true f)))) else
  m ← STRMATCH opt (str "tcp");
  if (m : bool) then Done (Some (set_fl_sock_dgram false (set_fl_sock_inet true (set_fl_socket true f)))) else
  m ← STRMATCH opt (str "dgram"); if (m : bool) then Done (Some (set_fl_sock_dgram true (set_fl_socket true f))) else
  m ← STRMATCH opt (str "inet"); if (m : bool) then Done (Some (set_fl_sock_inet true (set_fl_socket true f))) else
  m ← STRMATCH opt (str "inet6"); if (m : bool) then Done (Some (set_fl_sock_inet6 true (set_fl_socket true f))) else
  m ← STRMATCH opt (str "stream");
  if (m : bool) then Done (Some (set_fl_sock_seq false (set_fl_sock_dgram false (set_fl_socket true f)))) else
  m ← STRMATCH opt (str "seqpacket");
  if (m : bool) then Done (Some (set_fl_sock_seq true (set_fl_socket true f))) else
  m ← STRMATCH opt (str "nonblock"); if (m : bool) then Done (Some (set_fl_nonblock true f)) else
  Done None.

(** One flag of fd.open. *)
Definition open_flag (opt : strseg_t) (f : fd_flags_t) : outcome (option fd_flags_t) :=
  m ← STRMATCH opt (str "append"); if (m : bool) then Done (Some (set_fl_append true f)) else
  m ← STRMATCH opt (str "create"); if (m : bool) then Done (Some (set_fl_create true f)) else
  m ← STRMATCH opt (str "mkdir"); if (m : bool) then Done (Some (set_fl_mkdir true f)) else
  m ← STRMATCH opt (str "read"); if (m : bool) then Done (Some (set_fl_read true f)) else
  m ← STRMATCH opt (str "trunc"); if (m : bool) then Done (Some (set_fl_trunc true f)) else
  m ← STRMATCH opt (str "write"); if (m : bool) then Done (Some (set_fl_write true f)) else
  m ← STRMATCH opt (str "nonblock"); if (m : bool) then Done (Some (set_fl_nonblock true f)) else
  Done None.

(** What one flag of fd.socket does: the flags, or the error "invalid listen queue
    length", or none of the known flags. *)
Inductive sock_flag_t :=
  | sock_flags (f : fd_flags_t)
  | sock_bad_listen
  | sock_unknown.

(** The part of fd.socket for "listen", with the text after "=". *)
Definition listen_flag (optval : strseg_t) (f : fd_flags_t) : outcome sock_flag_t :=
  let f := set_fl_bind true f in
  if seg_len optval >? 0 then
    r ← strseg_atoi optval;
    match r with
    | Some (_, val) =>
        if (val >=? 2 ^ 16) || (val <=? 0) then Done sock_bad_listen
        else Done (sock_flags (set_fl_listen (uwrap16 val) f))
    | None => Done sock_bad_listen
    end
  else Done (sock_flags (set_fl_listen 32 f)).

Definition sock_flag (opt optval : strseg_t) (f : fd_flags_t) : outcome sock_flag_t :=
  m ← STRMATCH opt (str "bind"); if (m : bool) then Done (sock_flags (set_fl_bind true f)) else
  m ← STRMATCH opt (str "listen"); if (m : bool) then listen_flag optval f else
  m ← STRMATCH opt (str "unix"); if (m : bool) then Done (sock_flags (set_fl_sock_inet false f)) else
  m ← STRMATCH opt (str "udp");
  if (m : bool) then Done (sock_flags (set_fl_sock_dgram true (set_fl_sock_inet true f))) else
  m ← STRMATCH opt (str "tcp");
  if (m : bool) then Done (sock_flags (set_fl_sock_dgram false (set_fl_sock_inet true f))) else
  m ← STRMATCH opt (str "dgram"); if (m : bool) then Done (sock_flags (set_fl_sock_dgram true f)) else
  m ← STRMATCH opt (str "inet"); if (m : bool) then Done (sock_flags (set_fl_sock_inet true f)) else
  m ← STRMATCH opt (str "inet6");
  if (m : bool) then Done (sock_flags (set_fl_sock_inet6 true (set_fl_socket true f))) else
  m ← STRMATCH opt (str "stream");
  if (m : bool) then Done (sock_flags (set_fl_sock_seq false (set_fl_sock_dgram false f))) else
  m ← STRMATCH opt (str "seqpacket"); if (m : bool) then Done (sock_flags (set_fl_sock_seq true f)) else
  m ← STRMATCH opt (str "nonblock"); if (m : bool) then Done (sock_flags (set_fl_nonblock true f)) else
  m ← STRMATCH opt (str "mkdir"); if (m : bool) then Done (sock_flags (set_fl_mkdir true f)) else
  Done sock_unknown.

Definition sock_domain (f : fd_flags_t) : Z :=
  if fl_sock_inet f then AF_INET else if fl_sock_inet6 f then AF_INET6 else AF_UNIX.
Definition sock_type (f : fd_flags_t) : Z :=
  if fl_sock_dgram f then SOCK_DGRAM else if fl_sock_seq f then SOCK_SEQPACKET else SOCK_STREAM.

Definition open_flags (f : fd_flags_t) : Z :=
  Z.lor (Z.lor (Z.lor (Z.lor (Z.lor
    (if fl_write f then if fl_read f then O_RDWR else O_WRONLY else O_RDONLY)
    (if fl_append f then O_APPEND else 0)) (if fl_create f then O_CREAT else 0))
    (if fl_trunc f then O_TRUNC else 0)) (if fl_nonblock f then O_NONBLOCK else 0)) O_NOCTTY.

(** ** strseg.c: [strseg_parse_sockaddr]

    The address is its family followed by the path of a local socket, or by the port
    and the four bytes of an Internet address.  Returns the address, if there is one,
    and what is left of the string. *)

(** The length of the dotted part. *)
Fixpoint dotted_scan (n : nat) (s : strseg_t) (len : Z) : outcome Z :=
  match n with
  | O => Done len
  | S n =>
      c ← seg_at s len;
      if negb (c =? ch ".") && ((c <? ch "0") || (c >? ch "9")) then Done len else dotted_scan n s (len + 1)
  end.

Definition parse_in_port (s : strseg_t) (addr : list Z) : outcome (option (list Z * strseg_t)) :=
  colon ← (if seg_len s >? 0 then c ← seg_at s 0; Done (c =? ch ":") else Done false);
  if (colon : bool) then
    r ← strseg_atoi (seg_advance s 1);
    Done (match r with
          | Some (rest, port) => Some (AF_INET :: uwrap16 port :: addr, rest)
          | None => None
          end)
  else Done (Some (AF_INET :: 0 :: addr, s)).

Definition strseg_parse_sockaddr `{Inet} (s : strseg_t) (family : Z) : outcome (option (list Z * strseg_t)) :=
  if seg_len s <=? 0 then Done None
  else if family =? AF_UNIX then
    if seg_len s >=? sun_path_size then Done None
    else p ← seg_str s; Done (Some (AF_UNIX :: p, seg_advance s (seg_len s)))
  else if family =? AF_INET then
    c ← seg_at s 0;
    if c =? ch "*" then parse_in_port (seg_advance s 1) [0; 0; 0; 0]
    else
      n ← dotted_scan (Z.to_nat (seg_len s)) s 0;
      if (n <=? 0) || (n >=? 255) then Done None
      else
        name ← seg_bytes (Z.to_nat n) s 0;
        match inet_pton name with
        | None => Done None
        | Some addr => parse_in_port (seg_advance s n) addr
        end
  else Done None.

Section cmd.
Context `{OS, Inet}.

(** [return ctl_error with a message that was printed to command_error_buf]. *)
Definition fail_printed (i : nat) (msg : list Z) : DP bool := fail_with i (error_buf msg) false.

(** ["... failed: %s", strerror(errno)] *)
Definition fail_errno (i : nat) (what : list Z) : DP bool :=
  e ← strerror_errno;
  fail_printed i (what ++ str ": " ++ e).

Definition unknown_flag (i : nat) (opt : strseg_t) : DP bool :=
  o ← lift (seg_fmt opt);
  fail_printed i (str "unknown flag " ++ quoted o ++ [LF]).

(** [ctl->command.len >= 0? ctl->command : STRSEG("")] *)
Definition rest_or_empty (s : strseg_t) : strseg_t := if seg_len s >=? 0 then s else STRSEG [].

(** ** Events about descriptors *)

Definition opt_str (b : bool) (s : list Z) : list Z := if b then s else [].

Definition fd_state_msg (name : list Z) (flags : fd_flags_t) (peer_name : list Z) (path : list Z) : list Z :=
  if fl_pipe flags then
    tab_join [str "fd.state"; name; str "pipe";
      (if negb (fl_socket flags) then [] else
         (if fl_sock_inet flags then str "inet," else if fl_sock_inet6 flags then str "inet6," else str "unix,") ++
         (if fl_sock_dgram flags then str "dgram," else if fl_sock_seq flags then str "seqpacket," else str "stream,")) ++
      opt_str (fl_nonblock flags) (str "nonblock,") ++
      (if fl_write flags || fl_socket flags then str "to" else str "from");
      peer_name]
  else if fl_socket flags then
    tab_join [str "fd.state"; name; (if fl_special flags then str "special" else str "socket");
      (if fl_sock_inet flags then str "inet" else if fl_sock_inet6 flags then str "inet6" else str "unix") ++
      (if fl_sock_dgram flags then str ",dgram" else if fl_sock_seq flags then str ",seqpacket" else str ",stream") ++
      opt_str (fl_bind flags) (str ",bind") ++
      opt_str (negb (fl_listen flags =? 0)) (str ",listen=" ++ fmt_d (fl_listen flags)) ++
      opt_str (fl_mkdir flags) (str ",mkdir") ++
      opt_str (fl_nonblock flags) (str ",nonblock");
      path]
  else
    tab_join [str "fd.state"; name; (if fl_special flags then str "special" else str "file");
      (if fl_write flags then if fl_read flags then str "read,write" else str "write" else str "read") ++
      opt_str (fl_append flags) (str ",append") ++ opt_str (fl_create flags) (str ",create") ++
      opt_str (fl_trunc flags) (str ",trunc") ++ opt_str (fl_nonblock flags) (str ",nonblock") ++
      opt_str (fl_mkdir flags) (str ",mkdir");
      path].

Definition ctl_notify_fd_state (ctl : option nat) (fd : Z) : DP bool :=
  name ← fd_get_name fd;
  flags ← fd_get_flags fd;
  if fl_pipe flags then
    peer ← fd_get_pipe_peer fd;
    peer_name ← (if negb (peer =? 0) then fd_get_name peer else mret (str "?"));
    ctl_write ctl (fd_state_msg name flags peer_name [])
  else
    path ← fd_get_file_path fd;
    match path with
    | Some path => ctl_write ctl (fd_state_msg name flags [] path)
    | None => fault
    end.

(** ** General commands *)

Definition ctl_cmd_echo (i : nat) : DP bool :=
  c ← get_ctl i;
  (if seg_len (command c) >? 0 then
     m ← lift (seg_fmt (command c));
     ctl_write (Some i) (m ++ [LF]);; mret tt
   else mret tt);;
  mret true.

Definition ctl_cmd_event_pipe_timeout (i : nat) : DP bool :=
  r ← ctl_get_arg_int i;
  match r with
  | None => mret false
  | Some reset =>
      c ← ctl_get_arg_int i;
      match c with
      | None => mret false
      | Some close =>
          if (reset >? 0x7FFFFFFF) || (reset <? 0) || (close >? 0x7FFFFFFF) || (close <? 0) then
            fail_with i (str "invalid timeout (must be 0..7FFFFFFF)") false
          else if reset >? close then
            fail_with i (str "reset timeout is greater than close timeout") false
          else
            upd_ctl i (set_write_timeout_reset (wrap64 (Z.shiftl reset 32)));;
            upd_ctl i (set_write_timeout_close (wrap64 (Z.shiftl close 32)));;
            mret true
      end
  end.

(** [assert(path.data[path.len] == '\0')] and the C string at [path.data]. *)
Definition path_string (path : strseg_t) : DP (list Z) :=
  c ← lift (seg_at path (seg_len path));
  assert (c =? NUL);;
  lift (cstr (seg_buf path) (seg_off path)).

Definition ctl_cmd_chdir (i : nat) : DP bool :=
  path ← ctl_get_arg i;
  match path with
  | None => fail_with i (str "missing path argument") false
  | Some path =>
      more ← ctl_peek_arg i;
      match more with
      | Some _ => fail_with i (str "unexpected argument after path") false
      | None =>
          p ← path_string path;
          r ← sys (CChdir p);
          if ret r <? 0 then fail_errno i (str "chdir failed") else mret true
      end
  end.

Definition ctl_cmd_exit (i : nat) : DP bool :=
  c ← get_ctl i;
  when (recv_fd c >=? 0) (sys (CClose (recv_fd c));; mret tt);;
  upd_ctl i (set_recv_fd (-1));;
  upd_ctl i (set_state_fn (Some ctl_state_close));;
  mret true.

Definition ctl_cmd_statedump (i : nat) : DP bool :=
  upd_ctl i (set_state_fn (Some ctl_state_dump_fds));;
  upd_ctl i (set_statedump_current []);;
  upd_ctl i (set_command_substate 0);;
  mret true.

Definition ctl_cmd_log_filter (i : nat) : DP bool :=
  arg ← ctl_peek_arg i;
  ok ←
    (match arg with
     | None => mret true
     | Some arg =>
         level ← gets (λ g, log_filter (g_log g));
         plus ← lift (STRMATCH arg (str "+"));
         minus ← lift (STRMATCH arg (str "-"));
         named ← lift (log_level_by_name arg);
         match (if (plus : bool) then Some (level + 1) else if (minus : bool) then Some (level - 1) else named) with
         | Some level => log_set_filter level;; mret true
         | None => fail_with i (str "Invalid loglevel argument") false
         end
     end);
  if (ok : bool) then
    level ← gets (λ g, log_filter (g_log g));
    ctl_write (Some i) (tab_join [str "log.filter"; log_level_name level]);;
    mret true
  else mret false.

Definition ctl_cmd_log_dest (i : nat) : DP bool :=
  arg ← ctl_get_arg i;
  match arg with
  | None => mret false
  | Some arg =>
      c ← lift (strseg_cmp arg (STRSEG (str "fd")));
      if c =? 0 then
        r ← ctl_get_arg_fd i false false;
        match r with
        | None => mret false
        | Some (fd_name, fd) =>
            (if fd =? 0 then
               n ← lift (seg_fmt fd_name);
               ctl_write (Some i) (str "warning" ++ TAB :: str "fd " ++ quoted n ++ str " does not exist" ++ [LF]);;
               mret tt
             else mret tt);;
            log_fd_set_name fd_name;;
            mret true
        end
      else fail_with i (str "Unknown logging type") false
  end.

Definition ctl_cmd_signal_clear (i : nat) : DP bool :=
  sig ← ctl_get_arg_signal i;
  match sig with
  | None => mret false
  | Some sig =>
      count ← ctl_get_arg_int i;
      match count with
      | None => mret false
      | Some count => sig_mark_seen sig (wrap32 count);; mret true
      end
  end.

Definition ctl_cmd_socket_create (i : nat) : DP bool :=
  opts ← ctl_get_arg i;
  match opts with
  | None => mret false
  | Some opts =>
      path ← ctl_get_arg i;
      match path with
      | None => mret false
      | Some path =>
          bad ← (if seg_len opts >? 1 then mret true
                 else if negb (seg_len opts =? 0) then c ← lift (seg_at opts 0); mret (negb (c =? ch "-"))
                 else mret false);
          if (bad : bool) then fail_with i (str "Invalid options") false
          else
            ok ← control_socket_start path;
            if negb ok then fail_with i (str "Failed to create control socket") false else mret true
      end
  end.

Definition ctl_cmd_socket_delete (i : nat) : DP bool :=
  control_socket_stop;;
  mret true.

(** ** Termination *)

(** The guard code of [ctl_cmd_terminate]. *)
Definition terminate_guard_ok (i : nat) (guard : Z) : DP bool :=
  if guard =? 0 then mret true
  else
    x ← ctl_get_arg_int i;
    match x with
    | None => fail_with i (str "terminate guard code required") false
    | Some x => if negb (guard =? x) then fail_with i (str "incorrect terminate guard code") false else mret true
    end.

Definition ctl_cmd_terminate (i : nat) : DP bool :=
  x ← ctl_get_arg_int i;
  match x with
  | None => mret false
  | Some x =>
      o ← gets g_opt;
      ok ← terminate_guard_ok i (opt_terminate_guard o);
      if negb ok then mret false
      else if negb (opt_terminate_guard o =? 0) && negb (opt_exec_on_exit o) then
        fail_with i (str "cannot exit, and exec-on-exit is not configured") false
      else
        modify (on_main (set_main_terminate true));;
        modify (on_main (set_main_exitcode (wrap32 x)));;
        wake_now_again;;
        mret true
  end.

Definition ctl_cmd_terminate_exec_args (i : nat) : DP bool :=
  c ← get_ctl i;
  ok ← set_exec_on_exit (command c);
  if negb ok then fail_with i (str "exec arguments exceed buffer size (255)") false else mret true.

(** The first argument of terminate.guard: [Some true] for "+". *)
Definition guard_sign (arg : option strseg_t) : outcome (option bool) :=
  match arg with
  | None => Done None
  | Some arg =>
      if negb (seg_len arg =? 1) then Done None
      else c ← seg_at arg 0; Done (if c =? ch "+" then Some true else if c =? ch "-" then Some false else None)
  end.

(** The lines after the last [return] of the function are never reached. *)
Definition ctl_cmd_terminate_guard (i : nat) : DP bool :=
  arg ← ctl_get_arg i;
  sign ← lift (guard_sign arg);
  match sign with
  | None => fail_with i (str "expected + or -") false
  | Some sign =>
      code ← ctl_get_arg_int i;
      match code with
      | None => mret false
      | Some code =>
          guard ← gets (λ g, opt_terminate_guard (g_opt g));
          if code =? 0 then fail_with i (str "code cannot be 0") false
          else if (sign : bool) then
            if negb (guard =? 0) then fail_with i (str "terminate guard code is already set") false
            else modify (on_opt (set_opt_terminate_guard code));; mret true
          else
            if guard =? 0 then fail_with i (str "terminate guard was not set") false
            else if negb (code =? guard) then fail_with i (str "incorrect guard code") false
            else modify (on_opt (set_opt_terminate_guard 0));; mret true
      end
  end.
End cmd.
