(* ===== verification/SoundFd.v ===== *)
(** * The operations on named descriptors keep the daemon sound *)

From S2P Require Import Prelude Strseg State RBTree RBTreeRep OrdIndex RBTreeIndex Table Log Signal SignalSpec CtlOut CtlOutSpec SvcVars Fd FdSpec CtlObj Service Dll ServiceSpec SvcRun SvcActive SvcNew SvcLists Sound SoundSvc CtlArg CtlSock Fatal Options CtlCmd.

Section fd.
Context `{OS} `{!WriteOk}.

Lemma sound_fd_by_name g name : sound g → seg_wf name → seg_len name < NAME_BUF_SIZE →
  returns (fd_by_name name) g (λ o g', g' = g ∧ (o ≠ 0 → is_fd g o)).
Proof.
  intros Hg Hw Hl. destruct (sd_fd _ Hg) as (fds & Hok & _). destruct (fd_by_name_ok g fds name Hok Hw Hl) as (o & E & Ho).
  exists o, g. split_and!; [done|done|]. intros Hne. apply (is_fd_names _ _ _ Hok). naive_solver.
Qed.

Lemma sound_fd_obj g o : sound g → is_fd g o → ∃ f, fd_obj o g = Done (f, g) ∧ fd_objs (g_fd g) !! o = Some f ∧ attr_ok f.
Proof.
  intros Hg Ho. destruct (sd_fd _ Hg) as (fds & Hok & _). apply (is_fd_names _ _ _ Hok) in Ho as Hin.
  destruct (fo_objs _ _ Hok o Hin) as (f & Ef & _). exists f. split_and!; [|done|by eapply (sd_files _ Hg)].
  unfold fd_obj. by rewrite Ef.
Qed.

Lemma fd_is_const_returns g o : sound g → (o ≠ 0 → is_fd g o) → returns (fd_is_const o) g (λ _ g', g' = g).
Proof.
  intros Hg Ho. unfold fd_is_const. destruct (Z.eqb_spec o 0); [by apply returns_ret|].
  destruct (sound_fd_obj g o Hg (Ho n)) as (f & E & _). eapply returns_done; [done|by apply returns_ret].
Qed.

Lemma nothing_sound g g' : sound g → fd_frame g g' → nothing_made g g' → sound g' ∧ kept g g'.
Proof.
  intros Hg F (names' & Hok' & Hu' & Hk & _). eapply sound_fd; [done..|]. by intros ? ? ?%elem_of_nil.
Qed.

Lemma sound_new_file g name fdnum flags path : sound g → seg_wf name → seg_len name < NAME_BUF_SIZE → seg_wf path →
  fl_pipe flags = false →
  returns (fd_new_file name fdnum flags path) g (λ o g', sound g' ∧ kept g g' ∧ (o ≠ 0 → is_fd g' o)).
Proof.
  intros Hg Hw Hl Hp Hpipe. destruct (sd_fd _ Hg) as (fds & Hok & Hu).
  destruct (fd_new_file_ok g fds name fdnum flags path Hok Hu Hw Hl Hp Hpipe) as (o & g' & E & F & Hcase).
  exists o, g'. split; [done|]. destruct Hcase as [(-> & Hok' & Hobjs & _)|(Hne & names' & Hok' & Hu' & Hname & (f & n & Ef & _ & Efl & Ea & _) & Hk & _)].
  - destruct (nothing_sound g g' Hg F) as [? ?]; [by eapply lookups_kept_same|done].
  - destruct (sound_fd g g' names' [o] Hg F Hok' Hu' Hk) as [Hg' K].
    { intros p fp ->%list_elem_of_singleton Efp. simplify_eq. unfold attr_ok. rewrite Hpipe, Ea. by eexists. }
    split_and!; [done|done|]. intros _. apply (is_fd_names _ _ _ Hok').
    destruct (fd_by_name_ok g' names' name Hok' Hw Hl) as (o' & E' & Ho'). rewrite Hname in E'. injection E' as <-. naive_solver.
Qed.

Lemma sound_new_pipe g name1 n1 name2 n2 flags : sound g → seg_wf name1 → seg_len name1 < NAME_BUF_SIZE →
  seg_wf name2 → seg_len name2 < NAME_BUF_SIZE → seg_view name1 ≠ seg_view name2 →
  returns (fd_new_pipe name1 n1 name2 n2 flags) g (λ o g', sound g' ∧ kept g g' ∧
    (o ≠ 0 → is_fd g' o ∧ ∃ p, is_fd g' p ∧ returns (fd_get_pipe_peer o) g' (λ q g2, q = p ∧ g2 = g'))).
Proof.
  intros Hg Hw1 Hl1 Hw2 Hl2 Hne. destruct (sd_fd _ Hg) as (fds & Hok & Hu).
  destruct (fd_new_pipe_ok g fds name1 n1 name2 n2 flags Hok Hu Hw1 Hl1 Hw2 Hl2 Hne) as (f1 & g' & E & F & Hcase).
  exists f1, g'. split; [done|]. destruct Hcase as [(-> & Hno & _)|(H1 & names' & f2 & o1 & o2 & Hok' & Hu' & H12 & H20 & N1 & N2 & E1 & E2 & Hk & _)].
  { destruct (nothing_sound g g' Hg F Hno) as [? ?]. done. }
  destruct (sound_fd g g' names' [f1; f2] Hg F Hok' Hu' Hk) as [Hg' K].
  { intros p fp Hp Efp. rewrite !elem_of_cons in Hp. destruct Hp as [->|[->|[]%elem_of_nil]];
      simplify_eq; unfold attr_ok, pipe_end1, pipe_end2; destruct flags; cbn; by eexists. }
  split_and!; [done|done|]. intros _.
  assert (Hin : f1 ∈ names').
  { destruct (fd_by_name_ok g' names' name1 Hok' Hw1 Hl1) as (x & Ex & Hx). rewrite N1 in Ex. injection Ex as <-. naive_solver. }
  assert (Hin2 : f2 ∈ names').
  { destruct (fd_by_name_ok g' names' name2 Hok' Hw2 Hl2) as (x & Ex & Hx). rewrite N2 in Ex. injection Ex as <-. naive_solver. }
  split; [by apply (is_fd_names _ _ _ Hok')|]. exists f2. split; [by apply (is_fd_names _ _ _ Hok')|].
  exists f2, g'. split; [|done]. unfold fd_get_pipe_peer, fd_obj. unfold mbind at 1, M_bind at 1. rewrite E1. by destruct flags.
Qed.

Lemma keeps_set_nonblock n : keeps (fd_set_nonblock n) (λ _, True).
Proof.
  intros g Hg. unfold fd_set_nonblock. eapply returns_seq; [by apply keeps_sys|]. intros r g1 (Hg1 & K1 & _).
  case_match; [|by apply returns_ret]. eapply returns_seq; [by apply keeps_sys|]. intros r2 g2 (Hg2 & K2 & _).
  apply returns_ret. split_and!; [done|by transitivity g1|done].
Qed.

Lemma load_flags_pipe flags n : keeps (fd_load_flags flags n) (λ f, fl_pipe f = fl_pipe flags).
Proof.
  intros g Hg. unfold fd_load_flags. eapply returns_seq; [by apply keeps_sys|]. intros r g1 (Hg1 & K1 & _).
  eapply returns_seq; [by apply keeps_sys|]. intros r2 g2 (Hg2 & K2 & _).
  assert (K : kept g g2) by by transitivity g1.
  assert (Ef : fl_pipe (if ret r >=? 0 then flags_of_fl (ret r) flags else flags) = fl_pipe flags) by (case_match; by destruct flags).
  set (f := if ret r >=? 0 then _ else _) in *. case_match; [|by apply returns_ret].
  eapply returns_seq; [by apply keeps_sys|]. intros r3 g3 (Hg3 & K3 & _).
  assert (Hend : ∀ f', fl_pipe f' = fl_pipe f → returns (mret f') g3 (λ f g', sound g' ∧ kept g g' ∧ fl_pipe f = fl_pipe flags)).
  { intros f' E. apply returns_ret. split_and!; [done|by transitivity g2|congruence]. }
  repeat case_match; apply Hend; by destruct f.
Qed.

Lemma sound_new_unknown g name fdnum : sound g → seg_wf name → seg_len name < NAME_BUF_SIZE →
  returns (fd_new_unknown name fdnum) g (λ o g', sound g' ∧ kept g g' ∧ (o ≠ 0 → is_fd g' o)).
Proof.
  intros Hg Hw Hl. unfold fd_new_unknown. eapply returns_seq; [by apply load_flags_pipe|]. intros f g1 (Hg1 & K1 & Hf).
  eapply returns_mono; [apply sound_new_file; [done|done|done|apply STRSEG_wf|done]|]. intros o g2 (Hg2 & K2 & Ho).
  split_and!; [done|by transitivity g1|done].
Qed.

Lemma sound_fd_delete g o : sound g → is_fd g o → returns (fd_delete o) g (λ _ g', sound g' ∧ kept g g').
Proof.
  intros Hg Ho. destruct (sd_fd _ Hg) as (fds & Hok & Hu). apply (is_fd_names _ _ _ Hok) in Ho.
  destruct (fo_objs _ _ Hok o Ho) as (f & Ef & _). pose proof (fd_names_nodup _ _ Hok) as Hnd.
  apply list_elem_of_split in Ho as (l1 & l2 & En). rewrite En in Hok, Hu, Hnd.
  destruct (fd_delete_ok g l1 o l2 f Hok Ef) as (g' & E & F & Hok' & Hobjs & _).
  exists tt, g'. split; [done|]. eapply (sound_fd g g' (l1 ++ l2) []); [done|done|done| | |by intros ? ? ?%elem_of_nil].
  - unfold fd_unique in *. rewrite <-Permutation_middle, fmap_cons, NoDup_cons in Hu. destruct Hu as [_ Hu].
    erewrite list_fmap_ext; [exact Hu|]. intros i p Hp%list_elem_of_lookup_2. unfold fd_key. rewrite Hobjs by done.
    destruct (fd_objs (g_fd g) !! p); [|done]. cbn. by rewrite forget_name.
  - apply (others_kept_forget g g' (l1 ++ o :: l2) _ o); [done|]. intros p Hp. right. split; [|by apply Hobjs].
    rewrite elem_of_app, elem_of_cons in *. tauto.
Qed.

(** The event about a descriptor. *)
Lemma fd_state_lines name flags peer path : whole_lines (fd_state_msg name flags peer path).
Proof. unfold fd_state_msg. repeat case_match; apply tab_join_lines. Qed.

Lemma sound_notify_fd g dest o : sound g → is_fd g o → (∀ i, dest = Some i → (i < length (g_ctl g))%nat) →
  returns (ctl_notify_fd_state dest o) g (λ _ g', sound g' ∧ kept g g' ∧ io_frame g g').
Proof.
  intros Hg Ho Hd. destruct (sound_fd_obj g o Hg Ho) as (f & E & Ef & Ha). unfold ctl_notify_fd_state.
  assert (En : fd_get_name o g = Done (fd_name f, g)) by (unfold fd_get_name; by rewrite (bind_done _ _ _ _ _ E)).
  assert (Efl : fd_get_flags o g = Done (fd_flags f, g)) by (unfold fd_get_flags; by rewrite (bind_done _ _ _ _ _ E)).
  eapply returns_done; [exact En|]. eapply returns_done; [exact Efl|].
  assert (Hwrite : ∀ msg, whole_lines msg → returns (ctl_write dest msg) g (λ _ g', sound g' ∧ kept g g' ∧ io_frame g g')).
  { intros msg Hm. by apply sound_write. }
  destruct (fl_pipe (fd_flags f)) eqn:Hp; unfold attr_ok in Ha; rewrite Hp in Ha; destruct Ha as [p Ea].
  - eapply (returns_done _ _ _ p g).
    { unfold fd_get_pipe_peer. rewrite (bind_done _ _ _ _ _ E), Hp. unfold lift, pipe_peer. by rewrite Ea. }
    destruct (Z.eqb_spec p 0) as [->|Hp0]; cbn [negb].
    + eapply returns_done; [reflexivity|]. apply Hwrite, fd_state_lines.
    + destruct (sd_fd _ Hg) as (fds & Hok & _). apply (is_fd_names _ _ _ Hok) in Ho as Hin.
      destruct (fo_objs _ _ Hok o Hin) as (f2 & Ef2 & _ & Hpeer). simplify_eq.
      destruct (Hpeer Hp) as [?|[?|(q & fq & Eq & Hq & _ & Efq & _)]]; [congruence|congruence|].
      rewrite Ea in Eq. injection Eq as <-. eapply returns_done; [|apply Hwrite, fd_state_lines].
      unfold fd_get_name, fd_obj. unfold mbind, M_bind. rewrite Efq. reflexivity.
  - eapply (returns_done _ _ _ (Some p) g); [|apply Hwrite, fd_state_lines].
    unfold fd_get_file_path. by rewrite (bind_done _ _ _ _ _ E), Hp, Ea.
Qed.

(** ** The log *)

Lemma sound_log_only g g' : sound g → log_frame g g' → log_ok (g_log g') → sound g' ∧ kept g g'.
Proof.
  intros [(names & pids & act & sigw & Hok & _ & Hctl) Hp (fds & Hf & Hu) Hfiles Hs Hm Hz] F Hl. split.
  - split.
    + exists names, pids, act, sigw. split; [apply (svc_ok_same g); [done|apply F..]|]. split; [done|]. by rewrite (lf_ctl _ _ F).
    + by rewrite (lf_svc _ _ F).
    + exists fds. split; [apply (fd_ok_same g); [done|apply F..]|]. unfold fd_unique. by rewrite (lf_fd _ _ F).
    + unfold is_fd. rewrite (lf_fd _ _ F). exact Hfiles.
    + by rewrite (lf_sig _ _ F).
    + by rewrite (lf_main _ _ F).
    + by rewrite (lf_ctl _ _ F).
  - apply kept_svc; [apply F|]. unfold is_svc. by rewrite (lf_svc _ _ F).
Qed.

Lemma sound_on_log g f : sound g → (log_ok (g_log g) → log_ok (f (g_log g))) → sound (on_log f g) ∧ kept g (on_log f g).
Proof. intros Hg Hf. apply sound_log_only; [done|by split|]. apply Hf. apply (sound_ctls _ Hg). Qed.

Lemma keeps_log_flush_fd g : sound g → returns log_flush g (λ _ g', sound g' ∧ kept g g' ∧ log_fd (g_log g') = log_fd (g_log g)).
Proof.
  intros Hg. destruct (log_flush_spec g (proj1 (sound_ctls _ Hg))) as (b & g' & tr & E & Hfl & _).
  exists b, g'. split; [done|]. destruct (sound_log_only g g' Hg) as [? ?]; [apply Hfl..|]. split_and!; [done|done|apply Hfl].
Qed.

Lemma keeps_log_flush : keeps log_flush (λ _, True).
Proof. intros g Hg. eapply returns_mono; [by apply keeps_log_flush_fd|]. by intros b g' (? & ? & _). Qed.

(** The log writes to the descriptor it had, or to one that has a name. *)
Definition log_fd_from (g g' : G) : Prop := log_fd (g_log g') = log_fd (g_log g) ∨
  ∃ o f, is_fd g o ∧ fd_objs (g_fd g) !! o = Some f ∧ log_fd (g_log g') = fd_fd f.

Lemma keeps_log_attach g : sound g → Z.of_nat (length (log_dest_fd_name (g_log g))) < NAME_BUF_SIZE →
  returns log_fd_attach g (λ b g', sound g' ∧ kept g g' ∧ (b = true → 0 ≤ log_fd (g_log g') ∧ log_fd_from g g')).
Proof.
  intros Hg Hn. unfold log_fd_attach. eapply returns_done; [reflexivity|].
  eapply (returns_seq _ _ _ (λ _ g', sound g' ∧ kept g g' ∧ log_fd_from g g')).
  { destruct (_ && _); [|by apply returns_ret; split_and!; [..|left]].
    eapply returns_seq; [apply sound_fd_by_name; [done|apply STRSEG_wf|done]|]. intros o g1 (-> & Ho).
    destruct (Z.eqb_spec o 0); cbn [negb]; [by apply returns_ret; split_and!; [..|left]|]. destruct (sound_fd_obj g o Hg (Ho n)) as (f & E & Ef & _).
    eapply (returns_done _ _ _ (fd_fd f) g); [unfold fd_get_fdnum; by rewrite (bind_done _ _ _ _ _ E)|].
    eexists tt, _. split; [reflexivity|]. destruct (sound_on_log g (set_log_fd (fd_fd f)) Hg) as [? ?]; [done|].
    split_and!; [done|done|]. right. exists o, f. split; [by apply Ho|done]. }
  intros _ g1 (Hg1 & K1 & F1). eapply returns_done; [reflexivity|]. destruct (Z.ltb_spec (log_fd (g_log g1)) 0) as [|Hfd].
  { eapply returns_done; [reflexivity|]. apply returns_ret. destruct (sound_on_log g1 (set_log_blocked true) Hg1) as [? ?]; [done|].
    split_and!; [done|by transitivity g1|done]. }
  eapply returns_done; [reflexivity|].
  destruct (sound_on_log g1 (λ l, set_log_blocked_next_attempt 0 (set_log_blocked false l)) Hg1) as [Hg2 K2]; [done|].
  set (g2 := on_log _ g1) in *. assert (K : kept g g2) by by transitivity g1.
  eapply (returns_seq _ _ _ (λ _ g', sound g' ∧ kept g2 g' ∧ log_fd (g_log g') = log_fd (g_log g1))).
  { destruct (negb _); cbn [when]; [|by apply returns_ret]. eapply returns_seq; [by apply keeps_log_flush_fd|].
    intros b g3 (Hg3 & K3 & E3). by apply returns_ret. }
  intros _ g3 (Hg3 & K3 & E3). apply returns_ret. split_and!; [done|by transitivity g2|]. intros _. unfold log_fd_from. by rewrite E3.
Qed.

Lemma sound_log_set_name g name : sound g → seg_wf name → seg_len name < NAME_BUF_SIZE →
  returns (log_fd_set_name name) g (λ _ g', sound g' ∧ kept g g').
Proof.
  intros Hg Hw Hl. unfold log_fd_set_name, log_fd_reset.
  eapply returns_done; [reflexivity|].
  rewrite (proj2 (Z.ltb_lt (seg_len name) NAME_BUF_SIZE)) by done. eapply returns_done; [reflexivity|].
  eapply returns_done; [unfold lift; rewrite seg_str_ok by done; reflexivity|]. eapply returns_done; [reflexivity|].
  match goal with |- returns _ ?g1 _ => set (g2 := g1) end.
  assert (Hg2 : sound g2 ∧ kept g g2).
  { apply (sound_on_log g (λ l, set_log_dest_fd_name (seg_view name) (set_log_blocked_next_attempt 0
      (set_log_blocked true (set_log_fd (-1) l)))) Hg). done. }
  destruct Hg2 as [Hg2 K2]. eapply returns_seq; [apply (keeps_log_attach g2); [done|]|].
  - cbn. by rewrite seg_view_length.
  - intros b g3 (Hg3 & K3 & _). apply returns_ret. split; [done|by transitivity g2].
Qed.
End fd.
