(* ===== verification/SoundArg.v ===== *)
(** * Taking the arguments of a command

    [at_cmd i n fs g] says that between two steps of a command of controller [i] the
    daemon is sound and the fields [fs] of the command line are left.  The functions
    that take an argument off return, keep that, and give a string that may be read. *)

From S2P Require Import Prelude Strseg State RBTree RBTreeRep OrdIndex RBTreeIndex Table Log Signal SignalSpec CtlOut CtlOutSpec SvcVars Fd FdSpec CtlObj Service Dll ServiceSpec SvcRun SvcActive SvcNew SvcLists Sound SoundSvc CtlArg CtlSock Fatal Options CtlCmd SoundFd.

(** ** What is left of a command line *)

(** The text ends at a NUL; after the last field the length is -1. *)
Record cmd_seg (s : strseg_t) : Prop := {
  cs_off : 0 ≤ seg_off s;
  cs_len : -1 ≤ seg_len s;
  cs_pos : 0 ≤ seg_off s + seg_len s;
  cs_nul : NUL ∉ seg_view s;
  cs_end : seg_buf s !! Z.to_nat (seg_off s + seg_len s) = Some NUL;
}.

Definition fields (s : strseg_t) : list (list Z) := if seg_len s <? 0 then [] else split_on TAB (seg_view s).

(** An argument: a string without NULs in an array that has a NUL further on. *)
Record arg_ok (s : strseg_t) : Prop := {
  ao_wf : seg_wf s;
  ao_nul : NUL ∉ seg_view s;
  ao_end : ∃ k, seg_off s + seg_len s ≤ k ∧ seg_buf s !! Z.to_nat k = Some NUL;
}.

Definition at_nul (s : strseg_t) : Prop := seg_at s (seg_len s) = Done NUL.

Lemma cmd_seg_wf s : cmd_seg s → 0 ≤ seg_len s → seg_wf s.
Proof. intros [? ? ? ? He%lookup_lt_Some] ?. unfold seg_wf. lia. Qed.

Lemma cmd_tok_seg s : cmd_seg s → tok_seg s.
Proof. intros Hc. destruct (Z.ltb_spec (seg_len s) 0) as [H|H]; [right; pose proof (cs_len _ Hc); lia|left; by apply cmd_seg_wf]. Qed.

Lemma cmd_arg_ok s : cmd_seg s → 0 ≤ seg_len s → arg_ok s.
Proof. intros Hc Hl. split; [by apply cmd_seg_wf|apply Hc|]. exists (seg_off s + seg_len s). split; [done|apply Hc]. Qed.

(** One field off the line. *)
Lemma cmd_tok s : cmd_seg s → ∃ more rest arg, strseg_tok_next s TAB = Done (more, rest, arg) ∧ cmd_seg rest ∧
  fields rest = tl (fields s) ∧
  match fields s with
  | [] => more = false
  | f :: fs => more = true ∧ arg_ok arg ∧ seg_view arg = f ∧ (fs = [] → at_nul arg)
  end.
Proof.
  intros Hc. unfold fields at 2 3. destruct (Z.ltb_spec (seg_len s) 0) as [Hneg|Hpos].
  { exists false, s, s. rewrite strseg_tok_next_done by done. split_and!; [done..| |done].
    unfold fields. by rewrite (proj2 (Z.ltb_lt _ _)). }
  pose proof (cmd_seg_wf s Hc Hpos) as Hwf. pose proof (seg_view_length s Hwf) as Hlen.
  pose proof (sep_index_le TAB (seg_view s)) as Hk. set (k := sep_index TAB (seg_view s)) in *.
  exists true, (seg_advance s (Z.of_nat k + 1)), (Seg (seg_buf s) (seg_off s) (Z.of_nat k)).
  assert (Hv : seg_view (Seg (seg_buf s) (seg_off s) (Z.of_nat k)) = take k (seg_view s)).
  { rewrite seg_prefix_view by (done || lia). by rewrite Nat2Z.id. }
  assert (Harg : arg_ok (Seg (seg_buf s) (seg_off s) (Z.of_nat k))).
  { split; [apply seg_prefix_wf; [done|lia]| |].
    - rewrite Hv. by apply view_take_sub, Hc.
    - exists (seg_off s + seg_len s). cbn. split; [lia|apply Hc]. }
  assert (Hrest : cmd_seg (seg_advance s (Z.of_nat k + 1)) ∧ fields (seg_advance s (Z.of_nat k + 1)) = tl (split_on TAB (seg_view s))).
  { assert (Hend : seg_off s + (Z.of_nat k + 1) + (seg_len s - (Z.of_nat k + 1)) = seg_off s + seg_len s) by lia.
    rewrite split_on_index. fold k. cbn [tl].
    destruct (Nat.ltb_spec k (length (seg_view s))) as [Hlt|Hge].
    - assert (Hv' : seg_view (seg_advance s (Z.of_nat k + 1)) = drop (S k) (seg_view s)).
      { rewrite seg_advance_view by (done || lia). f_equal. lia. }
      split.
      + destruct Hc as [H1 H2 H3 H4 H5]. split; cbn; [lia..| |by rewrite Hend]. rewrite Hv'. intros Hin%list_elem_of_lookup.
        destruct Hin as (j & Hj). rewrite lookup_drop in Hj. by apply H4, (list_elem_of_lookup_2 _ _ _ Hj).
      + unfold fields. cbn [seg_len seg_advance]. destruct (Z.ltb_spec (seg_len s - (Z.of_nat k + 1)) 0); [lia|]. by rewrite Hv'.
    - split.
      + destruct Hc as [H1 H2 H3 H4 H5]. split; cbn; [lia..| |by rewrite Hend]. unfold seg_view. cbn.
        replace (Z.to_nat (seg_len s - (Z.of_nat k + 1))) with O by lia. apply not_elem_of_nil.
      + unfold fields. cbn [seg_len seg_advance]. destruct (Z.ltb_spec (seg_len s - (Z.of_nat k + 1)) 0); [done|lia]. }
  destruct Hrest as [Hr1 Hr2]. split_and!; [|done..|].
  { unfold strseg_tok_next. destruct (Z.ltb_spec (seg_len s) 0); [lia|]. rewrite strseg_scan_0 by done. done. }
  rewrite split_on_index. fold k. split_and!; [done|done|done|].
  destruct (Nat.ltb_spec k (length (seg_view s))) as [Hlt|Hge]; [intros E; by destruct (split_on_ne TAB (drop (S k) (seg_view s)))|].
  intros _. unfold at_nul, seg_at. cbn. destruct Hc as [H1 H2 H3 H4 H5].
  destruct (Z.ltb_spec (seg_off s + Z.of_nat k) 0); [lia|]. replace (seg_off s + Z.of_nat k) with (seg_off s + seg_len s) by lia. by rewrite H5.
Qed.

Lemma STRMATCH_ok s flag : seg_wf s → STRMATCH s flag = Done (bool_decide (seg_view s = flag)).
Proof.
  intros Hwf. unfold STRMATCH. pose proof (seg_view_length s Hwf). destruct (Z.eqb_spec (seg_len s) (Z.of_nat (length flag))) as [E|E].
  - rewrite seg_str_ok by done. done.
  - rewrite bool_decide_eq_false_2; [done|]. intros <-. lia.
Qed.

Lemma seg_fmt_ok s : seg_wf s → ∃ l, seg_fmt s = Done l.
Proof.
  intros Hwf. unfold seg_fmt. destruct (Z.ltb_spec (seg_len s) 0); [unfold seg_wf in *; lia|].
  assert (Hl : ∀ n i, 0 ≤ i → i + Z.of_nat n ≤ seg_len s → ∃ l, seg_fmt_loop n s i = Done l).
  { induction n as [|n IH]; intros i Hi Hn; cbn [seg_fmt_loop]; [by eexists|].
    destruct (seg_at_ok s i Hwf) as (c & ->); [lia|]. cbn [mbind outcome_bind]. destruct (c =? NUL); [by eexists|].
    destruct (IH (i + 1)) as (l & ->); [lia..|]. by eexists. }
  apply Hl; lia.
Qed.

(** The value of a field that is an integer and nothing else. *)
Definition int_field (f : list Z) : option Z :=
  match atoi_ref f with Some (k, v) => if (k <? length f)%nat then None else Some (wrap64 v) | None => None end.

Lemma arg_int_field s : seg_wf s → arg_int (Some s) = Done (int_field (seg_view s)).
Proof.
  intros Hwf. unfold arg_int, int_field. rewrite strseg_atoi_spec by done. cbn [mbind outcome_bind].
  destruct (atoi_ref (seg_view s)) as [[k v]|] eqn:E; [|done]. cbn [seg_len seg_advance].
  pose proof (seg_view_length s Hwf). pose proof (atoi_ref_le _ _ _ E).
  destruct (Z.gtb_spec (seg_len s - Z.of_nat k) 0), (Nat.ltb_spec k (length (seg_view s))); (done || lia).
Qed.

(** ** The state between two steps of a command *)

Lemma sound_set_ctl g i c c' : sound g → g_ctl g !! i = Some c → out_ok c' → 0 ≤ last_signal_ts c' < 2 ^ 62 →
  sound (set_g_ctl (<[i := c']> (g_ctl g)) g).
Proof.
  intros [(names & pids & act & sigw & Hok & Hlog & Hctl) Hp (fds & Hf & Hu) Hfiles Hs Hm Hz] Hi Ho Ht. split; [|done|exists fds|done|done|done|].
  - exists names, pids, act, sigw. split; [by apply (svc_ok_same g)|]. split; [done|]. intros j cj. cbn.
    destruct (decide (j = i)) as [->|Hne]; [|rewrite list_lookup_insert_ne by done; apply Hctl].
    rewrite list_lookup_insert_eq by (by eapply lookup_lt_Some). by intros [= <-].
  - split; [by apply (fd_ok_same g)|done].
  - intros j cj. cbn. destruct (decide (j = i)) as [->|Hne]; [|rewrite list_lookup_insert_ne by done; apply Hz].
    rewrite list_lookup_insert_eq by (by eapply lookup_lt_Some). by intros [= <-].
Qed.

(** The parts of a controller that commands set. *)
Definition quiet_upd (f : controller_t → controller_t) : Prop :=
  ∀ c, command (f c) = command c ∧ send_buf (f c) = send_buf c ∧ last_signal_ts (f c) = last_signal_ts c.

Section at_cmd.
Context `{OS} `{!WriteOk}.
Variables (i n : nat).

Record at_cmd (fs : list (list Z)) (g : G) : Prop := {
  ac_sound : sound g;
  ac_len : length (g_ctl g) = n;
  ac_ctl : ∃ c, g_ctl g !! i = Some c ∧ cmd_seg (command c) ∧ fields (command c) = fs;
}.

(** The command returns, and the daemon is sound. *)
Definition finishes (m : DP bool) (g : G) : Prop := returns m g (λ _ g', sound g' ∧ length (g_ctl g') = n).

(** [g'] has the services of [g], and the fields [fs] are left. *)
Definition step_to (fs : list (list Z)) (g g' : G) : Prop := at_cmd fs g' ∧ ∀ o, is_svc g o → is_svc g' o.

Lemma at_cmd_kept fs g g' : at_cmd fs g → sound g' → kept g g' → step_to fs g g'.
Proof.
  intros [Hg Hn (c & Hi & Hc & Hf)] Hg' K. split; [|apply K]. split; [done|by rewrite (kp_len _ _ K)|].
  destruct (kp_cmd _ _ K i c Hi) as (c' & Hi' & E). exists c'. by rewrite E.
Qed.

Lemma step_to_refl fs g : at_cmd fs g → step_to fs g g.
Proof. by split. Qed.

Lemma step_to_trans fs1 fs2 g1 g2 g3 : step_to fs1 g1 g2 → step_to fs2 g2 g3 → step_to fs2 g1 g3.
Proof. intros [_ H1] [? H2]. split; [done|auto]. Qed.

Lemma at_cmd_get fs g : at_cmd fs g → ∃ c, get_ctl i g = Done (c, g) ∧ g_ctl g !! i = Some c ∧ cmd_seg (command c) ∧ fields (command c) = fs.
Proof. intros [_ _ (c & Hi & Hc)]. exists c. split; [by apply get_ctl_eq|done]. Qed.

Lemma at_cmd_dest fs g : at_cmd fs g → ∀ j, Some i = Some j → (j < length (g_ctl g))%nat.
Proof. intros [_ _ (c & Hi & _)] ? [= <-]. by eapply lookup_lt_Some. Qed.

Lemma sound_out_ok g j c : sound g → g_ctl g !! j = Some c → out_ok c.
Proof. intros Hg Hj. by eapply (sound_ctls _ Hg). Qed.

Lemma at_cmd_upd fs g f : at_cmd fs g → quiet_upd f → returns (upd_ctl i f) g (λ _ g', step_to fs g g').
Proof.
  intros [Hg Hn (c & Hi & Hc & Hf)] Hq. destruct (Hq c) as (E1 & E2 & E3).
  eexists tt, _. split; [by apply upd_ctl_eq|]. split; [|done]. split.
  - eapply sound_set_ctl; [done..| |by rewrite E3; eapply sd_seen]. destruct (sound_out_ok g i c Hg Hi). unfold out_ok. by rewrite E2.
  - cbn. by rewrite length_insert.
  - exists (f c). cbn. rewrite list_lookup_insert_eq by (by eapply lookup_lt_Some). by rewrite E1.
Qed.

Lemma step_fail {A} fs g msg (a : A) : at_cmd fs g → returns (fail_with i msg a) g (λ r g', r = a ∧ step_to fs g g').
Proof.
  intros Hg. eapply returns_seq; [by apply (at_cmd_upd fs)|]. intros ? g' Hs. by apply returns_ret.
Qed.

Lemma finishes_ret fs g b : at_cmd fs g → finishes (mret b) g.
Proof. intros [? ? _]. by apply returns_ret. Qed.

Lemma finishes_fail fs g msg b : at_cmd fs g → finishes (fail_with i msg b) g.
Proof. intros Hg. eapply returns_mono; [by apply (step_fail fs)|]. by intros r g' (_ & [[] _]). Qed.

(** A step that keeps everything, then the rest of the command. *)
Lemma step_kept {A B} (m : DP A) (f : A → DP B) fs g (P : A → G → Prop) Q : at_cmd fs g →
  returns m g (λ a g', sound g' ∧ kept g g' ∧ P a g') → (∀ a g', step_to fs g g' → P a g' → returns (f a) g' Q) → returns (m ≫= f) g Q.
Proof.
  intros Hg Hm Hf. eapply returns_seq; [exact Hm|]. intros a g' (Hg' & K & HP). apply Hf; [|done]. by apply at_cmd_kept.
Qed.

Lemma step_kept_only {A B} (m : DP A) (f : A → DP B) fs g Q : at_cmd fs g →
  returns m g (λ a g', sound g' ∧ kept g g') → (∀ a g', step_to fs g g' → returns (f a) g' Q) → returns (m ≫= f) g Q.
Proof.
  intros Hg Hm Hf. eapply (step_kept _ _ _ _ (λ _ _, True)); [done| |auto]. eapply returns_mono; [exact Hm|]. by intros ? ? [].
Qed.

Lemma step_lift {A B} (o : outcome A) a (f : A → DP B) g Q : o = Done a → returns (f a) g Q → returns (lift o ≫= f) g Q.
Proof. intros -> Hf. by eapply returns_done. Qed.

Lemma step_keeps {A B} (m : DP A) (f : A → DP B) fs g P Q : at_cmd fs g → keeps m P →
  (∀ a g', step_to fs g g' → P a → returns (f a) g' Q) → returns (m ≫= f) g Q.
Proof. intros Hg Hm Hf. eapply (step_kept _ _ _ _ (λ a _, P a)); [done| |exact Hf]. apply Hm, Hg. Qed.

Lemma step_write {B} dest msg (f : bool → DP B) fs g Q : at_cmd fs g → whole_lines msg → dest = None ∨ dest = Some i →
  (∀ b g', step_to fs g g' → returns (f b) g' Q) → returns (ctl_write dest msg ≫= f) g Q.
Proof.
  intros Hg Hm Hd Hf. eapply (step_kept_only _ _ fs); [done| |exact Hf].
  eapply returns_mono; [apply sound_write; [apply Hg|done|]|by intros ? ? (? & ? & _)].
  intros j. destruct Hd as [->| ->]; [done|]. by apply (at_cmd_dest fs).
Qed.

(** ** The functions that take an argument off *)

(** The answer: the field that was first, as a string. *)
Definition takes (fs : list (list Z)) (arg : option strseg_t) : Prop :=
  match fs with
  | [] => arg = None
  | f :: fs => ∃ s, arg = Some s ∧ arg_ok s ∧ seg_view s = f ∧ (fs = [] → at_nul s)
  end.

Lemma step_tok fs g : at_cmd fs g → returns (tok_command i) g (λ arg g', takes fs arg ∧ step_to (tl fs) g g').
Proof.
  intros Hg. destruct (at_cmd_get fs g Hg) as (c & Eg & Hi & Hc & Hf).
  destruct (cmd_tok (command c) Hc) as (more & rest & arg & Et & Hr & Hfr & Hm). rewrite Hf in Hm, Hfr.
  unfold tok_command. eapply returns_done; [exact Eg|]. eapply step_lift; [exact Et|]. cbn beta iota.
  eapply returns_done; [by apply upd_ctl_eq|]. apply returns_ret. split.
  - destruct fs as [|f fs]; cbn; [by rewrite Hm|]. destruct Hm as (-> & Ha & Hv & Hend). by exists arg.
  - split; [|done]. destruct Hg as [Hs Hn _]. split.
    + eapply sound_set_ctl; [done..|exact (sound_out_ok g i c Hs Hi)|exact (sd_seen g Hs i c Hi)].
    + cbn. by rewrite length_insert.
    + exists (set_command rest c). cbn. by rewrite list_lookup_insert_eq by (by eapply lookup_lt_Some).
Qed.

Lemma step_peek fs g : at_cmd fs g → returns (ctl_peek_arg i) g (λ arg g', g' = g ∧ takes fs arg).
Proof.
  intros Hg. destruct (at_cmd_get fs g Hg) as (c & Eg & Hi & Hc & Hf).
  destruct (cmd_tok (command c) Hc) as (more & rest & arg & Et & Hr & Hfr & Hm). rewrite Hf in Hm, Hfr.
  unfold ctl_peek_arg. eapply returns_done; [exact Eg|]. eapply step_lift; [exact Et|]. cbn beta iota.
  apply returns_ret. split; [done|]. destruct fs as [|f fs]; cbn; [by rewrite Hm|]. destruct Hm as (-> & Ha & Hv & Hend). by exists arg.
Qed.

Lemma takes_wf fs arg : takes fs arg → ∀ s, arg = Some s → seg_wf s.
Proof. destruct fs as [|f fs]; cbn; [by intros ->|]. intros (s & -> & [? _ _] & _) ? [= <-]. done. Qed.

Lemma step_arg fs g : at_cmd fs g → returns (ctl_get_arg i) g (λ arg g', takes fs arg ∧ step_to (tl fs) g g').
Proof.
  intros Hg. unfold ctl_get_arg. eapply returns_seq; [by apply step_tok|]. intros arg g1 (Ht & Hs).
  destruct arg as [s|]; [by apply returns_ret|].
  eapply returns_mono; [apply (step_fail (tl fs)), Hs|]. intros r g2 (-> & Hs2). split; [done|]. by eapply step_to_trans.
Qed.

Lemma takes_int fs arg : takes fs arg → arg_int arg = Done (head fs ≫= int_field).
Proof. destruct fs as [|f fs]; cbn; [by intros ->|]. intros (s & -> & [? _ _] & <- & _). by apply arg_int_field. Qed.

(** What the functions with a number return. *)
Lemma step_number {A} (w : Z → A) msg fs g : at_cmd fs g →
  returns (arg ← tok_command i; v ← lift (arg_int arg);
           match v with Some v => mret (Some (w v)) | None => fail_with i msg None end) g
    (λ v g', v = w <$> (head fs ≫= int_field) ∧ step_to (tl fs) g g').
Proof.
  intros Hg. eapply returns_seq; [by apply step_tok|]. intros arg g1 (Ht & Hs).
  eapply step_lift; [by apply takes_int|]. destruct (head fs ≫= int_field); [by apply returns_ret|].
  eapply returns_mono; [apply (step_fail (tl fs)), Hs|]. intros r g2 (-> & Hs2). split; [done|]. by eapply step_to_trans.
Qed.

Lemma step_int fs g : at_cmd fs g →
  returns (ctl_get_arg_int i) g (λ v g', v = head fs ≫= int_field ∧ step_to (tl fs) g g').
Proof.
  intros Hg. eapply returns_mono; [by apply (step_number id)|]. intros v g' (-> & Hs). split; [|done].
  by destruct (_ ≫= _).
Qed.

Lemma step_ts fs g : at_cmd fs g → returns (ctl_get_arg_ts i) g (λ _ g', step_to (tl fs) g g').
Proof. intros Hg. eapply returns_mono; [by apply (step_number (λ v, wrap64 (Z.shiftl v 32)))|]. by intros v g' (_ & Hs). Qed.

(** A field that is no name of a service: the end of the two functions below. *)
Lemma step_fail_none {A} fs g g0 msg (P : A → G → Prop) : step_to fs g0 g →
  returns (fail_with i msg None) g (λ r g', step_to fs g0 g' ∧ ∀ x, r = Some x → P x g').
Proof.
  intros Hs. eapply returns_mono; [apply (step_fail fs), Hs|]. intros r g' (-> & Hs'). split; [by eapply step_to_trans|done].
Qed.

(** A name that was accepted. *)
Lemma legal_name_ok k : legal_name k → name_ok k ∧ Z.of_nat (length k) < NAME_BUF_SIZE.
Proof.
  intros [Hl Hf]. rewrite Forall_forall in Hf. split; [|done]. split; intros Hin; apply Hf in Hin; by vm_compute in Hin.
Qed.

Lemma step_service existing fs g : at_cmd fs g → returns (ctl_get_arg_service i existing) g (λ r g',
  step_to (tl fs) g g' ∧ ∀ x, r = Some x → is_svc g' x.2).
Proof.
  intros Hg. unfold ctl_get_arg_service. eapply returns_seq; [by apply step_tok|]. intros arg g1 (Ht & Hs).
  pose proof (takes_wf _ _ Ht) as Hwf. destruct arg as [name|]; [|by apply step_fail_none].
  specialize (Hwf name eq_refl). destruct (Z.eqb_spec (seg_len name) 0) as [|Hlen]; [by apply step_fail_none|].
  destruct (svc_check_name_spec name Hwf) as (ok & Eok & Hok). eapply step_lift; [exact Eok|].
  destruct ok; cbn [negb]; [|by apply step_fail_none].
  destruct Hs as [Hg1 Hs]. eapply (step_kept _ _ (tl fs)); [done|apply sound_by_name; [apply Hg1|done|unfold seg_wf in Hwf; lia]|].
  intros o g2 Hs2 Ho. assert (Hs3 : step_to (tl fs) g g2) by by eapply step_to_trans; [split; [exact Hg1|]|].
  destruct (Z.eqb_spec o 0) as [|Hne]; [by apply step_fail_none|].
  apply returns_ret. split; [done|]. intros x [= <-]. auto.
Qed.

Lemma step_fd existing assignable fs g : at_cmd fs g → returns (ctl_get_arg_fd i existing assignable) g (λ r g',
  step_to (tl fs) g g' ∧ ∀ x, r = Some x → (arg_ok x.1 ∧ head fs = Some (seg_view x.1) ∧ seg_len x.1 < NAME_BUF_SIZE) ∧
    (x.2 ≠ 0 → is_fd g' x.2) ∧ (existing = true → x.2 ≠ 0)).
Proof.
  intros Hg. unfold ctl_get_arg_fd. eapply returns_seq; [by apply step_tok|]. intros arg g1 (Ht & Hs).
  destruct fs as [|f fs]; cbn in Ht; [subst arg; by apply step_fail_none|]. destruct Ht as (name & -> & Ha & Hv & _).
  pose proof (ao_wf _ Ha) as Hwf. destruct (Z.eqb_spec (seg_len name) 0) as [|Hlen]; [by apply step_fail_none|].
  destruct (svc_check_name_spec name Hwf) as (ok & Eok & Hok). eapply step_lift; [exact Eok|].
  destruct ok; cbn [negb]; [|by apply step_fail_none].
  assert (Hl : seg_len name < NAME_BUF_SIZE) by (rewrite <-(seg_view_length name Hwf); by apply legal_name_ok, Hok).
  eapply returns_seq; [apply sound_fd_by_name; [apply Hs|done..]|]. intros o g2 (-> & Ho).
  eapply (returns_seq _ _ _ (λ _ g', g' = g1)).
  { destruct assignable; [by apply fd_is_const_returns; [apply Hs|]|by apply returns_ret]. }
  intros const g3 ->. destruct const; [by apply step_fail_none|].
  destruct (existing && (o =? 0)) eqn:Ee; [by apply step_fail_none|].
  apply returns_ret. split; [done|]. intros x [= <-]. cbn. split; [by rewrite Hv|]. split; [done|]. intros -> ->. done.
Qed.

Lemma step_signal fs g : at_cmd fs g → returns (ctl_get_arg_signal i) g (λ r g', step_to (tl fs) g g').
Proof.
  intros Hg. unfold ctl_get_arg_signal. eapply returns_seq; [by apply step_tok|]. intros arg g1 (Ht & Hs).
  assert (Hfail : ∀ msg, returns (fail_with i msg (None : option Z)) g1 (λ r g', step_to (tl fs) g g')).
  { intros msg. eapply returns_mono; [eapply (step_fail_none _ _ _ msg (λ _ _, True)); exact Hs|]. by intros ? ? []. }
  pose proof (takes_wf _ _ Ht) as Hwf. destruct arg as [name|]; [|apply Hfail].
  specialize (Hwf name eq_refl). destruct (Z.eqb_spec (seg_len name) 0) as [|Hlen]; [apply Hfail|].
  destruct (seg_at_ok name 0 Hwf) as (c & Ec); [unfold seg_wf in Hwf; lia|]. eapply step_lift; [exact Ec|].
  destruct (_ && _).
  - assert (Hv : ∃ v, arg_signum name = Done v) by (unfold arg_signum; rewrite strseg_atoi_spec by done; by eexists).
    destruct Hv as (v & Ev). eapply step_lift; [exact Ev|]. destruct v; [by apply returns_ret|apply Hfail].
  - destruct (sig_num_ok name Hwf) as (m & Em). eapply step_lift; [exact Em|].
    destruct (0 >? m); [apply Hfail|by apply returns_ret].
Qed.
End at_cmd.
