(* ===== verification/SoundSock.v ===== *)
(** * The control socket keeps the daemon sound *)

From S2P Require Import Prelude Strseg State RBTree RBTreeRep OrdIndex RBTreeIndex Table Log Signal SignalSpec CtlOut CtlOutSpec SvcVars Fd FdSpec CtlObj Service Dll ServiceSpec SvcRun SvcActive SvcNew SvcLists Sound SoundSvc CtlArg CtlSock Fatal Options CtlCmd SoundFd SoundArg.

(** The limit on descriptors is at most the size of an [fd_set]. *)
Class SocketOk `{OS} : Prop :=
  socket_fits tr domain type : ret (os tr (CSocket domain type)) < FD_SETSIZE.

#[export] Instance ideal_socket_ok : @SocketOk ideal_os.
Proof. intros tr d t. vm_compute. done. Qed.

(** ** Signals that were seen *)

Lemma mark_seen_0 a count : sig_inv a → 0 ≤ count < 2 ^ 31 → mark_seen_loop a 0 count = a.
Proof.
  intros (used & -> & Hf & _) Hc. generalize (16 - length used)%nat as k. intros k.
  induction Hf as [|s used [Hs Hp] Hf IH]; cbn [app mark_seen_loop].
  - destruct k as [|k]; [done|]. cbn [replicate mark_seen_loop]. rewrite Z.eqb_refl. cbn zeta.
    rewrite wrap32_small by (unfold in32; cbn; lia).
    destruct (Z.ltb_spec (number_pending sig_slot_0 - count) 0) as [|Hge]; [done|].
    cbn in Hge. by assert (count = 0) as -> by lia.
  - rewrite IH, (proj2 (Z.eqb_neq (signum s) 0)); [done|]. by apply handled_nz.
Qed.

Lemma mark_seen_ok a sig count : sigs_ok a → 0 ≤ count < 2 ^ 31 → sigs_ok (mark_seen_loop a sig count).
Proof.
  intros [Hinv Hts Hd] Hc. destruct (decide (sig = 0)) as [->|Hsig]; [by rewrite mark_seen_0|].
  pose proof (mark_seen_inv a sig count Hinv Hsig) as Hinv'.
  assert (Hold : ∀ s, s ∈ mark_seen_loop a sig count → 0 < number_pending s →
    ∃ s0, s0 ∈ a ∧ 0 < number_pending s0 ∧ signum s0 = signum s ∧ last_received_ts s0 = last_received_ts s).
  { intros s Hs Hp. destruct (mark_seen_elem a sig count s Hs) as [?|(s0 & H0 & E & ->)]; [by exists s|]. exists s0.
    split_and!; [done| |done|done]. cbn in Hp. destruct Hinv as (used & -> & Hf & _). rewrite Forall_forall in Hf.
    apply elem_of_app in H0 as [H0|H0].
    - destruct (Hf s0 H0) as [_ Hn]. destruct (Z.eq_dec (number_pending s0) 0) as [E0|]; [|lia].
      rewrite E0, wrap32_small in Hp by (unfold in32; lia). case_match; lia.
    - apply elem_of_replicate in H0 as [-> _]. cbn in E. congruence. }
  split; [done| |].
  - rewrite Forall_forall in Hts |- *. intros s Hs Hp. destruct (Hold s Hs Hp) as (s0 & H0 & Hp0 & _ & <-). by apply Hts.
  - intros s1 s2 H1 H2 Hp1 E Hp2. destruct (Hold s1 H1 Hp1) as (t1 & Ht1 & Hq1 & En1 & Et1), (Hold s2 H2 Hp2) as (t2 & Ht2 & Hq2 & En2 & Et2).
    assert (t1 = t2) as -> by (apply Hd; [done..|congruence|done]).
    destruct Hinv' as (used & E' & _ & Hnd). rewrite E' in H1, H2.
    assert (Hin : ∀ s, s ∈ used ++ replicate (16 - length used) sig_slot_0 → 0 < number_pending s → s ∈ used).
    { intros s [?|[-> _]%elem_of_replicate]%elem_of_app Hp; [done|]. cbn in Hp. lia. }
    destruct (list_elem_of_lookup_1 used s1 (Hin s1 H1 Hp1)) as (k1 & Hk1).
    destruct (list_elem_of_lookup_1 used s2 (Hin s2 H2 Hp2)) as (k2 & Hk2).
    assert (k1 = k2) as ->; [|congruence]. apply (NoDup_lookup (signum <$> used) k1 k2 (signum s1)); [done|..].
    + by rewrite list_lookup_fmap, Hk1.
    + rewrite list_lookup_fmap, Hk2. cbn. congruence.
Qed.

(** ** Computations that keep the daemon sound, put together *)

Section keeps.
Context `{OS} `{!WriteOk}.

Lemma keeps_ret {A} (a : A) (P : A → Prop) : P a → keeps (mret a) P.
Proof. intros HP g Hg. by apply returns_ret. Qed.

Lemma keeps_seq {A B} (m : DP A) (f : A → DP B) P Q : keeps m P → (∀ a, P a → keeps (f a) Q) → keeps (m ≫= f) Q.
Proof.
  intros Hm Hf g Hg. eapply returns_seq; [by apply Hm|]. intros a g1 (Hg1 & K1 & HP).
  eapply returns_mono; [by apply (Hf a HP)|]. intros b g2 (Hg2 & K2 & HQ). split_and!; [done|by transitivity g1|done].
Qed.

Lemma keeps_mono {A} (m : DP A) (P Q : A → Prop) : keeps m P → (∀ a, P a → Q a) → keeps m Q.
Proof. intros Hm HPQ g Hg. eapply returns_mono; [by apply Hm|]. intros a g' (? & ? & ?). auto. Qed.

Lemma keeps_gets {A} (f : G → A) (P : A → Prop) : (∀ g, sound g → P (f g)) → keeps (gets f) P.
Proof. intros HP g Hg. exists (f g), g. split; [done|]. split_and!; [done|done|auto]. Qed.

Lemma keeps_when b (m : DP unit) : keeps m (λ _, True) → keeps (when b m) (λ _, True).
Proof. intros Hm. destruct b; [done|by apply keeps_ret]. Qed.

Lemma keeps_assert b : b = true → keeps (assert b) (λ _, True).
Proof. intros -> g Hg. by exists tt, g. Qed.

(** What is outside of the components changes freely. *)
Record same_parts (g g' : G) : Prop := {
  sp_sig : g_sig g' = g_sig g;
  sp_rb : g_rb g' = g_rb g;
  sp_fd : g_fd g' = g_fd g;
  sp_svc : g_svc g' = g_svc g;
  sp_ctl : g_ctl g' = g_ctl g;
  sp_log : g_log g' = g_log g;
  sp_next : g_next g' = g_next g;
}.

Lemma sound_same g g' : sound g → same_parts g g' → control_socket (g_main g') < FD_SETSIZE → sound g' ∧ kept g g'.
Proof.
  intros [(names & pids & act & sigw & Hok & Hlog & Hctl) Hp (fds & Hf & Hu) Hfiles Hs _ Hz] [] Hm. split.
  - split.
    + exists names, pids, act, sigw. split; [by apply (svc_ok_same g)|]. unfold ctls_ok. by rewrite sp_log0, sp_ctl0.
    + by rewrite sp_svc0.
    + exists fds. split; [by apply (fd_ok_same g)|]. unfold fd_unique. by rewrite sp_fd0.
    + unfold is_fd. by rewrite sp_fd0.
    + by rewrite sp_sig0.
    + done.
    + by rewrite sp_ctl0.
  - apply kept_svc; [done|]. unfold is_svc. by rewrite sp_svc0.
Qed.

Lemma keeps_modify f : (∀ g, same_parts g (f g)) → (∀ g, control_socket (g_main g) < FD_SETSIZE → control_socket (g_main (f g)) < FD_SETSIZE) →
  keeps (modify f) (λ _, True).
Proof.
  intros Hf Hm g Hg. eexists tt, _. split; [reflexivity|]. destruct (sound_same g (f g) Hg) as [? ?]; [done|apply Hm, Hg|done].
Qed.

(** The table of signals changes to one that is legal. *)
Lemma sound_on_sig f g : sound g → sigs_ok (signals (f (g_sig g))) → sound (on_sig f g).
Proof.
  intros [(names & pids & act & sigw & Hok & Hc) Hp (fds & Hf & Hu) Hfiles _ Hm Hz] Hs.
  split; [exists names, pids, act, sigw|done|exists fds|done..].
  - split; [by apply (svc_ok_same g)|done].
  - split; [by apply (fd_ok_same g)|done].
Qed.

Lemma keeps_on_sig f : (∀ s, signals (f s) = signals s) → keeps (modify (on_sig f)) (λ _, True).
Proof.
  intros Hf g Hg. eexists tt, _. split; [reflexivity|]. split_and!; [|by apply kept_svc|done].
  apply sound_on_sig; [done|]. rewrite Hf. apply Hg.
Qed.

Lemma keeps_mark_seen sig count : 0 ≤ count < 2 ^ 31 → keeps (sig_mark_seen sig count) (λ _, True).
Proof.
  intros Hc g Hg. eexists tt, _. split; [reflexivity|]. split_and!; [|by apply kept_svc|done].
  apply sound_on_sig; [done|]. apply mark_seen_ok, Hc. apply Hg.
Qed.

Lemma keeps_lift {A} (o : outcome A) a (P : A → Prop) : o = Done a → P a → keeps (lift o) P.
Proof. intros -> HP. by apply keeps_ret. Qed.

Lemma keeps_errno : keeps strerror_errno (λ _, True).
Proof. eapply keeps_seq; [by apply (keeps_gets _ (λ _, True))|]. intros e _. by apply keeps_ret. Qed.

Lemma keeps_main : keeps (gets g_main) (λ m, control_socket m < FD_SETSIZE).
Proof. apply keeps_gets. by intros g []. Qed.

Lemma keeps_set_main f : (∀ m, control_socket (f m) = control_socket m) → keeps (modify (on_main f)) (λ _, True).
Proof. intros Hf. apply keeps_modify; [done|]. intros g Hm. cbn. by rewrite Hf. Qed.

Lemma keeps_set_opt f : keeps (modify (on_opt f)) (λ _, True).
Proof. by apply keeps_modify. Qed.

Lemma keeps_set_wake f : keeps (modify (on_wake f)) (λ _, True).
Proof. by apply keeps_modify. Qed.

Lemma keeps_set_errno e : keeps (modify (set_g_errno e)) (λ _, True).
Proof. by apply keeps_modify. Qed.

Lemma keeps_wake_on_readable fd : 0 ≤ fd < FD_SETSIZE → keeps (wake_on_readable fd) (λ _, True).
Proof.
  intros Hfd. eapply keeps_seq; [apply keeps_assert; unfold fd_fits; lia|]. intros _ _. apply keeps_set_wake.
Qed.

Lemma keeps_cancel fd : 0 ≤ fd < FD_SETSIZE → keeps (wake_cancel_fd fd) (λ _, True).
Proof.
  intros Hfd. eapply keeps_seq; [apply keeps_assert; unfold fd_fits; lia|]. intros _ _. apply keeps_set_wake.
Qed.

Lemma keeps_any {A} (m : DP A) P : keeps m P → keeps m (λ _, True).
Proof. intros Hm. eapply keeps_mono; [exact Hm|done]. Qed.
End keeps.

Create HintDb keeps.
#[export] Hint Resolve keeps_errno keeps_set_opt keeps_set_wake keeps_set_errno keeps_set_nonblock keeps_log keeps_sys keeps_log_flush : keeps.

(** One statement of a computation whose results do not matter. *)
Ltac keeps_step :=
  match goal with
  | |- keeps (mret _) _ => by apply keeps_ret
  | |- keeps (when _ _) _ => apply keeps_when
  | |- keeps (_ ≫= _) (λ _, True) => eapply (keeps_seq _ _ (λ _, True)); [|intros ? _]
  | |- keeps (gets _) (λ _, True) => by apply (keeps_gets _ (λ _, True))
  | |- keeps (match ?x with _ => _ end) _ => destruct x
  | |- keeps (log_error _) _ => apply keeps_log
  | |- keeps (log_warn _) _ => apply keeps_log
  | |- keeps (log_info _) _ => apply keeps_log
  | |- keeps (log_debug _) _ => apply keeps_log
  end.
Ltac keeps_tac := repeat first [solve [auto 2 with keeps nocore] | keeps_step].

Section sock.
Context `{OS} `{!WriteOk}.

Lemma keeps_remove_any path : keeps (remove_any_socket path) (λ _, True).
Proof. unfold remove_any_socket. keeps_tac. Qed.

Lemma keeps_socket_stop : keeps control_socket_stop (λ _, True).
Proof.
  eapply keeps_seq; [apply keeps_main|]. intros m Hm. cbn beta in Hm. destruct (Z.geb_spec (control_socket m) 0); [|by apply keeps_ret].
  eapply (keeps_seq _ _ (λ _, True)); [by apply keeps_cancel|]. intros _ _.
  eapply (keeps_seq _ _ (λ _, True)); [apply keeps_sys|]. intros _ _.
  eapply (keeps_seq _ _ (λ _, True)); [by apply keeps_modify|]. intros _ _.
  eapply (keeps_seq _ _ (λ _, True)); [apply keeps_remove_any|]. intros _ _. by apply keeps_ret.
Qed.

Lemma keeps_socket_setup g : sound g → 0 ≤ control_socket (g_main g) →
  returns control_socket_setup g (λ _ g', sound g' ∧ kept g g').
Proof.
  intros Hg Hs. pose proof (sd_sock _ Hg). unfold control_socket_setup. eapply returns_done; [reflexivity|]. cbv zeta.
  eapply (returns_mono _ _ (λ _ g', sound g' ∧ kept g g' ∧ True)); [|by intros b g' (? & ? & _)].
  match goal with |- returns ?m g _ => assert (Hm : keeps m (λ _, True)); [|by apply (Hm g Hg)] end.
  do 2 (eapply (keeps_seq _ _ (λ _, True)); [apply keeps_sys|]; intros ? _; case_match; [by keeps_tac|]).
  eapply (keeps_seq _ _ (λ _, True)); [apply keeps_set_nonblock|]. intros ok _. destruct (negb ok); [by keeps_tac|].
  eapply (keeps_seq _ _ (λ _, True)); [by apply keeps_wake_on_readable|]. intros _ _. by apply keeps_ret.
Qed.

Lemma keeps_socket_start `{!SocketOk} path : seg_wf path → keeps (control_socket_start path) (λ _, True).
Proof.
  intros Hwf. unfold control_socket_start.
  assert (Hbad : ∃ b, bad_socket_path path = Done b ∧ (b = None → seg_wf path)).
  { unfold bad_socket_path. case_match; [by eexists|]. destruct (Z.leb_spec (seg_len path) 0); [by eexists|].
    destruct (seg_at_ok path 0 Hwf) as (c & ->); [lia|]. by eexists. }
  destruct Hbad as (b & Eb & _). eapply keeps_seq; [by apply (keeps_lift _ b (λ b', b' = b))|]. intros ? ->.
  destruct b as [e|]; [by keeps_tac|].
  eapply (keeps_seq _ _ (λ _, True)); [by keeps_tac|]. intros m _.
  eapply (keeps_seq _ _ (λ _, True)); [apply keeps_when, keeps_socket_stop|]. intros _ _.
  eapply (keeps_seq _ _ (λ _, True)); [by eapply keeps_lift; [apply seg_str_ok|]|]. intros p _. cbv zeta.
  eapply (keeps_seq _ _ (λ _, True)); [by apply keeps_set_main|]. intros _ _.
  eapply (keeps_seq _ _ (λ _, True)); [apply keeps_remove_any|]. intros ok _. destruct (negb ok); [by apply keeps_ret|].
  intros g Hg. destruct (keeps_sys (CSocket AF_UNIX SOCK_STREAM) g Hg) as (r & g1 & E1 & Hg1 & K1 & _).
  assert (Hr : ret r < FD_SETSIZE).
  { rewrite sys_eq in E1. injection E1 as <- _. apply socket_fits. }
  eapply returns_done; [exact E1|]. eapply returns_done; [reflexivity|]. set (g2 := on_main _ g1).
  destruct (sound_same g1 g2 Hg1) as [Hg2 K2]; [done|done|]. assert (K : kept g g2) by by transitivity g1.
  destruct (Z.ltb_spec (ret r) 0).
  - assert (Hm : keeps (e ← strerror_errno; log_error (str "socket: " ++ e);; mret false) (λ _, True)) by keeps_tac.
    eapply returns_mono; [by apply Hm|]. intros b g3 (Hg3 & K3 & _). split_and!; [done|by transitivity g2|done].
  - eapply returns_seq; [by apply keeps_socket_setup|]. intros ok2 g3 (Hg3 & K3). assert (K' : kept g g3) by by transitivity g2.
    destruct ok2; [by apply returns_ret|]. eapply returns_seq; [by apply keeps_socket_stop|]. intros _ g4 (Hg4 & K4 & _).
    apply returns_ret. split_and!; [done|by transitivity g3|done].
Qed.
End sock.
