(* ===== verification/SoundCmd.v ===== *)
(** * The general commands keep the daemon sound *)

From S2P Require Import Prelude Strseg State RBTree RBTreeRep OrdIndex RBTreeIndex Table Log Signal SignalSpec CtlOut CtlOutSpec SvcVars Fd FdSpec CtlObj Service Dll ServiceSpec SvcRun SvcActive SvcNew SvcLists Sound SoundSvc CtlArg CtlSock Fatal Options CtlCmd SoundFd SoundArg SoundSock.

Lemma cstr_at_nul s : seg_wf s → at_nul s → ∃ l, cstr (seg_buf s) (seg_off s) = Done l.
Proof.
  intros (H1 & H2 & H3) Hn. apply (cstr_ok _ _ (seg_off s + seg_len s)); [lia..|].
  unfold at_nul, seg_at in Hn. destruct (Z.ltb_spec (seg_off s + seg_len s) 0); [done|]. case_match; congruence.
Qed.

Lemma whole_line l : whole_lines (l ++ [LF]).
Proof. right. by exists l. Qed.

Section cmd.
Context `{OS} `{!WriteOk}.
Variables (i n : nat).
Notation at_cmd := (at_cmd i n).
Notation finishes := (finishes n).
Notation step_to := (step_to i n).

(** ** The rest of a command, after a step *)

Lemma finishes_if (b : bool) m1 m2 g : finishes m1 g → finishes m2 g → finishes (if b then m1 else m2) g.
Proof. by destruct b. Qed.

Lemma finishes_kept (m : DP bool) fs g : at_cmd fs g → returns m g (λ _ g', sound g' ∧ kept g g') → finishes m g.
Proof.
  intros Hg Hm. eapply returns_mono; [exact Hm|]. intros b g' (? & K). split; [done|].
  rewrite (kp_len _ _ K). apply Hg.
Qed.

Lemma finishes_errno what fs g : at_cmd fs g → finishes (fail_errno i what) g.
Proof.
  intros Hg. eapply (step_keeps _ _ _ _ fs); [done|apply keeps_errno|]. intros e g1 [Hg1 _] _. by apply (finishes_fail i n fs).
Qed.

Lemma finishes_unknown opt fs g : at_cmd fs g → seg_wf opt → finishes (unknown_flag i opt) g.
Proof.
  intros Hg Ho. destruct (seg_fmt_ok opt Ho) as (l & E). eapply step_lift; [exact E|]. by apply (finishes_fail i n fs).
Qed.

(** A step that returns and leaves the fields. *)
Lemma step_upd {B} f (k : unit → DP B) fs g Q : at_cmd fs g → quiet_upd f →
  (∀ g', step_to fs g g' → returns (k tt) g' Q) → returns (upd_ctl i f ≫= k) g Q.
Proof. intros Hg Hq Hk. eapply returns_seq; [by apply (at_cmd_upd i n fs)|]. intros [] g' Hs. by apply Hk. Qed.

(** ** The commands *)

Lemma echo_safe fs g : at_cmd fs g → finishes (ctl_cmd_echo i) g.
Proof.
  intros Hg. destruct (at_cmd_get _ _ _ _ Hg) as (c & Eg & _ & Hc & _). eapply returns_done; [exact Eg|].
  eapply (returns_seq _ _ _ (λ _ g', step_to fs g g')).
  - destruct (Z.gtb_spec (seg_len (command c)) 0); [|apply returns_ret; by apply step_to_refl].
    destruct (seg_fmt_ok (command c)) as (m & Em); [apply cmd_seg_wf; [done|lia]|]. eapply step_lift; [exact Em|].
    eapply (step_write _ _ _ _ _ fs); [done|apply whole_line|by right|]. intros b g1 Hs. by apply returns_ret.
  - intros _ g1 [Hg1 _]. by apply (finishes_ret i n fs).
Qed.

Lemma event_timeout_safe fs g : at_cmd fs g → finishes (ctl_cmd_event_pipe_timeout i) g.
Proof.
  intros Hg. eapply returns_seq; [by apply (step_int i n fs)|]. intros r g1 (-> & [Hg1 _]).
  destruct (_ ≫= _) as [reset|]; [|by apply (finishes_ret i n (tl fs))].
  eapply returns_seq; [by apply (step_int i n (tl fs))|]. intros r g2 (-> & [Hg2 _]).
  destruct (_ ≫= _) as [close|]; [|by apply (finishes_ret i n (tl (tl fs)))].
  apply finishes_if; [by apply (finishes_fail i n (tl (tl fs)))|]. apply finishes_if; [by apply (finishes_fail i n (tl (tl fs)))|].
  eapply (step_upd _ _ (tl (tl fs))); [done|done|]. intros g3 [Hg3 _].
  eapply (step_upd _ _ (tl (tl fs))); [done|done|]. intros g4 [Hg4 _]. by apply (finishes_ret i n (tl (tl fs))).
Qed.

(** A path is the last argument, so the assertion holds. *)
Lemma path_string_ok s g : arg_ok s → at_nul s → ∃ p, path_string s g = Done (p, g).
Proof.
  intros Ha Hn. destruct (cstr_at_nul s (ao_wf _ Ha) Hn) as (p & Ep). exists p.
  unfold path_string, lift. unfold at_nul in Hn. rewrite Hn. cbn. by rewrite Ep.
Qed.

(** No argument follows the one that was taken. *)
Lemma no_more fs arg s : takes fs (Some s) → takes (tl fs) arg → arg = None → arg_ok s ∧ at_nul s.
Proof.
  destruct fs as [|f fs]; cbn; [done|]. intros (s' & [= <-] & Ha & _ & He) Hm ->. split; [done|]. apply He.
  destruct fs; [done|]. by destruct Hm as (? & ? & _).
Qed.

Lemma chdir_safe fs g : at_cmd fs g → finishes (ctl_cmd_chdir i) g.
Proof.
  intros Hg. eapply returns_seq; [by apply (step_arg i n fs)|]. intros path g1 (Ht & [Hg1 _]).
  destruct path as [path|]; [|by apply (finishes_fail i n (tl fs))].
  eapply returns_seq; [by apply (step_peek i n (tl fs))|]. intros more g2 (-> & Hm).
  destruct more; [by apply (finishes_fail i n (tl fs))|].
  destruct (no_more fs None path Ht Hm) as [Ha Hn]; [done|]. destruct (path_string_ok path g1 Ha Hn) as (p & Ep).
  eapply returns_done; [exact Ep|]. eapply (step_keeps _ _ _ _ (tl fs)); [done|apply keeps_sys|]. intros r g3 [Hg3 _] _.
  apply finishes_if; [by apply (finishes_errno _ (tl fs))|by apply (finishes_ret i n (tl fs))].
Qed.

Lemma exit_safe fs g : at_cmd fs g → finishes (ctl_cmd_exit i) g.
Proof.
  intros Hg. destruct (at_cmd_get _ _ _ _ Hg) as (c & Eg & _). eapply returns_done; [exact Eg|].
  eapply (step_keeps _ _ _ _ fs); [done|apply (keeps_when _ (sys _;; mret tt)); by keeps_tac|]. intros _ g1 [Hg1 _] _.
  eapply (step_upd _ _ fs); [done|done|]. intros g2 [Hg2 _].
  eapply (step_upd _ _ fs); [done|done|]. intros g3 [Hg3 _]. by apply (finishes_ret i n fs).
Qed.

Lemma statedump_safe fs g : at_cmd fs g → finishes (ctl_cmd_statedump i) g.
Proof.
  intros Hg. eapply (step_upd _ _ fs); [done|done|]. intros g1 [Hg1 _].
  eapply (step_upd _ _ fs); [done|done|]. intros g2 [Hg2 _].
  eapply (step_upd _ _ fs); [done|done|]. intros g3 [Hg3 _]. by apply (finishes_ret i n fs).
Qed.

Lemma log_level_loop_ok names k s : seg_wf s → ∃ r, log_level_by_name_loop names k s = Done r.
Proof.
  intros Hs. revert k; induction names as [|m names IH]; intros k; cbn; [by eexists|].
  destruct (cmp_str_ok s m Hs) as (c & ->). cbn. destruct (c =? 0); [by eexists|apply IH].
Qed.

Lemma log_filter_safe fs g : at_cmd fs g → finishes (ctl_cmd_log_filter i) g.
Proof.
  intros Hg. eapply returns_seq; [by apply (step_peek i n fs)|]. intros arg g1 (-> & Ht).
  pose proof (takes_wf _ _ Ht) as Hwf. eapply (returns_seq _ _ _ (λ _ g', step_to fs g g')).
  - destruct arg as [arg|]; [|apply returns_ret; by apply step_to_refl]. specialize (Hwf arg eq_refl).
    eapply returns_done; [reflexivity|]. do 2 (eapply step_lift; [by apply STRMATCH_ok|]).
    destruct (log_level_loop_ok log_level_names LOG_FILTER_NONE arg Hwf) as (r & Er). eapply step_lift; [exact Er|].
    match goal with |- returns (match ?x with _ => _ end) _ _ => destruct x as [level|] end.
    + eapply returns_done; [reflexivity|]. apply returns_ret. apply (at_cmd_kept _ _ _ g); [done|..]; by eapply sound_on_log; [apply Hg|].
    + eapply returns_mono; [by apply (step_fail i n fs)|]. by intros ? ? [].
  - intros ok g1 [Hg1 _]. destruct ok; [|by apply (finishes_ret i n fs)]. eapply returns_done; [reflexivity|].
    eapply (step_write _ _ _ _ _ fs); [done|apply tab_join_lines|by right|]. intros b g2 [Hg2 _]. by apply (finishes_ret i n fs).
Qed.

Lemma log_dest_safe fs g : at_cmd fs g → finishes (ctl_cmd_log_dest i) g.
Proof.
  intros Hg. eapply returns_seq; [by apply (step_arg i n fs)|]. intros arg g1 (Ht & [Hg1 _]).
  pose proof (takes_wf _ _ Ht) as Hwf. destruct arg as [arg|]; [|by apply (finishes_ret i n (tl fs))].
  destruct (cmp_str_ok arg (str "fd") (Hwf arg eq_refl)) as (c & Ec). eapply step_lift; [exact Ec|].
  apply finishes_if; [|by apply (finishes_fail i n (tl fs))].
  eapply returns_seq; [by apply (step_fd i n false false (tl fs))|]. intros r g2 ([Hg2 _] & Hr).
  destruct r as [[name fd]|]; [|by apply (finishes_ret i n (tl (tl fs)))].
  destruct (Hr _ eq_refl) as ((Ha & _ & Hl) & _). cbn in Ha, Hl.
  eapply (returns_seq _ _ _ (λ _ g', step_to (tl (tl fs)) g2 g')).
  { destruct (fd =? 0); [|apply returns_ret; by apply step_to_refl]. destruct (seg_fmt_ok name (ao_wf _ Ha)) as (l & El).
    eapply step_lift; [exact El|]. eapply (step_write _ _ _ _ _ (tl (tl fs))); [done| |by right|].
    - rewrite !app_assoc, !app_comm_cons, !app_assoc. apply whole_line.
    - intros b g3 Hs. by apply returns_ret. }
  intros _ g3 [Hg3 _]. eapply (step_kept_only _ _ _ _ (tl (tl fs))); [done|apply sound_log_set_name; [apply Hg3|apply Ha|done]|].
  intros _ g4 [Hg4 _]. by apply (finishes_ret i n (tl (tl fs))).
Qed.

(** The count of signal.clear is not negative. *)
Definition count_ok (fs : list (list Z)) : Prop :=
  ∀ v, head (tl fs) ≫= int_field = Some v → 0 ≤ wrap32 v.

Lemma signal_clear_safe fs g : at_cmd fs g → count_ok fs → finishes (ctl_cmd_signal_clear i) g.
Proof.
  intros Hg Hc. eapply returns_seq; [by apply (step_signal i n fs)|]. intros sig g1 [Hg1 _].
  destruct sig as [sig|]; [|by apply (finishes_ret i n (tl fs))].
  eapply returns_seq; [by apply (step_int i n (tl fs))|]. intros r g2 (-> & [Hg2 _]).
  destruct (head (tl fs) ≫= int_field) as [count|] eqn:Ef; [|by apply (finishes_ret i n (tl (tl fs)))].
  eapply (step_keeps _ _ _ _ (tl (tl fs))); [done|apply keeps_mark_seen|].
  - pose proof (wrap32_in32 count) as [_ ?]. split; [by apply Hc|done].
  - intros _ g3 [Hg3 _] _. by apply (finishes_ret i n (tl (tl fs))).
Qed.

Lemma socket_create_safe `{!SocketOk} fs g : at_cmd fs g → finishes (ctl_cmd_socket_create i) g.
Proof.
  intros Hg. eapply returns_seq; [by apply (step_arg i n fs)|]. intros opts g1 (Ht & [Hg1 _]).
  pose proof (takes_wf _ _ Ht) as Hwf. destruct opts as [opts|]; [|by apply (finishes_ret i n (tl fs))]. specialize (Hwf opts eq_refl).
  eapply returns_seq; [by apply (step_arg i n (tl fs))|]. intros path g2 (Ht2 & [Hg2 _]).
  pose proof (takes_wf _ _ Ht2) as Hwf2. destruct path as [path|]; [|by apply (finishes_ret i n (tl (tl fs)))]. specialize (Hwf2 path eq_refl).
  eapply (returns_seq _ _ _ (λ _ g', g' = g2)).
  { destruct (seg_len opts >? 1); [by apply returns_ret|]. destruct (Z.eqb_spec (seg_len opts) 0); cbn [negb]; [by apply returns_ret|].
    destruct (seg_at_ok opts 0 Hwf) as (c & Ec); [unfold seg_wf in Hwf; lia|]. eapply step_lift; [exact Ec|]. by apply returns_ret. }
  intros bad g3 ->. destruct bad; [by apply (finishes_fail i n (tl (tl fs)))|].
  eapply (step_keeps _ _ _ _ (tl (tl fs))); [done|by apply keeps_socket_start|]. intros ok g3 [Hg3 _] _.
  apply finishes_if; [by apply (finishes_fail i n (tl (tl fs)))|by apply (finishes_ret i n (tl (tl fs)))].
Qed.

Lemma socket_delete_safe fs g : at_cmd fs g → finishes (ctl_cmd_socket_delete i) g.
Proof.
  intros Hg. eapply (step_keeps _ _ _ _ fs); [done|apply keeps_socket_stop|]. intros _ g1 [Hg1 _] _. by apply (finishes_ret i n fs).
Qed.

Lemma guard_safe guard fs g : at_cmd fs g → returns (terminate_guard_ok i guard) g (λ _ g', ∃ fs', step_to fs' g g').
Proof.
  intros Hg. unfold terminate_guard_ok. destruct (guard =? 0); [apply returns_ret; exists fs; by apply step_to_refl|].
  eapply returns_seq; [by apply (step_int i n fs)|]. intros r g1 (-> & Hs).
  assert (Hfail : ∀ msg, returns (fail_with i msg false) g1 (λ _ g', ∃ fs', step_to fs' g g')).
  { intros msg. eapply returns_mono; [apply (step_fail i n (tl fs)), Hs|]. intros r g2 (_ & Hs2). exists (tl fs). by eapply step_to_trans. }
  destruct (_ ≫= _); [|apply Hfail]. destruct (negb _); [apply Hfail|]. apply returns_ret. by exists (tl fs).
Qed.

Lemma terminate_safe fs g : at_cmd fs g → finishes (ctl_cmd_terminate i) g.
Proof.
  intros Hg. eapply returns_seq; [by apply (step_int i n fs)|]. intros r g1 (-> & [Hg1 _]).
  destruct (_ ≫= _) as [x|]; [|by apply (finishes_ret i n (tl fs))]. eapply returns_done; [reflexivity|].
  eapply returns_seq; [by apply (guard_safe _ (tl fs))|]. intros ok g2 (fs2 & [Hg2 _]).
  apply finishes_if; [by apply (finishes_ret i n fs2)|]. apply finishes_if; [by apply (finishes_fail i n fs2)|].
  eapply (step_keeps _ _ _ _ fs2); [done|by apply keeps_set_main|]. intros _ g3 [Hg3 _] _.
  eapply (step_keeps _ _ _ _ fs2); [done|by apply keeps_set_main|]. intros _ g4 [Hg4 _] _.
  eapply (step_keeps _ _ _ _ fs2); [done|apply keeps_set_wake|]. intros _ g5 [Hg5 _] _. by apply (finishes_ret i n fs2).
Qed.

Lemma exec_args_safe fs g : at_cmd fs g → finishes (ctl_cmd_terminate_exec_args i) g.
Proof.
  intros Hg. destruct (at_cmd_get _ _ _ _ Hg) as (c & Eg & _ & Hc & _). eapply returns_done; [exact Eg|].
  eapply (step_keeps _ _ _ _ fs _ (λ _, True)); [done| |].
  - unfold set_exec_on_exit. destruct (Z.leb_spec (seg_len (command c)) 0); [by keeps_tac|]. case_match; [by keeps_tac|].
    eapply (keeps_seq _ _ (λ _, True)); [eapply keeps_lift; [apply seg_str_ok, cmd_seg_wf; [done|lia]|done]|]. intros buf _. by keeps_tac.
  - intros ok g1 [Hg1 _] _. apply finishes_if; [by apply (finishes_fail i n fs)|by apply (finishes_ret i n fs)].
Qed.

Lemma terminate_guard_safe fs g : at_cmd fs g → finishes (ctl_cmd_terminate_guard i) g.
Proof.
  intros Hg. eapply returns_seq; [by apply (step_arg i n fs)|]. intros arg g1 (Ht & [Hg1 _]).
  pose proof (takes_wf _ _ Ht) as Hwf.
  assert (Hsign : ∃ s, guard_sign arg = Done s).
  { destruct arg as [arg|]; cbn; [|by eexists]. destruct (Z.eqb_spec (seg_len arg) 1); cbn; [|by eexists].
    destruct (seg_at_ok arg 0 (Hwf arg eq_refl)) as (c & ->); [lia|]. by eexists. }
  destruct Hsign as (sign & Es). eapply step_lift; [exact Es|]. destruct sign as [sign|]; [|by apply (finishes_fail i n (tl fs))].
  eapply returns_seq; [by apply (step_int i n (tl fs))|]. intros r g2 (-> & [Hg2 _]).
  destruct (_ ≫= _) as [code|]; [|by apply (finishes_ret i n (tl (tl fs)))]. eapply returns_done; [reflexivity|].
  assert (Hset : ∀ v, finishes (modify (on_opt (set_opt_terminate_guard v));; mret true) g2).
  { intros v. eapply (step_keeps _ _ _ _ (tl (tl fs))); [done|apply keeps_set_opt|]. intros _ g3 [Hg3 _] _. by apply (finishes_ret i n (tl (tl fs))). }
  repeat (apply finishes_if || apply (finishes_fail i n (tl (tl fs))) || apply Hset || done).
Qed.
End cmd.
