(* ===== verification/CtlObjCmd.v ===== *)
(** * controller.c: the commands on descriptors and services *)

From S2P Require Import Prelude Strseg State Log Signal CtlOut SvcVars Fd CtlObj Service CtlArg CtlSock Fatal Options CtlCmd.

Section fd_cmd.
Context `{OS, Inet}.

(** ** fd.pipe *)

(** The loop over the flags; [None] when an unknown one was reported. *)
Fixpoint pipe_flags_loop (fuel : nat) (i : nat) (opts : strseg_t) (f : fd_flags_t) : DP (option fd_flags_t) :=
  match fuel with
  | O => nofuel
  | S fuel =>
      if seg_len opts >? 0 then
        '(_, opt, opts) ← lift (strseg_split_1 opts (ch ",") opts);
        if seg_len opt <=? 0 then pipe_flags_loop fuel i opts f
        else
          r ← lift (pipe_flag opt f);
          match r with
          | Some f => pipe_flags_loop fuel i opts f
          | None => unknown_flag i opt;; mret None
          end
      else mret (Some f)
  end.

(** The two ends of the pipe; [None] when that failed. *)
Definition open_pipe (i : nat) (f : fd_flags_t) : DP (option (Z * Z)) :=
  p ← sys (if fl_socket f then CSocketpair (sock_domain f) (sock_type f) else CPipe);
  if negb (ret p =? 0) then
    fail_errno i (if fl_socket f then str "socketpair() failed" else str "pipe() failed");;
    mret None
  else
    let a := nth 0 (fds p) (-1) in
    let b := nth 1 (fds p) (-1) in
    ok ← (if fl_nonblock f then
            x ← fd_set_nonblock a;
            if (x : bool) then fd_set_nonblock b else mret false
          else mret true);
    if (ok : bool) then mret (Some (a, b))
    else fail_errno i (str "fcntl(O_NONBLOCK) failed");; mret None.

Definition ctl_cmd_fd_pipe (i : nat) : DP bool :=
  r ← ctl_get_arg_fd i false true;
  match r with
  | None => mret false
  | Some (read_side, _) =>
      w ← ctl_get_arg_fd i false true;
      match w with
      | None => mret false
      | Some (write_side, _) =>
          opts ← ctl_get_arg i;
          flags ← (match opts with
                   | Some opts => pipe_flags_loop (Z.to_nat (seg_len opts) + 1) i opts flags_0
                   | None => mret (Some flags_0)
                   end);
          match flags with
          | None => mret false
          | Some flags =>
              ends ← open_pipe i flags;
              match ends with
              | None => mret false
              | Some (a, b) =>
                  fd ← fd_new_pipe read_side a write_side b flags;
                  if fd =? 0 then
                    sys (CClose a);;
                    sys (CClose b);;
                    fail_with i (str "failed to create pipe") false
                  else
                    ctl_notify_fd_state None fd;;
                    peer ← fd_get_pipe_peer fd;
                    ctl_notify_fd_state None peer;;
                    mret true
              end
          end
      end
  end.

(** ** fd.open *)

Fixpoint open_flags_loop (fuel : nat) (i : nat) (opts : strseg_t) (f : fd_flags_t) : DP (option fd_flags_t) :=
  match fuel with
  | O => nofuel
  | S fuel =>
      '(more, opts, opt) ← lift (strseg_tok_next opts (ch ","));
      if (more : bool) then
        if seg_len opt =? 0 then open_flags_loop fuel i opts f
        else
          r ← lift (open_flag opt f);
          match r with
          | Some f => open_flags_loop fuel i opts f
          | None => unknown_flag i opt;; mret None
          end
      else mret (Some f)
  end.

(** Every prefix of the path that ends before a slash; failures are ignored. *)
Fixpoint create_missing_dirs (prefix path : list Z) : DP unit :=
  match path with
  | [] => mret tt
  | c :: path =>
      when (c =? ch "/") (sys (CMkdir prefix);; mret tt);;
      create_missing_dirs (prefix ++ [c]) path
  end.

(** The end of fd.open and fd.socket: the object for the descriptor [f]. *)
Definition new_file_object (i : nat) (fdname : strseg_t) (f : Z) (flags : fd_flags_t) (path : strseg_t) : DP bool :=
  fd ← fd_new_file fdname f flags path;
  if fd =? 0 then
    sys (CClose f);;
    fail_with i (str "Unable to allocate new file descriptor object") false
  else
    ctl_notify_fd_state None fd;;
    mret true.

Definition ctl_cmd_fd_open (i : nat) : DP bool :=
  a ← ctl_get_arg_fd i false true;
  match a with
  | None => mret false
  | Some (fdname, _) =>
      opts ← ctl_get_arg i;
      match opts with
      | None => fail_with i (str "missing flags argument") false
      | Some opts =>
          path ← ctl_get_arg i;
          match path with
          | None => fail_with i (str "missing path argument") false
          | Some path =>
              more ← ctl_peek_arg i;
              match more with
              | Some _ => fail_with i (str "unexpected argument after path") false
              | None =>
                  p ← path_string path;
                  r ← open_flags_loop (Z.to_nat (seg_len opts) + 2) i opts flags_0;
                  match r with
                  | None => mret false
                  | Some flags =>
                      when (fl_mkdir flags) (create_missing_dirs [] p);;
                      f ← sys (COpen p (open_flags flags));
                      if ret f <? 0 then fail_errno i (str "open failed")
                      else new_file_object i fdname (ret f) flags path
                  end
              end
          end
      end
  end.

(** ** fd.socket *)

Fixpoint sock_flags_loop (fuel : nat) (i : nat) (opts : strseg_t) (f : fd_flags_t) : DP (option fd_flags_t) :=
  match fuel with
  | O => nofuel
  | S fuel =>
      '(more, opts, opt) ← lift (strseg_tok_next opts (ch ","));
      if (more : bool) then
        if seg_len opt =? 0 then sock_flags_loop fuel i opts f
        else
          '(_, optval, opt) ← lift (strseg_tok_next opt EQ);
          r ← lift (sock_flag opt optval f);
          match r with
          | sock_flags f => sock_flags_loop fuel i opts f
          | sock_bad_listen => fail_with i (str "invalid listen queue length") None
          | sock_unknown => unknown_flag i opt;; mret None
          end
      else mret (Some f)
  end.

(** The address argument: the flags with [bind], the address and its text; without
    an address, [addr] is left uninitialised ([None]). *)
Definition sock_address (i : nat) (flags : fd_flags_t) : DP (option (fd_flags_t * option (list Z) * strseg_t)) :=
  addrspec ← ctl_get_arg i;
  match addrspec with
  | Some spec =>
      let flags := set_fl_bind true flags in
      r ← lift (strseg_parse_sockaddr spec (sock_domain flags));
      match r with
      | Some (addr, rest) =>
          if negb (seg_len rest =? 0) then fail_with i (str "invalid address") None
          else mret (Some (flags, Some addr, spec))
      | None => fail_with i (str "invalid address") None
      end
  | None =>
      if fl_bind flags then fail_with i (str "expected address argument") None
      else mret (Some (flags, None, Seg [] 0 0))
  end.

(** The chain of calls that set the socket up: the one that failed, and the socket. *)
Definition sock_setup (flags : fd_flags_t) (addr : option (list Z)) : DP (option (list Z) * Z) :=
  f ← sys (CSocket (sock_domain flags) (sock_type flags));
  let f := ret f in
  if f <? 0 then mret (Some (str "socket"), f)
  else
    a ← (if fl_bind flags then r ← sys (CSetsockopt f); mret (ret r <? 0) else mret false);
    if (a : bool) then mret (Some (str "setsockopt"), f)
    else
      b ← (if fl_bind flags then
             match addr with
             | Some addr => r ← sys (CBind f addr); mret (ret r <? 0)
             | None => fault
             end
           else mret false);
      if (b : bool) then mret (Some (str "bind"), f)
      else
        l ← (if negb (fl_listen flags =? 0) then r ← sys (CListen f (fl_listen flags)); mret (ret r <? 0)
             else mret false);
        if (l : bool) then mret (Some (str "listen"), f)
        else
          n ← (if fl_nonblock flags then ok ← fd_set_nonblock f; mret (negb ok) else mret false);
          if (n : bool) then mret (Some (str "fcntl(O_NONBLOCK)"), f) else mret (None, f).

Definition ctl_cmd_fd_socket (i : nat) : DP bool :=
  a ← ctl_get_arg_fd i false true;
  match a with
  | None => mret false
  | Some (fdname, _) =>
      opts ← ctl_get_arg i;
      match opts with
      | None => fail_with i (str "missing flags argument") false
      | Some opts =>
          r ← sock_flags_loop (Z.to_nat (seg_len opts) + 2) i opts (set_fl_socket true flags_0);
          match r with
          | None => mret false
          | Some flags =>
              r ← sock_address i flags;
              match r with
              | None => mret false
              | Some (flags, addr, spec) =>
                  more ← ctl_peek_arg i;
                  match more with
                  | Some _ => fail_with i (str "unexpected argument after address") false
                  | None =>
                      (if fl_mkdir flags && (sock_domain flags =? AF_UNIX) then
                         match addr with
                         | Some addr => let p := tl addr in create_missing_dirs [] (take (sep_index NUL p) p)
                         | None => fault
                         end
                       else mret tt);;
                      '(failed, f) ← sock_setup flags addr;
                      match failed with
                      | Some what =>
                          fail_errno i what;;
                          when (f >=? 0) (sys (CClose f);; mret tt);;
                          mret false
                      | None => new_file_object i fdname f flags spec
                      end
                  end
              end
          end
      end
  end.

(** ** fd.take and fd.delete *)

Definition ctl_cmd_fd_take (i : nat) : DP bool :=
  c ← get_ctl i;
  match recv_ancillary_fd c with
  | [] => fail_with i (str "No ancillary file descriptor received") false
  | new_fd :: rest =>
      upd_ctl i (set_recv_ancillary_fd rest);;
      a ← ctl_get_arg_fd i false true;
      match a with
      | None => sys (CClose new_fd);; mret false
      | Some (fdname, _) =>
          fd ← fd_new_unknown fdname new_fd;
          if fd =? 0 then
            sys (CClose new_fd);;
            fail_with i (str "Unable to allocate new file descriptor object") false
          else
            ctl_notify_fd_state None fd;;
            mret true
      end
  end.

Definition ctl_cmd_fd_delete (i : nat) : DP bool :=
  a ← ctl_get_arg_fd i true true;
  match a with
  | None => mret false
  | Some (_, fd) =>
      name ← fd_get_name fd;
      ctl_write None (tab_join [str "fd.state"; name; str "deleted"]);;
      fd_delete fd;;
      mret true
  end.
End fd_cmd.

Section svc_cmd.
Context `{OS}.

(** ** Attributes of services *)

Definition ctl_cmd_svc_tags (i : nat) : DP bool :=
  a ← ctl_get_arg_service i false;
  match a with
  | None => mret false
  | Some (_, svc) =>
      c ← get_ctl i;
      ok ← svc_set_tags svc (rest_or_empty (command c));
      if negb ok then fail_with i (str "unable to set tags") false
      else
        name ← svc_get_name svc;
        tags ← svc_get_tags svc;
        ctl_notify_svc_tags None name tags;;
        mret true
  end.

Definition ctl_cmd_svc_args (i : nat) : DP bool :=
  a ← ctl_get_arg_service i false;
  match a with
  | None => mret false
  | Some (_, svc) =>
      c ← get_ctl i;
      ok ← svc_set_argv svc (rest_or_empty (command c));
      if negb ok then fail_with i (str "unable to set argv") false
      else
        name ← svc_get_name svc;
        argv ← svc_get_argv svc;
        ctl_notify_svc_argv None name argv;;
        mret true
  end.

(** The loop of [ctl_cmd_svc_fds] over the names. *)
Fixpoint check_fds_loop (fuel : nat) (i : nat) : DP bool :=
  match fuel with
  | O => nofuel
  | S fuel =>
      arg ← tok_command i;
      match arg with
      | None => mret true
      | Some name =>
          ok ← lift (svc_check_name name);
          if negb ok then fail_with i (str "invalid fd name") false
          else
            fd ← fd_by_name name;
            (if fd =? 0 then
               n ← lift (seg_fmt name);
               ctl_write (Some i) (str "warning: fd " ++ quoted n ++ str " is not yet defined" ++ [LF]);;
               mret tt
             else mret tt);;
            check_fds_loop fuel i
      end
  end.

Definition ctl_cmd_svc_fds (i : nat) : DP bool :=
  a ← ctl_get_arg_service i false;
  match a with
  | None => mret false
  | Some (_, svc) =>
      c ← get_ctl i;
      let fd_spec := command c in
      ok ← check_fds_loop (Z.to_nat (seg_len fd_spec) + 2) i;
      if negb ok then mret false
      else
        ok ← svc_set_fds svc fd_spec;
        if negb ok then fail_with i (str "unable to set file descriptors") false
        else
          name ← svc_get_name svc;
          fds ← svc_get_fds svc;
          ctl_notify_svc_fds None name fds;;
          mret true
  end.

(** [tmp.len >= 1 && tmp.data[0] == '-' && (tmp.len == 1 || tmp.data[1] == '\t')] *)
Definition is_dash (tmp : strseg_t) : outcome bool :=
  if seg_len tmp >=? 1 then
    c ← seg_at tmp 0;
    if c =? ch "-" then
      if seg_len tmp =? 1 then Done true else d ← seg_at tmp 1; Done (d =? TAB)
    else Done false
  else Done false.

(** The interval argument of service.auto_up. *)
Definition auto_up_interval (i : nat) (svc : Z) : DP bool :=
  c ← get_ctl i;
  interval ← ctl_get_arg_int i;
  match interval with
  | None => lift (is_dash (command c))
  | Some interval =>
      if (interval <? 1) || negb (Z.shiftr interval 31 =? 0) then fail_with i (str "invalid interval") false
      else svc_set_restart_interval svc (wrap64 (Z.shiftl interval 32));; mret true
  end.

Definition ctl_cmd_svc_auto_up (i : nat) : DP bool :=
  a ← ctl_get_arg_service i false;
  match a with
  | None => mret false
  | Some (_, svc) =>
      ok ← auto_up_interval i svc;
      if negb ok then mret false
      else
        c ← get_ctl i;
        ok ← svc_set_triggers svc (if seg_len (command c) >? 0 then command c else STRSEG []);
        if negb ok then fail_with i (str "unable to set auto_up triggers") false
        else
          name ← svc_get_name svc;
          interval ← svc_get_restart_interval svc;
          triggers ← svc_get_triggers svc;
          ctl_notify_svc_auto_up None name interval triggers;;
          mret true
  end.

(** ** Running services *)

(** The optional time of service.start: the result of the command if it ends here,
    or the time. *)
Definition start_time_arg (i : nat) (svc : Z) : DP (bool + Z) :=
  now ← gets (λ g, wake_now (g_wake g));
  arg ← ctl_peek_arg i;
  match arg with
  | None => mret (inr now)
  | Some arg =>
      c ← lift (strseg_cmp arg (STRSEG (str "-")));
      if c =? 0 then
        ok ← svc_cancel_start svc;
        if (ok : bool) then mret (inl true)
        else fail_with i (str "no service.start pending") (inl false)
      else
        ts ← ctl_get_arg_ts i;
        match ts with
        | Some ts => if wrap64 (ts - now) <? -100000 then fail_with i (str "invalid timestamp") (inl false) else mret (inr ts)
        | None => fail_with i (str "invalid timestamp") (inl false)
        end
  end.

Definition ctl_cmd_svc_start (i : nat) : DP bool :=
  a ← ctl_get_arg_service i true;
  match a with
  | None => mret false
  | Some (_, svc) =>
      t ← start_time_arg i svc;
      match t with
      | inl r => mret r
      | inr ts =>
          argv ← svc_get_argv svc;
          if (hd NUL argv =? NUL) || (hd NUL argv =? TAB) then fail_with i (str "no args configured for service") false
          else
            ok ← svc_handle_start svc ts;
            if (ok : bool) then mret true else fail_with i (str "service is not startable") false
      end
  end.

(** The flags of service.signal: whether "group" is there, [None] after an error. *)
Fixpoint signal_flags_loop (fuel : nat) (i : nat) (flags : strseg_t) (group : bool) : DP (option bool) :=
  match fuel with
  | O => nofuel
  | S fuel =>
      '(more, flags, flag) ← lift (strseg_tok_next flags (ch ","));
      if (more : bool) then
        c ← lift (strseg_cmp flag (STRSEG (str "group")));
        if c =? 0 then signal_flags_loop fuel i flags true
        else
          o ← lift (seg_fmt flag);
          fail_with i (error_buf (str "unknown option " ++ quoted o)) None
      else mret (Some group)
  end.

Definition ctl_cmd_svc_signal (i : nat) : DP bool :=
  a ← ctl_get_arg_service i true;
  match a with
  | None => mret false
  | Some (_, svc) =>
      sig ← ctl_get_arg_signal i;
      match sig with
      | None => mret false
      | Some sig =>
          flags ← ctl_peek_arg i;
          group ← (match flags with
                   | Some flags => signal_flags_loop (Z.to_nat (seg_len flags) + 2) i flags false
                   | None => mret (Some false)
                   end);
          match group with
          | None => mret false
          | Some group =>
              pid ← svc_get_pid svc;
              wstat ← svc_get_wstat svc;
              if (pid <=? 0) || (wstat >=? 0) then fail_with i (str "service is not running") false
              else
                ok ← svc_send_signal svc sig group;
                if negb ok then
                  name ← svc_get_name svc;
                  pid ← svc_get_pid svc;
                  fail_errno i (str "can't kill " ++ name ++ str " (" ++ (if (group : bool) then str "pgid" else str "pid") ++
                    str " " ++ fmt_d pid ++ str ")")
                else mret true
          end
      end
  end.

Definition ctl_cmd_svc_delete (i : nat) : DP bool :=
  a ← ctl_get_arg_service i true;
  match a with
  | None => mret false
  | Some (_, svc) =>
      pid ← svc_get_pid svc;
      if pid >? 0 then fail_with i (str "service is running") false
      else
        name ← svc_get_name svc;
        let dash := str "-" in
        ctl_write None (tab_join [str "service.state"; name; str "deleted"; dash; dash; dash; dash; dash; dash]);;
        svc_delete svc;;
        mret true
  end.
End svc_cmd.
