(* ===== verification/SoundObjCmd.v ===== *)
(** * The commands on descriptors and services keep the daemon sound *)

From S2P Require Import Prelude Strseg State RBTree RBTreeRep OrdIndex RBTreeIndex Table Log Signal SignalSpec CtlOut CtlOutSpec SvcVars Fd FdSpec CtlObj Service Dll ServiceSpec SvcRun SvcActive SvcNew SvcLists Sound SoundSvc CtlArg CtlSock Fatal Options CtlCmd CtlObjCmd SoundFd SoundArg SoundSock SoundCmd.

(** ** The fields of an argument *)

Definition fields_by (sep : Z) (s : strseg_t) : list (list Z) := if seg_len s <? 0 then [] else split_on sep (seg_view s).

Lemma tok_by sep s : tok_seg s → ∃ more s' tok, strseg_tok_next s sep = Done (more, s', tok) ∧ tok_seg s' ∧
  fields_by sep s' = tl (fields_by sep s) ∧
  match fields_by sep s with
  | [] => more = false
  | f :: _ => more = true ∧ seg_wf tok ∧ seg_view tok = f ∧ seg_len s' < seg_len s
  end.
Proof.
  intros Hs. unfold fields_by at 2 3. destruct (Z.ltb_spec (seg_len s) 0) as [Hneg|Hpos].
  { exists false, s, s. rewrite strseg_tok_next_done by done. split_and!; [done..| |done].
    unfold fields_by. by rewrite (proj2 (Z.ltb_lt _ _)). }
  destruct Hs as [Hwf|]; [|lia]. pose proof (seg_view_length s Hwf) as Hlen. pose proof (sep_index_le sep (seg_view s)) as Hk.
  destruct (strseg_tok_next_spec s sep Hwf) as (s' & tok & E & Htw & Htv & Hl & Hrest). cbv zeta in *.
  exists true, s', tok. split; [exact E|]. rewrite split_on_index. cbn [tl].
  destruct (Nat.ltb_spec (sep_index sep (seg_view s)) (length (seg_view s))) as [Hlt|Hge].
  - destruct (Hrest Hlt) as [Hw' Hv']. split_and!; [by left| |done|done|done|lia].
    unfold fields_by. destruct (Z.ltb_spec (seg_len s') 0); [lia|]. by rewrite Hv'.
  - split_and!; [right; lia| |done|done|done|lia]. unfold fields_by. destruct (Z.ltb_spec (seg_len s') 0); [done|lia].
Qed.

(** ** Flags *)

(** One comparison of the flags after the other. *)
Ltac match_flag :=
  match goal with
  | |- ∃ r, (STRMATCH ?s ?l ≫= _) = _ => rewrite (STRMATCH_ok s l) by done
  | |- ∃ r, (STRMATCH ?s ?l ≫= _) = _ ∧ _ => rewrite (STRMATCH_ok s l) by done
  end; cbn [mbind outcome_bind]; case_bool_decide.

Lemma pipe_flag_ok opt f : seg_wf opt → ∃ r, pipe_flag opt f = Done r.
Proof. intros Hw. unfold pipe_flag. repeat (match_flag; [by eexists|]). by eexists. Qed.

Lemma open_flag_ok opt f : seg_wf opt → ∃ r, open_flag opt f = Done r ∧ ∀ f', r = Some f' → fl_pipe f' = fl_pipe f.
Proof.
  intros Hw. unfold open_flag.
  repeat (match_flag; [eexists; split; [done|by intros ? [= <-]]|]).
  by eexists.
Qed.

Lemma listen_flag_ok optval f : tok_seg optval → ∃ r, listen_flag optval f = Done r ∧
  ∀ f', r = sock_flags f' → fl_pipe f' = fl_pipe f ∧ fl_mkdir f' = fl_mkdir f.
Proof.
  intros Hv. unfold listen_flag. destruct (Z.gtb_spec (seg_len optval) 0); [|eexists; split; [done|by intros ? [= <-]]].
  destruct Hv as [Hv|]; [|lia]. rewrite strseg_atoi_spec by done. cbn [mbind outcome_bind].
  destruct (atoi_ref (seg_view optval)) as [[k v]|]; [|by eexists]. case_match; [by eexists|].
  eexists; split; [done|]. by intros ? [= <-].
Qed.

Lemma sock_flag_ok opt optval f : seg_wf opt → tok_seg optval → ∃ r, sock_flag opt optval f = Done r ∧
  ∀ f', r = sock_flags f' → fl_pipe f' = fl_pipe f ∧ (fl_mkdir f' = true → fl_mkdir f = true ∨ seg_view opt = str "mkdir").
Proof.
  intros Hw Hv. unfold sock_flag.
  assert (Hdone : ∀ f', fl_pipe f' = fl_pipe f → (fl_mkdir f' = fl_mkdir f ∨ seg_view opt = str "mkdir") →
    ∃ r, Done (sock_flags f') = Done r ∧ ∀ f', r = sock_flags f' → fl_pipe f' = fl_pipe f ∧
      (fl_mkdir f' = true → fl_mkdir f = true ∨ seg_view opt = str "mkdir")).
  { intros f' E1 E2. eexists; split; [done|]. intros ? [= <-]. split; [done|]. intros Hm. destruct E2; [left; congruence|by right]. }
  match_flag; [apply Hdone; [done|by left]|].
  match_flag.
  { destruct (listen_flag_ok optval f Hv) as (r & Er & Hr). exists r. split; [done|]. intros f' E. destruct (Hr f' E) as [-> ->]. auto. }
  repeat (match_flag; [apply Hdone; [done|first [by left|by right]]|]).
  by eexists.
Qed.

Lemma split_1_ok s sep : seg_wf s → 0 < seg_len s → ∃ b s1 rest, strseg_split_1 s sep s = Done (b, s1, rest) ∧ seg_wf s1 ∧
  seg_wf rest ∧ seg_len rest < seg_len s.
Proof.
  intros Hwf Hpos. pose proof (seg_view_length s Hwf). pose proof (sep_index_le sep (seg_view s)). unfold strseg_split_1.
  rewrite strseg_scan_0 by done. cbn [mbind outcome_bind].
  case_match; do 3 eexists; (split; [reflexivity|]); unfold seg_wf in *; cbn; lia.
Qed.

(** ** Addresses *)

Lemma dotted_scan_ok n s len : seg_wf s → 0 ≤ len → len + Z.of_nat n = seg_len s →
  ∃ m, dotted_scan n s len = Done m ∧ len ≤ m ≤ seg_len s.
Proof.
  intros Hwf. revert len; induction n as [|n IH]; intros len Hl Hn; cbn [dotted_scan]; [exists len; split; [done|lia]|].
  destruct (seg_at_ok s len Hwf) as (c & ->); [lia|]. cbn [mbind outcome_bind]. case_match; [exists len; split; [done|lia]|].
  destruct (IH (len + 1)) as (m & -> & ?); [lia..|]. exists m. split; [done|lia].
Qed.

Lemma seg_bytes_ok n s i : seg_wf s → 0 ≤ i → i + Z.of_nat n ≤ seg_len s → ∃ l, seg_bytes n s i = Done l.
Proof.
  intros Hwf. revert i; induction n as [|n IH]; intros i Hi Hn; cbn [seg_bytes]; [by eexists|].
  destruct (seg_at_ok s i Hwf) as (c & ->); [lia|]. cbn [mbind outcome_bind].
  destruct (IH (i + 1)) as (l & ->); [lia..|]. by eexists.
Qed.

Lemma parse_in_port_ok s addr : seg_wf s → ∃ r, parse_in_port s addr = Done r.
Proof.
  intros Hwf. unfold parse_in_port. destruct (Z.gtb_spec (seg_len s) 0); cbn [mbind outcome_bind]; [|by eexists].
  destruct (seg_at_ok s 0 Hwf) as (c & ->); [lia|]. cbn [mbind outcome_bind]. case_match; [|by eexists].
  rewrite strseg_atoi_spec by (apply seg_advance_wf; [done|lia]). by eexists.
Qed.

Lemma parse_sockaddr_ok `{Inet} s family : seg_wf s → ∃ r, strseg_parse_sockaddr s family = Done r.
Proof.
  intros Hwf. unfold strseg_parse_sockaddr. destruct (Z.leb_spec (seg_len s) 0); [by eexists|].
  case_match; [case_match; [by eexists|]; rewrite seg_str_ok by done; by eexists|]. case_match; [|by eexists].
  destruct (seg_at_ok s 0 Hwf) as (c & ->); [lia|]. cbn [mbind outcome_bind].
  case_match; [apply parse_in_port_ok, seg_advance_wf; [done|lia]|].
  destruct (dotted_scan_ok (Z.to_nat (seg_len s)) s 0 Hwf) as (m & -> & ?); [lia..|]. cbn [mbind outcome_bind].
  destruct (_ || _) eqn:E; [by eexists|]. destruct (seg_bytes_ok (Z.to_nat m) s 0 Hwf) as (l & ->); [lia..|]. cbn [mbind outcome_bind].
  destruct (inet_pton l); [|by eexists]. apply parse_in_port_ok, seg_advance_wf; [done|lia].
Qed.

Section fd_cmd.
Context `{OS} `{!WriteOk} `{Inet}.
Variables (i n : nat).
Notation at_cmd := (at_cmd i n).
Notation finishes := (finishes n).
Notation step_to := (step_to i n).

Lemma step_unknown {A} opt (a : A) fs g : at_cmd fs g → seg_wf opt →
  returns (unknown_flag i opt;; mret a) g (λ r g', r = a ∧ step_to fs g g').
Proof.
  intros Hg Ho. destruct (seg_fmt_ok opt Ho) as (l & E). eapply (returns_seq _ _ _ (λ _ g', step_to fs g g')).
  - eapply step_lift; [exact E|]. eapply returns_mono; [by apply (step_fail i n fs)|]. by intros r g' [].
  - intros ? g' Hs. by apply returns_ret.
Qed.

(** ** The loops over the flags *)

Lemma pipe_flags_safe fuel fs g opts f : at_cmd fs g → seg_wf opts → seg_len opts < Z.of_nat fuel →
  returns (pipe_flags_loop fuel i opts f) g (λ _ g', step_to fs g g').
Proof.
  intros Hg. revert opts f. induction fuel as [|fuel IH]; intros opts f Hw Hl; [unfold seg_wf in Hw; lia|].
  cbn [pipe_flags_loop]. destruct (Z.gtb_spec (seg_len opts) 0); [|apply returns_ret; by apply step_to_refl].
  destruct (split_1_ok opts (ch ",") Hw) as (b & opt & rest & E & Hw1 & Hw2 & Hl2); [lia|].
  eapply step_lift; [exact E|]. cbn beta iota. destruct (seg_len opt <=? 0); [apply IH; [done|lia]|].
  destruct (pipe_flag_ok opt f Hw1) as (r & Er). eapply step_lift; [exact Er|].
  destruct r as [f'|]; [apply IH; [done|lia]|]. eapply returns_mono; [by apply (step_unknown _ _ fs)|]. by intros ? ? [].
Qed.

Lemma open_flags_safe fuel fs g opts f : at_cmd fs g → tok_seg opts → seg_len opts + 1 < Z.of_nat fuel →
  returns (open_flags_loop fuel i opts f) g (λ r g', step_to fs g g' ∧ ∀ f', r = Some f' → fl_pipe f' = fl_pipe f).
Proof.
  intros Hg. revert opts f. induction fuel as [|fuel IH]; intros opts f Hw Hl; [unfold tok_seg, seg_wf in Hw; lia|].
  cbn [open_flags_loop]. destruct (tok_by (ch ",") opts Hw) as (more & rest & opt & E & Hw2 & _ & Hm).
  eapply step_lift; [exact E|]. cbn beta iota.
  assert (Hdone : returns (mret (Some f)) g (λ r g', step_to fs g g' ∧ ∀ f', r = Some f' → fl_pipe f' = fl_pipe f)).
  { apply returns_ret. split; [by apply step_to_refl|by intros ? [= <-]]. }
  destruct (fields_by (ch ",") opts) as [|o os]; [by subst more|]. destruct Hm as (-> & Hwo & _ & Hl2).
  destruct (seg_len opt =? 0); [apply IH; [done|lia]|].
  destruct (open_flag_ok opt f Hwo) as (r & Er & Hr). eapply step_lift; [exact Er|].
  destruct r as [f1|].
  - eapply returns_mono; [apply IH; [done|lia]|]. intros r g' (Hs & Hp). split; [done|]. intros f' ->. rewrite (Hp f' eq_refl). by apply Hr.
  - eapply returns_mono; [by apply (step_unknown _ None fs)|]. by intros r g' (-> & ?).
Qed.

(** The names of the options of fd.socket. *)
Definition option_names (opts : list (list Z)) : list (list Z) := map (λ o, hd [] (split_on EQ o)) opts.

Lemma sock_flags_safe fuel fs g opts f : at_cmd fs g → tok_seg opts → seg_len opts + 1 < Z.of_nat fuel →
  returns (sock_flags_loop fuel i opts f) g (λ r g', step_to fs g g' ∧ ∀ f', r = Some f' → fl_pipe f' = fl_pipe f ∧
    (fl_mkdir f' = true → fl_mkdir f = true ∨ str "mkdir" ∈ option_names (fields_by (ch ",") opts))).
Proof.
  intros Hg. revert opts f. induction fuel as [|fuel IH]; intros opts f Hw Hl; [unfold tok_seg, seg_wf in Hw; lia|].
  cbn [sock_flags_loop]. destruct (tok_by (ch ",") opts Hw) as (more & rest & opt & E & Hw2 & Hrest & Hm).
  eapply step_lift; [exact E|]. cbn beta iota.
  destruct (fields_by (ch ",") opts) as [|o os].
  { subst more. apply returns_ret. split; [by apply step_to_refl|]. intros ? [= <-]. auto. }
  destruct Hm as (-> & Hwo & Hvo & Hl2). cbn [tl] in Hrest.
  assert (Hnext : ∀ f1, fl_pipe f1 = fl_pipe f → (fl_mkdir f1 = true → fl_mkdir f = true ∨ str "mkdir" ∈ option_names (o :: os)) →
    returns (sock_flags_loop fuel i rest f1) g (λ r g', step_to fs g g' ∧ ∀ f', r = Some f' → fl_pipe f' = fl_pipe f ∧
    (fl_mkdir f' = true → fl_mkdir f = true ∨ str "mkdir" ∈ option_names (o :: os)))).
  { intros f1 Hp1 Hm1. eapply returns_mono; [apply IH; [done|lia]|]. intros r g' (Hs & Hr). split; [done|].
    intros f' ->. destruct (Hr f' eq_refl) as [Hp Hm]. split; [congruence|]. intros Hmk. rewrite Hrest in Hm.
    destruct (Hm Hmk) as [?|?]; [by apply Hm1|]. right. by right. }
  destruct (seg_len opt =? 0); [apply Hnext; auto|].
  destruct (tok_by EQ opt (or_introl Hwo)) as (more2 & optval & name & E2 & Hwv & _ & Hm2).
  eapply step_lift; [exact E2|]. cbn beta iota. unfold fields_by in Hm2.
  rewrite (proj2 (Z.ltb_ge (seg_len opt) 0)) in Hm2 by (unfold seg_wf in Hwo; lia).
  destruct (split_on EQ (seg_view opt)) as [|nm nms] eqn:Eo; [by destruct (split_on_ne EQ (seg_view opt))|].
  destruct Hm2 as (_ & Hwn & Hvn & _).
  destruct (sock_flag_ok name optval f Hwn Hwv) as (r & Er & Hr). eapply step_lift; [exact Er|].
  destruct r as [f1| |].
  - destruct (Hr f1 eq_refl) as [Hp1 Hm1]. apply Hnext; [done|]. intros Hmk. destruct (Hm1 Hmk) as [?|Hv]; [auto|].
    right. unfold option_names. rewrite map_cons. apply elem_of_cons. left. by rewrite <-Hvo, Eo, <-Hvn.
  - eapply returns_mono; [by apply (step_fail i n fs)|]. by intros r g' (-> & ?).
  - eapply returns_mono; [by apply (step_unknown _ None fs)|]. by intros r g' (-> & ?).
Qed.

(** ** The descriptors *)

Lemma keeps_mkdirs prefix path : keeps (create_missing_dirs prefix path) (λ _, True).
Proof. revert prefix; induction path as [|c path IH]; intros prefix; cbn [create_missing_dirs]; keeps_tac. Qed.

Lemma new_object_safe fs g name f flags path : at_cmd fs g → seg_wf name → seg_len name < NAME_BUF_SIZE → seg_wf path →
  fl_pipe flags = false → finishes (new_file_object i name f flags path) g.
Proof.
  intros Hg Hw Hl Hp Hf. eapply (step_kept _ _ _ _ fs); [done|by apply sound_new_file; [apply Hg|..]|].
  intros o g1 [Hg1 _] Ho. destruct (Z.eqb_spec o 0) as [|Hne].
  - eapply (step_keeps _ _ _ _ fs); [done|apply keeps_sys|]. intros _ g2 [Hg2 _] _. by apply (finishes_fail i n fs).
  - eapply (step_kept_only _ _ _ _ fs); [done|eapply returns_mono; [by apply sound_notify_fd; [apply Hg1|auto|]|by intros ? ? (? & ? & _)]|].
    intros _ g2 [Hg2 _]. by apply (finishes_ret i n fs).
Qed.

Lemma open_pipe_safe fs g f : at_cmd fs g → returns (open_pipe i f) g (λ _ g', step_to fs g g').
Proof.
  intros Hg. eapply (step_keeps _ _ _ _ fs); [done|destruct (fl_socket f); apply keeps_sys|]. intros p g1 Hs1 _.
  assert (Hfail : ∀ what g2, step_to fs g g2 → returns (fail_errno i what;; mret (None : option (Z * Z))) g2 (λ _ g', step_to fs g g')).
  { intros what g2 Hs2. eapply (returns_seq _ _ _ (λ _ g', step_to fs g g')).
    - eapply (step_keeps _ _ _ _ fs); [apply Hs2|apply keeps_errno|]. intros e g3 Hs3 _.
      eapply returns_mono; [apply (step_fail i n fs), Hs3|]. intros r g4 (_ & Hs4). eapply step_to_trans; [exact Hs2|]. by eapply step_to_trans.
    - intros ? g3 Hs3. by apply returns_ret. }
  case_match; [by apply Hfail|].
  eapply (step_keeps _ _ _ _ fs _ (λ _, True)); [apply Hs1| |].
  - destruct (fl_nonblock f); [|by keeps_tac]. eapply (keeps_seq _ _ (λ _, True)); [apply keeps_set_nonblock|]. intros [] _; [apply keeps_set_nonblock|by keeps_tac].
  - intros ok g2 Hs2 _. assert (Hs : step_to fs g g2) by by eapply step_to_trans. destruct ok; [by apply returns_ret|by apply Hfail].
Qed.

Lemma peer_io o p g g' : fd_get_pipe_peer o g = Done (p, g) → g_fd g' = g_fd g → fd_get_pipe_peer o g' = Done (p, g').
Proof.
  unfold fd_get_pipe_peer, mbind, M_bind, fd_obj. intros E Efd. rewrite Efd. destruct (fd_objs (g_fd g) !! o) as [f|]; [|done].
  destruct (fl_pipe (fd_flags f)); [|by injection E as <-]. unfold lift in *. destruct (pipe_peer f); [|done..]. by injection E as <-.
Qed.

(** The ends of a pipe have different names. *)
Definition ends_differ (fs : list (list Z)) : Prop := match fs with a :: b :: _ => a ≠ b | _ => True end.

Lemma fd_pipe_safe fs g : at_cmd fs g → ends_differ fs → finishes (ctl_cmd_fd_pipe i) g.
Proof.
  intros Hg Hd. eapply returns_seq; [by apply (step_fd i n false true fs)|]. intros r g1 ([Hg1 _] & Hr).
  destruct r as [[read_side o1]|]; [|by apply (finishes_ret i n (tl fs))]. destruct (Hr _ eq_refl) as ((Ha1 & Hh1 & Hl1) & _). cbn in Ha1, Hh1, Hl1.
  eapply returns_seq; [by apply (step_fd i n false true (tl fs))|]. intros w g2 ([Hg2 _] & Hw).
  destruct w as [[write_side o2]|]; [|by apply (finishes_ret i n (tl (tl fs)))]. destruct (Hw _ eq_refl) as ((Ha2 & Hh2 & Hl2) & _). cbn in Ha2, Hh2, Hl2.
  assert (Hne : seg_view read_side ≠ seg_view write_side).
  { destruct fs as [|a [|b fs]]; cbn in *; [done..|]. congruence. }
  eapply returns_seq; [by apply (step_arg i n (tl (tl fs)))|]. intros opts g3 (Ht & [Hg3 _]). set (fs3 := tl (tl (tl fs))) in *.
  eapply (returns_seq _ _ _ (λ _ g', step_to fs3 g3 g')).
  { pose proof (takes_wf _ _ Ht) as Hwf. destruct opts as [opts|]; [|apply returns_ret; by apply step_to_refl].
    apply pipe_flags_safe; [done|by apply Hwf|]. specialize (Hwf opts eq_refl). unfold seg_wf in Hwf. lia. }
  intros flags g4 [Hg4 _]. destruct flags as [flags|]; [|by apply (finishes_ret i n fs3)].
  eapply returns_seq; [by apply (open_pipe_safe fs3)|]. intros ends g5 [Hg5 _]. destruct ends as [[a b]|]; [|by apply (finishes_ret i n fs3)].
  eapply (step_kept _ _ _ _ fs3); [done|apply sound_new_pipe; [apply Hg5|apply Ha1|done|apply Ha2|done..]|].
  intros o g6 [Hg6 _] Ho. destruct (Z.eqb_spec o 0) as [|Hne0].
  - do 2 (eapply (step_keeps _ _ _ _ fs3); [eassumption|apply keeps_sys|]; intros ? ? [? _] _). by apply (finishes_fail i n fs3).
  - destruct (Ho Hne0) as (Hfd & p & Hpfd & (q & ? & Eq & -> & ->)).
    eapply returns_seq; [apply (sound_notify_fd g6 None o); [apply Hg6|done|done]|]. intros _ g7 (Hg7 & K7 & F7).
    assert (Hg7' : at_cmd fs3 g7) by by eapply at_cmd_kept.
    eapply returns_done; [by eapply peer_io; [exact Eq|apply F7]|].
    eapply (step_kept_only _ _ _ _ fs3); [done|eapply returns_mono; [apply (sound_notify_fd g7 None p); [done| |done]|by intros ? ? (? & ? & _)]|].
    + unfold is_fd. by rewrite (io_fd _ _ F7).
    + intros _ g8 [Hg8 _]. by apply (finishes_ret i n fs3).
Qed.
Lemma fd_open_safe fs g : at_cmd fs g → finishes (ctl_cmd_fd_open i) g.
Proof.
  intros Hg. eapply returns_seq; [by apply (step_fd i n false true fs)|]. intros a g1 ([Hg1 _] & Ha).
  destruct a as [[fdname o]|]; [|by apply (finishes_ret i n (tl fs))]. destruct (Ha _ eq_refl) as ((Hn & _ & Hl) & _). cbn in Hn, Hl.
  eapply returns_seq; [by apply (step_arg i n (tl fs))|]. intros opts g2 (Ht2 & [Hg2 _]).
  destruct opts as [opts|]; [|by apply (finishes_fail i n (tl (tl fs)))]. pose proof (takes_wf _ _ Ht2 opts eq_refl) as Hwo.
  eapply returns_seq; [by apply (step_arg i n (tl (tl fs)))|]. intros path g3 (Ht3 & [Hg3 _]). set (fs3 := tl (tl (tl fs))) in *.
  destruct path as [path|]; [|by apply (finishes_fail i n fs3)].
  eapply returns_seq; [by apply (step_peek i n fs3)|]. intros more g4 (-> & Ht4).
  destruct more; [by apply (finishes_fail i n fs3)|]. destruct (no_more (tl (tl fs)) None path Ht3 Ht4) as [Hpa Hpn]; [done|].
  destruct (path_string_ok path g3 Hpa Hpn) as (p & Ep). eapply returns_done; [exact Ep|].
  eapply returns_seq; [apply (open_flags_safe _ fs3); [done|by left|unfold seg_wf in Hwo; lia]|].
  intros r g5 ([Hg5 _] & Hr). destruct r as [flags|]; [|by apply (finishes_ret i n fs3)].
  eapply (step_keeps _ _ _ _ fs3); [done|apply keeps_when, keeps_mkdirs|]. intros _ g6 [Hg6 _] _.
  eapply (step_keeps _ _ _ _ fs3); [done|apply keeps_sys|]. intros f g7 [Hg7 _] _.
  apply finishes_if; [by apply (finishes_errno i n _ fs3)|].
  apply (new_object_safe fs3); [done|apply Hn|done|apply Hpa|]. by rewrite (Hr flags eq_refl).
Qed.

(** The address, and that the flag "bind" comes with one. *)
Lemma sock_address_safe fs g flags : at_cmd fs g → returns (sock_address i flags) g (λ r g', step_to (tl fs) g g' ∧
  ∀ flags' addr spec, r = Some (flags', addr, spec) → fl_pipe flags' = fl_pipe flags ∧ fl_mkdir flags' = fl_mkdir flags ∧
    seg_wf spec ∧ (addr = None → fs = [] ∧ fl_bind flags' = false)).
Proof.
  intros Hg. eapply returns_seq; [by apply (step_arg i n fs)|]. intros addrspec g1 (Ht & Hs).
  assert (Hfail : ∀ msg, returns (fail_with i msg (None : option (fd_flags_t * option (list Z) * strseg_t))) g1
    (λ r g', step_to (tl fs) g g' ∧ ∀ flags' addr spec, r = Some (flags', addr, spec) → fl_pipe flags' = fl_pipe flags ∧
      fl_mkdir flags' = fl_mkdir flags ∧ seg_wf spec ∧ (addr = None → fs = [] ∧ fl_bind flags' = false))).
  { intros msg. eapply returns_mono; [apply (step_fail i n (tl fs)), Hs|]. intros r g2 (-> & Hs2). split; [by eapply step_to_trans|done]. }
  destruct addrspec as [spec|].
  - pose proof (takes_wf _ _ Ht spec eq_refl) as Hw. cbv zeta.
    destruct (parse_sockaddr_ok spec (sock_domain (set_fl_bind true flags)) Hw) as (r & Er). eapply step_lift; [exact Er|].
    destruct r as [[addr rest]|]; [|apply Hfail]. destruct (negb _); [apply Hfail|].
    apply returns_ret. split; [done|]. by intros ? ? ? [= <- <- <-].
  - destruct (fl_bind flags) eqn:Eb; [apply Hfail|]. apply returns_ret. split; [done|]. intros ? ? ? [= <- <- <-].
    split_and!; [done|done|by unfold seg_wf; cbn|]. intros _. split; [|done]. destruct fs; [done|]. by destruct Ht as (? & ? & _).
Qed.

Lemma keeps_sock_setup flags addr : (addr = None → fl_bind flags = false) → keeps (sock_setup flags addr) (λ _, True).
Proof.
  intros Ha. eapply (keeps_seq _ _ (λ _, True)); [apply keeps_sys|]. intros f _. cbv zeta. case_match; [by apply keeps_ret|].
  eapply (keeps_seq _ _ (λ _, True)); [by keeps_tac|]. intros a _. destruct a; [by apply keeps_ret|].
  eapply (keeps_seq _ _ (λ _, True)).
  { destruct (fl_bind flags); [|by keeps_tac]. destruct addr; [by keeps_tac|]. by specialize (Ha eq_refl). }
  intros b _. by keeps_tac.
Qed.

(** Making the directories of a local socket needs its address. *)
Definition mkdir_has_address (fs : list (list Z)) : Prop :=
  match fs with _ :: opts :: [] => str "mkdir" ∉ option_names (split_on (ch ",") opts) | _ => True end.

Lemma fd_socket_safe fs g : at_cmd fs g → mkdir_has_address fs → finishes (ctl_cmd_fd_socket i) g.
Proof.
  intros Hg Hd. eapply returns_seq; [by apply (step_fd i n false true fs)|]. intros a g1 ([Hg1 _] & Ha).
  destruct a as [[fdname o]|]; [|by apply (finishes_ret i n (tl fs))]. destruct (Ha _ eq_refl) as ((Hn & Hh & Hl) & _). cbn in Hn, Hl, Hh.
  eapply returns_seq; [by apply (step_arg i n (tl fs))|]. intros opts g2 (Ht2 & [Hg2 _]).
  destruct opts as [opts|]; [|by apply (finishes_fail i n (tl (tl fs)))]. pose proof (takes_wf _ _ Ht2 opts eq_refl) as Hwo.
  eapply returns_seq; [apply (sock_flags_safe _ (tl (tl fs))); [done|by left|unfold seg_wf in Hwo; lia]|].
  intros r g3 ([Hg3 _] & Hr). destruct r as [flags|]; [|by apply (finishes_ret i n (tl (tl fs)))].
  destruct (Hr flags eq_refl) as [Hp Hmk]. set (fs3 := tl (tl (tl fs))).
  eapply returns_seq; [by apply (sock_address_safe (tl (tl fs)))|]. intros r2 g4 ([Hg4 _] & Hr2). fold fs3 in Hg4.
  destruct r2 as [[[flags2 addr] spec]|]; [|by apply (finishes_ret i n fs3)].
  destruct (Hr2 _ _ _ eq_refl) as (Hp2 & Hmk2 & Hws & Haddr).
  eapply returns_seq; [by apply (step_peek i n fs3)|]. intros more g5 (-> & _). destruct more; [by apply (finishes_fail i n fs3)|].
  eapply (step_keeps _ _ _ _ fs3 _ (λ _, True)); [done| |].
  { destruct (fl_mkdir flags2) eqn:Em; cbn [andb]; [|by keeps_tac]. destruct (_ =? _); [|by keeps_tac].
    destruct addr as [addr|]; [apply keeps_mkdirs|]. exfalso. destruct (Haddr eq_refl) as [Hfs _].
    destruct (Hmk (eq_sym Hmk2)) as [?|Hin]; [done|].
    destruct fs as [|nm [|os [|]]]; try done. cbn in Ht2, Hd. destruct Ht2 as (? & [= <-] & _ & Hv & _).
    apply Hd. rewrite <-Hv. unfold fields_by in Hin. rewrite (proj2 (Z.ltb_ge _ _)) in Hin by (unfold seg_wf in Hwo; lia). done. }
  intros _ g6 [Hg6 _] _. eapply (step_keeps _ _ _ _ fs3); [done|apply keeps_sock_setup; by intros E; apply Haddr|].
  intros [failed f] g7 [Hg7 _] _. destruct failed as [what|].
  - eapply (returns_seq _ _ _ (λ _ g', step_to fs3 g7 g')).
    { eapply (step_keeps _ _ _ _ fs3); [done|apply keeps_errno|]. intros e g8 [Hg8 Hs8] _.
      eapply returns_mono; [by apply (step_fail i n fs3)|]. intros r g9 (_ & Hs9). by eapply step_to_trans. }
    intros _ g8 [Hg8 _]. eapply (step_keeps _ _ _ _ fs3); [done|apply (keeps_when _ (sys _;; mret tt)); by keeps_tac|].
    intros _ g9 [Hg9 _] _. by apply (finishes_ret i n fs3).
  - apply (new_object_safe fs3); [done|apply Hn|done|done|]. by rewrite Hp2, Hp.
Qed.

Lemma fd_take_safe fs g : at_cmd fs g → finishes (ctl_cmd_fd_take i) g.
Proof.
  intros Hg. destruct (at_cmd_get _ _ _ _ Hg) as (c & Eg & _). eapply returns_done; [exact Eg|].
  destruct (recv_ancillary_fd c) as [|new_fd rest]; [by apply (finishes_fail i n fs)|].
  eapply (step_upd i n _ _ fs); [done|done|]. intros g1 [Hg1 _].
  eapply returns_seq; [by apply (step_fd i n false true fs)|]. intros a g2 ([Hg2 _] & Ha).
  destruct a as [[fdname o]|].
  2:{ eapply (step_keeps _ _ _ _ (tl fs)); [done|apply keeps_sys|]. intros _ g3 [Hg3 _] _. by apply (finishes_ret i n (tl fs)). }
  destruct (Ha _ eq_refl) as ((Hn & _ & Hl) & _). cbn in Hn, Hl.
  eapply (step_kept _ _ _ _ (tl fs)); [done|by apply sound_new_unknown; [apply Hg2|apply Hn|]|].
  intros fd g3 [Hg3 _] Ho. destruct (Z.eqb_spec fd 0).
  - eapply (step_keeps _ _ _ _ (tl fs)); [done|apply keeps_sys|]. intros _ g4 [Hg4 _] _. by apply (finishes_fail i n (tl fs)).
  - eapply (step_kept_only _ _ _ _ (tl fs)); [done|eapply returns_mono; [by apply sound_notify_fd; [apply Hg3|auto|]|by intros ? ? (? & ? & _)]|].
    intros _ g4 [Hg4 _]. by apply (finishes_ret i n (tl fs)).
Qed.

Lemma fd_delete_safe fs g : at_cmd fs g → finishes (ctl_cmd_fd_delete i) g.
Proof.
  intros Hg. eapply returns_seq; [by apply (step_fd i n true true fs)|]. intros a g1 ([Hg1 _] & Ha).
  destruct a as [[name fd]|]; [|by apply (finishes_ret i n (tl fs))]. destruct (Ha _ eq_refl) as (_ & Hfd & Hne).
  cbn [snd] in *. specialize (Hfd (Hne eq_refl)).
  destruct (sound_fd_obj g1 fd (ac_sound _ _ _ _ Hg1) Hfd) as (f & Ef & _).
  eapply (returns_done _ _ _ (fd_name f) g1); [unfold fd_get_name; by rewrite (bind_done _ _ _ _ _ Ef)|].
  eapply returns_seq; [by apply sound_write; [apply Hg1|apply tab_join_lines|]|]. intros _ g2 (Hg2 & K2 & F2).
  assert (Hg2' : at_cmd (tl fs) g2) by by eapply at_cmd_kept.
  eapply (step_kept_only _ _ _ _ (tl fs)); [done|apply sound_fd_delete; [done|]|].
  - unfold is_fd. by rewrite (io_fd _ _ F2).
  - intros _ g3 [Hg3 _]. by apply (finishes_ret i n (tl fs)).
Qed.
End fd_cmd.
