(* ===== verification/SoundSvcCmd.v ===== *)
(** * The commands on services keep the daemon sound *)

From S2P Require Import Prelude Strseg State RBTree RBTreeRep OrdIndex RBTreeIndex Table Log Signal SignalSpec CtlOut CtlOutSpec SvcVars Fd FdSpec CtlObj Service Dll ServiceSpec SvcRun SvcActive SvcNew SvcLists Sound SoundSvc CtlArg CtlSock Fatal Options CtlCmd CtlObjCmd SoundFd SoundArg SoundSock SoundCmd SoundObjCmd.

(** What is left of the line, as a value. *)
Lemma cmd_rest_ok s : cmd_seg s → seg_wf (rest_or_empty s) ∧ NUL ∉ seg_view (rest_or_empty s).
Proof.
  intros Hc. unfold rest_or_empty. destruct (Z.geb_spec (seg_len s) 0); [split; [by apply cmd_seg_wf|apply Hc]|].
  split; [apply STRSEG_wf|]. rewrite STRSEG_view. apply not_elem_of_nil.
Qed.

Section svc_cmd.
Context `{OS} `{!WriteOk}.
Variables (i n : nat).
Notation at_cmd := (at_cmd i n).
Notation finishes := (finishes n).
Notation step_to := (step_to i n).

(** ** Reading a service *)

Lemma step_read {A B} (m : DP A) (f : A → DP B) g Q : returns m g (λ _ g', g' = g) → (∀ a, returns (f a) g Q) → returns (m ≫= f) g Q.
Proof. intros Hm Hf. eapply returns_seq; [exact Hm|]. intros a g' ->. apply Hf. Qed.

Lemma fin_events (m : DP bool) fs g o : at_cmd fs g → is_svc g o → keeps m (λ _, True) → finishes (m;; mret true) g.
Proof. intros Hg Ho Hm. eapply (step_keeps _ _ _ _ fs); [done|exact Hm|]. intros _ g1 [Hg1 _] _. by apply (finishes_ret i n fs). Qed.

Lemma keeps_all msg : whole_lines msg → keeps (ctl_write None msg) (λ _, True).
Proof. intros Hm g Hg. eapply returns_mono; [by apply sound_write|]. by intros ? ? (? & ? & _). Qed.

(** The name and a value of a service, and the event about them. *)
Lemma events_safe get dflt (notify : option nat → list Z → list Z → DP bool) fs g o : at_cmd fs g → is_svc g o →
  (∀ name v, keeps (notify None name v) (λ _, True)) →
  finishes (name ← svc_get_name o; v ← svc_get_cstr o get dflt; notify None name v;; mret true) g.
Proof.
  intros Hg Ho Hn. apply step_read; [by apply svc_field; [apply Hg|]|]. intros name.
  apply step_read; [by apply sound_get_cstr; [apply Hg|]|]. intros v. by apply (fin_events _ fs g o).
Qed.

(** service.tags and service.args. *)
Lemma value_safe set get dflt (notify : option nat → list Z → list Z → DP bool) msg fs g :
  (∀ g o s, sound g → is_svc g o → seg_wf s → NUL ∉ seg_view s → returns (set o s) g (λ _ g', sound g' ∧ kept g g')) →
  (∀ name v, keeps (notify None name v) (λ _, True)) → at_cmd fs g →
  finishes (a ← ctl_get_arg_service i false;
    match a with
    | None => mret false
    | Some (_, svc) =>
        c ← get_ctl i;
        ok ← set svc (rest_or_empty (command c));
        if negb ok then fail_with i msg false
        else name ← svc_get_name svc; v ← svc_get_cstr svc get dflt; notify None name v;; mret true
    end) g.
Proof.
  intros Hset Hn Hg. eapply returns_seq; [by apply (step_service i n false fs)|]. intros a g1 ([Hg1 _] & Ha).
  destruct a as [[name o]|]; [|by apply (finishes_ret i n (tl fs))]. specialize (Ha _ eq_refl). cbn in Ha.
  destruct (at_cmd_get _ _ _ _ Hg1) as (c & Eg & _ & Hc & _). eapply returns_done; [exact Eg|].
  destruct (cmd_rest_ok _ Hc) as [Hw Hnul].
  eapply (step_kept_only _ _ _ _ (tl fs)); [done|by apply Hset; [apply Hg1|..]|]. intros ok g2 [Hg2 Hs2].
  apply finishes_if; [by apply (finishes_fail i n (tl fs))|]. apply (events_safe _ _ _ (tl fs)); auto.
Qed.

Lemma svc_tags_safe fs g : at_cmd fs g → finishes (ctl_cmd_svc_tags i) g.
Proof.
  apply (value_safe svc_set_tags).
  - intros g' o s Hg Ho Hw Hn. apply sound_set_named; [done..|]. intros x. apply nonempty_ok; [by left|done].
  - intros name v. apply keeps_all, tab_join_lines.
Qed.

Lemma svc_args_safe fs g : at_cmd fs g → finishes (ctl_cmd_svc_args i) g.
Proof.
  apply (value_safe svc_set_argv).
  - intros g' o s Hg Ho Hw Hn. apply sound_set_named; [done..|]. intros x. apply nonempty_ok; [by left|done].
  - intros name v. apply keeps_all, tab_join_lines.
Qed.

(** ** service.fds *)

Lemma fields_length fs g c : at_cmd fs g → g_ctl g !! i = Some c → Z.of_nat (length fs) ≤ seg_len (command c) + 1.
Proof.
  intros [_ _ (c' & Hi & Hc & Hf)] Hi'. rewrite Hi in Hi'. injection Hi' as ->. rewrite <-Hf. unfold fields.
  destruct (Z.ltb_spec (seg_len (command c)) 0); cbn; [pose proof (cs_len _ Hc); lia|].
  pose proof (seg_view_length _ (cmd_seg_wf _ Hc ltac:(lia))) as Hl. rewrite <-Hl.
  assert (Hs : ∀ l, (length (split_on TAB l) ≤ length l + 1)%nat).
  { induction l as [|x l IH]; cbn; [lia|]. destruct (x =? TAB); cbn; [lia|]. destruct (split_on TAB l); cbn in *; lia. }
  specialize (Hs (seg_view (command c))). lia.
Qed.

Lemma check_fds_safe fuel fs g : at_cmd fs g → (length fs < fuel)%nat →
  returns (check_fds_loop fuel i) g (λ _ g', ∃ fs', step_to fs' g g').
Proof.
  revert fs g. induction fuel as [|fuel IH]; intros fs g Hg Hl; [lia|]. cbn [check_fds_loop].
  eapply returns_seq; [by apply (step_tok i n fs)|]. intros arg g1 (Ht & Hs1).
  destruct fs as [|f fs]; cbn in Ht; [subst arg; apply returns_ret; by exists []|]. destruct Ht as (name & -> & Ha & _ & _).
  pose proof (ao_wf _ Ha) as Hwf. destruct (svc_check_name_spec name Hwf) as (ok & Eok & Hok). eapply step_lift; [exact Eok|].
  destruct ok; cbn [negb].
  2:{ eapply returns_mono; [apply (step_fail i n fs), Hs1|]. intros r g2 (_ & Hs2). exists fs. by eapply step_to_trans. }
  assert (Hnl : seg_len name < NAME_BUF_SIZE) by (rewrite <-(seg_view_length name Hwf); by apply legal_name_ok, Hok).
  eapply returns_seq; [apply sound_fd_by_name; [apply Hs1|done..]|]. intros o g2 (-> & _).
  eapply (returns_seq _ _ _ (λ _ g', step_to fs g g')).
  { destruct (o =? 0); [|by apply returns_ret]. destruct (seg_fmt_ok name Hwf) as (l & El). eapply step_lift; [exact El|].
    eapply (step_write _ _ _ _ _ fs); [apply Hs1| |by right|].
    - rewrite !app_assoc. apply whole_line.
    - intros b g2 Hs2. apply returns_ret. by eapply step_to_trans. }
  intros _ g2 Hs2. eapply returns_mono; [apply (IH fs); [apply Hs2|cbn in Hl; lia]|].
  intros b g3 (fs' & Hs3). exists fs'. by eapply step_to_trans.
Qed.

Lemma svc_fds_safe fs g : at_cmd fs g → finishes (ctl_cmd_svc_fds i) g.
Proof.
  intros Hg. eapply returns_seq; [by apply (step_service i n false fs)|]. intros a g1 ([Hg1 _] & Ha).
  destruct a as [[name o]|]; [|by apply (finishes_ret i n (tl fs))]. specialize (Ha _ eq_refl). cbn in Ha.
  destruct (at_cmd_get _ _ _ _ Hg1) as (c & Eg & Hi & Hc & _). eapply returns_done; [exact Eg|]. cbv zeta.
  eapply returns_seq; [apply (check_fds_safe _ (tl fs)); [done|]|].
  { pose proof (fields_length _ _ _ Hg1 Hi). pose proof (cs_len _ Hc). lia. }
  intros ok g2 (fs2 & [Hg2 Hs2]). apply finishes_if; [by apply (finishes_ret i n fs2)|].
  eapply (step_kept_only _ _ _ _ fs2); [done|apply sound_set_fds; [apply Hg2|by apply Hs2|by apply cmd_tok_seg| |apply Hc]|].
  { intros Hneg. destruct Hc as [? ? ? ? He%lookup_lt_Some]. unfold seg_wf. cbn. lia. }
  intros ok2 g3 [Hg3 Hs3]. apply finishes_if; [by apply (finishes_fail i n fs2)|].
  apply (events_safe _ _ ctl_notify_svc_fds fs2); [done|by apply Hs3, Hs2|]. intros nm v. apply keeps_all, tab_join_lines.
Qed.

(** ** service.auto_up *)

Lemma is_dash_ok s : tok_seg s → ∃ b, is_dash s = Done b.
Proof.
  intros Hs. unfold is_dash. destruct (Z.geb_spec (seg_len s) 1); [|by eexists]. destruct Hs as [Hw|]; [|lia].
  destruct (seg_at_ok s 0 Hw) as (c & ->); [lia|]. cbn [mbind outcome_bind]. case_match; [|by eexists].
  destruct (Z.eqb_spec (seg_len s) 1); [by eexists|]. destruct (seg_at_ok s 1 Hw) as (d & ->); [lia|]. by eexists.
Qed.

Lemma auto_up_interval_safe fs g o : at_cmd fs g → is_svc g o →
  returns (auto_up_interval i o) g (λ _ g', step_to (tl fs) g g').
Proof.
  intros Hg Ho. destruct (at_cmd_get _ _ _ _ Hg) as (c & Eg & _ & Hc & _). eapply returns_done; [exact Eg|].
  eapply returns_seq; [by apply (step_int i n fs)|]. intros r g1 (-> & Hs). destruct (_ ≫= _) as [interval|].
  - case_match.
    + eapply returns_mono; [apply (step_fail i n (tl fs)), Hs|]. intros r g2 (_ & Hs2). by eapply step_to_trans.
    + eapply (step_kept_only _ _ _ _ (tl fs)); [apply Hs|apply sound_interval; [apply Hs|by apply Hs]|].
      intros _ g2 Hs2. apply returns_ret. by eapply step_to_trans.
  - destruct (is_dash_ok (command c)) as (b & Eb); [by apply cmd_tok_seg|]. exists b, g1. unfold lift. by rewrite Eb.
Qed.

Lemma keeps_auto_up name interval triggers : keeps (ctl_notify_svc_auto_up None name interval triggers) (λ _, True).
Proof.
  eapply (keeps_seq _ _ (λ _, True)); [|by intros; apply keeps_ret]. destruct triggers; apply keeps_all, tab_join_lines.
Qed.

Lemma svc_auto_up_safe fs g : at_cmd fs g → finishes (ctl_cmd_svc_auto_up i) g.
Proof.
  intros Hg. eapply returns_seq; [by apply (step_service i n false fs)|]. intros a g1 ([Hg1 _] & Ha).
  destruct a as [[name o]|]; [|by apply (finishes_ret i n (tl fs))]. specialize (Ha _ eq_refl). cbn in Ha.
  eapply returns_seq; [by apply (auto_up_interval_safe (tl fs))|]. intros ok g2 [Hg2 Hs2]. set (fs2 := tl (tl fs)) in *.
  apply finishes_if; [by apply (finishes_ret i n fs2)|].
  destruct (at_cmd_get _ _ _ _ Hg2) as (c & Eg & Hi & Hc & _). eapply returns_done; [exact Eg|].
  assert (Hrest : seg_wf (if seg_len (command c) >? 0 then command c else STRSEG []) ∧
    NUL ∉ seg_view (if seg_len (command c) >? 0 then command c else STRSEG [])).
  { destruct (Z.gtb_spec (seg_len (command c)) 0); [split; [apply cmd_seg_wf; [done|lia]|apply Hc]|].
    split; [apply STRSEG_wf|]. rewrite STRSEG_view. apply not_elem_of_nil. }
  eapply (step_kept_only _ _ _ _ fs2); [done|apply sound_set_triggers; [apply Hg2|by apply Hs2|apply Hrest..]|].
  intros ok2 g3 [Hg3 Hs3]. apply finishes_if; [by apply (finishes_fail i n fs2)|].
  assert (Ho : is_svc g3 o) by by apply Hs3, Hs2.
  apply step_read; [by apply svc_field; [apply Hg3|]|]. intros nm. apply step_read; [by apply svc_field; [apply Hg3|]|]. intros iv.
  apply step_read; [by apply sound_get_cstr; [apply Hg3|]|]. intros tr. apply (fin_events _ fs2 g3 o); [done|done|apply keeps_auto_up].
Qed.

(** ** service.start, service.signal and service.delete *)

Lemma start_time_safe fs g o : at_cmd fs g → is_svc g o →
  returns (start_time_arg i o) g (λ _ g', ∃ fs', step_to fs' g g').
Proof.
  intros Hg Ho. eapply returns_done; [reflexivity|]. eapply returns_seq; [by apply (step_peek i n fs)|]. intros arg g1 (-> & Ht).
  assert (Hfail : ∀ fs' g' msg, step_to fs' g g' →
    returns (fail_with i msg (inl false : bool + Z)) g' (λ _ g2, ∃ fs', step_to fs' g g2)).
  { intros fs' g' msg Hs. eapply returns_mono; [apply (step_fail i n fs'), Hs|]. intros r g2 (_ & Hs2). exists fs'. by eapply step_to_trans. }
  destruct arg as [arg|]; [|apply returns_ret; exists fs; by apply step_to_refl].
  destruct (cmp_str_ok arg (str "-") (takes_wf _ _ Ht arg eq_refl)) as (c & Ec). eapply step_lift; [exact Ec|].
  destruct (c =? 0).
  - eapply (step_kept_only _ _ _ _ fs); [done|by apply sound_cancel; [apply Hg|]|]. intros ok g2 Hs2.
    destruct ok; [apply returns_ret; by exists fs|by eapply Hfail].
  - eapply returns_seq; [by apply (step_ts i n fs)|]. intros ts g2 Hs2.
    destruct ts as [ts|]; [|by eapply Hfail]. case_match; [by eapply Hfail|]. apply returns_ret. by exists (tl fs).
Qed.

Lemma svc_start_safe fs g : at_cmd fs g → finishes (ctl_cmd_svc_start i) g.
Proof.
  intros Hg. eapply returns_seq; [by apply (step_service i n true fs)|]. intros a g1 ([Hg1 _] & Ha).
  destruct a as [[name o]|]; [|by apply (finishes_ret i n (tl fs))]. specialize (Ha _ eq_refl). cbn in Ha.
  eapply returns_seq; [by apply (start_time_safe (tl fs))|]. intros t g2 (fs2 & [Hg2 Hs2]).
  destruct t as [r|ts]; [by apply (finishes_ret i n fs2)|]. assert (Ho : is_svc g2 o) by auto.
  apply step_read; [by apply sound_get_cstr; [apply Hg2|]|]. intros argv. apply finishes_if; [by apply (finishes_fail i n fs2)|].
  eapply (step_kept_only _ _ _ _ fs2); [done|by apply sound_start; [apply Hg2|]|]. intros ok g3 [Hg3 _].
  apply finishes_if; [by apply (finishes_ret i n fs2)|by apply (finishes_fail i n fs2)].
Qed.

Lemma signal_flags_safe fuel fs g flags group : at_cmd fs g → tok_seg flags → seg_len flags + 1 < Z.of_nat fuel →
  returns (signal_flags_loop fuel i flags group) g (λ _ g', step_to fs g g').
Proof.
  intros Hg. revert flags group. induction fuel as [|fuel IH]; intros flags group Hw Hl; [unfold tok_seg, seg_wf in Hw; lia|].
  cbn [signal_flags_loop]. destruct (tok_by (ch ",") flags Hw) as (more & rest & flag & E & Hw2 & _ & Hm).
  eapply step_lift; [exact E|]. cbn beta iota.
  destruct (fields_by (ch ",") flags) as [|o os]; [subst more; apply returns_ret; by apply step_to_refl|].
  destruct Hm as (-> & Hwf & _ & Hl2). destruct (cmp_str_ok flag (str "group") Hwf) as (c & Ec). eapply step_lift; [exact Ec|].
  destruct (c =? 0); [apply IH; [done|lia]|]. destruct (seg_fmt_ok flag Hwf) as (l & El). eapply step_lift; [exact El|].
  eapply returns_mono; [by apply (step_fail i n fs)|]. by intros r g' [].
Qed.

Lemma svc_signal_safe fs g : at_cmd fs g → finishes (ctl_cmd_svc_signal i) g.
Proof.
  intros Hg. eapply returns_seq; [by apply (step_service i n true fs)|]. intros a g1 ([Hg1 _] & Ha).
  destruct a as [[name o]|]; [|by apply (finishes_ret i n (tl fs))]. specialize (Ha _ eq_refl). cbn in Ha.
  eapply returns_seq; [by apply (step_signal i n (tl fs))|]. intros sig g2 [Hg2 Hs2]. set (fs2 := tl (tl fs)) in *.
  destruct sig as [sig|]; [|by apply (finishes_ret i n fs2)].
  eapply returns_seq; [by apply (step_peek i n fs2)|]. intros flags g3 (-> & Ht).
  eapply (returns_seq _ _ _ (λ _ g', step_to fs2 g2 g')).
  { pose proof (takes_wf _ _ Ht) as Hwf. destruct flags as [flags|]; [|apply returns_ret; by apply step_to_refl].
    specialize (Hwf flags eq_refl). apply signal_flags_safe; [done|by left|unfold seg_wf in Hwf; lia]. }
  intros group g3 [Hg3 Hs3]. destruct group as [group|]; [|by apply (finishes_ret i n fs2)].
  assert (Ho : is_svc g3 o) by auto. do 2 (apply step_read; [by apply svc_field; [apply Hg3|]|]; intros ?).
  apply finishes_if; [by apply (finishes_fail i n fs2)|].
  eapply (step_kept_only _ _ _ _ fs2); [done|by apply sound_send_signal; [apply Hg3|]|]. intros ok g4 [Hg4 Hs4].
  destruct ok; cbn [negb]; [by apply (finishes_ret i n fs2)|].
  do 2 (apply step_read; [by apply svc_field; [apply Hg4|auto]|]; intros ?). by apply (finishes_errno i n _ fs2).
Qed.

Lemma svc_delete_safe fs g : at_cmd fs g → finishes (ctl_cmd_svc_delete i) g.
Proof.
  intros Hg. eapply returns_seq; [by apply (step_service i n true fs)|]. intros a g1 ([Hg1 _] & Ha).
  destruct a as [[name o]|]; [|by apply (finishes_ret i n (tl fs))]. specialize (Ha _ eq_refl). cbn in Ha.
  apply step_read; [by apply svc_field; [apply Hg1|]|]. intros pid. apply finishes_if; [by apply (finishes_fail i n (tl fs))|].
  apply step_read; [by apply svc_field; [apply Hg1|]|]. intros nm. cbv zeta.
  eapply (step_keeps _ _ _ _ (tl fs)); [done|apply keeps_all, tab_join_lines|]. intros _ g2 [Hg2 Hs2] _.
  eapply returns_seq; [apply sound_svc_delete; [apply Hg2|auto]|]. intros _ g3 (Hg3 & Hl). apply returns_ret.
  split; [done|]. rewrite Hl. apply Hg2.
Qed.
End svc_cmd.
