(* ===== verification/CtlIn.v ===== *)
(** * controller.c: reading and running commands

    The state machine of a controller.  It takes lines out of the input buffer, runs
    the command of each and writes the answers; [ctl_run] is the part of the main
    loop that steps every controller.  The hash table of the commands is generated
    by a script; here it is a parameter with its contract [CmdTableOk]. *)

From S2P Require Import Prelude Strseg State Log Signal CtlOut Fd CtlObj Service CtlArg CtlSock Fatal Options CtlCmd CtlObjCmd.

(** ** The table of commands *)

Inductive ctl_cmd_t :=
  | Cmd_echo | Cmd_statedump | Cmd_svc_tags | Cmd_svc_args | Cmd_svc_fds | Cmd_svc_auto_up
  | Cmd_svc_start | Cmd_svc_signal | Cmd_svc_delete | Cmd_socket_create | Cmd_socket_delete
  | Cmd_fd_pipe | Cmd_fd_open | Cmd_fd_socket | Cmd_fd_delete | Cmd_fd_take | Cmd_chdir | Cmd_exit
  | Cmd_log_filter | Cmd_log_dest | Cmd_event_pipe_timeout | Cmd_signal_clear
  | Cmd_terminate_exec_args | Cmd_terminate_guard | Cmd_terminate.

#[export] Instance ctl_cmd_eq_dec : EqDecision ctl_cmd_t.
Proof. solve_decision. Defined.

(** The [COMMAND] declarations. *)
Definition ctl_commands : list (list Z * ctl_cmd_t) :=
  [(str "echo", Cmd_echo); (str "statedump", Cmd_statedump); (str "service.tags", Cmd_svc_tags);
   (str "service.args", Cmd_svc_args); (str "service.fds", Cmd_svc_fds);
   (str "service.auto_up", Cmd_svc_auto_up); (str "service.start", Cmd_svc_start);
   (str "service.signal", Cmd_svc_signal); (str "service.delete", Cmd_svc_delete);
   (str "socket.create", Cmd_socket_create); (str "socket.delete", Cmd_socket_delete);
   (str "fd.pipe", Cmd_fd_pipe); (str "fd.open", Cmd_fd_open); (str "fd.socket", Cmd_fd_socket);
   (str "fd.delete", Cmd_fd_delete); (str "fd.take", Cmd_fd_take); (str "chdir", Cmd_chdir);
   (str "exit", Cmd_exit); (str "log.filter", Cmd_log_filter); (str "log.dest", Cmd_log_dest);
   (str "conn.event_timeout", Cmd_event_pipe_timeout); (str "signal.clear", Cmd_signal_clear);
   (str "terminate.exec_args", Cmd_terminate_exec_args); (str "terminate.guard", Cmd_terminate_guard);
   (str "terminate", Cmd_terminate)].

(** controller_data.autogen.c: an entry has a name and a command, or neither. *)
Class CmdTable := {
  ctl_command_table : list (option (list Z * ctl_cmd_t));
  ctl_command_hash_func : list Z → Z;
}.

Definition ctl_find_command `{CmdTable} (name : strseg_t) : outcome (option ctl_cmd_t) :=
  l ← seg_str name;
  result ← slot ctl_command_table (ctl_command_hash_func l);
  match result with
  | None => Done None
  | Some (command, fn) =>
      c ← strseg_cmp name (STRSEG command);
      Done (if c =? 0 then Some fn else None)
  end.

(** The test of [entirely_whitespace] on one character. *)
Definition white (c : Z) : bool := (c =? 32) || (c =? TAB) || (c =? 13) || (c =? LF) || (c =? NUL).

Fixpoint entirely_whitespace_loop (n : nat) (s : strseg_t) (i : Z) : outcome bool :=
  match n with
  | O => Done true
  | S n => c ← seg_at s i; if white c then entirely_whitespace_loop n s (i + 1) else Done false
  end.

Definition entirely_whitespace (s : strseg_t) : outcome bool :=
  entirely_whitespace_loop (Z.to_nat (seg_len s)) s 0.

Section ctl_in.
Context `{OS, Inet, CmdTable}.

(** ** Input *)

(** The loop over the descriptors of a message. *)
Fixpoint ctl_read_ancillary_fds (i : nat) (l : list Z) : DP unit :=
  match l with
  | [] => mret tt
  | fd :: l =>
      log_debug (str "Received ancillary file descriptor " ++ fmt_d fd);;
      c ← get_ctl i;
      (if Z.of_nat (length (recv_ancillary_fd c)) <? 2 then
         upd_ctl i (λ c, set_recv_ancillary_fd (recv_ancillary_fd c ++ [fd]) c)
       else
         log_error (str "No room for ancillary file descriptor " ++ fmt_d fd);;
         sys (CClose fd);;
         mret tt);;
      ctl_read_ancillary_fds i l
  end.

(** The end of [ctl_read_more] when nothing was read. *)
Definition ctl_read_failed (i : nat) (n : Z) : DP unit :=
  c ← get_ctl i;
  e ← gets g_errno;
  when ((n =? 0) || negb ((e =? EINTR) || (e =? EAGAIN)))
    (when (n <? 0) (log_error (str "read(client[" ++ fmt_d (ctl_id c) ++ str "])): " ++ strerror e));;
     sys (CClose (recv_fd c));;
     upd_ctl i (set_recv_fd (-1)));;
  modify (set_g_errno e).

Definition ctl_read_more (i : nat) : DP bool :=
  c ← get_ctl i;
  let room := CONTROLLER_RECV_BUF_SIZE - Z.of_nat (length (recv_buf c)) in
  if (recv_fd c <? 0) || (room <=? 0) then mret false
  else
    n ← (if recv_is_socket c then
           n ← sys (CRecvmsg (recv_fd c) room);
           ctl_read_ancillary_fds i (fds n);;
           mret n
         else sys (CRead (recv_fd c) room));
    if ret n <=? 0 then
      ctl_read_failed i (ret n);;
      mret false
    else
      upd_ctl i (λ c, set_recv_buf (recv_buf c ++ take (Z.to_nat (ret n)) (out n)) c);;
      mret true.

(** ** The states *)

(** The loop of [ctl_deliver_signals]; an event is delivered once. *)
Fixpoint ctl_deliver_loop (fuel : nat) (i : nat) : DP bool :=
  match fuel with
  | O => nofuel
  | S fuel =>
      c ← get_ctl i;
      e ← sig_get_new_events (last_signal_ts c);
      match e with
      | None => mret true
      | Some (signum, sig_ts, sig_count) =>
          ready ← ctl_out_buf_ready i;
          if negb ready then mret false
          else
            ctl_notify_signal (Some i) signum sig_ts sig_count;;
            upd_ctl i (set_last_signal_ts sig_ts);;
            ctl_deliver_loop fuel i
      end
  end.

Definition ctl_deliver_signals (i : nat) : DP bool := ctl_deliver_loop sig_events_fuel i.

(** [memchr(recv_buf, '\n', recv_buf_pos)]: the index of the first newline. *)
Definition find_eol (buf : list Z) : option nat :=
  let n := sep_index LF buf in if (n <? length buf)%nat then Some n else None.

(** The lines of [ctl_state_next_command] for a whole line that ends at [eol]. *)
Definition ctl_got_line (i eol : nat) : DP bool :=
  upd_ctl i (set_line_len (Z.of_nat eol + 1));;
  upd_ctl i (λ c, set_recv_buf (<[eol := NUL]> (recv_buf c)) c);;
  c ← get_ctl i;
  log_debug (str "controller[" ++ fmt_d (ctl_id c) ++ str "] command: " ++ quoted (take (sep_index NUL (recv_buf c)) (recv_buf c)));;
  upd_ctl i (set_state_fn (Some ctl_state_run_command));;
  mret true.

(** The part for an input that has ended. *)
Definition ctl_next_at_eof (i : nat) (eol : option nat) : DP bool :=
  c ← get_ctl i;
  let n := length (recv_buf c) in
  if (n =? 0)%nat then
    upd_ctl i (set_state_fn (Some ctl_state_close));;
    mret true
  else
    eol ←
      (if negb (List.last (recv_buf c) NUL =? LF) && append_final_newline c then
         log_warn (str "Command ends with EOF... processing anyway");;
         assert (Z.of_nat n <? CONTROLLER_RECV_BUF_SIZE);;
         upd_ctl i (λ c, set_recv_buf (recv_buf c ++ [LF]) c);;
         mret (Some n)
       else mret eol);
    match eol with
    | None =>
        log_warn (str "Command ends with EOF... ignored");;
        upd_ctl i (set_recv_buf []);;
        upd_ctl i (set_state_fn (Some ctl_state_close));;
        mret true
    | Some eol => ctl_got_line i eol
    end.

Definition next_command (i : nat) : DP bool :=
  ok ← ctl_deliver_signals i;
  if negb ok then mret false
  else
    c ← get_ctl i;
    let eol := find_eol (recv_buf c) in
    if recv_fd c <? 0 then ctl_next_at_eof i eol
    else
      match eol with
      | Some eol => ctl_got_line i eol
      | None =>
          if Z.of_nat (length (recv_buf c)) >=? CONTROLLER_RECV_BUF_SIZE then
            upd_ctl i (set_recv_overflow true);;
            upd_ctl i (λ c, set_recv_buf (take 1 (recv_buf c)) c);;
            log_debug (str "controller[" ++ fmt_d (ctl_id c) ++ str "] command length exceeds " ++
              fmt_d CONTROLLER_RECV_BUF_SIZE ++ str " bytes, discarding");;
            mret true
          else mret false
      end.

(** [cmd->fn(ctl)]. *)
Definition ctl_cmd_fn (cmd : ctl_cmd_t) : nat → DP bool :=
  match cmd with
  | Cmd_echo => ctl_cmd_echo
  | Cmd_statedump => ctl_cmd_statedump
  | Cmd_svc_tags => ctl_cmd_svc_tags
  | Cmd_svc_args => ctl_cmd_svc_args
  | Cmd_svc_fds => ctl_cmd_svc_fds
  | Cmd_svc_auto_up => ctl_cmd_svc_auto_up
  | Cmd_svc_start => ctl_cmd_svc_start
  | Cmd_svc_signal => ctl_cmd_svc_signal
  | Cmd_svc_delete => ctl_cmd_svc_delete
  | Cmd_socket_create => ctl_cmd_socket_create
  | Cmd_socket_delete => ctl_cmd_socket_delete
  | Cmd_fd_pipe => ctl_cmd_fd_pipe
  | Cmd_fd_open => ctl_cmd_fd_open
  | Cmd_fd_socket => ctl_cmd_fd_socket
  | Cmd_fd_delete => ctl_cmd_fd_delete
  | Cmd_fd_take => ctl_cmd_fd_take
  | Cmd_chdir => ctl_cmd_chdir
  | Cmd_exit => ctl_cmd_exit
  | Cmd_log_filter => ctl_cmd_log_filter
  | Cmd_log_dest => ctl_cmd_log_dest
  | Cmd_event_pipe_timeout => ctl_cmd_event_pipe_timeout
  | Cmd_signal_clear => ctl_cmd_signal_clear
  | Cmd_terminate_exec_args => ctl_cmd_terminate_exec_args
  | Cmd_terminate_guard => ctl_cmd_terminate_guard
  | Cmd_terminate => ctl_cmd_terminate
  end.

(** ["%.*s%s"] of a line cut after [n] bytes. *)
Definition line_start (n : Z) (c : controller_t) : outcome (list Z) :=
  let len := line_len c in
  l ← seg_fmt (Seg (recv_buf c) 0 (if len >? n then n else len));
  Done l.
Definition dots (n : Z) (c : controller_t) : list Z := if line_len c >? n then str "..." else [].

(** The events for a command that failed. *)
Definition report_failure (i : nat) : DP unit :=
  c ← get_ctl i;
  l30 ← lift (line_start 30 c);
  l90 ← lift (line_start 90 c);
  ctl_notify_error (Some i) (command_error c ++ str ", for command " ++ quoted (l30 ++ dots 30 c));;
  log_error (str "controller[" ++ fmt_d (ctl_id c) ++ str "] command failed: '" ++ l90 ++ str "'" ++ dots 90 c);;
  log_error (str "  with error: '" ++ command_error c ++ str "'").

(** What happens to a line that is no command: comments and blank lines pass. *)
Definition not_a_command (i : nat) : DP unit :=
  c ← get_ctl i;
  first ← lift (slot (recv_buf c) 0);
  blank ← lift (entirely_whitespace (Seg (recv_buf c) 0 (line_len c - 1)));
  if (first =? ch "#") || blank then mret tt
  else
    name ← lift (seg_fmt (command_name c));
    ctl_notify_error (Some i) (str "Unknown command: " ++ name);;
    log_error (str "controller[" ++ fmt_d (ctl_id c) ++ str "] sent unknown command " ++ name).

(** The part of [ctl_state_run_command] for a line that fits the buffer. *)
Definition dispatch (i : nat) : DP unit :=
  c ← get_ctl i;
  upd_ctl i (set_command (Seg (recv_buf c) 0 (line_len c - 1)));;
  upd_ctl i (set_command_error (str "unknown error"));;
  name ← tok_command i;
  (match name with Some name => upd_ctl i (set_command_name name) | None => mret tt end);;
  c ← get_ctl i;
  cmd ← lift (ctl_find_command (command_name c));
  match cmd with
  | None => not_a_command i
  | Some cmd =>
      ok ← ctl_cmd_fn cmd i;
      when (negb ok) (report_failure i)
  end.

Definition run_command (i : nat) : DP bool :=
  ready ← ctl_out_buf_ready i;
  if negb ready then mret false
  else
    upd_ctl i (set_state_fn (Some ctl_state_end_command));;
    c ← get_ctl i;
    (if recv_overflow c then
       upd_ctl i (set_recv_overflow false);;
       first ← lift (slot (recv_buf c) 0);
       when (negb (first =? ch "#"))
         (ctl_notify_error (Some i) (str "line too long");;
          log_error (str "controller[" ++ fmt_d (ctl_id c) ++ str "] command exceeds buffer size"))
     else dispatch i);;
    mret true.

Definition end_command (i : nat) : DP bool :=
  c ← get_ctl i;
  when (line_len c >? 0)
    (upd_ctl i (λ c, set_recv_buf (drop (Z.to_nat (line_len c)) (recv_buf c)) c);;
     upd_ctl i (set_line_len 0));;
  upd_ctl i (set_state_fn (Some ctl_state_next_command));;
  mret true.

Definition close_controller (i : nat) : DP bool :=
  c ← get_ctl i;
  flushed ← (if send_fd c >=? 0 then ctl_flush_outbuf i else mret true);
  if negb flushed then mret false
  else
    ctl_dtor i;;
    mret true.

Definition free_controller (i : nat) : DP bool :=
  ctl_free (Some i);;
  mret false.

(** ** The statedump command *)

(** The loop of [ctl_state_dump_fds] from the label [case 1]; returns the object at
    which it broke off, 0 at the end. *)
Fixpoint dump_fds_loop (fuel : nat) (i : nat) (fd : Z) : DP Z :=
  match fuel with
  | O => nofuel
  | S fuel =>
      if fd =? 0 then mret 0
      else
        ready ← ctl_out_buf_ready i;
        if negb ready then upd_ctl i (set_command_substate 1);; mret fd
        else
          ctl_notify_fd_state (Some i) fd;;
          c ← get_ctl i;
          fd ← fd_iter_next fd (statedump_current c);
          dump_fds_loop fuel i fd
  end.

Definition dump_fds (i : nat) : DP bool :=
  c ← get_ctl i;
  objs ← gets (λ g, fd_objs (g_fd g));
  fd ← fd_by_name (STRSEG (statedump_current c));
  when (fd =? 0) (upd_ctl i (set_command_substate 0));;
  let sub := if fd =? 0 then 0 else command_substate c in
  fd ←
    (if sub =? 0 then
       fd ← fd_iter_next fd (statedump_current c);
       dump_fds_loop (S (size objs)) i fd
     else if sub =? 1 then dump_fds_loop (S (size objs)) i fd
     else mret fd);
  if negb (fd =? 0) then
    name ← fd_get_name fd;
    upd_ctl i (set_statedump_current name);;
    mret false
  else
    upd_ctl i (set_statedump_current []);;
    upd_ctl i (set_state_fn (Some ctl_state_dump_services));;
    upd_ctl i (set_command_substate 0);;
    mret true.

(** The five events of a service. *)
Definition dump_svc_event (i : nat) (svc : Z) (sub : Z) : DP bool :=
  s ← svc_obj svc;
  let name := svc_name s in
  if sub =? 1 then ctl_notify_svc_state (Some i) name (start_time s) (reap_time s) (wait_status s) (svc_pid s)
  else if sub =? 2 then tags ← svc_get_tags svc; ctl_notify_svc_tags (Some i) name tags
  else if sub =? 3 then argv ← svc_get_argv svc; ctl_notify_svc_argv (Some i) name argv
  else if sub =? 4 then fds ← svc_get_fds svc; ctl_notify_svc_fds (Some i) name fds
  else triggers ← svc_get_triggers svc; ctl_notify_svc_auto_up (Some i) name (restart_interval s) triggers.

(** The body of the loop of [ctl_state_dump_services] from the label [case sub] on;
    [false] when it broke off. *)
Fixpoint dump_svc_from (n : nat) (i : nat) (svc : Z) (sub : Z) : DP bool :=
  match n with
  | O => mret true
  | S n =>
      when (sub =? 1) (svc_check svc);;
      ready ← ctl_out_buf_ready i;
      if negb ready then upd_ctl i (set_command_substate sub);; mret false
      else
        dump_svc_event i svc sub;;
        dump_svc_from n i svc (sub + 1)
  end.

(** The loop, from the label [case sub]. *)
Fixpoint dump_services_loop (fuel : nat) (i : nat) (svc sub : Z) : DP Z :=
  match fuel with
  | O => nofuel
  | S fuel =>
      if svc =? 0 then mret 0
      else
        done ← dump_svc_from (Z.to_nat (6 - sub)) i svc sub;
        if negb done then mret svc
        else
          c ← get_ctl i;
          svc ← svc_iter_next svc (statedump_current c);
          dump_services_loop fuel i svc 1
  end.

Definition dump_services (i : nat) : DP bool :=
  c ← get_ctl i;
  objs ← gets (λ g, svc_objs (g_svc g));
  svc ← svc_by_name (STRSEG (statedump_current c)) false;
  when (svc =? 0) (upd_ctl i (set_command_substate 0));;
  let sub := if svc =? 0 then 0 else command_substate c in
  svc ←
    (if sub =? 0 then
       svc ← svc_iter_next svc (statedump_current c);
       dump_services_loop (S (size objs)) i svc 1
     else if (1 <=? sub) && (sub <=? 5) then dump_services_loop (S (size objs)) i svc sub
     else mret svc);
  if negb (svc =? 0) then
    name ← svc_get_name svc;
    upd_ctl i (set_statedump_current name);;
    mret false
  else
    upd_ctl i (set_last_signal_ts 0);;
    upd_ctl i (set_state_fn (Some ctl_state_dump_signals));;
    upd_ctl i (set_command_substate 0);;
    mret true.

Definition dump_signals (i : nat) : DP bool :=
  ok ← ctl_deliver_signals i;
  if negb ok then mret false
  else
    upd_ctl i (set_state_fn (Some ctl_state_end_command));;
    mret true.

(** ** The main loop's part *)

(** [ctl->state_fn(ctl)]. *)
Definition ctl_state (s : ctl_state_fn_t) : nat → DP bool :=
  match s with
  | ctl_state_next_command => next_command
  | ctl_state_run_command => run_command
  | ctl_state_end_command => end_command
  | ctl_state_close => close_controller
  | ctl_state_free => free_controller
  | ctl_state_dump_fds => dump_fds
  | ctl_state_dump_services => dump_services
  | ctl_state_dump_signals => dump_signals
  end.

(** [n] rounds of the state machine; whether the last one said to go on.  A call
    through a null [state_fn] faults. *)
Fixpoint ctl_steps (n : nat) (i : nat) : DP bool :=
  match n with
  | O => mret true
  | S n =>
      c ← get_ctl i;
      match state_fn c with
      | None => fault
      | Some s =>
          more ← ctl_state s i;
          if (more : bool) then ctl_steps n i else mret false
      end
  end.

(** [for (j= 10; --j;)] makes nine rounds. *)
Definition ctl_run_steps : nat := 9.

(** The body of the first loop of [ctl_run]: read and write if [select] said so, then
    the state machine. *)
Definition ctl_try_read (i : nat) : DP unit :=
  c ← get_ctl i;
  if recv_fd c >=? 0 then
    r ← woke_on_readable (recv_fd c);
    when r (ctl_read_more i;; mret tt)
  else mret tt.

Definition ctl_try_flush (i : nat) : DP unit :=
  c ← get_ctl i;
  if send_fd c >=? 0 then
    w ← woke_on_writeable (send_fd c);
    when w (ctl_flush_outbuf i;; mret tt)
  else mret tt.

Definition ctl_run_one (i : nat) : DP unit :=
  c ← get_ctl i;
  match state_fn c with
  | None => mret tt
  | Some _ =>
      ctl_try_read i;;
      ctl_try_flush i;;
      more ← ctl_steps ctl_run_steps i;
      when more wake_now_again
  end.

(** The time limits of a controller whose output is blocked; [true] when it was
    closed. *)
Definition ctl_check_blocked (i : nat) : DP bool :=
  c ← get_ctl i;
  w ← gets g_wake;
  let lateness := wrap64 (wake_now w - send_blocked_ts c) in
  if lateness >=? write_timeout_close c then
    log_error (str "controller " ++ fmt_d (Z.of_nat i) ++ str " blocked pipe for " ++ fmt_d (secs lateness) ++
      str " seconds, closing connection");;
    ctl_dtor i;;
    ctl_free (Some i);;
    mret true
  else
    next_check_ts ←
      (if lateness >=? write_timeout_reset c then
         log_warn (str "controller " ++ fmt_d (Z.of_nat i) ++ str " blocked pipe for " ++ fmt_d (secs lateness) ++ str " seconds");;
         when (Z.of_nat (length (recv_buf c)) >=? CONTROLLER_RECV_BUF_SIZE)
           (upd_ctl i (set_send_overflow true);; wake_now_again);;
         mret (wrap64 (send_blocked_ts c + write_timeout_close c))
       else mret (wrap64 (send_blocked_ts c + write_timeout_reset c)));
    w ← gets g_wake;
    when (wrap64 (wake_next w - next_check_ts) >? 0) (modify (on_wake (set_wake_next next_check_ts)));;
    wake_on_writeable (send_fd c);;
    mret false.

(** The body of the second loop. *)
Definition ctl_run_two (i : nat) : DP unit :=
  c ← get_ctl i;
  match state_fn c with
  | None => mret tt
  | Some _ =>
      closed ←
        (if (send_fd c >=? 0) && (0 <? Z.of_nat (length (send_buf c))) then
           flushed ← ctl_flush_outbuf i;
           c ← get_ctl i;
           if negb flushed && (send_fd c >=? 0) then ctl_check_blocked i
           else when (negb (length (recv_buf c) =? 0)%nat) wake_now_again;; mret false
         else mret false);
      if (closed : bool) then mret tt
      else
        c ← get_ctl i;
        when ((recv_fd c >=? 0) && (Z.of_nat (length (recv_buf c)) <? CONTROLLER_RECV_BUF_SIZE))
          (wake_on_readable (recv_fd c))
  end.

Fixpoint ctl_for_all (f : nat → DP unit) (n i : nat) : DP unit :=
  match n with
  | O => mret tt
  | S n => f i;; ctl_for_all f n (S i)
  end.

Definition ctl_run : DP unit :=
  ctl_for_all ctl_run_one CONTROLLER_MAX_CLIENTS 0;;
  ctl_for_all ctl_run_two CONTROLLER_MAX_CLIENTS 0.
End ctl_in.
