(* ===== verification/CtlTable.v ===== *)
(** * The hash table of commands

    The contract of the generated table, the lookup it gives, and the table that the
    generator makes of the commands of controller.c. *)

From S2P Require Import Prelude Strseg State Fd CtlOut CtlIn.

(** What generate_controller_data.pl promises: the hash of a name is a place of the
    table, every command is at the hash of its name, and nothing else is there. *)
Class CmdTableOk `{CmdTable} : Prop := {
  hash_range l : 0 ≤ ctl_command_hash_func l < Z.of_nat (length ctl_command_table);
  hash_hit n f : (n, f) ∈ ctl_commands → ctl_command_table !! Z.to_nat (ctl_command_hash_func n) = Some (Some (n, f));
  hash_only k n f : ctl_command_table !! k = Some (Some (n, f)) → (n, f) ∈ ctl_commands;
}.

(** The command with a name, by a search through the declarations. *)
Fixpoint find_command (l : list (list Z * ctl_cmd_t)) (name : list Z) : option ctl_cmd_t :=
  match l with
  | [] => None
  | (n, f) :: l => if bool_decide (n = name) then Some f else find_command l name
  end.

Lemma find_command_Some l name f : find_command l name = Some f → (name, f) ∈ l.
Proof.
  induction l as [|[n f'] l IH]; cbn; [done|]. case_bool_decide as E.
  - intros [= ->]. subst. by left.
  - intros Hf. right. by apply IH.
Qed.

Lemma find_command_elem l name f : NoDup l.*1 → (name, f) ∈ l → find_command l name = Some f.
Proof.
  induction l as [|[n f'] l IH]; cbn; [by intros _ ?%elem_of_nil|].
  intros [Hn Hd]%NoDup_cons [[= <- <-]|Hf]%elem_of_cons.
  - by rewrite bool_decide_eq_true_2.
  - rewrite bool_decide_eq_false_2; [by apply IH|]. intros ->. apply Hn, list_elem_of_fmap. by exists (name, f).
Qed.

Lemma ctl_commands_nodup : NoDup ctl_commands.*1.
Proof. apply (bool_decide_unpack _). vm_compute. done. Qed.

(** ** The generated table *)

(** [hash_fn] of the script, with the multiplier and the shift it finds for these
    names; [uint32_t] arithmetic wraps. *)
Definition gen_hash (l : list Z) : Z :=
  Z.land (foldl (λ x c, (Z.shiftr (x * 53 mod 2 ^ 32) 4 + Z.land c 0xFF) mod 2 ^ 32) 0 l) 63.

Definition gen_table : list (option (list Z * ctl_cmd_t)) :=
  foldr (λ e t, <[Z.to_nat (gen_hash e.1) := Some e]> t) (replicate 65 None) ctl_commands.

#[export] Instance generated_table : CmdTable :=
  {| ctl_command_table := gen_table; ctl_command_hash_func := gen_hash |}.

Definition entry_ok (e : option (list Z * ctl_cmd_t)) : bool :=
  match e with Some e => bool_decide (e ∈ ctl_commands) | None => true end.

Lemma gen_table_ok : Forall (λ e, entry_ok e = true) gen_table.
Proof. apply (bool_decide_unpack _). vm_compute. done. Qed.

Lemma gen_table_hits : Forall (λ e, gen_table !! Z.to_nat (gen_hash e.1) = Some (Some e)) ctl_commands.
Proof. apply (bool_decide_unpack _). vm_compute. done. Qed.

#[export] Instance generated_table_ok : CmdTableOk.
Proof.
  split.
  - intros l. unfold ctl_command_hash_func, ctl_command_table, generated_table.
    replace (length gen_table) with 65%nat by (vm_compute; done). unfold gen_hash.
    change 63 with (Z.ones 6). rewrite Z.land_ones by lia.
    pose proof (Z.mod_pos_bound (foldl (λ x c, (Z.shiftr (x * 53 mod 2 ^ 32) 4 + Z.land c 255) mod 2 ^ 32) 0 l) (2 ^ 6)). lia.
  - intros n f Hf. pose proof gen_table_hits as Hh. rewrite Forall_forall in Hh. apply (Hh (n, f) Hf).
  - intros k n f Hk. pose proof gen_table_ok as Ho. rewrite Forall_forall in Ho.
    specialize (Ho (Some (n, f)) (list_elem_of_lookup_2 _ _ _ Hk)). cbn in Ho. by apply bool_decide_eq_true in Ho.
Qed.

(** ** Lookup *)

(** C22. The lookup through the generated hash table finds what a search through the
    declarations finds: the command with exactly this name, and otherwise nothing; it
    never reads outside of the table or the name. *)
Theorem ctl_find_command_exact `{CmdTableOk} (name : strseg_t) : seg_wf name →
  ctl_find_command name = Done (find_command ctl_commands (seg_view name)).
Proof.
  intros Hwf. unfold ctl_find_command. unfold seg_str; rewrite seg_bytes_view by done. cbn [mbind outcome_bind].
  pose proof (hash_range (seg_view name)) as Hr. unfold slot. rewrite (proj2 (Z.ltb_ge _ _)) by lia.
  destruct (ctl_command_table !! Z.to_nat (ctl_command_hash_func (seg_view name))) as [[[command fn]|]|] eqn:He; cbn [mbind outcome_bind].
  - rewrite strseg_cmp_spec by (done || apply STRSEG_wf). cbn [mbind outcome_bind]. rewrite STRSEG_view. f_equal.
    destruct (Z.eqb_spec (lex_cmp (seg_view name) command) 0) as [E|E].
    + apply lex_cmp_eq in E as ->. symmetry. apply find_command_elem; [apply ctl_commands_nodup|]. by eapply hash_only.
    + destruct (find_command ctl_commands (seg_view name)) as [f|] eqn:Hf; [|done].
      apply find_command_Some, hash_hit in Hf. rewrite Hf in He. injection He as <- _. by rewrite (cmp_refl (seg_view name)) in E.
  - f_equal. destruct (find_command ctl_commands (seg_view name)) as [f|] eqn:Hf; [|done].
    apply find_command_Some, hash_hit in Hf. by rewrite Hf in He.
  - apply lookup_ge_None in He. lia.
Qed.

Lemma ctl_find_command_exact_witness :
  ctl_find_command (Seg (str "fd.open" ++ TAB :: str "x") 0 7) = Done (Some Cmd_fd_open).
Proof.
  rewrite (ctl_find_command_exact (Seg (str "fd.open" ++ TAB :: str "x") 0 7)) by (unfold seg_wf; cbn; lia).
  vm_compute. reflexivity.
Defined.
