(* ===== verification/Frame.v ===== *)
(** * What operations leave alone, for any system

    A [Frame] is a relation that cannot see what lies outside
    of the controllers and a few of their members; whatever is not about the input, the
    descriptors and the state of a controller preserves every frame, and a tactic that
    unfolds definitions shows it. *)

From S2P Require Import Prelude Strseg State RBTree Log Signal CtlOut SvcVars Fd CtlObj Service CtlArg CtlSock Fatal Options CtlCmd CtlObjCmd CtlIn Preserves.

(** ** Frames *)

(** The input side of a controller, and the members about its connection. *)
Record in_part := mkIn {
  in_buf : list Z;
  in_overflow : bool;
  in_line_len : Z;
  in_append : bool;
}.

Definition input_of (c : controller_t) : in_part :=
  mkIn (recv_buf c) (recv_overflow c) (line_len c) (append_final_newline c).

(** An update of other members. *)
Definition harmless (f : controller_t → controller_t) : Prop := ∀ c,
  input_of (f c) = input_of c ∧ state_fn (f c) = state_fn c ∧ recv_fd (f c) = recv_fd c ∧
  statedump_current (f c) = statedump_current c ∧ (send_fd (f c) = send_fd c ∨ send_fd (f c) = -1).

(** What the loops of other parts rely on: the pipe of the signal handlers and their table,
    the time of the last signal that services were told of, and the length of the name of
    the log's descriptor. *)
Record settings_same (g g' : G) : Prop := {
  st_pipe : sig_wake_rd (g_sig g') = sig_wake_rd (g_sig g);
  st_new : new_signals (g_sig g') = new_signals (g_sig g);
  st_last : svc_last_signal_ts (g_svc g') = svc_last_signal_ts (g_svc g);
  st_name : Z.of_nat (length (log_dest_fd_name (g_log g))) < NAME_BUF_SIZE →
    Z.of_nat (length (log_dest_fd_name (g_log g'))) < NAME_BUF_SIZE;
}.

#[export] Instance settings_same_preorder : PreOrder settings_same.
Proof. split; [by split|]. intros g1 g2 g3 [] []. split; [congruence..|auto]. Qed.

Class Frame (R : G → G → Prop) : Prop := {
  #[global] frame_preorder :: PreOrder R;
  frame_same g g' : g_ctl g' = g_ctl g → settings_same g g' → R g g';
  frame_update i f g c : harmless f → g_ctl g !! i = Some c → R g (set_g_ctl (<[i := f c]> (g_ctl g)) g);
}.

Section frame.
Context (R : G → G → Prop) `{!Frame R}.

Lemma frame_modify f : (∀ g, g_ctl (f g) = g_ctl g) → (∀ g, settings_same g (f g)) → preserves R (modify f).
Proof. intros Hf Hs. apply preserves_modify. intros g. by apply frame_same. Qed.

Lemma frame_upd i f : harmless f → preserves R (upd_ctl i f).
Proof.
  intros Hf g a g'. unfold upd_ctl. destruct (g_ctl g !! i) as [c|] eqn:Hi; [|done]. intros [= _ <-]. by apply frame_update.
Qed.

Lemma frame_sys `{OS} c : preserves R (sys c).
Proof. intros g a g' [= _ <-]. by apply frame_same. Qed.

Lemma frame_rb {A} (m : RB A) : preserves R (rb m).
Proof. intros g a g'. unfold rb. destruct (m (g_rb g)) as [[]| | | |]; try done. intros [= _ <-]. by apply frame_same. Qed.

Lemma frame_upd_fd p f : preserves R (upd_fd p f).
Proof. intros g a g'. unfold upd_fd. destruct (_ !! _); [|done]. intros [= _ <-]. by apply frame_same. Qed.

Lemma frame_upd_svc p f : preserves R (upd_svc p f).
Proof. intros g a g'. unfold upd_svc. destruct (_ !! _); [|done]. intros [= _ <-]. by apply frame_same. Qed.
End frame.

Create HintDb frame.
#[export] Hint Resolve frame_sys frame_rb frame_upd_fd frame_upd_svc : frame.
#[export] Hint Extern 0 (Frame _) => apply _ : frame.

Ltac head_of t := match t with ?f _ => head_of f | _ => t end.

(** Unfold the function that is called; an update of a controller is left alone. *)
Ltac unfold_call :=
  match goal with |- preserves _ ?m => let h := head_of m in lazymatch h with upd_ctl => fail | @sys => fail | _ => progress unfold h end end.

(** An update that has nothing to do with the settings. *)
Ltac settings := split; [done..|]; cbn; try done.

Ltac frame_step :=
  first
    [ preserves_step
    | solve [auto 2 with frame nocore]
    | apply frame_modify; [apply _|done|intros ?; settings]
    | apply frame_upd; [apply _|intros []; repeat split; auto; done] ].

Ltac frame := repeat first [frame_step | unfold_call].

Section base.
Context `{OS} (R : G → G → Prop) `{!Frame R}.

Lemma frame_written n : preserves R (modify (on_log (log_written n))).
Proof. frame_step. unfold log_written. by repeat case_match. Qed.
#[local] Hint Resolve frame_written : frame.

Lemma frame_flush_loop fuel : preserves R (log_flush_loop fuel).
Proof. induction fuel; cbn [log_flush_loop]; frame. Qed.
#[local] Hint Resolve frame_flush_loop : frame.

Lemma frame_log level msg : preserves R (log_write level msg).
Proof. frame. Qed.
#[local] Hint Resolve frame_log : frame.

Lemma frame_ctl_flush_loop fuel i : preserves R (ctl_flush_loop fuel i).
Proof. induction fuel; cbn [ctl_flush_loop]; frame. Qed.
#[local] Hint Resolve frame_ctl_flush_loop : frame.

Lemma frame_write_one fuel i msg : preserves R (ctl_write_one fuel i msg).
Proof. induction fuel; cbn [ctl_write_one]; frame. Qed.
#[local] Hint Resolve frame_write_one : frame.

Lemma frame_write_all dest msg : preserves R (ctl_write_all dest msg).
Proof. induction dest; cbn [ctl_write_all]; frame. Qed.
#[local] Hint Resolve frame_write_all : frame.

Lemma frame_write dest msg : preserves R (ctl_write dest msg).
Proof. frame. Qed.
End base.
#[export] Hint Resolve frame_flush_loop frame_log frame_ctl_flush_loop frame_write_one frame_write : frame.

(** ** Loops, and functions that are called often *)

Lemma seg_bytes_length n s i l : seg_bytes n s i = Done l → length l = n.
Proof.
  revert i l. induction n as [|n IH]; intros i l E; cbn in E; [by injection E as <-|].
  destruct (seg_at s i); [|done..]. cbn in E. destruct (seg_bytes n s (i + 1)) eqn:E1; [|done..]. injection E as <-. cbn. f_equal. by eapply IH.
Qed.

Section loops.
Context `{OS, Inet, CmdTable} (R : G → G → Prop) `{!Frame R}.

Lemma frame_fds_loop fuel svc fds : preserves R (svc_fds_loop fuel svc fds).
Proof. revert svc fds. induction fuel; intros; cbn [svc_fds_loop]; frame. Qed.

Lemma frame_sigwake_loop fuel sigs sig_ts : preserves R (svc_sigwake_loop fuel sigs sig_ts).
Proof. revert sigs sig_ts. induction fuel; intros; cbn [svc_sigwake_loop]; frame. Qed.
#[local] Hint Resolve frame_fds_loop frame_sigwake_loop : frame.

Lemma frame_svc_check svc : preserves R (svc_check svc).
Proof. frame. Qed.
#[local] Hint Resolve frame_svc_check : frame.

Lemma frame_set_active svc b : preserves R (svc_set_active svc b).
Proof. frame. Qed.

Lemma frame_fd_by_name name : preserves R (fd_by_name name).
Proof. frame. Qed.

Lemma frame_svc_by_name name create : preserves R (svc_by_name name create).
Proof. frame. Qed.

Lemma frame_fd_delete fd : preserves R (fd_delete fd).
Proof. frame. Qed.

Lemma frame_set_var svc name value : preserves R (svc_set_var svc name value).
Proof. frame. Qed.
#[local] Hint Resolve frame_set_active frame_fd_by_name frame_svc_by_name frame_fd_delete frame_set_var : frame.

Lemma frame_tok i : preserves R (tok_command i).
Proof. frame. Qed.

Lemma frame_fail {A} i msg (a : A) : preserves R (fail_with i msg a).
Proof. frame. Qed.
#[local] Hint Resolve frame_tok @frame_fail : frame.

Lemma frame_arg_service i b : preserves R (ctl_get_arg_service i b).
Proof. frame. Qed.

Lemma frame_arg_fd i b1 b2 : preserves R (ctl_get_arg_fd i b1 b2).
Proof. frame. Qed.
#[local] Hint Resolve frame_arg_service frame_arg_fd : frame.

Lemma frame_pipe_flags fuel i opts f : preserves R (pipe_flags_loop fuel i opts f).
Proof. revert i opts f. induction fuel; intros; cbn [pipe_flags_loop]; frame. Qed.

Lemma frame_open_flags fuel i opts f : preserves R (open_flags_loop fuel i opts f).
Proof. revert i opts f. induction fuel; intros; cbn [open_flags_loop]; frame. Qed.

(** The name of the log's descriptor fits. *)
Lemma frame_log_set_name name : preserves R (log_fd_set_name name).
Proof.
  unfold log_fd_set_name. apply preserves_bind; [apply _|frame|intros _].
  destruct (Z.ltb_spec (seg_len name) NAME_BUF_SIZE) as [Hn|]; [|by intros g a g'].
  apply preserves_bind; [apply _|frame|intros _].
  apply (preserves_bind_if _ (λ n, Z.of_nat (length n) < NAME_BUF_SIZE)); [frame| |intros n Hl].
  - intros g n g' E. unfold lift, seg_str in E. destruct (seg_bytes _ _ _) as [l| | | |] eqn:El; [|done..]. injection E as <- _.
    apply seg_bytes_length in El. rewrite El. unfold NAME_BUF_SIZE in *. lia.
  - apply preserves_bind; [apply _| |intros _; frame]. frame_step.
Qed.
#[local] Hint Resolve frame_log_set_name : frame.

Lemma frame_missing_dirs prefix path : preserves R (create_missing_dirs prefix path).
Proof. revert prefix. induction path; intros; cbn [create_missing_dirs]; frame. Qed.

Lemma frame_sock_flags fuel i opts f : preserves R (sock_flags_loop fuel i opts f).
Proof. revert i opts f. induction fuel; intros; cbn [sock_flags_loop]; frame. Qed.

Lemma frame_check_fds fuel i : preserves R (check_fds_loop fuel i).
Proof. revert i. induction fuel; intros; cbn [check_fds_loop]; frame. Qed.

Lemma frame_signal_flags fuel i flags group : preserves R (signal_flags_loop fuel i flags group).
Proof. revert i flags group. induction fuel; intros; cbn [signal_flags_loop]; frame. Qed.

Lemma frame_deliver_loop fuel i : preserves R (ctl_deliver_loop fuel i).
Proof. induction fuel; cbn [ctl_deliver_loop]; frame. Qed.

Lemma frame_dump_fds_loop fuel i fd : preserves R (dump_fds_loop fuel i fd).
Proof. revert fd. induction fuel; intros; cbn [dump_fds_loop]; frame. Qed.
#[local] Hint Resolve frame_pipe_flags frame_open_flags frame_missing_dirs frame_sock_flags frame_check_fds
  frame_signal_flags frame_deliver_loop frame_dump_fds_loop : frame.

Lemma frame_dump_svc_from n i svc sub : preserves R (dump_svc_from n i svc sub).
Proof. revert sub. induction n; intros; cbn [dump_svc_from]; frame. Qed.
#[local] Hint Resolve frame_dump_svc_from : frame.

Lemma frame_dump_services_loop fuel i svc sub : preserves R (dump_services_loop fuel i svc sub).
Proof. revert svc sub. induction fuel; intros; cbn [dump_services_loop]; frame. Qed.

Lemma frame_ancillary l : preserves R (ctl_close_ancillary l).
Proof. induction l; cbn [ctl_close_ancillary]; frame. Qed.

Lemma frame_read_ancillary i l : preserves R (ctl_read_ancillary_fds i l).
Proof. induction l; cbn [ctl_read_ancillary_fds]; frame. Qed.

(** ** The commands that neither close the controller nor start a statedump *)

Definition quiet_command (cmd : ctl_cmd_t) : bool :=
  match cmd with Cmd_exit | Cmd_statedump => false | _ => true end.

Lemma frame_command cmd i : quiet_command cmd = true → preserves R (ctl_cmd_fn cmd i).
Proof. intros Hq. destruct cmd; try done; cbn [ctl_cmd_fn]; frame. Qed.
End loops.
#[export] Hint Resolve frame_fds_loop frame_sigwake_loop frame_svc_check frame_set_active frame_fd_by_name frame_svc_by_name
  frame_fd_delete frame_set_var frame_tok @frame_fail frame_arg_service frame_arg_fd frame_pipe_flags frame_open_flags
  frame_missing_dirs frame_sock_flags frame_check_fds frame_signal_flags frame_deliver_loop frame_dump_fds_loop
  frame_dump_svc_from frame_dump_services_loop frame_ancillary frame_read_ancillary : frame.
