(* ===== verification/CtlFrame.v ===== *)
(** * Commands leave the input buffers alone

    The relation of this file says that the input side of every controller is
    unchanged, and its state too but for a permitted change; all commands preserve it,
    for any system. *)

From S2P Require Import Prelude Strseg State RBTree Log Signal CtlOut SvcVars Fd CtlObj Service CtlArg CtlSock Fatal Options CtlCmd CtlObjCmd CtlIn Preserves Frame.

(** A controller, and the states it may go to. *)
Record permit := mkPermit { who : nat; goes_to : option ctl_state_fn_t → Prop }.

(** The input of the controller [c] with index [j] stays, and so does its state, but
    for the change that is permitted. *)
Definition calm (k : permit) (j : nat) (c c' : controller_t) : Prop :=
  input_of c' = input_of c ∧ (state_fn c' = state_fn c ∨ j = who k ∧ goes_to k (state_fn c')).

Lemma calm_refl k j c : calm k j c c.
Proof. split; [done|by left]. Qed.

Lemma calm_trans k j c1 c2 c3 : calm k j c1 c2 → calm k j c2 c3 → calm k j c1 c3.
Proof. intros [E1 S1] [E2 S2]. split; [congruence|]. destruct S2 as [->|[-> S2]]; [done|by right]. Qed.

Definition same_input (k : permit) (g g' : G) : Prop :=
  length (g_ctl g') = length (g_ctl g) ∧
  ∀ j c, g_ctl g !! j = Some c → ∃ c', g_ctl g' !! j = Some c' ∧ calm k j c c'.

#[export] Instance same_input_preorder k : PreOrder (same_input k).
Proof.
  split.
  - intros g. split; [done|]. intros j c Hj. exists c. split; [done|apply calm_refl].
  - intros g1 g2 g3 [L1 H1] [L2 H2]. split; [congruence|]. intros j c Hj.
    destruct (H1 j c Hj) as (c2 & Hj2 & C1). destruct (H2 j c2 Hj2) as (c3 & Hj3 & C2).
    exists c3. split; [done|by eapply calm_trans].
Qed.

Lemma same_input_ctl k g g' : g_ctl g' = g_ctl g → same_input k g g'.
Proof.
  intros E. split; [by rewrite E|]. intros j c Hj. exists c. rewrite E. split; [done|]. split; [done|by left].
Qed.

#[export] Instance same_input_frame k : Frame (same_input k).
Proof.
  split; [apply _|intros g g' E _; by apply same_input_ctl|]. intros i f g c Hf Hi. destruct (Hf c) as (Ein & Est & _).
  split; [by cbn; rewrite length_insert|]. intros j cj Hj. cbn. destruct (decide (j = i)) as [->|Hne].
  - assert (cj = c) as -> by congruence. exists (f c). rewrite list_lookup_insert_eq by (by eapply lookup_lt_Some).
    split; [done|]. split; [done|by left].
  - exists cj. rewrite list_lookup_insert_ne by done. split; [done|]. split; [done|by left].
Qed.

Lemma same_input_upd_at k i f : (∀ c, calm k i c (f c)) → preserves (same_input k) (upd_ctl i f).
Proof.
  intros Hf g a g'. unfold upd_ctl. destruct (g_ctl g !! i) as [c|] eqn:Hi; [|done]. intros [= _ <-].
  split; [by cbn; rewrite length_insert|]. intros j cj Hj. cbn. destruct (decide (j = i)) as [->|Hne].
  - simplify_eq. exists (f c). rewrite list_lookup_insert_eq by (by eapply lookup_lt_Some). done.
  - exists cj. rewrite list_lookup_insert_ne by done. split; [done|]. split; [done|by left].
Qed.

Lemma same_input_upd k i f : (∀ c, input_of (f c) = input_of c ∧ state_fn (f c) = state_fn c) →
  preserves (same_input k) (upd_ctl i f).
Proof. intros Hf. apply same_input_upd_at. intros c. destruct (Hf c). split; [done|by left]. Qed.

Create HintDb same_input.

(** Prove that a computation leaves the inputs alone. *)
Ltac same_input :=
  repeat first
    [ preserves_step
    | solve [auto 2 with same_input nocore]
    | solve [auto 2 with frame nocore]
    | apply frame_modify; [apply _|done|intros ?; settings]
    | apply same_input_upd; intros []; split; done
    | unfold_call ].

(** ** The states of a controller *)

Section states.
Context `{OS, Inet, CmdTable}.

(** A command closes its controller or starts a statedump, if it changes the state. *)
Definition by_command (i : nat) : permit :=
  mkPermit i (λ s, s = Some ctl_state_close ∨ s = Some ctl_state_dump_fds).

Lemma same_input_exit i : preserves (same_input (by_command i)) (ctl_cmd_exit i).
Proof.
  same_input. apply same_input_upd_at. intros []. split; [done|]. right. split; [done|by left].
Qed.

Lemma same_input_statedump i : preserves (same_input (by_command i)) (ctl_cmd_statedump i).
Proof.
  same_input. apply same_input_upd_at. intros []. split; [done|]. right. split; [done|by right].
Qed.
#[local] Hint Resolve same_input_exit same_input_statedump : same_input.

Lemma same_input_command cmd i : preserves (same_input (by_command i)) (ctl_cmd_fn cmd i).
Proof.
  destruct (quiet_command cmd) eqn:Hq; [by apply frame_command; [apply _|]|].
  destruct cmd; try done; cbn [ctl_cmd_fn]; auto 2 with same_input nocore.
Qed.
#[local] Hint Resolve same_input_command : same_input.

Lemma same_input_dispatch i : preserves (same_input (by_command i)) (dispatch i).
Proof. same_input. Qed.

(** ** The states of the statedump *)

Lemma same_input_signals k i : preserves (same_input k) (ctl_deliver_signals i).
Proof. same_input. Qed.

(** The state that follows each of them. *)
Definition next_state (i : nat) (s : ctl_state_fn_t) : permit := mkPermit i (λ s', s' = Some s).

Lemma same_input_goto i s : preserves (same_input (next_state i s)) (upd_ctl i (set_state_fn (Some s))).
Proof. apply same_input_upd_at. intros []. split; [done|]. right. done. Qed.
#[local] Hint Resolve same_input_goto : same_input.

Lemma same_input_dump_fds i : preserves (same_input (next_state i ctl_state_dump_services)) (dump_fds i).
Proof. same_input. Qed.

Lemma same_input_dump_services i : preserves (same_input (next_state i ctl_state_dump_signals)) (dump_services i).
Proof. same_input. Qed.

Lemma same_input_dump_signals i : preserves (same_input (next_state i ctl_state_end_command)) (dump_signals i).
Proof. same_input. Qed.
End states.
#[export] Hint Resolve same_input_dispatch same_input_signals same_input_dump_fds same_input_dump_services
  same_input_dump_signals same_input_goto : same_input.
