(* ===== verification/CtlFraming.v ===== *)
(** * controller.c: the commands of an input stream

    However the bytes of a stream arrive, the state machine runs its lines once each
    and in order, except that of a line longer than the buffer only the fact is
    known, and the first character, for comments. *)

From S2P Require Import Prelude Strseg State Log Signal CtlOut Fd CtlObj Service CtlArg CtlSock Fatal Options CtlCmd CtlObjCmd CtlIn Preserves Frame CtlFrame.

(** ** The commands of a stream *)

Inductive command_line :=
  | Run (line : list Z)
  | TooLong (first : Z).

(** What the protocol makes of one line. *)
Definition as_command (line : list Z) : command_line :=
  if Z.of_nat (length line) <? CONTROLLER_RECV_BUF_SIZE then Run line else TooLong (hd NUL line).

(** The whole lines of a stream; what follows the last newline is no command yet. *)
Definition commands_in (stream : list Z) : list command_line :=
  as_command <$> removelast (split_on LF stream).

Definition unlines (ls : list (list Z)) : list Z := concat (map (λ l, l ++ [LF]) ls).

Lemma unlines_snoc ls l : unlines (ls ++ [l]) = unlines ls ++ l ++ [LF].
Proof. unfold unlines. rewrite map_app, concat_app. cbn. by rewrite app_nil_r. Qed.

Lemma split_on_first sep a b : sep ∉ a → split_on sep (a ++ sep :: b) = a :: split_on sep b.
Proof.
  induction a as [|x a IH]; intros Ha; cbn [split_on app].
  - by rewrite Z.eqb_refl.
  - apply not_elem_of_cons in Ha as [Hx Ha]. rewrite (proj2 (Z.eqb_neq _ _)) by done. by rewrite IH.
Qed.

Lemma split_on_absent sep a : sep ∉ a → split_on sep a = [a].
Proof.
  induction a as [|x a IH]; intros Ha; cbn [split_on]; [done|].
  apply not_elem_of_cons in Ha as [Hx Ha]. rewrite (proj2 (Z.eqb_neq _ _)) by done. by rewrite IH.
Qed.

Lemma split_unlines ls rest : Forall (λ l, LF ∉ l) ls → split_on LF (unlines ls ++ rest) = ls ++ split_on LF rest.
Proof.
  induction 1 as [|l ls Hl Hls IH]; [done|]. unfold unlines in *. cbn [map concat].
  rewrite <-!app_assoc. cbn [app]. by rewrite split_on_first, IH.
Qed.

Lemma commands_unlines ls rest : Forall (λ l, LF ∉ l) ls →
  commands_in (unlines ls ++ rest) = (as_command <$> ls) ++ commands_in rest.
Proof.
  intros Hls. unfold commands_in. rewrite split_unlines, removelast_app by (done || apply split_on_ne).
  by rewrite fmap_app.
Qed.

Lemma commands_partial rest : LF ∉ rest → commands_in rest = [].
Proof. intros Hr. unfold commands_in. by rewrite split_on_absent. Qed.

(** ** The input buffer *)

(** [text] is what the buffer holds of [line]: all of it, or after an overflow its
    first character and its end. *)
Definition held (overflow : bool) (text line : list Z) : Prop :=
  if overflow then ∃ h big tl, text = h :: tl ∧ line = h :: big ++ tl ∧ LF ∉ h :: big ∧
                     CONTROLLER_RECV_BUF_SIZE ≤ Z.of_nat (length (h :: big))
  else text = line.

Lemma held_app o text line more : held o text line → held o (text ++ more) (line ++ more).
Proof.
  destruct o; cbn; [|by intros ->]. intros (h & big & tl & -> & -> & Hn & Hl).
  exists h, big, (tl ++ more). split_and!; [done| |done|done]. cbn. by rewrite <-app_assoc.
Qed.

(** The buffer is full without a newline: the character that is kept. *)
Lemma held_overflow o buf line : held o buf line → LF ∉ buf → CONTROLLER_RECV_BUF_SIZE ≤ Z.of_nat (length buf) →
  held true (take 1 buf) line.
Proof.
  intros Hh Hn Hl. destruct o; cbn in Hh.
  - destruct Hh as (h & big & tl & -> & -> & Hb & Hs). exists h, (big ++ tl), [].
    rewrite app_nil_r. split_and!; [done|done| |].
    + set_solver.
    + cbn [length] in *. rewrite length_app. lia.
  - subst. destruct line as [|h tl]; [cbn in Hl; unfold CONTROLLER_RECV_BUF_SIZE in Hl; lia|].
    exists h, tl, []. by rewrite app_nil_r.
Qed.

(** The command of the current line, when the buffer holds it up to its end. *)
Definition current (c : controller_t) : command_line :=
  if recv_overflow c then TooLong (hd NUL (recv_buf c))
  else Run (take (Z.to_nat (line_len c - 1)) (recv_buf c)).

Lemma held_command o text line : held o text line →
  (o = false → Z.of_nat (length text) < CONTROLLER_RECV_BUF_SIZE) →
  as_command line = if o then TooLong (hd NUL text) else Run text.
Proof.
  intros Hh Ho. unfold as_command. destruct o; cbn in Hh.
  - destruct Hh as (h & big & tl & -> & -> & _ & Hl). destruct (Z.ltb_spec (Z.of_nat (length (h :: big ++ tl))) CONTROLLER_RECV_BUF_SIZE); [|done].
    cbn [length] in *. rewrite length_app in *. lia.
  - subst. destruct (Z.ltb_spec (Z.of_nat (length line)) CONTROLLER_RECV_BUF_SIZE); [done|]. specialize (Ho eq_refl). lia.
Qed.

Lemma held_no_lf o text line : held o text line → LF ∉ text → LF ∉ line.
Proof. destruct o; cbn; [|by intros ->]. intros (h & big & tl & -> & -> & Hn & _). set_solver. Qed.

(** The first newline of a buffer. *)
Lemma find_eol_spec buf : match find_eol buf with
  | Some k => buf = take k buf ++ LF :: drop (S k) buf ∧ LF ∉ take k buf ∧ (k < length buf)%nat
  | None => LF ∉ buf
  end.
Proof.
  unfold find_eol. destruct (Nat.ltb_spec (sep_index LF buf) (length buf)) as [Hk|Hk].
  - split_and!; [| |done].
    + revert Hk; induction buf as [|x buf IH]; cbn; [lia|]. intros Hk. destruct (Z.eqb_spec x LF) as [->|Hx]; [done|].
      cbn in *. f_equal. apply IH. lia.
    + clear Hk. induction buf as [|x buf IH]; cbn; [by apply not_elem_of_nil|].
      destruct (Z.eqb_spec x LF); cbn; [by apply not_elem_of_nil|]. by apply not_elem_of_cons.
  - induction buf as [|x buf IH]; cbn in *; [by apply not_elem_of_nil|].
    destruct (Z.eqb_spec x LF); [lia|]. apply not_elem_of_cons. split; [done|]. apply IH. lia.
Qed.

(** ** What a computation does to the input of one controller

    [after i m Q c]: when [m] returns [a] from a state whose controller [i] is [c], the
    controller it leaves satisfies [Q a]. *)

Definition after {A} (i : nat) (m : DP A) (Q : A → controller_t → Prop) (c : controller_t) : Prop :=
  ∀ g a g', g_ctl g !! i = Some c → m g = Done (a, g') → ∃ c', g_ctl g' !! i = Some c' ∧ Q a c'.

Section after.
Context (i : nat).

Lemma after_ret {A} (a : A) Q c : Q a c → after i (mret a) Q c.
Proof. intros HQ g b g' Hi [= <- <-]. by exists c. Qed.

Lemma after_bind {A B} (m : DP A) (f : A → DP B) Q c : after i m (λ a c', after i (f a) Q c') c → after i (m ≫= f) Q c.
Proof.
  intros Hm g b g' Hi E. unfold mbind, M_bind in E. destruct (m g) as [[a g1]| | | |] eqn:E1; try done.
  destruct (Hm g a g1 Hi E1) as (c1 & Hi1 & Hf). by apply (Hf g1 b g').
Qed.

Lemma after_get Q c : Q c c → after i (get_ctl i) Q c.
Proof. intros HQ g b g' Hi. unfold get_ctl. rewrite Hi. intros [= <- <-]. by exists c. Qed.

Lemma after_upd f (Q : unit → controller_t → Prop) c : Q tt (f c) → after i (upd_ctl i f) Q c.
Proof.
  intros HQ g [] g' Hi. unfold upd_ctl. rewrite Hi. intros [= <-]. exists (f c). split; [|done].
  cbn. by rewrite list_lookup_insert_eq by (by eapply lookup_lt_Some).
Qed.

Lemma after_assert b (Q : unit → controller_t → Prop) c : (b = true → Q tt c) → after i (assert b) Q c.
Proof. destruct b; intros HQ; [by apply after_ret, HQ|done]. Qed.

Lemma after_calm k {A} (m : DP A) (Q : A → controller_t → Prop) c : preserves (same_input k) m →
  (∀ a c', calm k i c c' → Q a c') → after i m Q c.
Proof.
  intros Hm HQ g a g' Hi E. destruct (Hm g a g' E) as [_ Hc]. destruct (Hc i c Hi) as (c' & Hi' & Hcalm).
  exists c'. split; [done|]. by apply HQ.
Qed.

Lemma after_mono {A} (m : DP A) (Q Q' : A → controller_t → Prop) c : after i m Q c → (∀ a c', Q a c' → Q' a c') → after i m Q' c.
Proof. intros Hm HQ g a g' Hi E. destruct (Hm g a g' Hi E) as (c' & Hi' & H). eauto. Qed.
End after.

(** The controller [i] is not the one a computation moves to another state. *)
Definition nobody (i : nat) : permit := mkPermit i (λ _, False).

Lemma calm_nobody i j c c' : calm (nobody i) j c c' → input_of c' = input_of c ∧ state_fn c' = state_fn c.
Proof. by intros [Hc [Hs|[_ []]]]. Qed.

(** ** The steps of an input stream *)

Section framing.
Context `{OS, Inet, CmdTable}.

(** What one step of the program means to the input of the controller [i]: the bytes
    that arrive in it, and the command that is carried out.  [step_other] is everything
    else: the other controllers, the services, the output, and the closing of the
    controller when its reader is too slow. *)
Inductive in_step (i : nat) : G → list Z → list command_line → G → Prop :=
  | step_read g c b g' c' : g_ctl g !! i = Some c → ctl_read_more i g = Done (b, g') → g_ctl g' !! i = Some c' →
      in_step i g (drop (length (recv_buf c)) (recv_buf c')) [] g'
  | step_state g c s b g' : g_ctl g !! i = Some c → state_fn c = Some s → ctl_state s i g = Done (b, g') →
      in_step i g [] (if bool_decide (s = ctl_state_run_command) && b then [current c] else []) g'
  | step_other g c g' c' : g_ctl g !! i = Some c → g_ctl g' !! i = Some c' → input_of c' = input_of c →
      state_fn c' = state_fn c ∨ state_fn c' = Some ctl_state_free ∨ state_fn c' = None →
      in_step i g [] [] g'.

Inductive in_steps (i : nat) : G → list Z → list command_line → G → Prop :=
  | in_steps_refl g : in_steps i g [] [] g
  | in_steps_step g1 b1 r1 g2 b2 r2 g3 : in_steps i g1 b1 r1 g2 → in_step i g2 b2 r2 g3 →
      in_steps i g1 (b1 ++ b2) (r1 ++ r2) g3.

(** [read] and [recvmsg] return at most the bytes asked for. *)
Class ReadOk : Prop := {
  read_ok h fd n : 0 ≤ n → ret (os h (CRead fd n)) ≤ n;
  recvmsg_ok h fd n : 0 ≤ n → ret (os h (CRecvmsg fd n)) ≤ n;
}.

Definition room_ok (c : controller_t) : Prop := Z.of_nat (length (recv_buf c)) ≤ CONTROLLER_RECV_BUF_SIZE.

Lemma after_sys i call (Q : sysret → controller_t → Prop) c : (∀ h, Q (os h call) c) → after i (sys call) Q c.
Proof. intros HQ g r g' Hi [= <- <-]. exists c. by split. Qed.

(** ** Reading *)

Lemma after_read `{!ReadOk} i c : room_ok c →
  after i (ctl_read_more i) (λ _ c', room_ok c' ∧ state_fn c' = state_fn c ∧
    ∃ bytes, input_of c' = mkIn (recv_buf c ++ bytes) (recv_overflow c) (line_len c) (append_final_newline c)) c.
Proof.
  intros Hroom. unfold ctl_read_more.
  assert (Hsame : ∀ c', calm (nobody i) i c c' → room_ok c' ∧ state_fn c' = state_fn c ∧
    ∃ bytes, input_of c' = mkIn (recv_buf c ++ bytes) (recv_overflow c) (line_len c) (append_final_newline c)).
  { intros c' [E S]%calm_nobody. split_and!; [|done|exists []; by rewrite app_nil_r].
    unfold room_ok. replace (recv_buf c') with (recv_buf c); [done|]. by injection E. }
  apply after_bind, after_get. destruct (_ || _)%bool eqn:Hr; [apply after_ret, Hsame; by apply calm_refl|].
  apply orb_false_iff in Hr as [_ Hr]. apply Z.leb_gt in Hr.
  apply after_bind, (after_mono _ _ (λ n c', ret n ≤ CONTROLLER_RECV_BUF_SIZE - Z.of_nat (length (recv_buf c)) ∧ calm (nobody i) i c c')).
  { destruct (recv_is_socket c).
    - apply after_bind, after_sys. intros h. apply after_bind.
      eapply (after_calm _ (nobody i)); [same_input|]. intros _ c' Hc. apply after_ret.
      split; [apply recvmsg_ok; lia|done].
    - apply after_sys. intros h. split; [apply read_ok; lia|]. by apply calm_refl. }
  intros n c1 [Hn Hc1]. pose proof (calm_nobody _ _ _ _ Hc1) as [E1 S1].
  destruct (ret n <=? 0).
  - apply after_bind. eapply (after_calm _ (nobody i)); [same_input|].
    intros _ c2 Hc2. apply after_ret, Hsame. by eapply calm_trans.
  - apply after_bind, after_upd, after_ret. injection E1 as Eb Eo El Ea.
    split_and!; [|by destruct c1|exists (take (Z.to_nat (ret n)) (out n)); destruct c1; cbn in *; by subst].
    unfold room_ok in *. destruct c1; cbn in *; subst. rewrite length_app, length_take. lia.
Qed.

(** ** The commands so far *)

(** Of the bytes [received], the lines [ls] have been carried out, and [part] is in the
    input buffer as [text]. *)
Definition pending (received : list Z) (ran : list command_line) (o : bool) (text part : list Z) : Prop :=
  ∃ ls, received = unlines ls ++ part ∧ Forall (λ l, LF ∉ l) ls ∧ ran = as_command <$> ls ∧ held o text part.

(** The line in the buffer that the terminator has been written to, and the rest. *)
Definition line_in (c : controller_t) (text rest : list Z) : Prop :=
  recv_buf c = text ++ NUL :: rest ∧ line_len c = Z.of_nat (length text) + 1.

Definition in_state (received : list Z) (ran : list command_line) (c : controller_t) : Prop :=
  match state_fn c with
  | Some ctl_state_next_command =>
      line_len c = 0 ∧ ∃ part, pending received ran (recv_overflow c) (recv_buf c) part
  | Some ctl_state_run_command => ∃ text line rest, line_in c text rest ∧ LF ∉ line ∧
      (∃ ls, received = unlines ls ++ line ++ LF :: rest ∧ Forall (λ l, LF ∉ l) ls ∧ ran = as_command <$> ls) ∧
      held (recv_overflow c) text line
  | Some ctl_state_close | Some ctl_state_free | None => ran `prefix_of` commands_in received
  | Some _ => recv_overflow c = false ∧ ∃ text rest, line_in c text rest ∧ pending received ran false rest rest
  end.

(** The invariant of the input of a controller. *)
Definition framed (received : list Z) (ran : list command_line) (c : controller_t) : Prop :=
  room_ok c ∧ append_final_newline c = false ∧ in_state received ran c.

(** The lines before the first newline still to come. *)
Lemma stream_lines s : ∃ ls part, s = unlines ls ++ part ∧ Forall (λ l, LF ∉ l) ls ∧ LF ∉ part.
Proof.
  induction s as [|x s (ls & part & -> & Hls & Hp)]; [exists [], []; by split_and!; [|constructor|apply not_elem_of_nil]|].
  destruct (decide (x = LF)) as [->|Hx]; [exists ([] :: ls), part; split_and!; [done|constructor; [apply not_elem_of_nil|done]|done]|].
  destruct ls as [|l ls]; [exists [], (x :: part); by rewrite not_elem_of_cons|].
  exists ((x :: l) :: ls), part. rewrite Forall_cons in *. rewrite not_elem_of_cons. naive_solver.
Qed.

Lemma commands_app a b : commands_in a `prefix_of` commands_in (a ++ b).
Proof.
  destruct (stream_lines a) as (ls & part & -> & Hls & Hp). rewrite <-app_assoc, !commands_unlines, (commands_partial part) by done.
  rewrite app_nil_r. by apply prefix_app_r.
Qed.

Lemma pending_prefix received ran o text part : pending received ran o text part → ran `prefix_of` commands_in received.
Proof. intros (ls & -> & Hls & -> & _). rewrite commands_unlines by done. by apply prefix_app_r. Qed.

Lemma framed_prefix received ran c : framed received ran c → ran `prefix_of` commands_in received.
Proof.
  intros (_ & _ & Hs). unfold in_state in Hs. destruct (state_fn c) as [[]|]; try done.
  - destruct Hs as (_ & part & Hs). by eapply pending_prefix.
  - destruct Hs as (text & line & rest & _ & _ & (ls & -> & Hls & ->) & _).
    rewrite commands_unlines by done. by apply prefix_app_r.
  - destruct Hs as (_ & text & rest & _ & Hs). by eapply pending_prefix.
  - destruct Hs as (_ & text & rest & _ & Hs). by eapply pending_prefix.
  - destruct Hs as (_ & text & rest & _ & Hs). by eapply pending_prefix.
  - destruct Hs as (_ & text & rest & _ & Hs). by eapply pending_prefix.
Qed.

(** The invariant only sees the input and the state. *)
Lemma framed_same received ran c c' : input_of c' = input_of c → state_fn c' = state_fn c → framed received ran c → framed received ran c'.
Proof.
  unfold framed, in_state, room_ok, line_in. intros E ->. unfold input_of in E. injection E as -> -> -> ->. done.
Qed.

(** From any state the program may close a controller. *)
Lemma framed_closed received ran c c' : input_of c' = input_of c →
  state_fn c' = Some ctl_state_close ∨ state_fn c' = Some ctl_state_free ∨ state_fn c' = None →
  framed received ran c → framed received ran c'.
Proof.
  intros E S Hf. pose proof (framed_prefix _ _ _ Hf) as Hp. destruct Hf as (Hr & Ha & _).
  unfold framed, room_ok, in_state, input_of in *. injection E as -> _ _ ->. split_and!; [done|done|].
  by destruct S as [->|[->| ->]].
Qed.

(** More input. *)
Lemma framed_read received ran c c' bytes : state_fn c' = state_fn c → room_ok c' →
  input_of c' = mkIn (recv_buf c ++ bytes) (recv_overflow c) (line_len c) (append_final_newline c) →
  framed received ran c → framed (received ++ bytes) ran c'.
Proof.
  intros S Hr E (_ & Ha & Hs). injection E as Eb Eo El Ea. split_and!; [done|congruence|].
  assert (Hclosed : ran `prefix_of` commands_in received → ran `prefix_of` commands_in (received ++ bytes)).
  { intros Hp. etransitivity; [done|apply commands_app]. }
  assert (Hdump : (recv_overflow c = false ∧ ∃ text rest, line_in c text rest ∧ pending received ran false rest rest) →
    recv_overflow c' = false ∧ ∃ text rest, line_in c' text rest ∧ pending (received ++ bytes) ran false rest rest).
  { intros (Ho & text & rest & [Hb Hl] & (ls & -> & Hls & -> & _)). split; [congruence|]. exists text, (rest ++ bytes).
    split; [split; [|congruence]; by rewrite Eb, Hb, <-app_assoc|].
    exists ls. by rewrite <-app_assoc. }
  unfold in_state in *. rewrite S. destruct (state_fn c) as [[]|]; auto.
  - destruct Hs as (Hl & part & ls & -> & Hls & -> & Hh). split; [congruence|]. exists (part ++ bytes), ls.
    rewrite <-app_assoc, Eo, Eb. split_and!; [done|done|done|by apply held_app].
  - destruct Hs as (text & line & rest & [Hb Hl] & Hn & (ls & -> & Hls & ->) & Hh).
    exists text, line, (rest ++ bytes). rewrite Eo. split_and!; [split; [|congruence]; by rewrite Eb, Hb, <-app_assoc|done| |done].
    exists ls. by rewrite <-!app_assoc.
Qed.

(** ** The next line *)

Lemma held_split o text rest part : held o (text ++ LF :: rest) part → LF ∉ text →
  ∃ line, part = line ++ LF :: rest ∧ held o text line.
Proof.
  destruct o; cbn; [|intros <- _; by exists text]. intros (h & big & tl & E & -> & Hb & Hl) Ht.
  destruct text as [|h' tl']; cbn in E; injection E as E1 E2.
  - subst h. by apply not_elem_of_cons in Hb as [].
  - subst h' tl. exists (h :: big ++ tl'). split; [cbn; by rewrite <-app_assoc|]. by exists h, big, tl'.
Qed.

Lemma after_got_line received ran i c eol : framed received ran c → state_fn c = Some ctl_state_next_command →
  find_eol (recv_buf c) = Some eol → after i (ctl_got_line i eol) (λ _, framed received ran) c.
Proof.
  intros (Hr & Ha & Hs) Hst Heol. unfold in_state in Hs. rewrite Hst in Hs.
  destruct Hs as (Hl & part & ls & -> & Hls & -> & Hh).
  pose proof (find_eol_spec (recv_buf c)) as Hspec. rewrite Heol in Hspec. destruct Hspec as (Hb & Hn & Hlt).
  set (text := take eol (recv_buf c)) in *. set (rest := drop (S eol) (recv_buf c)) in *.
  assert (Htl : length text = eol) by (unfold text; rewrite length_take; lia).
  rewrite Hb in Hh. apply held_split in Hh as (line & -> & Hh); [|done].
  unfold ctl_got_line. apply after_bind, after_upd, after_bind, after_upd, after_bind, after_get, after_bind.
  eapply (after_calm _ (nobody i)); [same_input|]. intros _ c' Hc'. apply after_bind, after_upd, after_ret.
  apply (calm_nobody i) in Hc' as [E _]. unfold framed, in_state, room_ok, line_in.
  assert (Eb : recv_buf c' = text ++ NUL :: rest).
  { injection E as -> _ _ _. cbn. rewrite Hb. rewrite <-(Nat.add_0_r eol), <-Htl at 1. by rewrite insert_app_r. }
  injection E as _ Eo El Ea. cbn [set_state_fn recv_buf append_final_newline state_fn line_len recv_overflow].
  rewrite Eb. split_and!.
  - unfold room_ok in Hr. rewrite Hb in Hr. rewrite length_app in *. cbn [length] in *. done.
  - rewrite Ea. by destruct c.
  - exists text, line, rest. split_and!; [done|rewrite El; destruct c; cbn; lia|by eapply held_no_lf| |].
    + exists ls. done.
    + rewrite Eo. by destruct c.
Qed.

Lemma after_next received ran i c : framed received ran c → state_fn c = Some ctl_state_next_command →
  after i (next_command i) (λ _, framed received ran) c.
Proof.
  intros Hf Hst. unfold next_command. apply after_bind. eapply after_calm; [apply (same_input_signals (nobody i))|].
  intros ok c1 [E1 S1]%calm_nobody. rewrite <-S1 in Hst. apply (framed_same _ _ _ c1) in Hf; [|done|done]. clear c E1 S1.
  destruct ok; cbn [negb]; [|by apply after_ret]. apply after_bind, after_get.
  assert (Hset : ∀ buf o, Z.of_nat (length buf) ≤ CONTROLLER_RECV_BUF_SIZE →
    framed received ran (set_state_fn (Some ctl_state_close) (set_recv_buf buf (set_recv_overflow o c1)))).
  { intros buf o Hb. pose proof (framed_prefix _ _ _ Hf). destruct Hf as (_ & Ha & _). by destruct c1. }
  destruct (recv_fd c1 <? 0); [|destruct (find_eol (recv_buf c1)) as [eol|] eqn:Heol].
  - unfold ctl_next_at_eof. apply after_bind, after_get. destruct (length (recv_buf c1) =? 0)%nat.
    { apply after_bind, after_upd, after_ret. specialize (Hset (recv_buf c1) (recv_overflow c1)). destruct c1; apply Hset, Hf. }
    replace (append_final_newline c1) with false by (symmetry; apply Hf). rewrite andb_false_r.
    apply after_bind, after_ret. destruct (find_eol (recv_buf c1)) as [eol|] eqn:Heol; [by apply after_got_line|].
    apply after_bind. eapply (after_calm _ (nobody i)); [same_input|]. intros _ c2 [E2 S2]%(calm_nobody i).
    apply after_bind, after_upd, after_bind, after_upd, after_ret.
    pose proof (framed_prefix _ _ _ Hf). destruct Hf as (_ & Ha & _). injection E2 as _ _ _ E2.
    split_and!; [done|cbn; congruence|done].
  - by apply after_got_line.
  - destruct (_ >=? _) eqn:Hfull; [|by apply after_ret].
    apply after_bind, after_upd, after_bind, after_upd, after_bind.
    eapply (after_calm _ (nobody i)); [same_input|]. intros _ c2 [E2 S2]%(calm_nobody i). apply after_ret.
    apply (framed_same _ _ _ c2 E2 S2). clear c2 E2 S2.
    pose proof (find_eol_spec (recv_buf c1)) as Hn. rewrite Heol in Hn. rewrite Z.geb_leb in Hfull. apply Z.leb_le in Hfull.
    destruct Hf as (Hr & Ha & Hs). unfold in_state in Hs. rewrite Hst in Hs. destruct Hs as (Hl & part & ls & -> & Hls & -> & Hh).
    split_and!; [|by destruct c1|].
    + unfold room_ok in *. destruct c1; cbn -[take] in *. rewrite length_take. lia.
    + unfold in_state. cbn [set_recv_buf set_recv_overflow state_fn]. rewrite Hst. split; [by destruct c1|].
      exists part, ls. split_and!; [done|done|done|]. eapply held_overflow in Hh; [|done|lia]. by destruct c1.
Qed.

(** ** The command, and its end *)

(** The line in the buffer has been carried out, whatever state comes next. *)
Lemma framed_ran received ran c c' : framed received ran c → state_fn c = Some ctl_state_run_command →
  input_of c' = mkIn (recv_buf c) false (line_len c) false →
  state_fn c' = Some ctl_state_end_command ∨ state_fn c' = Some ctl_state_close ∨ state_fn c' = Some ctl_state_dump_fds →
  framed received (ran ++ [current c]) c'.
Proof.
  intros (Hr & Ha & Hs) Hst E S'. unfold in_state in Hs. rewrite Hst in Hs.
  destruct Hs as (text & line & rest & [Hb Hl] & Hn & (ls & -> & Hls & ->) & Hh).
  assert (Hcur : current c = as_command line).
  { unfold room_ok in Hr. rewrite Hb, length_app in Hr. cbn [length] in Hr.
    rewrite (held_command _ _ _ Hh) by lia. unfold current. rewrite Hb, Hl. destruct (recv_overflow c); cbn in Hh.
    - destruct Hh as (h & big & tl & -> & _). done.
    - f_equal. rewrite take_app_le by lia. apply take_ge. lia. }
  rewrite Hcur. assert (Hp : pending (unlines ls ++ line ++ LF :: rest) ((as_command <$> ls) ++ [as_command line]) false rest rest).
  { exists (ls ++ [line]). rewrite unlines_snoc, fmap_app, <-!app_assoc. split_and!; [done| |done|done].
    apply Forall_app. split; [done|]. by apply Forall_singleton. }
  injection E as Eb Eo El Ea. split_and!; [unfold room_ok in *; by rewrite Eb|done|].
  assert (Hend : recv_overflow c' = false ∧ ∃ text0 rest0, line_in c' text0 rest0 ∧
    pending (unlines ls ++ line ++ LF :: rest) ((as_command <$> ls) ++ [as_command line]) false rest0 rest0).
  { split; [done|]. exists text, rest. split; [|done]. split; congruence. }
  unfold in_state. destruct S' as [->|[->| ->]]; [done| |done]. by eapply pending_prefix.
Qed.

Lemma after_run received ran i c : framed received ran c → state_fn c = Some ctl_state_run_command →
  after i (run_command i) (λ b, framed received (ran ++ if b then [current c] else [])) c.
Proof.
  intros Hf Hst. unfold run_command. apply after_bind. eapply (after_calm _ (nobody i)); [same_input|].
  intros ready c1 [E1 S1]%(calm_nobody i). rewrite <-S1 in Hst. replace (current c) with (current c1).
  2: { injection E1 as Eb Eo El Ea. unfold current. by rewrite Eb, Eo, El. }
  apply (framed_same _ _ _ c1) in Hf; [|done|done]. clear c E1 S1.
  destruct ready; cbn [negb]; [|apply after_ret; by rewrite app_nil_r].
  assert (Ha : append_final_newline c1 = false) by apply Hf.
  apply after_bind, after_upd, after_bind, after_get, after_bind.
  cbn [set_state_fn recv_overflow]. destruct (recv_overflow c1) eqn:Ho.
  - apply after_bind, after_upd, after_bind. eapply (after_calm _ (nobody i)); [same_input|].
    intros first c2 [E2 S2]%(calm_nobody i).
    eapply (after_calm _ (nobody i)); [same_input|]. intros _ c3 [E3 S3]%(calm_nobody i). apply after_ret.
    eapply framed_ran; [done|done| |].
    + rewrite E3, E2. destruct c1; cbn in *; by subst.
    + left. by rewrite S3, S2; destruct c1.
  - eapply after_calm; [apply same_input_dispatch|]. intros _ c3 [E3 S3]. apply after_ret.
    eapply framed_ran; [done|done| |].
    + rewrite E3. destruct c1; cbn in *; by subst.
    + destruct S3 as [->|[_ [->| ->]]]; [left; by destruct c1|by right; left|by right; right].
Qed.

Lemma after_end received ran i c : framed received ran c → state_fn c = Some ctl_state_end_command →
  after i (end_command i) (λ _, framed received ran) c.
Proof.
  intros (Hr & Ha & Hs) Hst. unfold in_state in Hs. rewrite Hst in Hs.
  destruct Hs as (Ho & text & rest & [Hb Hl] & Hp). unfold end_command. apply after_bind, after_get, after_bind.
  rewrite (proj2 (Z.gtb_lt _ _)) by lia.
  apply after_bind, after_upd, after_upd, after_bind, after_upd, after_ret.
  assert (Hd : drop (Z.to_nat (line_len c)) (recv_buf c) = rest).
  { rewrite Hl, Hb, drop_app_ge by lia. by replace (_ - _)%nat with 1%nat by lia. }
  unfold framed, room_ok, in_state in *. cbn -[drop]. rewrite Hd. split_and!; [|by destruct c|done|].
  - rewrite Hb, length_app in Hr. cbn [length] in Hr. lia.
  - exists rest. destruct c; cbn in *; by subst.
Qed.

(** The statedump, between the command and its end. *)
Lemma framed_dump received ran i s s' m c : framed received ran c → state_fn c = Some s →
  s ∈ [ctl_state_dump_fds; ctl_state_dump_services; ctl_state_dump_signals] →
  s' ∈ [ctl_state_dump_services; ctl_state_dump_signals; ctl_state_end_command] →
  preserves (same_input (next_state i s')) m → after i m (λ _ : bool, framed received ran) c.
Proof.
  intros Hf Hst Hin Hin' Hm. eapply after_calm; [apply Hm|]. intros _ c' [E [Sc|[_ Sc]]]; [by apply (framed_same _ _ c)|].
  destruct Hf as (Hr & Ha & Hs). unfold framed, room_ok, in_state, line_in, input_of in *. cbn in Sc. rewrite Hst in Hs. rewrite Sc.
  injection E as -> -> -> ->. split_and!; [done|done|].
  assert (Hs0 : recv_overflow c = false ∧ ∃ text rest, (recv_buf c = text ++ NUL :: rest ∧ line_len c = Z.of_nat (length text) + 1) ∧
    pending received ran false rest rest) by (repeat (apply elem_of_cons in Hin as [->|Hin]; [done|]); by apply elem_of_nil in Hin).
  repeat (apply elem_of_cons in Hin' as [->|Hin']; [done|]); by apply elem_of_nil in Hin'.
Qed.

(** ** Closing *)

Definition closing (i : nat) : permit := mkPermit i (λ s, s = Some ctl_state_free ∨ s = None).

Lemma same_input_dtor i : preserves (same_input (closing i)) (ctl_dtor i).
Proof.
  same_input.
  apply same_input_upd_at. intros []. split; [done|]. right. split; [done|by left].
Qed.

Lemma same_input_close i : preserves (same_input (closing i)) (close_controller i).
Proof. pose proof (same_input_dtor i). same_input. Qed.

Lemma same_input_free_ctl i : preserves (same_input (closing i)) (ctl_free (Some i)).
Proof.
  unfold ctl_free, main_notify_controller_freed. same_input.
  apply same_input_upd_at. intros []. split; [done|]. right. split; [done|by right].
Qed.

Lemma same_input_free i : preserves (same_input (closing i)) (free_controller i).
Proof. pose proof (same_input_free_ctl i). same_input. Qed.

Lemma framed_closing received ran i m c : framed received ran c → preserves (same_input (closing i)) m →
  after i m (λ _ : bool, framed received ran) c.
Proof.
  intros Hf Hm. eapply after_calm; [apply Hm|]. intros _ c' [E [Sc|[_ Sc]]]; [by apply (framed_same _ _ c)|].
  apply (framed_closed _ _ c); [done| |done]. by right.
Qed.

(** ** Every step keeps the invariant *)

Lemma framed_step `{!ReadOk} i g bytes did g' c received ran : in_step i g bytes did g' →
  g_ctl g !! i = Some c → framed received ran c →
  ∃ c', g_ctl g' !! i = Some c' ∧ framed (received ++ bytes) (ran ++ did) c'.
Proof.
  intros Hstep Hi Hf. destruct Hstep as [g c0 b g' c' Hi0 E Hi'|g c0 s b g' Hi0 Hst E|g c0 g' c' Hi0 Hi' E S']; rewrite Hi in Hi0; injection Hi0 as <-.
  - destruct (after_read i c (proj1 Hf) g b g' Hi E) as (c'' & Hi'' & Hr & S' & bytes & Ein). rewrite Hi' in Hi''. injection Hi'' as <-.
    exists c'. split; [done|]. rewrite app_nil_r. apply (framed_read _ _ c); [done|done| |done].
    replace (recv_buf c') with (recv_buf c ++ bytes) by (by injection Ein). by rewrite drop_app_length.
  - rewrite app_nil_r. assert (Hs : after i (ctl_state s i)
      (λ b, framed received (ran ++ if bool_decide (s = ctl_state_run_command) && b then [current c] else [])) c); [|by apply (Hs g b g')].
    destruct (decide (s = ctl_state_run_command)) as [->|Hne]; [by apply after_run|].
    apply (after_mono _ _ (λ _, framed received ran)).
    2: { intros b' c' H'. rewrite bool_decide_false by done. cbn [andb]. by rewrite app_nil_r. }
    destruct s; cbn [ctl_state]; [by apply after_next|done|by apply after_end| | | | |].
    + apply framed_closing; [done|apply same_input_close].
    + apply framed_closing; [done|apply same_input_free].
    + eapply framed_dump; [done|done|set_solver| |apply same_input_dump_fds]; set_solver.
    + eapply framed_dump; [done|done|set_solver| |apply same_input_dump_services]; set_solver.
    + eapply framed_dump; [done|done|set_solver| |apply same_input_dump_signals]; set_solver.
  - exists c'. rewrite !app_nil_r. split; [done|].
    destruct S' as [S'|S']; [by apply (framed_same _ _ c)|]. apply (framed_closed _ _ c); [done| |done]. by right.
Qed.

Lemma framed_steps `{!ReadOk} i g bytes did g' c received ran : in_steps i g bytes did g' →
  g_ctl g !! i = Some c → framed received ran c →
  ∃ c', g_ctl g' !! i = Some c' ∧ framed (received ++ bytes) (ran ++ did) c'.
Proof.
  intros Hsteps Hi Hf. induction Hsteps as [g|g1 b1 r1 g2 b2 r2 g3 _ IH Hstep]; [exists c; by rewrite !app_nil_r|].
  destruct (IH Hi) as (c2 & Hi2 & Hf2). rewrite !app_assoc. by apply (framed_step i g2 b2 r2 g3 c2).
Qed.

(** A controller as [ctl_new] leaves it. *)
Definition fresh (c : controller_t) : Prop :=
  state_fn c = Some ctl_state_next_command ∧ recv_buf c = [] ∧ recv_overflow c = false ∧ line_len c = 0 ∧
  append_final_newline c = false.

Lemma fresh_framed c : fresh c → framed [] [] c.
Proof.
  intros (S & Hb & Ho & Hl & Ha). split_and!; [unfold room_ok; by rewrite Hb|done|]. unfold in_state. rewrite S, Hl, Hb, Ho.
  split; [done|]. by exists [], [].
Qed.

(** C21. The commands that are carried out on the input stream of a controller that
    does not add a final newline ([fresh]: a pipe or a socket, not a file of commands read
    at the start, where the code may run several lines as one) are its lines, each once
    and in order, however the stream is cut up by [read], whatever the other parts of
    the program do in between, and whatever the commands themselves do; of a line that
    does not fit the buffer only the fact, and its first character, gets through.  When
    the controller waits for more input it has carried out all lines that arrived. *)
Theorem commands_framed `{!ReadOk} i g c bytes did g' c' : g_ctl g !! i = Some c → fresh c →
  in_steps i g bytes did g' → g_ctl g' !! i = Some c' →
  did `prefix_of` commands_in bytes ∧
  (state_fn c' = Some ctl_state_next_command → LF ∉ recv_buf c' → did = commands_in bytes).
Proof.
  intros Hi Hc Hsteps Hi'. destruct (framed_steps _ _ _ _ _ _ [] [] Hsteps Hi (fresh_framed _ Hc)) as (c2 & Hi2 & Hf).
  cbn [app] in Hf. rewrite Hi' in Hi2. injection Hi2 as <-. split; [by apply (framed_prefix _ _ c')|]. intros S Hn.
  destruct Hf as (_ & _ & Hs). unfold in_state in Hs. rewrite S in Hs. destruct Hs as (_ & part & ls & -> & Hls & -> & Hh).
  rewrite commands_unlines, commands_partial by (done || by eapply held_no_lf). by rewrite app_nil_r.
Qed.
End framing.
