(* ===== verification/CtlRun.v ===== *)
(** * controller.c: a turn of the controllers

    [ctl_run] does to each controller that is open only what the steps of its input
    stream allow; what it does for one of them is none of another's business. *)

From S2P Require Import Prelude Strseg State Log Signal CtlOut Fd CtlObj Service CtlArg CtlSock Fatal Options CtlCmd CtlObjCmd CtlIn CtlTable Preserves Frame CtlFrame CtlFraming.

(** ** What is left alone by another controller's turn *)

Definition elsewhere (i : nat) (g g' : G) : Prop :=
  ∀ c, g_ctl g !! i = Some c → ∃ c', g_ctl g' !! i = Some c' ∧ calm (nobody i) i c c'.

#[export] Instance elsewhere_preorder i : PreOrder (elsewhere i).
Proof.
  split.
  - intros g c Hi. exists c. split; [done|apply calm_refl].
  - intros g1 g2 g3 H1 H2 c Hi. destruct (H1 c Hi) as (c2 & Hi2 & C1). destruct (H2 c2 Hi2) as (c3 & Hi3 & C2).
    exists c3. split; [done|by eapply calm_trans].
Qed.

Lemma elsewhere_same k i {A} (m : DP A) : who k ≠ i → preserves (same_input k) m → preserves (elsewhere i) m.
Proof.
  intros Hk Hm g a g' E c Hi. destruct (Hm g a g' E) as [_ Hc]. destruct (Hc i c Hi) as (c' & Hi' & Ec & Sc).
  exists c'. split; [done|]. split; [done|]. left. destruct Sc as [Sc|[Hi2 _]]; [done|by destruct Hk].
Qed.

Lemma elsewhere_upd i j f : j ≠ i → preserves (elsewhere i) (upd_ctl j f).
Proof.
  intros Hj g a g'. unfold upd_ctl. destruct (g_ctl g !! j) as [cj|]; [|done]. intros [= _ <-] c Hi. exists c.
  cbn. rewrite list_lookup_insert_ne by done. split; [done|apply calm_refl].
Qed.

Section turn.
Context `{OS, Inet, CmdTable}.

(** Prove that the work for [j] leaves the controller [i] alone. *)
Ltac elsewhere j :=
  repeat first
    [ preserves_step
    | solve [auto 2 with nocore]
    | apply elsewhere_upd; done
    | solve [apply (elsewhere_same (nobody j)); [done|same_input]] ].

Lemma elsewhere_ancillary i j l : j ≠ i → preserves (elsewhere i) (ctl_read_ancillary_fds j l).
Proof. intros Hj. apply (elsewhere_same (nobody j)); [done|same_input]. Qed.

Lemma elsewhere_read i j : j ≠ i → preserves (elsewhere i) (ctl_read_more j).
Proof.
  intros Hj. pose proof (elsewhere_ancillary i j).
  unfold ctl_read_more. elsewhere j.
Qed.

Lemma elsewhere_state i j s : j ≠ i → preserves (elsewhere i) (ctl_state s j).
Proof.
  intros Hj. destruct s; cbn [ctl_state].
  - unfold next_command, ctl_next_at_eof, ctl_got_line. elsewhere j.
  - pose proof (elsewhere_same (by_command j) i (dispatch j) Hj (same_input_dispatch j)).
    unfold run_command. elsewhere j.
  - unfold end_command. elsewhere j.
  - apply (elsewhere_same (closing j)); [done|apply same_input_close].
  - apply (elsewhere_same (closing j)); [done|apply same_input_free].
  - apply (elsewhere_same (next_state j ctl_state_dump_services)); [done|apply same_input_dump_fds].
  - apply (elsewhere_same (next_state j ctl_state_dump_signals)); [done|apply same_input_dump_services].
  - apply (elsewhere_same (next_state j ctl_state_end_command)); [done|apply same_input_dump_signals].
Qed.

Lemma elsewhere_steps i j n : j ≠ i → preserves (elsewhere i) (ctl_steps n j).
Proof.
  intros Hj. pose proof (λ s, elsewhere_state i j s Hj). induction n; cbn [ctl_steps]; elsewhere j.
Qed.

Lemma elsewhere_run_one i j : j ≠ i → preserves (elsewhere i) (ctl_run_one j).
Proof.
  intros Hj. pose proof (elsewhere_read i j Hj). pose proof (elsewhere_steps i j ctl_run_steps Hj).
  unfold ctl_run_one, ctl_try_read. elsewhere j.
Qed.

Lemma same_input_check_blocked i : preserves (same_input (closing i)) (ctl_check_blocked i).
Proof.
  pose proof (same_input_dtor i). pose proof (same_input_free_ctl i).
  same_input.
Qed.

Lemma same_input_run_two i : preserves (same_input (closing i)) (ctl_run_two i).
Proof. pose proof (same_input_check_blocked i). same_input. Qed.

(** ** A turn is made of steps *)

(** Everything [m] does is made of steps of the input stream of [i]. *)
Definition by_steps {A} (i : nat) (m : DP A) : Prop := ∀ g c a g', g_ctl g !! i = Some c → m g = Done (a, g') →
  ∃ bytes did c', in_steps i g bytes did g' ∧ g_ctl g' !! i = Some c'.

Lemma in_steps_one i g bytes did g' : in_step i g bytes did g' → in_steps i g bytes did g'.
Proof. intros Hs. apply (in_steps_step i g [] [] g bytes did g'); [constructor|done]. Qed.

Lemma in_steps_trans i g1 b1 r1 g2 b2 r2 g3 : in_steps i g1 b1 r1 g2 → in_steps i g2 b2 r2 g3 →
  in_steps i g1 (b1 ++ b2) (r1 ++ r2) g3.
Proof.
  intros Hs1 Hs2. induction Hs2 as [|g2 b r g b' r' g' _ IH Hs]; [by rewrite !app_nil_r|].
  rewrite !app_assoc. by eapply in_steps_step; [apply IH|].
Qed.

Lemma by_steps_ret {A} i (a : A) : by_steps i (mret a).
Proof. intros g c b g' Hi [= _ <-]. exists [], [], c. split; [constructor|done]. Qed.

Lemma by_steps_bind {A B} i (m : DP A) (f : A → DP B) : by_steps i m → (∀ a, by_steps i (f a)) → by_steps i (m ≫= f).
Proof.
  intros Hm Hf g c b g' Hi E. unfold mbind, M_bind in E. destruct (m g) as [[a g1]| | | |] eqn:E1; try done.
  destruct (Hm g c a g1 Hi E1) as (b1 & d1 & c1 & Hs1 & Hi1).
  destruct (Hf a g1 c1 b g' Hi1 E) as (b2 & d2 & c2 & Hs2 & Hi2).
  exists (b1 ++ b2), (d1 ++ d2), c2. split; [by eapply in_steps_trans|done].
Qed.

Lemma by_steps_when i b m : by_steps i m → by_steps i (when b m).
Proof. destruct b; [done|intros _; apply by_steps_ret]. Qed.

Lemma by_steps_closing i {A} (m : DP A) : preserves (same_input (closing i)) m → by_steps i m.
Proof.
  intros Hm g c a g' Hi E. destruct (Hm g a g' E) as [_ Hc]. destruct (Hc i c Hi) as (c' & Hi' & Ein & Sc).
  exists [], [], c'. split; [|done]. apply in_steps_one. apply (step_other i g c g' c' Hi Hi' Ein).
  destruct Sc as [|[_ Sc]]; [by left|by right].
Qed.

Lemma by_steps_elsewhere i {A} (m : DP A) : preserves (elsewhere i) m → by_steps i m.
Proof.
  intros Hm g c a g' Hi E. destruct (Hm g a g' E c Hi) as (c' & Hi' & Hc). exists [], [], c'. split; [|done].
  apply calm_nobody in Hc as [Ein Sc]. apply in_steps_one, (step_other i g c g' c' Hi Hi' Ein). by left.
Qed.

(** No computation here removes a controller from the table. *)
Definition slots (g g' : G) : Prop := length (g_ctl g') = length (g_ctl g).

#[local] Instance slots_preorder : PreOrder slots.
Proof. split; unfold slots; [done|]. intros g1 g2 g3. congruence. Qed.

Lemma slots_same k {A} (m : DP A) : preserves (same_input k) m → preserves slots m.
Proof. intros Hm g a g' E. apply (Hm g a g' E). Qed.

Lemma slots_upd i f : preserves slots (upd_ctl i f).
Proof. intros g a g'. unfold upd_ctl. destruct (_ !! _); [|done]. intros [= _ <-]. apply length_insert. Qed.

Ltac slots :=
  repeat first [ preserves_step | apply slots_upd | solve [apply (slots_same (nobody 0)); same_input] ].

Lemma slots_read i : preserves slots (ctl_read_more i).
Proof.
  unfold ctl_read_more. slots.
Qed.

Lemma slots_state i s : preserves slots (ctl_state s i).
Proof.
  destruct s; cbn [ctl_state].
  - unfold next_command, ctl_next_at_eof, ctl_got_line. slots.
  - pose proof (slots_same _ _ (same_input_dispatch i)). unfold run_command. slots. done.
  - unfold end_command. slots.
  - apply (slots_same _ _ (same_input_close i)).
  - apply (slots_same _ _ (same_input_free i)).
  - apply (slots_same _ _ (same_input_dump_fds i)).
  - apply (slots_same _ _ (same_input_dump_services i)).
  - apply (slots_same _ _ (same_input_dump_signals i)).
Qed.

Lemma slots_lookup g g' i c : slots g g' → g_ctl g !! i = Some c → ∃ c', g_ctl g' !! i = Some c'.
Proof. intros Hs Hi. apply lookup_lt_is_Some. unfold slots in Hs. rewrite Hs. by eapply lookup_lt_Some. Qed.

Lemma by_steps_read i : by_steps i (ctl_read_more i).
Proof.
  intros g c b g' Hi E. destruct (slots_lookup g g' i c (slots_read i g b g' E) Hi) as [c' Hi'].
  eexists _, [], c'. split; [|done]. apply in_steps_one. by eapply step_read.
Qed.

Lemma by_steps_steps i n : by_steps i (ctl_steps n i).
Proof.
  induction n as [|n IH]; cbn [ctl_steps]; [apply by_steps_ret|].
  intros g c b g' Hi E. unfold mbind, M_bind, get_ctl in E. rewrite Hi in E.
  destruct (state_fn c) as [s|] eqn:Hs; [|done]. destruct (ctl_state s i g) as [[more g1]| | | |] eqn:E1; try done.
  destruct (slots_lookup g g1 i c (slots_state i s g more g1 E1) Hi) as [c1 Hi1].
  assert (Hrest : by_steps i (if more then ctl_steps n i else mret false)) by (destruct more; [apply IH|apply by_steps_ret]).
  destruct (Hrest g1 c1 b g' Hi1 E) as (b2 & d2 & c2 & Hs2 & Hi2).
  eexists _, _, c2. split; [|done]. eapply in_steps_trans; [|apply Hs2]. apply in_steps_one. by eapply step_state.
Qed.

Lemma by_steps_run_one i : by_steps i (ctl_run_one i).
Proof.
  unfold ctl_run_one. apply by_steps_bind; [apply by_steps_closing; same_input|intros c].
  destruct (state_fn c) as [s|]; [|apply by_steps_ret].
  apply by_steps_bind; [|intros _; apply by_steps_bind; [|intros _; apply by_steps_bind; [|intros more]]].
  - unfold ctl_try_read. apply by_steps_bind; [apply by_steps_closing; same_input|intros c1]. destruct (recv_fd c1 >=? 0); [|apply by_steps_ret].
    apply by_steps_bind; [apply by_steps_closing; same_input|intros r]. apply by_steps_when.
    apply by_steps_bind; [apply by_steps_read|intros _; apply by_steps_ret].
  - apply by_steps_closing. same_input.
  - apply by_steps_steps.
  - apply by_steps_closing. same_input.
Qed.

Lemma by_steps_all i f n j : (∀ j, by_steps i (f j)) → by_steps i (ctl_for_all f n j).
Proof. intros Hf. revert j; induction n as [|n IH]; intros j; cbn [ctl_for_all]; [apply by_steps_ret|]. by apply by_steps_bind. Qed.

(** One call of [ctl_run] consists, for each controller, of steps of its input
    stream: what is proved of the steps holds of the program's turns. *)
Theorem ctl_run_by_steps i g c g' : g_ctl g !! i = Some c → ctl_run g = Done (tt, g') →
  ∃ bytes did, in_steps i g bytes did g'.
Proof.
  intros Hi E. assert (Hrun : by_steps i ctl_run).
  { unfold ctl_run. apply by_steps_bind; [|intros _]; apply by_steps_all; intros j;
      (destruct (decide (j = i)) as [->|Hj]; [|apply by_steps_elsewhere]).
    - apply by_steps_run_one.
    - by apply elsewhere_run_one.
    - apply by_steps_closing, same_input_run_two.
    - apply (elsewhere_same (closing j)); [done|apply same_input_run_two]. }
  destruct (Hrun g c tt g' Hi E) as (bytes & did & _ & Hs & _). eauto.
Qed.
End turn.

(** ** A stream *)

Section example.
(** A system in which descriptor 5 has two lines and a part of a third to read. *)
#[local] Instance stream_os : OS := {|
  os tr c := match c with
             | CRead _ n => if existsb (λ e, match e.1 with CRead _ _ => true | _ => false end) tr then mkRet (-1) EAGAIN [] []
                            else mkRet (Z.min n 7) 0 (str "# x" ++ [LF; LF] ++ str "ec") []
             | CWrite _ data => mkRet (Z.of_nat (length data)) 0 [] []
             | _ => mkRet 0 0 [] []
             end;
  strerror := @strerror ideal_os;
  alloca_cap := @alloca_cap ideal_os;
  sig_list := @sig_list ideal_os;
|}.
#[local] Instance no_inet : Inet := λ _, None.

#[local] Instance stream_read_ok : ReadOk.
Proof. split; intros h fd n Hn; cbn; [case_match|]; cbn; lia. Qed.

Definition stream_ctl : controller_t := set_state_fn (Some ctl_state_next_command) (set_send_fd (-1) (set_recv_fd 5 controller_0)).
Definition stream_0 : G :=
  on_wake (set_wake_fd_ready_read {[5]}) (set_g_ctl (stream_ctl :: replicate 9 controller_0) G_0).

(** The state after [m]. *)
Definition then_state (m : DP bool) (g : G) : G := match m g with Done (_, g') => g' | _ => g end.
Definition stream_1 : G := then_state (ctl_read_more 0) stream_0.
Definition stream_2 : G := then_state (next_command 0) stream_1.
Definition stream_3 : G := then_state (run_command 0) stream_2.
Definition stream_4 : G := then_state (end_command 0) stream_3.
Definition stream_5 : G := then_state (next_command 0) stream_4.
Definition stream_6 : G := then_state (run_command 0) stream_5.
Definition stream_7 : G := then_state (end_command 0) stream_6.
Definition ctl_of (g : G) : controller_t := match g_ctl g with c :: _ => c | [] => controller_0 end.

Lemma stream_step g2 s g1 bytes did did' did2 g3 : in_steps 0 g1 bytes did g2 →
  g_ctl g2 !! 0%nat = Some (ctl_of g2) → state_fn (ctl_of g2) = Some s → ctl_state s 0 g2 = Done (true, g3) →
  did2 = (if bool_decide (s = ctl_state_run_command) then [current (ctl_of g2)] else []) → did' = did ++ did2 →
  in_steps 0 g1 bytes did' g3.
Proof.
  intros Hs Hi Hst E -> ->. rewrite <-(app_nil_r bytes). eapply in_steps_step; [done|].
  pose proof (step_state 0 g2 (ctl_of g2) s true g3 Hi Hst E) as Hone. by rewrite andb_true_r in Hone.
Qed.

Lemma commands_framed_witness :
  [Run (str "# x"); Run []] = commands_in (str "# x" ++ [LF; LF] ++ str "ec").
Proof.
  apply (commands_framed 0 stream_0 stream_ctl (str "# x" ++ [LF; LF] ++ str "ec") [Run (str "# x"); Run []] stream_7 (ctl_of stream_7)).
  - reflexivity.
  - split_and!; reflexivity.
  - eapply (stream_step stream_6 ctl_state_end_command _ _ [Run (str "# x"); Run []]); [|vm_compute; reflexivity..].
    eapply (stream_step stream_5 ctl_state_run_command _ _ [Run (str "# x")]); [|vm_compute; reflexivity..].
    eapply (stream_step stream_4 ctl_state_next_command _ _ [Run (str "# x")]); [|vm_compute; reflexivity..].
    eapply (stream_step stream_3 ctl_state_end_command _ _ [Run (str "# x")]); [|vm_compute; reflexivity..].
    eapply (stream_step stream_2 ctl_state_run_command _ _ []); [|vm_compute; reflexivity..].
    eapply (stream_step stream_1 ctl_state_next_command _ _ []); [|vm_compute; reflexivity..].
    apply in_steps_one, (step_read 0 stream_0 stream_ctl true stream_1 (ctl_of stream_1)); vm_compute; reflexivity.
  - vm_compute. reflexivity.
  - vm_compute. reflexivity.
  - apply (bool_decide_unpack _). vm_compute. exact I.
Defined.

Definition stream_end : G := match ctl_run stream_0 with Done (_, g') => g' | _ => stream_0 end.

Lemma ctl_run_by_steps_witness : ∃ bytes did, in_steps 0 stream_0 bytes did stream_end.
Proof.
  apply (ctl_run_by_steps 0 stream_0 stream_ctl stream_end); [reflexivity|]. vm_compute. reflexivity.
Defined.
End example.
