(* ===== verification/SoundCtl.v ===== *)
(** * The states of a controller keep the daemon sound

    Every state function of controller.c returns, without a fault, and leaves the
    daemon sound, whatever the system answers: the commands on every line that is not
    one of those known to fail, and the other states on anything. *)

From S2P Require Import Prelude Strseg State RBTree RBTreeRep OrdIndex RBTreeIndex Table Log Signal SignalSpec CtlOut CtlOutSpec SvcVars Fd FdSpec FdThms CtlObj Service Dll ServiceSpec SvcRun SvcActive SvcNew SvcThms Walk SvcLists Sound SoundSvc CtlArg CtlSock Fatal Options CtlCmd CtlObjCmd SoundFd SoundArg SoundSock SoundCmd SoundObjCmd SoundSvcCmd CtlIn CtlTable Preserves Frame CtlFrame CtlFraming.

(** ** The commands that are covered *)

(** A pipe whose two ends have one name, a socket whose directories are to be made
    without an address, and a negative count of signals seen are the three arguments
    on which the program goes wrong. *)
Definition tame (cmd : ctl_cmd_t) (args : list (list Z)) : Prop :=
  match cmd with
  | Cmd_fd_pipe => ends_differ args
  | Cmd_fd_socket => mkdir_has_address args
  | Cmd_signal_clear => count_ok args
  | _ => True
  end.

Definition tame_line (line : list Z) : Prop :=
  match split_on TAB line with
  | name :: args => ∀ cmd, find_command ctl_commands name = Some cmd → tame cmd args
  | [] => True
  end.

Lemma returns_and {A} (R : G → G → Prop) (m : DP A) g Q : returns m g Q → preserves R m → returns m g (λ a g', Q a g' ∧ R g g').
Proof. intros (a & g' & E & HQ) HR. exists a, g'. split; [done|]. split; [done|by eapply HR]. Qed.

Section ctl.
Context `{OS} `{!WriteOk} `{!SocketOk} `{Inet} `{CmdTableOk}.

Lemma command_safe cmd i n fs g : at_cmd i n fs g → tame cmd fs → finishes n (ctl_cmd_fn cmd i) g.
Proof.
  destruct cmd; cbn [ctl_cmd_fn tame]; intros Hg Ht.
  - by eapply echo_safe.
  - by eapply statedump_safe.
  - by eapply svc_tags_safe.
  - by eapply svc_args_safe.
  - by eapply svc_fds_safe.
  - by eapply svc_auto_up_safe.
  - by eapply svc_start_safe.
  - by eapply svc_signal_safe.
  - by eapply svc_delete_safe.
  - by eapply socket_create_safe.
  - by eapply socket_delete_safe.
  - by eapply fd_pipe_safe.
  - by eapply fd_open_safe.
  - by eapply fd_socket_safe.
  - by eapply fd_delete_safe.
  - by eapply fd_take_safe.
  - by eapply chdir_safe.
  - by eapply exit_safe.
  - by eapply log_filter_safe.
  - by eapply log_dest_safe.
  - by eapply event_timeout_safe.
  - by eapply signal_clear_safe.
  - by eapply exec_args_safe.
  - by eapply terminate_guard_safe.
  - by eapply terminate_safe.
Qed.

(** ** Output and updates *)

(** The daemon stays sound, and no controller goes away. *)
Definition still (g g' : G) : Prop := sound g' ∧ length (g_ctl g') = length (g_ctl g).

Lemma still_trans g1 g2 g3 : still g1 g2 → still g2 g3 → still g1 g3.
Proof. intros [_ L1] [? L2]. split; [done|congruence]. Qed.

Lemma kept_still g g' : sound g' → kept g g' → still g g'.
Proof. intros ? K. split; [done|apply K]. Qed.

Lemma still_upd i f g c : sound g → g_ctl g !! i = Some c → send_buf (f c) = send_buf c →
  0 ≤ last_signal_ts (f c) < 2 ^ 62 →
  returns (upd_ctl i f) g (λ _ g', still g g' ∧ g_ctl g' !! i = Some (f c) ∧ g' = set_g_ctl (<[i := f c]> (g_ctl g)) g).
Proof.
  intros Hg Hi E Ht. eexists tt, _. split; [by apply upd_ctl_eq|]. split_and!; [|cbn; by rewrite list_lookup_insert_eq by (by eapply lookup_lt_Some)|done].
  split; [|cbn; apply length_insert]. eapply sound_set_ctl; [done..| |done].
  pose proof (proj2 (sound_ctls _ Hg) i c Hi) as Ho. unfold out_ok in *. by rewrite E.
Qed.

Lemma out_step_io i g g' c c' tr more : g_ctl g !! i = Some c → out_step i g g' c c' tr more → io_frame g g'.
Proof.
  intros Hi [F Hi' Htr _ Hrest _ _]. pose proof (of_other _ _ _ F) as Ho. destruct F. split; try done.
  - intros j cj Hj. destruct (decide (j = i)) as [->|Hne]; [rewrite Hi in Hj; injection Hj as <-; by exists c'|].
    exists cj. rewrite Ho by done. split; [done|apply same_rest_refl].
  - by exists tr.
Qed.

Lemma sound_flush i g c : sound g → g_ctl g !! i = Some c → returns (ctl_flush_outbuf i) g (λ _ g', sound g' ∧ kept g g' ∧ io_frame g g').
Proof.
  intros Hg Hi. destruct (sound_ctls _ Hg) as [Hl Ho]. destruct (ctl_flush_spec i g c Hi Hl (Ho i c Hi)) as (b & g' & c' & tr & E & Hs & _).
  exists b, g'. split; [done|]. pose proof (out_step_io _ _ _ _ _ _ _ Hi Hs) as F.
  destruct (sound_io g g' Hg F) as [? ?]; [|done]. destruct Hs as [Fo Hi' _ Hl' _ Ho' _]. split; [done|].
  intros j cj Hj. destruct (decide (j = i)) as [->|Hne]; [rewrite Hi' in Hj; by injection Hj as <-|].
  rewrite (of_other _ _ _ Fo) in Hj by done. by eapply Ho.
Qed.

Lemma sound_ready i g c : sound g → g_ctl g !! i = Some c → returns (ctl_out_buf_ready i) g (λ _ g', sound g' ∧ kept g g' ∧ io_frame g g').
Proof.
  intros Hg Hi. eapply returns_done; [by apply get_ctl_eq|]. case_match; [by apply returns_ret|]. case_match; [by apply returns_ret|].
  by eapply sound_flush.
Qed.

(** ** Running a line *)

(** A line with its terminator in the input buffer. *)
Definition has_line (i : nat) (text rest : list Z) (g : G) : Prop := ∃ c, g_ctl g !! i = Some c ∧ line_in c text rest.

Lemma has_line_same k i text rest g g' : has_line i text rest g → same_input k g g' → has_line i text rest g'.
Proof.
  intros (c & Hi & Hb & Hl) [_ Hs]. destruct (Hs i c Hi) as (c' & Hi' & E & _). exists c'. split; [done|].
  injection E as E1 _ E3 _. split; congruence.
Qed.

Lemma line_seg_wf text rest n : 0 ≤ n ≤ Z.of_nat (length text) + 1 → seg_wf (Seg (text ++ NUL :: rest) 0 n).
Proof. intros Hn. unfold seg_wf. cbn. rewrite length_app. cbn. lia. Qed.

Lemma whitespace_ok s : seg_wf s → ∃ b, entirely_whitespace s = Done b.
Proof.
  intros Hw. unfold entirely_whitespace.
  assert (Hl : ∀ n k, 0 ≤ k → k + Z.of_nat n ≤ seg_len s → ∃ b, entirely_whitespace_loop n s k = Done b).
  { induction n as [|n IH]; intros k Hk Hn; cbn [entirely_whitespace_loop]; [by eexists|].
    destruct (seg_at_ok s k Hw) as (c & ->); [lia|]. cbn [mbind outcome_bind]. destruct (white c); [apply IH; lia|by eexists]. }
  apply Hl; unfold seg_wf in Hw; lia.
Qed.

Lemma first_char_ok c text rest : line_in c text rest → ∃ x, slot (recv_buf c) 0 = Done x.
Proof. intros [-> _]. destruct text; by eexists. Qed.

Lemma log_error_still msg g : sound g → returns (log_error msg) g (λ _ g', still g g').
Proof. intros Hg. eapply returns_mono; [by apply keeps_log|]. intros ? ? (? & ? & _). by apply kept_still. Qed.

Lemma error_still i msg g : sound g → (i < length (g_ctl g))%nat →
  returns (ctl_notify_error (Some i) msg) g (λ _ g', still g g').
Proof.
  intros Hg Hi. eapply returns_mono; [apply sound_write; [done|apply tab_join_lines|by intros ? [= <-]]|].
  intros ? ? (? & ? & _). by apply kept_still.
Qed.

Lemma still_step {A B} (m : DP A) (f : A → DP B) g0 g : still g0 g → returns m g (λ _ g', still g g') →
  (∀ a g', still g0 g' → returns (f a) g' (λ _ g2, still g0 g2)) → returns (m ≫= f) g (λ _ g2, still g0 g2).
Proof. intros Hg Hm Hf. eapply returns_seq; [exact Hm|]. intros a g' Hs. apply Hf. by eapply still_trans. Qed.

Lemma still_end {A} (m : DP A) g0 g : still g0 g → returns m g (λ _ g', still g g') → returns m g (λ _ g', still g0 g').
Proof. intros Hg Hm. eapply returns_mono; [exact Hm|]. intros a g' Hs. by eapply still_trans. Qed.

Lemma report_still i text rest g : sound g → has_line i text rest g → returns (report_failure i) g (λ _ g', still g g').
Proof.
  intros Hg (c & Hi & Hb & Hl). eapply returns_done; [by apply get_ctl_eq|].
  assert (Hst : ∀ n, 0 ≤ n → ∃ l, line_start n c = Done l).
  { intros n Hn. unfold line_start. rewrite Hb. destruct (seg_fmt_ok (Seg (text ++ NUL :: rest) 0 (if line_len c >? n then n else line_len c))) as (l & ->).
    - apply line_seg_wf. destruct (Z.gtb_spec (line_len c) n); lia.
    - by exists l. }
  destruct (Hst 30) as (l30 & E30); [lia|]. destruct (Hst 90) as (l90 & E90); [lia|].
  eapply step_lift; [exact E30|]. eapply step_lift; [exact E90|].
  pose proof (lookup_lt_Some _ _ _ Hi) as Hlt.
  eapply (still_step _ _ g); [by split|by apply error_still|]. intros ? g1 Hs1.
  eapply (still_step _ _ g); [done|apply log_error_still, Hs1|]. intros ? g2 Hs2.
  apply (still_end _ g); [done|]. apply log_error_still, Hs2.
Qed.

Lemma not_command_still i text rest g c : sound g → g_ctl g !! i = Some c → line_in c text rest → seg_wf (command_name c) →
  returns (not_a_command i) g (λ _ g', still g g').
Proof.
  intros Hg Hi Hline Hn. eapply returns_done; [by apply get_ctl_eq|]. destruct (first_char_ok c text rest Hline) as (x & Ex).
  destruct Hline as [Hb Hl]. eapply step_lift; [exact Ex|].
  destruct (whitespace_ok (Seg (recv_buf c) 0 (line_len c - 1))) as (b & Eb); [rewrite Hb; apply line_seg_wf; lia|].
  eapply step_lift; [exact Eb|]. destruct (_ || _); [by apply returns_ret|].
  destruct (seg_fmt_ok _ Hn) as (l & El). eapply step_lift; [exact El|].
  pose proof (lookup_lt_Some _ _ _ Hi) as Hlt.
  eapply (still_step _ _ g); [by split|by apply error_still|]. intros ? g1 Hs1. apply (still_end _ g); [done|]. apply log_error_still, Hs1.
Qed.
Lemma line_cmd_seg text rest : NUL ∉ text → let s := Seg (text ++ NUL :: rest) 0 (Z.of_nat (length text)) in
  cmd_seg s ∧ fields s = split_on TAB text.
Proof.
  intros Hn. cbv zeta.
  assert (Hv : seg_view (Seg (text ++ NUL :: rest) 0 (Z.of_nat (length text))) = text).
  { unfold seg_view. cbn. by rewrite Nat2Z.id, drop_0, take_app_length. }
  split.
  - split; cbn; [lia..|by rewrite Hv|].
    replace (Z.to_nat _) with (length text) by lia. by rewrite list_lookup_middle.
  - unfold fields. rewrite (proj2 (Z.ltb_ge _ _)) by (cbn; lia). by rewrite Hv.
Qed.

(** The command on the line, from its name on. *)
Lemma dispatch_still i text rest g : sound g → has_line i text rest g → NUL ∉ text → tame_line text →
  returns (dispatch i) g (λ _ g', still g g').
Proof.
  intros Hg (c & Hi & Hb & Hl) Hn Ht. eapply returns_done; [by apply get_ctl_eq|].
  destruct (line_cmd_seg text rest Hn) as [Hseg Hf].
  eapply returns_seq; [apply (still_upd i _ g c Hg Hi); [done|exact (sd_seen _ Hg _ _ Hi)]|]. intros _ g1 (Hs1 & Hi1 & _).
  eapply returns_seq; [apply (still_upd i _ g1 _ (proj1 Hs1) Hi1); [done|exact (sd_seen _ (proj1 Hs1) _ _ Hi1)]|]. intros _ g2 (Hs2 & Hi2 & _).
  assert (Hat : at_cmd i (length (g_ctl g)) (split_on TAB text) g2).
  { split; [apply Hs2|by rewrite (proj2 Hs2), (proj2 Hs1)|]. eexists. split; [exact Hi2|]. cbn.
    rewrite Hb, Hl. replace (Z.of_nat (length text) + 1 - 1) with (Z.of_nat (length text)) by lia. done. }
  destruct (split_on TAB text) as [|name args] eqn:Es; [by destruct (split_on_ne TAB text)|].
  assert (Hline2 : has_line i text rest g2) by (eexists; split; [exact Hi2|by split]).
  eapply returns_seq; [apply (returns_and (same_input (nobody i)) _ _ _ (step_tok i _ _ g2 Hat)); same_input|].
  intros arg g3 ((Harg & [Hat3 _]) & Hin3). cbn in Harg. destruct Harg as (nseg & -> & Hna & Hnv & _).
  pose proof (has_line_same _ _ _ _ _ _ Hline2 Hin3) as (c3 & Hi3 & Hline3). pose proof Hat3 as [Hg3 Hn3 _].
  eapply returns_seq; [apply (still_upd i (set_command_name nseg) g3 c3 Hg3 Hi3); [done|exact (sd_seen _ Hg3 _ _ Hi3)]|]. intros _ g4 (Hs4 & Hi4 & E4).
  assert (Hat4 : at_cmd i (length (g_ctl g)) args g4).
  { destruct Hat3 as [_ _ (c3' & Hi3' & Hc3)]. rewrite Hi3 in Hi3'. injection Hi3' as <-.
    split; [apply Hs4|by rewrite (proj2 Hs4)|]. by exists (set_command_name nseg c3). }
  eapply returns_done; [by apply get_ctl_eq|]. pose proof (ao_wf _ Hna) as Hnw.
  assert (Hl0 : still g g4).
  { split; [apply Hs4|]. by rewrite (ac_len _ _ _ _ Hat4). }
  eapply step_lift; [cbn [command_name set_command_name]; by apply ctl_find_command_exact|]. rewrite Hnv.
  destruct (find_command ctl_commands name) as [cmd|] eqn:Ecmd.
  - assert (Htame : tame cmd args) by (unfold tame_line in Ht; rewrite Es in Ht; by apply Ht).
    eapply returns_seq; [apply (returns_and (same_input (by_command i)) _ _ _ (command_safe cmd i _ args g4 Hat4 Htame)), same_input_command|].
    intros ok g5 ((Hg5 & Hn5) & Hin5).
    assert (Hs5 : still g g5) by by split.
    destruct ok; cbn [negb when]; [by apply returns_ret|]. apply (still_end _ g); [done|]. apply (report_still i text rest); [done|].
    eapply has_line_same; [|exact Hin5]. exists (set_command_name nseg c3). by split.
  - apply (still_end _ g); [done|]. by apply (not_command_still i text rest g4 (set_command_name nseg c3)); [apply Hs4| |..].
Qed.

(** A line is carried out to the end. *)
Lemma run_command_still i text rest g c : sound g → g_ctl g !! i = Some c → line_in c text rest →
  (recv_overflow c = false → NUL ∉ text ∧ tame_line text) →
  returns (run_command i) g (λ _ g', still g g').
Proof.
  intros Hg Hi Hline Hok. unfold run_command.
  eapply returns_seq; [apply (returns_and (same_input (nobody i)) _ _ _ (sound_ready i g c Hg Hi)); same_input|].
  intros ready g1 ((Hg1 & K1 & _) & Hin1). assert (Hs1 : still g g1) by by apply kept_still.
  destruct ready; cbn [negb]; [|by apply returns_ret].
  destruct (proj2 Hin1 i c Hi) as (c1 & Hi1 & Ein & _).
  assert (Hline1 : line_in c1 text rest) by (injection Ein as E1 _ E3 _; destruct Hline; split; congruence).
  assert (Hov : recv_overflow c1 = recv_overflow c) by by injection Ein.
  eapply returns_seq; [apply (still_upd i _ g1 c1 Hg1 Hi1); [done|exact (sd_seen _ Hg1 _ _ Hi1)]|]. intros _ g2 (Hs2 & Hi2 & _).
  assert (Hs : still g g2) by by eapply still_trans.
  eapply returns_done; [by apply get_ctl_eq|]. cbn [recv_overflow set_state_fn].
  eapply (still_step _ _ g); [done| |intros b g3 Hs3; by apply returns_ret].
  rewrite Hov. destruct (recv_overflow c).
  - destruct (first_char_ok c1 text rest Hline1) as (x & Ex).
    eapply returns_seq; [apply (still_upd i _ g2 _ (proj1 Hs2) Hi2); [done|exact (sd_seen _ (proj1 Hs2) _ _ Hi2)]|]. intros _ g3 (Hs3 & Hi3 & _).
    eapply step_lift; [exact Ex|]. destruct (negb _); cbn [when]; [|by apply returns_ret].
    eapply (still_step _ _ g2); [done|apply error_still; [apply Hs3|by eapply lookup_lt_Some]|]. intros ? g4 Hs4.
    apply (still_end _ g2); [done|]. apply log_error_still, Hs4.
  - destruct (Hok eq_refl) as [Hn Ht]. apply (dispatch_still i text rest); [apply Hs2| |done|done].
    eexists. split; [exact Hi2|]. by destruct Hline1.
Qed.
(** ** Reporting signals *)

(** The controller [i] is still there with the input it had. *)
Definition with_input (i : nat) (c : controller_t) (g : G) : Prop :=
  ∃ c', g_ctl g !! i = Some c' ∧ recv_fd c' = recv_fd c ∧ recv_buf c' = recv_buf c.

Lemma deliver_still fuel i g c : sound g → g_ctl g !! i = Some c →
  (to_report (last_signal_ts c) (signals (g_sig g)) < fuel)%nat →
  returns (ctl_deliver_loop fuel i) g (λ _ g', still g g' ∧ with_input i c g').
Proof.
  revert g c. induction fuel as [|fuel IH]; intros g c Hg Hi Hf; [lia|]. cbn [ctl_deliver_loop].
  eapply returns_done; [by apply get_ctl_eq|]. pose proof (sd_seen _ Hg i c Hi) as Hts. destruct (sd_sig _ Hg) as [Hinv Hok Hd].
  destruct (sig_get_new_events_spec (last_signal_ts c) g Hts Hok) as [[E _]|(e & E & He & Hel & Hmin)]; (eapply returns_done; [exact E|]).
  { apply returns_ret. split; [done|by exists c]. }
  eapply returns_seq; [by apply (sound_ready i g c)|]. intros ready g1 (Hg1 & K1 & F1).
  destruct (io_ctl _ _ F1 i c Hi) as (c1 & Hi1 & R1).
  destruct ready; cbn [negb]; [|apply returns_ret; split; [by apply kept_still|exists c1; split_and!; [done|by rewrite (proj1 R1)|by rewrite (proj1 R1)]]].
  eapply returns_seq; [apply sound_write; [done|apply tab_join_lines|intros ? [= <-]; by eapply lookup_lt_Some]|].
  intros b g2 (Hg2 & K2 & F2). destruct (io_ctl _ _ F2 i c1 Hi1) as (c2 & Hi2 & R2).
  assert (Ht : 0 < last_received_ts e < 2 ^ 62) by (rewrite Forall_forall in Hok; apply Hok; [done|apply Hel]).
  eapply returns_seq; [apply (still_upd i _ g2 c2 Hg2 Hi2); [done|cbn; lia]|]. intros _ g3 (Hs3 & Hi3 & E3).
  eapply returns_mono; [apply (IH g3 _ (proj1 Hs3) Hi3)|].
  - rewrite E3. cbn. rewrite (io_sig _ _ F2), (io_sig _ _ F1).
    pose proof (to_report_lt (last_signal_ts c) e (signals (g_sig g)) He Hel (proj1 Ht) Hmin). lia.
  - intros ? g4 (Hs4 & (c4 & Hi4 & E4 & B4)). split.
    + apply (still_trans g g2); [split; [done|by rewrite (kp_len _ _ K2), (kp_len _ _ K1)]|]. by eapply still_trans.
    + exists c4. split; [done|]. rewrite E4, B4. cbn. by rewrite (proj1 R2), (proj1 R1).
Qed.

Lemma to_report_le since a : sig_inv a → (to_report since a ≤ 16)%nat.
Proof. intros Ha. unfold to_report. rewrite <-(sig_inv_slots a Ha). apply length_filter. Qed.

Lemma deliver_signals_still i g c : sound g → g_ctl g !! i = Some c →
  returns (ctl_deliver_signals i) g (λ _ g', still g g' ∧ with_input i c g').
Proof.
  intros Hg Hi. apply deliver_still; [done..|]. pose proof (to_report_le (last_signal_ts c) _ (sg_inv _ (sd_sig _ Hg))).
  unfold sig_events_fuel. lia.
Qed.

(** ** The next line *)

Lemma log_debug_still msg g : sound g → returns (log_debug msg) g (λ _ g', still g g').
Proof. intros Hg. eapply returns_mono; [by apply keeps_log|]. intros ? ? (? & ? & _). by apply kept_still. Qed.

(** An update of the controller that leaves its output alone, and what follows. *)
Lemma still_upd_step {B} i f (k : unit → DP B) g0 g c : still g0 g → g_ctl g !! i = Some c → send_buf (f c) = send_buf c →
  last_signal_ts (f c) = last_signal_ts c →
  (∀ g', still g0 g' → g_ctl g' !! i = Some (f c) → returns (k tt) g' (λ _ g2, still g0 g2)) →
  returns (upd_ctl i f ≫= k) g (λ _ g2, still g0 g2).
Proof.
  intros Hs Hi E1 E2 Hk. eapply returns_seq; [apply (still_upd i f g c); [apply Hs|done|done|rewrite E2; exact (sd_seen _ (proj1 Hs) _ _ Hi)]|].
  intros [] g1 (Hs1 & Hi1 & _). apply Hk; [by eapply still_trans|done].
Qed.

Lemma got_line_still i eol g0 g c : still g0 g → g_ctl g !! i = Some c → returns (ctl_got_line i eol) g (λ _ g', still g0 g').
Proof.
  intros Hs Hi. unfold ctl_got_line.
  eapply still_upd_step; [done..|]. intros g1 Hs1 Hi1. eapply still_upd_step; [done..|]. intros g2 Hs2 Hi2.
  eapply returns_done; [by apply get_ctl_eq|]. eapply (still_step _ _ g0); [done|apply log_debug_still, Hs2|]. intros ? g3 Hs3.
  destruct (lookup_lt_is_Some_2 (g_ctl g3) i) as [c3 Hi3]; [rewrite (proj2 Hs3), <-(proj2 Hs2); by eapply lookup_lt_Some|].
  eapply still_upd_step; [done..|]. intros g4 Hs4 _. by apply returns_ret.
Qed.

(** The part that needs no more than that the controller is there. *)
Lemma warn_still {B} msg (k : unit → DP B) i g0 g : still g0 g → (i < length (g_ctl g))%nat →
  (∀ g' c', still g0 g' → g_ctl g' !! i = Some c' → returns (k tt) g' (λ _ g2, still g0 g2)) →
  returns (log_warn msg ≫= k) g (λ _ g2, still g0 g2).
Proof.
  intros Hs Hi Hk. eapply returns_seq; [by apply keeps_log, Hs|]. intros [] g1 (Hg1 & K1 & _).
  destruct (lookup_lt_is_Some_2 (g_ctl g1) i) as [c1 Hi1]; [by rewrite (kp_len _ _ K1)|].
  apply (Hk g1 c1); [|done]. eapply still_trans; [exact Hs|by apply kept_still].
Qed.
Lemma at_eof_still i eol g0 g c : still g0 g → g_ctl g !! i = Some c → Z.of_nat (length (recv_buf c)) < CONTROLLER_RECV_BUF_SIZE →
  returns (ctl_next_at_eof i eol) g (λ _ g', still g0 g').
Proof.
  intros Hs Hi Hl. unfold ctl_next_at_eof. eapply returns_done; [by apply get_ctl_eq|]. cbv zeta.
  destruct (_ =? 0)%nat.
  { eapply still_upd_step; [done..|]. intros g1 Hs1 _. by apply returns_ret. }
  eapply (returns_seq _ _ _ (λ _ g', still g0 g' ∧ ∃ c', g_ctl g' !! i = Some c')).
  - destruct (_ && _); [|apply returns_ret; by eauto].
    eapply returns_seq; [apply keeps_log, Hs|]. intros _ g1 (Hg1 & K1 & _). rewrite (proj2 (Z.ltb_lt _ _)) by done.
    eapply returns_done; [reflexivity|]. destruct (kp_cmd _ _ K1 i c Hi) as (c1 & Hi1 & _).
    eapply returns_seq; [apply (still_upd i _ g1 c1 Hg1 Hi1); [done|exact (sd_seen _ Hg1 _ _ Hi1)]|]. intros _ g2 (Hs2 & Hi2 & _).
    apply returns_ret. split; [|by eauto]. eapply still_trans; [exact Hs|]. eapply still_trans; [by apply kept_still|done].
  - intros eol' g1 (Hs1 & c1 & Hi1). destruct eol' as [k|]; [by eapply got_line_still|].
    eapply (warn_still _ _ i); [done|by eapply lookup_lt_Some|]. intros g2 c2 Hs2 Hi2.
    eapply still_upd_step; [done..|]. intros g3 Hs3 Hi3. eapply still_upd_step; [done..|]. intros g4 Hs4 _. by apply returns_ret.
Qed.

Lemma next_command_still i g c : sound g → g_ctl g !! i = Some c →
  (recv_fd c < 0 → Z.of_nat (length (recv_buf c)) < CONTROLLER_RECV_BUF_SIZE) →
  returns (next_command i) g (λ _ g', still g g').
Proof.
  intros Hg Hi Hl. unfold next_command. eapply returns_seq; [by apply (deliver_signals_still i g c)|].
  intros ok g1 (Hs1 & c1 & Hi1 & E1 & B1). destruct ok; cbn [negb]; [|by apply returns_ret].
  eapply returns_done; [by apply get_ctl_eq|]. cbv zeta. destruct (Z.ltb_spec (recv_fd c1) 0).
  { eapply at_eof_still; [done..|]. rewrite B1. apply Hl. lia. }
  destruct (find_eol (recv_buf c1)) as [eol|]; [by eapply got_line_still|].
  case_match; [|by apply returns_ret].
  eapply still_upd_step; [done..|]. intros g2 Hs2 Hi2. eapply still_upd_step; [done..|]. intros g3 Hs3 Hi3.
  eapply (still_step _ _ g); [done|apply log_debug_still, Hs3|]. intros ? g4 Hs4. by apply returns_ret.
Qed.

Lemma end_command_still i g c : sound g → g_ctl g !! i = Some c → returns (end_command i) g (λ _ g', still g g').
Proof.
  intros Hg Hi. eapply returns_done; [by apply get_ctl_eq|].
  eapply (returns_seq _ _ _ (λ _ g', still g g' ∧ ∃ c', g_ctl g' !! i = Some c')).
  - destruct (line_len c >? 0); cbn [when]; [|apply returns_ret; split; [by split|by exists c]].
    eapply returns_seq; [apply (still_upd i _ g c Hg Hi); [done|exact (sd_seen _ Hg _ _ Hi)]|]. intros _ g1 (Hs1 & Hi1 & _).
    eapply returns_mono; [apply (still_upd i _ g1 _ (proj1 Hs1) Hi1); [done|exact (sd_seen _ (proj1 Hs1) _ _ Hi1)]|].
    intros _ g2 (Hs2 & Hi2 & _). split; [by eapply still_trans|by eauto].
  - intros _ g1 (Hs1 & c1 & Hi1). eapply still_upd_step; [done..|]. intros g2 Hs2 _. by apply returns_ret.
Qed.

(** ** Closing *)

Lemma sys_still {B} call (k : sysret → DP B) g0 g : still g0 g → (∀ r g', still g0 g' → returns (k r) g' (λ _ g2, still g0 g2)) →
  returns (sys call ≫= k) g (λ _ g2, still g0 g2).
Proof.
  intros Hs Hk. eapply returns_seq; [by apply keeps_sys, Hs|]. intros r g1 (Hg1 & K1 & _). apply Hk.
  eapply still_trans; [exact Hs|by apply kept_still].
Qed.

Lemma keeps_ancillary l : keeps (ctl_close_ancillary l) (λ _, True).
Proof. induction l as [|fd l IH]; cbn [ctl_close_ancillary]; keeps_tac. Qed.

Lemma still_keeps {A B} (m : DP A) P (k : A → DP B) g0 g : still g0 g → keeps m P →
  (∀ a g', still g0 g' → returns (k a) g' (λ _ g2, still g0 g2)) → returns (m ≫= k) g (λ _ g2, still g0 g2).
Proof.
  intros Hs Hm Hk. eapply returns_seq; [by apply Hm, Hs|]. intros a g1 (Hg1 & K1 & _). apply Hk.
  eapply still_trans; [exact Hs|by apply kept_still].
Qed.

Lemma dtor_still i g c : sound g → g_ctl g !! i = Some c → returns (ctl_dtor i) g (λ _ g', still g g').
Proof.
  intros Hg Hi. eapply returns_done; [by apply get_ctl_eq|].
  assert (H0' : still g g) by done.
  eapply still_keeps; [done|apply keeps_log|]. intros ? g1 Hs1.
  eapply (still_keeps _ (λ _, True)); [done|apply keeps_when; by keeps_tac|]. intros ? g2 Hs2.
  eapply (still_keeps _ (λ _, True)); [done|apply keeps_when; by keeps_tac|]. intros ? g3 Hs3.
  eapply still_keeps; [done|apply keeps_ancillary|]. intros ? g4 Hs4.
  destruct (lookup_lt_is_Some_2 (g_ctl g4) i) as [c4 Hi4]; [rewrite (proj2 Hs4); by eapply lookup_lt_Some|].
  apply (still_end _ g); [done|]. eapply returns_mono; [apply (still_upd i _ g4 c4 (proj1 Hs4) Hi4); [done|exact (sd_seen _ (proj1 Hs4) _ _ Hi4)]|].
  by intros ? ? (? & _).
Qed.

Lemma close_still i g c : sound g → g_ctl g !! i = Some c → returns (close_controller i) g (λ _ g', still g g').
Proof.
  intros Hg Hi. eapply returns_done; [by apply get_ctl_eq|].
  eapply (still_step _ _ g); [done| |].
  - case_match; [|by apply returns_ret]. eapply returns_mono; [by apply (sound_flush i g c)|]. intros ? ? (? & ? & _). by apply kept_still.
  - intros flushed g1 Hs1. destruct flushed; cbn [negb]; [|by apply returns_ret].
    destruct (lookup_lt_is_Some_2 (g_ctl g1) i) as [c1 Hi1]; [rewrite (proj2 Hs1); by eapply lookup_lt_Some|].
    eapply (still_step _ _ g); [done|by apply (dtor_still i g1 c1); [apply Hs1|]|]. intros ? g2 Hs2. by apply returns_ret.
Qed.

Lemma keeps_freed i : keeps (main_notify_controller_freed i) (λ _, True).
Proof.
  unfold main_notify_controller_freed. eapply (keeps_seq _ _ (λ _, True)); [by keeps_tac|]. intros m _. case_bool_decide; [|by keeps_tac].
  eapply (keeps_seq _ _ (λ _, True)); [by keeps_tac|]. intros guard _.
  eapply (keeps_seq _ _ (λ _, True)); [|intros _ _; by apply keeps_set_main].
  destruct (guard =? 0); [|apply keeps_log]. eapply (keeps_seq _ _ (λ _, True)); [apply keeps_log|]. intros _ _.
  eapply (keeps_seq _ _ (λ _, True)); [by apply keeps_set_main|]. intros _ _. apply keeps_set_wake.
Qed.

Lemma ctl_free_still i g c : sound g → g_ctl g !! i = Some c → returns (ctl_free (Some i)) g (λ _ g', still g g').
Proof.
  intros Hg Hi. cbn [ctl_free]. eapply still_upd_step; [done..|]. intros g1 Hs1 _.
  apply (still_end _ g); [done|]. eapply returns_mono; [apply keeps_freed, Hs1|]. intros ? ? (? & ? & _). by apply kept_still.
Qed.

Lemma free_still i g c : sound g → g_ctl g !! i = Some c → returns (free_controller i) g (λ _ g', still g g').
Proof.
  intros Hg Hi. eapply (still_step _ _ g); [done|by apply (ctl_free_still i g c)|]. intros ? g1 Hs1. by apply returns_ret.
Qed.
End ctl.
