(* ===== verification/SoundDump.v ===== *)
(** * The statedump keeps the daemon sound

    The states that go through the descriptors, the services and the signals, stopping
    wherever the output buffer is full. *)

From S2P Require Import Prelude Strseg State RBTree RBTreeRep OrdIndex RBTreeIndex Table Log Signal SignalSpec CtlOut CtlOutSpec SvcVars Fd FdSpec FdThms CtlObj Service Dll ServiceSpec SvcRun SvcActive SvcNew SvcThms Walk SvcLists Sound SoundSvc CtlArg CtlSock Fatal Options CtlCmd CtlObjCmd SoundFd SoundArg SoundSock SoundCmd SoundObjCmd SoundSvcCmd CtlIn CtlTable Preserves Frame CtlFrame CtlFraming SoundCtl.

(** What a statedump leaves as it is. *)
Record tables_same (g g' : G) : Prop := {
  ts_fd : g_fd g' = g_fd g;
  ts_svc : g_svc g' = g_svc g;
  ts_rb : g_rb g' = g_rb g;
  ts_next : g_next g' = g_next g;
}.

#[export] Instance tables_same_preorder : PreOrder tables_same.
Proof. split; [by split|]. intros g1 g2 g3 [] []. split; congruence. Qed.

Lemma io_tables g g' : io_frame g g' → tables_same g g'.
Proof. intros []. by split. Qed.

(** The daemon is sound, and the tables and the number of controllers are those of [g]. *)
Definition dumping (g g' : G) : Prop := still g g' ∧ tables_same g g'.

Lemma dumping_refl g : sound g → dumping g g.
Proof. by split; [split|]. Qed.

Lemma dumping_trans g1 g2 g3 : dumping g1 g2 → dumping g2 g3 → dumping g1 g3.
Proof. intros [S1 T1] [S2 T2]. split; [by eapply still_trans|by etransitivity]. Qed.

Lemma dumping_fd_ok g g' fds : fd_ok g fds → dumping g g' → fd_ok g' fds.
Proof. intros Hok [_ []]. by apply (fd_ok_same g). Qed.

Lemma dumping_svc_ok g g' names pids act sigw : svc_ok g names pids act sigw → dumping g g' → svc_ok g' names pids act sigw.
Proof. intros Hok [_ []]. by apply (svc_ok_same g). Qed.

Lemma dumping_ctl g g' i : dumping g g' → (i < length (g_ctl g))%nat → ∃ c, g_ctl g' !! i = Some c.
Proof. intros [[_ E] _] Hi. apply lookup_lt_is_Some_2. by rewrite E. Qed.

Section dump.
Context `{OS} `{!WriteOk}.
Variables (i : nat) (g0 : G).
Hypothesis Hi0 : (i < length (g_ctl g0))%nat.

Lemma dump_io {A B} (m : DP A) (k : A → DP B) g Q : dumping g0 g →
  returns m g (λ _ g', sound g' ∧ kept g g' ∧ io_frame g g') → (∀ a g', dumping g0 g' → returns (k a) g' Q) → returns (m ≫= k) g Q.
Proof.
  intros Hd Hm Hk. eapply returns_seq; [exact Hm|]. intros a g' (Hg' & K & F). apply Hk.
  eapply dumping_trans; [exact Hd|]. split; [by apply kept_still|by apply io_tables].
Qed.

Lemma dump_ready {B} (k : bool → DP B) g Q : dumping g0 g → (∀ a g', dumping g0 g' → returns (k a) g' Q) →
  returns (ctl_out_buf_ready i ≫= k) g Q.
Proof. intros Hd Hk. destruct (dumping_ctl _ _ _ Hd Hi0) as [c Hi]. eapply dump_io; [done|eapply sound_ready; [apply Hd|exact Hi]|done]. Qed.

Lemma dump_upd_at {B} f (k : unit → DP B) g Q : dumping g0 g → (∀ c, send_buf (f c) = send_buf c) →
  (∀ c, last_signal_ts (f c) = last_signal_ts c ∨ last_signal_ts (f c) = 0) →
  (∀ g' c, dumping g0 g' → g_ctl g' !! i = Some (f c) → returns (k tt) g' Q) → returns (upd_ctl i f ≫= k) g Q.
Proof.
  intros Hd E1 E2 Hk. destruct (dumping_ctl _ _ _ Hd Hi0) as [c Hi].
  eapply returns_seq; [apply (still_upd i f g c (proj1 (proj1 Hd)) Hi (E1 c))|].
  - destruct (E2 c) as [-> | ->]; [exact (sd_seen _ (proj1 (proj1 Hd)) _ _ Hi)|done].
  - intros [] g' (Hs & Hi' & ->). eapply Hk; [|exact Hi']. eapply dumping_trans; [exact Hd|]. by split.
Qed.

Lemma dump_upd {B} f (k : unit → DP B) g Q : dumping g0 g → (∀ c, send_buf (f c) = send_buf c) →
  (∀ c, last_signal_ts (f c) = last_signal_ts c ∨ last_signal_ts (f c) = 0) →
  (∀ g', dumping g0 g' → returns (k tt) g' Q) → returns (upd_ctl i f ≫= k) g Q.
Proof. intros Hd E1 E2 Hk. apply dump_upd_at; [done..|]. auto. Qed.

Lemma dump_get {B} (k : controller_t → DP B) g Q : dumping g0 g → (∀ c, returns (k c) g Q) → returns (get_ctl i ≫= k) g Q.
Proof. intros Hd Hk. destruct (dumping_ctl _ _ _ Hd Hi0) as [c Hi]. eapply returns_done; [by apply get_ctl_eq|apply Hk]. Qed.

Lemma dump_write {B} msg (k : bool → DP B) g Q : dumping g0 g → whole_lines msg → (∀ b g', dumping g0 g' → returns (k b) g' Q) →
  returns (ctl_write (Some i) msg ≫= k) g Q.
Proof.
  intros Hd Hm Hk. eapply dump_io; [done|apply sound_write; [apply Hd|done|]|done].
  intros ? [= <-]. destruct Hd as [[_ ->] _]. done.
Qed.

(** ** Descriptors *)

Lemma is_fd_dumping fds g o : fd_ok g0 fds → dumping g0 g → o ∈ fds → is_fd g o.
Proof. intros Hok Hd Ho. by apply (is_fd_names _ _ _ (dumping_fd_ok _ _ _ Hok Hd)). Qed.

Lemma dump_fds_loop_ok fuel fds l1 l2 g : fd_ok g0 fds → fds = l1 ++ l2 → dumping g0 g → (length l2 < fuel)%nat →
  returns (dump_fds_loop fuel i (hd 0 l2)) g (λ o g', dumping g0 g' ∧ (o ≠ 0 → o ∈ fds)).
Proof.
  revert l1 l2 g. induction fuel as [|fuel IH]; intros l1 l2 g Hok Hl Hd Hf; [lia|]. cbn [dump_fds_loop].
  destruct l2 as [|o l2]; cbn [hd]; [by apply returns_ret|].
  assert (Hin : o ∈ fds) by (rewrite Hl, elem_of_app, elem_of_cons; tauto).
  rewrite (proj2 (Z.eqb_neq o 0)) by (pose proof (fo_range _ _ Hok o Hin); lia).
  apply dump_ready; [done|]. intros ready g1 Hd1. destruct ready; cbn [negb].
  - eapply dump_io; [done|apply sound_notify_fd; [apply Hd1|by eapply is_fd_dumping|]|].
    { intros ? [= <-]. destruct Hd1 as [[_ ->] _]. done. }
    intros _ g2 Hd2. apply dump_get; [done|]. intros c.
    eapply returns_done; [eapply (fd_iter_from g2 l1 o l2); rewrite <-Hl; by eapply dumping_fd_ok|].
    apply (IH (l1 ++ [o])); [done|by rewrite <-app_assoc|done|cbn in Hf; lia].
  - apply dump_upd; [done|done|by left|]. intros g2 Hd2. by apply returns_ret.
Qed.

(** The name a statedump has stopped at is one that fits, so that it can start there
    again. *)
Definition resumable (g : G) : Prop :=
  ∀ c, g_ctl g !! i = Some c → Z.of_nat (length (statedump_current c)) < NAME_BUF_SIZE.

(** There are at most as many descriptors as objects. *)
Lemma nodup_size {A} (objs : gmap Z A) l : NoDup l → (∀ o, o ∈ l → ∃ x, objs !! o = Some x) → (length l ≤ size objs)%nat.
Proof.
  intros Hnd Hl. rewrite <-(size_list_to_set (C := gset Z) l) by done. rewrite <-(size_dom (D := gset Z) objs).
  apply subseteq_size. intros o Ho%elem_of_list_to_set. apply elem_of_dom. by apply Hl.
Qed.

Lemma fds_size fds : fd_ok g0 fds → (length fds ≤ size (fd_objs (g_fd g0)))%nat.
Proof.
  intros Hok. apply nodup_size; [by eapply fd_names_nodup|]. intros o Ho. destruct (fo_objs _ _ Hok o Ho) as (f & ? & _). by eauto.
Qed.

Lemma dump_fds_ok c : sound g0 → g_ctl g0 !! i = Some c → Z.of_nat (length (statedump_current c)) < NAME_BUF_SIZE →
  returns (dump_fds i) g0 (λ _ g', still g0 g' ∧ resumable g').
Proof.
  intros Hg Hi Hn. destruct (sd_fd _ Hg) as (fds & Hok & Hu). eapply returns_done; [by apply get_ctl_eq|].
  eapply returns_done; [reflexivity|]. pose proof (fds_size fds Hok) as Hsz.
  destruct (fd_by_name_ok g0 fds (STRSEG (statedump_current c)) Hok (STRSEG_wf _) Hn) as (o & E & Ho).
  eapply returns_done; [exact E|]. pose proof (dumping_refl g0 Hg) as Hd0.
  eapply (returns_seq _ _ _ (λ _ g', dumping g0 g')).
  { destruct (o =? 0); cbn [when]; [|by apply returns_ret].
    eapply returns_mono; [apply (still_upd i _ g0 c Hg Hi); [done|exact (sd_seen _ Hg _ _ Hi)]|]. intros _ g' (Hs & _ & ->). by split. }
  intros _ g1 Hd1. cbv zeta. pose proof (dumping_fd_ok _ _ _ Hok Hd1) as Hok1.
  (* the object to start at: the one found, or the first one after the name *)
  assert (Hfrom : o ≠ 0 → ∃ l1 l2, fds = l1 ++ o :: l2).
  { intros Hne. destruct Ho as [(Ho & _)|(-> & _)]; [|done]. by apply list_elem_of_split. }
  assert (Hiter : returns (fd_iter_next o (statedump_current c)) g1 (λ p g', g' = g1 ∧ ∃ l1 l2, fds = l1 ++ l2 ∧ p = hd 0 l2)).
  { destruct (Z.eq_dec o 0) as [->|Hne].
    - destruct (fd_iter_first g1 fds (statedump_current c) Hok1) as (l1 & l2 & -> & E1 & _). do 2 eexists. split; [exact E1|]. split; [done|]. by eauto.
    - destruct (Hfrom Hne) as (l1 & l2 & ->). do 2 eexists. split; [by apply (fd_iter_from g1 l1)|]. split; [done|].
      exists (l1 ++ [o]), l2. by rewrite <-app_assoc. }
  eapply (returns_seq _ _ _ (λ p g', dumping g0 g' ∧ (p ≠ 0 → p ∈ fds))).
  { destruct ((if o =? 0 then 0 else command_substate c) =? 0).
    - eapply returns_seq; [exact Hiter|]. intros p g2 (-> & l1 & l2 & Hl & ->).
      apply (dump_fds_loop_ok _ fds l1 l2); [done..|]. rewrite Hl, length_app in Hsz. lia.
    - destruct ((if o =? 0 then 0 else command_substate c) =? 1) eqn:E1.
      + destruct (Z.eqb_spec o 0) as [|Hne]; [done|]. destruct (Hfrom Hne) as (l1 & l2 & Hl).
        apply (dump_fds_loop_ok _ fds l1 (o :: l2)); [done..|]. rewrite Hl, length_app in Hsz. cbn in *. lia.
      + apply returns_ret. split; [done|]. intros Hne. destruct (Hfrom Hne) as (l1 & l2 & ->). rewrite elem_of_app, elem_of_cons. tauto. }
  intros p g2 (Hd2 & Hp). destruct (Z.eqb_spec p 0) as [|Hne]; cbn [negb].
  - apply dump_upd_at; [done|done|by left|]. intros g3 c3 Hd3 Hi3.
    destruct Hd3 as [Hs3 _].
    eapply returns_seq; [apply (still_upd i _ g3 _ (proj1 Hs3) Hi3); [done|exact (sd_seen _ (proj1 Hs3) _ _ Hi3)]|]. intros _ g4 (Hs4 & Hi4 & _).
    eapply returns_seq; [apply (still_upd i _ g4 _ (proj1 Hs4) Hi4); [done|exact (sd_seen _ (proj1 Hs4) _ _ Hi4)]|]. intros _ g5 (Hs5 & Hi5 & _).
    apply returns_ret. split; [by eapply still_trans; [exact Hs3|eapply still_trans]|].
    intros c' Hc'. rewrite Hi5 in Hc'. by injection Hc' as <-.
  - destruct (fo_objs _ _ (dumping_fd_ok _ _ _ Hok Hd2) p (Hp Hne)) as (f & Ef & Hlen & _).
    eapply (returns_done _ _ _ (fd_name f) g2); [unfold fd_get_name, fd_obj; by rewrite (bind_done _ _ _ f g2) by (by rewrite Ef)|].
    apply dump_upd_at; [done|done|by left|]. intros g3 c3 Hd3 Hi3. apply returns_ret. split; [apply Hd3|].
    intros c' Hc'. rewrite Hi3 in Hc'. by injection Hc' as <-.
Qed.

(** ** Services *)

Section services.
Variables (names pids act sigw : list Z).
Hypothesis Hok : svc_ok g0 names pids act sigw.

Lemma is_svc_dumping g o : dumping g0 g → o ∈ names → is_svc g o.
Proof. intros Hd Ho. by apply (is_svc_names _ _ _ _ _ _ (dumping_svc_ok _ _ _ _ _ _ Hok Hd)). Qed.

Lemma dump_read {A B} (m : DP A) (k : A → DP B) g Q : returns m g (λ _ g', g' = g) → (∀ a, returns (k a) g Q) → returns (m ≫= k) g Q.
Proof. intros Hm Hk. eapply returns_seq; [exact Hm|]. intros a g' ->. apply Hk. Qed.

Lemma dump_event_ok {B} svc sub (k : bool → DP B) g Q : dumping g0 g → svc ∈ names →
  (∀ b g', dumping g0 g' → returns (k b) g' Q) → returns (dump_svc_event i svc sub ≫= k) g Q.
Proof.
  intros Hd Ho Hk. pose proof (is_svc_dumping _ _ Hd Ho) as Hsvc. pose proof (proj1 (proj1 Hd)) as Hg.
  assert (Hev : returns (dump_svc_event i svc sub) g (λ _ g', dumping g0 g')).
  2:{ eapply returns_seq; [exact Hev|]. intros b g' Hd'. by apply Hk. }
  assert (Hw : ∀ msg, whole_lines msg → returns (ctl_write (Some i) msg) g (λ _ g', dumping g0 g')).
  { intros msg Hm. eapply returns_mono; [apply sound_write; [done|exact Hm|]|].
    - intros ? [= <-]. destruct Hd as [[_ ->] _]. done.
    - intros b g' (Hg' & K & F). eapply dumping_trans; [exact Hd|]. split; [by apply kept_still|by apply io_tables]. }
  destruct (sound_is_svc g svc Hg Hsvc) as (_ & _ & _ & _ & s & _ & _ & Es & _).
  unfold dump_svc_event. eapply returns_done; [by apply svc_obj_eq|]. cbv zeta.
  destruct (sub =? 1).
  { eapply returns_done; [reflexivity|]. apply Hw, svc_state_msg_lines. }
  destruct (sub =? 2); [apply dump_read; [by apply sound_get_cstr|]; intros ?; apply Hw, tab_join_lines|].
  destruct (sub =? 3); [apply dump_read; [by apply sound_get_cstr|]; intros ?; apply Hw, tab_join_lines|].
  destruct (sub =? 4); [apply dump_read; [by apply sound_get_cstr|]; intros ?; apply Hw, tab_join_lines|].
  apply dump_read; [by apply sound_get_cstr|]. intros triggers. unfold ctl_notify_svc_auto_up.
  eapply (returns_seq _ _ _ (λ _ g', dumping g0 g')); [destruct triggers; apply Hw, tab_join_lines|].
  intros ? g' Hd'. by apply returns_ret.
Qed.

Lemma dump_from_ok n svc sub g : dumping g0 g → svc ∈ names → returns (dump_svc_from n i svc sub) g (λ _ g', dumping g0 g').
Proof.
  intros Hd Ho. revert sub g Hd. induction n as [|n IH]; intros sub g Hd; cbn [dump_svc_from]; [by apply returns_ret|].
  assert (Ec : when (sub =? 1) (svc_check svc) g = Done (tt, g)).
  { destruct (sub =? 1); [|done]. cbn [when]. eapply svc_check_ok; [by eapply dumping_svc_ok|done]. }
  eapply returns_done; [exact Ec|]. apply dump_ready; [done|]. intros ready g1 Hd1. destruct ready; cbn [negb].
  - apply dump_event_ok; [done|done|]. intros b g2 Hd2. by apply IH.
  - apply dump_upd; [done|done|by left|]. intros g2 Hd2. by apply returns_ret.
Qed.

Lemma dump_services_loop_ok fuel l1 l2 sub g : names = l1 ++ l2 → dumping g0 g → (length l2 < fuel)%nat →
  returns (dump_services_loop fuel i (hd 0 l2) sub) g (λ o g', dumping g0 g' ∧ (o ≠ 0 → o ∈ names)).
Proof.
  revert l1 l2 sub g. induction fuel as [|fuel IH]; intros l1 l2 sub g Hl Hd Hf; [lia|]. cbn [dump_services_loop].
  destruct l2 as [|o l2]; cbn [hd]; [by apply returns_ret|].
  assert (Hin : o ∈ names) by (rewrite Hl, elem_of_app, elem_of_cons; tauto).
  rewrite (proj2 (Z.eqb_neq o 0)) by (pose proof (so_range _ _ _ _ _ Hok o Hin); lia).
  eapply returns_seq; [by apply dump_from_ok|]. intros done' g1 Hd1. destruct done'; cbn [negb]; [|by apply returns_ret].
  apply dump_get; [done|]. intros c.
  eapply returns_done; [eapply (svc_iter_from g1 l1 o l2); rewrite <-Hl; by eapply dumping_svc_ok|].
  apply (IH (l1 ++ [o])); [by rewrite <-app_assoc|done|cbn in Hf; lia].
Qed.

Lemma names_size : (length names ≤ size (svc_objs (g_svc g0)))%nat.
Proof.
  apply nodup_size; [by eapply svc_names_nodup|]. intros o Ho. destruct (so_objs _ _ _ _ _ Hok o Ho) as (s & ? & _). by eauto.
Qed.

Lemma dump_services_ok c : sound g0 → g_ctl g0 !! i = Some c → returns (dump_services i) g0 (λ _ g', still g0 g').
Proof.
  intros Hg Hi. eapply returns_done; [by apply get_ctl_eq|]. eapply returns_done; [reflexivity|].
  pose proof names_size as Hsz. pose proof (dumping_refl g0 Hg) as Hd0.
  destruct (svc_by_name_ok g0 names pids act sigw (STRSEG (statedump_current c)) false Hok (STRSEG_wf _))
    as (o & g1 & E & _ & _ & _ & Ho); [done|].
  assert (Hfind : g1 = g0 ∧ (o ≠ 0 → o ∈ names)).
  { unfold svc_by_name in E. destruct (svc_find_ok g0 names pids act sigw (STRSEG (statedump_current c)) Hok (STRSEG_wf _)) as (s & Es & Hs).
    rewrite (bind_done (gets _) _ _ _ _ eq_refl), (bind_done _ _ _ _ _ (rb_pure _ _ _ Es)) in E.
    destruct Hs as [(Hr & p & Hp & _ & Ep)|(Hr & _)].
    - rewrite Hr in E. cbn [Z.eqb] in E. rewrite (rb_pure _ _ _ Ep) in E. by injection E as <- <-.
    - rewrite (proj2 (Z.eqb_neq _ _)) in E by done. by injection E as <- <-. }
  destruct Hfind as [-> Hin]. clear Ho. eapply returns_done; [exact E|].
  eapply (returns_seq _ _ _ (λ _ g', dumping g0 g')).
  { destruct (o =? 0); cbn [when]; [|by apply returns_ret].
    eapply returns_mono; [apply (still_upd i _ g0 c Hg Hi); [done|exact (sd_seen _ Hg _ _ Hi)]|]. intros _ g' (Hs & _ & ->). by split. }
  intros _ g1 Hd1. cbv zeta. pose proof (dumping_svc_ok _ _ _ _ _ _ Hok Hd1) as Hok1.
  assert (Hfrom : o ≠ 0 → ∃ l1 l2, names = l1 ++ o :: l2) by (intros Hne; by apply list_elem_of_split, Hin).
  assert (Hiter : returns (svc_iter_next o (statedump_current c)) g1 (λ p g', g' = g1 ∧ ∃ l1 l2, names = l1 ++ l2 ∧ p = hd 0 l2)).
  { destruct (Z.eq_dec o 0) as [->|Hne].
    - destruct (svc_iter_first g1 names pids act sigw (statedump_current c) Hok1) as (l1 & l2 & Hl & E1 & _).
      do 2 eexists. split; [exact E1|]. split; [done|]. by eauto.
    - destruct (Hfrom Hne) as (l1 & l2 & Hl). do 2 eexists. split; [eapply (svc_iter_from g1 l1); rewrite <-Hl; exact Hok1|].
      split; [done|]. exists (l1 ++ [o]), l2. by rewrite <-app_assoc. }
  eapply (returns_seq _ _ _ (λ p g', dumping g0 g' ∧ (p ≠ 0 → p ∈ names))).
  { destruct ((if o =? 0 then 0 else command_substate c) =? 0).
    - eapply returns_seq; [exact Hiter|]. intros p g2 (-> & l1 & l2 & Hl & ->).
      apply (dump_services_loop_ok _ l1 l2); [done..|]. rewrite Hl, length_app in Hsz. lia.
    - destruct (_ && _) eqn:E1; [|by apply returns_ret].
      destruct (Z.eqb_spec o 0) as [|Hne]; [done|]. destruct (Hfrom Hne) as (l1 & l2 & Hl).
      apply (dump_services_loop_ok _ l1 (o :: l2)); [done..|]. rewrite Hl, length_app in Hsz. cbn in *. lia. }
  intros p g2 (Hd2 & Hp). destruct (Z.eqb_spec p 0) as [|Hne]; cbn [negb].
  - apply dump_upd; [done|done|by right|]. intros g3 Hd3. apply dump_upd; [done|done|by left|]. intros g4 Hd4.
    apply dump_upd; [done|done|by left|]. intros g5 Hd5. by apply returns_ret, Hd5.
  - apply dump_read; [apply svc_field; [apply Hd2|apply is_svc_dumping; auto]|]. intros name.
    apply dump_upd; [done|done|by left|]. intros g3 Hd3. by apply returns_ret, Hd3.
Qed.
End services.

Lemma dump_signals_ok c : sound g0 → g_ctl g0 !! i = Some c → returns (dump_signals i) g0 (λ _ g', still g0 g').
Proof.
  intros Hg Hi. eapply returns_seq; [by apply (deliver_signals_still i g0 c)|].
  intros ok g1 (Hs1 & c1 & Hi1 & _). destruct ok; cbn [negb]; [|by apply returns_ret].
  eapply still_upd_step; [done..|]. intros g2 Hs2 _. by apply returns_ret.
Qed.
End dump.
