(* ===== verification/SoundThms.v ===== *)
(** * No fault in any state of a controller *)

From S2P Require Import Prelude Strseg State RBTree RBTreeRep OrdIndex RBTreeIndex Table Log Signal SignalSpec CtlOut CtlOutSpec SvcVars Fd FdSpec FdThms CtlObj Service Dll ServiceSpec SvcRun SvcActive SvcNew SvcThms Walk SvcLists Sound SoundSvc CtlArg CtlSock Fatal Options CtlCmd CtlObjCmd SoundFd SoundArg SoundSock SoundCmd SoundObjCmd SoundSvcCmd CtlIn CtlTable Preserves Frame CtlFrame CtlFraming SoundCtl SoundDump.

(** What each state needs: the line to run is complete and of the kinds that are
    covered; the end of the input was seen with room in the buffer; the name a
    statedump stopped at fits a name. *)
Definition state_ready (s : ctl_state_fn_t) (c : controller_t) : Prop :=
  match s with
  | ctl_state_next_command => recv_fd c < 0 → Z.of_nat (length (recv_buf c)) < CONTROLLER_RECV_BUF_SIZE
  | ctl_state_run_command =>
      ∃ text rest, line_in c text rest ∧ (recv_overflow c = false → NUL ∉ text ∧ tame_line text)
  | ctl_state_dump_fds => Z.of_nat (length (statedump_current c)) < NAME_BUF_SIZE
  | _ => True
  end.

Section safe.
Context `{OS} `{!WriteOk} `{!SocketOk} `{Inet} `{CmdTableOk}.

Lemma ctl_state_ok s i g c : sound g → g_ctl g !! i = Some c → state_ready s c → returns (ctl_state s i) g (λ _ g', still g g').
Proof.
  intros Hg Hi Hr. pose proof (lookup_lt_Some _ _ _ Hi) as Hlt. destruct s; cbn [ctl_state state_ready] in *.
  - by eapply next_command_still.
  - destruct Hr as (text & rest & Hline & Hok). by eapply run_command_still.
  - by eapply end_command_still.
  - by eapply close_still.
  - by eapply free_still.
  - eapply returns_mono; [by eapply dump_fds_ok|]. by intros ? ? [? _].
  - destruct (sd_svc _ Hg) as (names & pids & act & sigw & Hok & _). by eapply dump_services_ok.
  - by eapply dump_signals_ok.
Qed.

End safe.

(** ** The daemon after it has started *)

Definition boot : G := match fd_init svc_state_0 with Done (_, g) => g | _ => G_0 end.

Lemma boot_sound : sound boot.
Proof.
  destruct svc_state_0_good as [Hok [Hlog Hctl]].
  destruct (RBTree_Init_empty (fd_key ∅) lex_cmp fd_by_name_index (g_rb svc_state_0) (mkNode 0 0 0 0 0) Sentinel)
    as (h & E & Ht & Hk); [vm_compute; reflexivity|done|done|vm_compute; reflexivity|].
  assert (Eb : boot = set_g_rb h svc_state_0) by (unfold boot, fd_init; by rewrite (rb_done _ _ _ _ E)).
  assert (Hsent : sent_at h) by (eapply (table_sent lex_cmp fd_by_name_index fd_node (fd_key ∅) h []); exact Ht).
  rewrite Eb. clear Eb E. split.
  - exists [], [], [], []. split; [|done]. eapply svc_tables_agree; [exact Hok|done|done| |exact Hsent].
    intros a Ha. apply Hk. intros ->. apply Ha. unfold fd_cell. tauto.
  - done.
  - exists []. split; [|constructor]. split; cbn; try done; try lia; by intros o Ho; apply elem_of_nil in Ho.
  - intros o f Ho. by apply elem_of_nil in Ho.
  - cbn. split; [apply sig_inv_empty|..].
    + apply Forall_replicate. intros Hp. cbn in Hp. lia.
    + intros s1 s2 H1 _ Hp. apply elem_of_replicate in H1 as [-> _]. cbn in Hp. lia.
  - done.
  - intros i c Hi. destruct i as [|[|i]]; cbn in Hi; [| |done]; injection Hi as <-; done.
Qed.

(** A controller that has a whole line in its buffer. *)
Definition line_ctl : controller_t :=
  set_line_len 14 (set_recv_buf (str "fd.pipe" ++ TAB :: str "a" ++ TAB :: str "b-c" ++ NUL :: str "ec")
    (set_state_fn (Some ctl_state_run_command) (set_send_fd 5 (set_recv_fd 5 controller_0)))).
Definition line_state : G := set_g_ctl (<[0%nat := line_ctl]> (g_ctl boot)) boot.

Lemma line_state_sound : sound line_state.
Proof.
  apply (sound_set_ctl boot 0 controller_0); [apply boot_sound|done| |done]. split; [done|]. by left.
Qed.

