(* ===== verification/FatalThms.v ===== *)
(** * What a fatal error comes to

    [fatal] ends the process, or becomes the program of exec-on-exit, or (with the
    terminate guard set) returns to a daemon that is as sound as before; it never runs
    into undefined behaviour, not even when the program cannot be executed and the
    signals are set up again. *)

From S2P Require Import Prelude Strseg State RBTree RBTreeRep OrdIndex RBTreeIndex Table Log Signal SignalSpec CtlOut CtlOutSpec SvcVars Fd FdSpec FdThms CtlObj Service Dll ServiceSpec SvcRun SvcActive SvcNew SvcThms Walk SvcLists Sound SoundSvc CtlArg CtlSock Fatal Options CtlCmd CtlObjCmd SoundFd SoundArg SoundSock SoundCmd CtlIn Preserves Frame CtlFrame SoundCtl SoundDump SoundThms.

(** ** The arguments of exec-on-exit *)

Lemma sep_index_snoc sep l : sep_index sep (l ++ [sep]) = sep_index sep l.
Proof. induction l as [|c l IH]; cbn; [by rewrite Z.eqb_refl|]. destruct (c =? sep); [done|]. by rewrite IH. Qed.

Lemma exec_args_loop_ok fuel args (off : nat) : (off ≤ length args)%nat → (S (length args - off) < fuel)%nat →
  exec_args_loop fuel (Seg (args ++ [NUL]) (Z.of_nat off) (Z.of_nat (length args - off))) = Done (split_on NUL (drop off args)).
Proof.
  revert off. induction fuel as [|fuel IH]; intros off Ho Hf; [lia|]. cbn [exec_args_loop].
  set (s := Seg _ _ _). assert (Hwf : seg_wf s) by (unfold seg_wf, s; cbn [seg_off seg_len seg_buf]; rewrite length_app; cbn; lia).
  assert (Hv : seg_view s = drop off args).
  { unfold seg_view, s. cbn [seg_off seg_len seg_buf]. rewrite !Nat2Z.id, drop_app_le, take_app_le by (rewrite ?length_drop; lia).
    by rewrite take_ge by (rewrite length_drop; lia). }
  unfold strseg_tok_next. destruct (Z.ltb_spec (seg_len s) 0); [unfold s in *; cbn [seg_len] in *; lia|].
  rewrite strseg_scan_0 by done. rewrite Hv. cbn [mbind outcome_bind]. set (k := sep_index NUL (drop off args)).
  assert (Hk : (k ≤ length args - off)%nat) by (unfold k; etransitivity; [apply sep_index_le|by rewrite length_drop]).
  assert (Ec : cstr (seg_buf s) (seg_off s) = Done (take k (drop off args))).
  { unfold cstr, s. cbn [seg_off seg_buf]. rewrite Nat2Z.id, drop_app_le by lia. rewrite sep_index_snoc. fold k.
    rewrite length_app, length_drop. cbn [length]. rewrite (proj2 (Nat.ltb_lt _ _)) by lia.
    by rewrite take_app_le by (rewrite length_drop; lia). }
  cbn [seg_buf seg_off]. rewrite Ec. cbn [mbind outcome_bind].
  rewrite (split_on_index NUL (drop off args)). fold k. rewrite length_drop. destruct (Nat.ltb_spec k (length args - off)) as [Hlt|Hge].
  - assert (Ea : seg_advance s (Z.of_nat k + 1) = Seg (args ++ [NUL]) (Z.of_nat (off + S k)) (Z.of_nat (length args - (off + S k)))).
    { unfold seg_advance, s. cbn [seg_off seg_len seg_buf]. f_equal; lia. }
    rewrite Ea, IH by lia. cbn [mbind outcome_bind]. by rewrite drop_drop.
  - destruct fuel as [|fuel]; [lia|]. cbn [exec_args_loop]. rewrite strseg_tok_next_done; [done|].
    unfold seg_advance, s. cbn [seg_len]. lia.
Qed.

Lemma exec_args_ok args : exec_args args = Done (split_on NUL args).
Proof. unfold exec_args. pose proof (exec_args_loop_ok (length args + 3) args 0) as E. rewrite Nat.sub_0_r in E. apply E; lia. Qed.

(** ** The running services in the log *)

Section running.
Context `{OS} `{!WriteOk}.

(** The daemon is sound, and what is not input or output is that of [g]. *)
Definition steady (g g' : G) : Prop := sound g' ∧ kept g g' ∧ io_frame g g'.

Lemma steady_refl g : sound g → steady g g.
Proof. intros Hg. split; [done|]. by split. Qed.

Lemma steady_trans g1 g2 g3 : steady g1 g2 → steady g2 g3 → steady g1 g3.
Proof. intros (_ & K1 & F1) (Hg & K2 & F2). split_and!; [done|by etransitivity|by etransitivity]. Qed.

Lemma steady_log level msg g : sound g → returns (log_write level msg;; mret tt) g (λ _ g', steady g g').
Proof.
  intros Hg. destruct (log_output level msg g (sound_ctls _ Hg)) as (g' & E & F & C). exists tt, g'.
  destruct (sound_io g g' Hg F C). by split.
Qed.

Lemma steady_sys c g : sound g → returns (sys c) g (λ r g', r = os (g_trace g) c ∧ steady g g').
Proof.
  intros Hg. destruct (sd_svc _ Hg) as (names & pids & act & sigw & Hgood).
  destruct (sys_good c g names pids act sigw Hgood) as (g' & E & Hg' & F). eexists _, g'. split; [exact E|]. split; [done|].
  destruct (sound_io g g' Hg F (proj2 Hg')) as [? ?]. by split_and!.
Qed.

Lemma log_running_loop_ok fuel names pids act sigw l1 l2 cur g : sound g → svc_ok g names pids act sigw → names = l1 ++ l2 →
  svc_iter_next cur [] g = Done (hd 0 l2, g) → (length l2 < fuel)%nat →
  returns (log_running_loop fuel cur) g (λ _ g', steady g g').
Proof.
  revert l1 l2 cur g. induction fuel as [|fuel IH]; intros l1 l2 cur g Hg Hok Hl Hcur Hf; [lia|]. cbn [log_running_loop].
  eapply returns_done; [exact Hcur|]. destruct l2 as [|o l2]; cbn [hd]; [by apply returns_ret, steady_refl|].
  assert (Hin : o ∈ names) by (rewrite Hl, elem_of_app, elem_of_cons; tauto).
  rewrite (proj2 (Z.eqb_neq o 0)) by (pose proof (so_range _ _ _ _ _ Hok o Hin); lia).
  destruct (so_objs _ _ _ _ _ Hok o Hin) as (s & Es & _). eapply returns_done; [by apply svc_obj_eq|].
  eapply (returns_seq _ _ _ (λ _ g', steady g g')).
  { destruct (_ && _); cbn [when]; [by apply steady_log|by apply returns_ret, steady_refl]. }
  intros _ g1 S1. assert (Hsame : ∀ g', steady g g' → svc_ok g' names pids act sigw).
  { intros g' (_ & _ & F). apply (svc_ok_same g); [done|apply F..]. }
  eapply returns_mono; [apply (IH (l1 ++ [o]) l2)|].
  - apply S1.
  - by apply Hsame.
  - by rewrite <-app_assoc.
  - apply (svc_iter_from g1 l1 o l2 pids act sigw). rewrite <-Hl. by apply Hsame.
  - cbn in Hf. lia.
  - intros ? g2 S2. by eapply steady_trans.
Qed.

Lemma log_running_ok g : sound g → returns log_running_services g (λ _ g', steady g g').
Proof.
  intros Hg. destruct (sd_svc _ Hg) as (names & pids & act & sigw & Hok & _). eapply returns_done; [reflexivity|].
  destruct (svc_iter_first g names pids act sigw [] Hok) as (l1 & l2 & Hl & E & _).
  apply (log_running_loop_ok _ names pids act sigw l1 l2); [done..|].
  pose proof (names_size g names pids act sigw Hok) as Hsz. rewrite Hl, length_app in Hsz. lia.
Qed.

(** ** Computations that return and leave the options as they are *)

Definition goes {A} (m : DP A) (Q : A → Prop) : Prop := ∀ g, sound g →
  returns m g (λ a g', Q a ∧ sound g' ∧ kept g g' ∧ g_opt g' = g_opt g).

Lemma goes_ret {A} (a : A) (Q : A → Prop) : Q a → goes (mret a) Q.
Proof. intros Ha g Hg. by apply returns_ret. Qed.

Lemma goes_seq {A B} (m : DP A) (f : A → DP B) P Q : goes m P → (∀ a, P a → goes (f a) Q) → goes (m ≫= f) Q.
Proof.
  intros Hm Hf g Hg. eapply returns_seq; [by apply Hm|]. intros a g1 (Ha & Hg1 & K1 & E1).
  eapply returns_mono; [by apply (Hf a Ha)|]. intros b g2 (? & ? & K2 & E2).
  split_and!; [done..|by etransitivity|congruence].
Qed.

Lemma goes_gets {A} (p : G → A) : goes (gets p) (λ _, True).
Proof. intros g Hg. by eexists _, g. Qed.

Lemma goes_any {A} (m : DP A) P : goes m P → goes m (λ _, True).
Proof. intros Hm g Hg. eapply returns_mono; [by apply Hm|]. by intros ? ? (_ & ?). Qed.

Lemma goes_steady {A} (m : DP A) (Q : A → Prop) : (∀ g, sound g → returns m g (λ a g', Q a ∧ steady g g')) → goes m Q.
Proof.
  intros Hm g Hg. eapply returns_mono; [by apply Hm|]. intros a g' (? & ? & ? & F). split_and!; [done..|apply F].
Qed.

Lemma goes_log level msg : goes (log_write level msg;; mret tt) (λ _, True).
Proof. apply goes_steady. intros g Hg. eapply returns_mono; [by apply steady_log|done]. Qed.

Lemma goes_sys c (P : sysret → Prop) : (∀ tr, P (os tr c)) → goes (sys c) P.
Proof. intros HP. apply goes_steady. intros g Hg. eapply returns_mono; [by apply steady_sys|]. by intros r g' [-> ?]. Qed.

Lemma goes_call c : goes (sys c) (λ _, True).
Proof. by apply goes_sys. Qed.

Lemma goes_running : goes log_running_services (λ _, True).
Proof. apply goes_steady. intros g Hg. eapply returns_mono; [by apply log_running_ok|done]. Qed.

(** A change of the signals module that leaves a legal table. *)
Lemma goes_sig f : (∀ s, sigs_ok (signals s) → sigs_ok (signals (f s))) → goes (modify (on_sig f)) (λ _, True).
Proof.
  intros Hf g Hg. exists tt, (on_sig f g). do 2 (split; [done|]). split; [apply sound_on_sig, Hf, Hg; done|].
  split; [|done]. split; [done| |done]. intros i c Hi. by exists c.
Qed.

Lemma goes_when b m : goes m (λ _, True) → goes (when b m) (λ _, True).
Proof. destruct b; [done|intros _; by apply goes_ret]. Qed.

Lemma goes_close b fd : goes (when b (sys (CClose fd);; mret tt)) (λ _, True).
Proof. apply goes_when. eapply goes_seq; [apply goes_call|]. intros _ _. by apply goes_ret. Qed.

Lemma goes_reset : goes sig_reset_for_exec (λ _, True).
Proof.
  unfold sig_reset_for_exec. eapply (goes_seq _ _ (λ _, True)).
  - induction signal_spec as [|s l IH]; cbn [sig_reset_loop]; [by apply goes_ret|].
    eapply goes_seq; [apply goes_call|]. done.
  - intros _ _. eapply goes_seq; [apply goes_call|]. intros _ _. by apply goes_ret.
Qed.

Lemma sigs_ok_empty : sigs_ok sig_slots_0.
Proof.
  split.
  - apply sig_inv_empty.
  - apply Forall_replicate. intros Hp. cbn in Hp. lia.
  - intros s1 s2 H1 _ Hp. apply elem_of_replicate in H1 as [-> _]. cbn in Hp. lia.
Qed.

Lemma goes_reset_slots : goes (modify (on_sig (set_signals sig_slots_0))) (λ _, True).
Proof. apply goes_sig. intros s _. apply sigs_ok_empty. Qed.

(** ** The pipe of the signals *)

(** The calls [sig_init] makes never fail. *)
Record setup_succeeds : Prop := {
  ss_pipe tr : 0 ≤ ret (os tr CPipe);
  ss_setfd tr fd v : 0 ≤ ret (os tr (CSetfd fd v));
  ss_getfl tr fd : 0 ≤ ret (os tr (CGetfl fd));
  ss_setfl tr fd v : 0 ≤ ret (os tr (CSetfl fd v));
  ss_sigaction tr s h : ret (os tr (CSigaction s h)) = 0;
}.

(** A call that is among them. *)
Lemma goes_setup {B} c (f : sysret → DP B) Q : (setup_succeeds → ∀ tr, 0 ≤ ret (os tr c)) →
  (∀ r, (setup_succeeds → 0 ≤ ret r) → goes (f r) Q) → goes (sys c ≫= f) Q.
Proof. intros Hc Hf. eapply (goes_seq _ _ (λ r, setup_succeeds → 0 ≤ ret r)); [apply goes_sys; intros tr Hs; by apply Hc|exact Hf]. Qed.

Lemma goes_nonblock fd : goes (fd_set_nonblock fd) (λ ok, setup_succeeds → ok = true).
Proof.
  apply goes_setup; [intros Hs tr; apply Hs|]. intros r Hr.
  destruct (Z.geb_spec (ret r) 0); [|apply goes_ret; intros Hs; specialize (Hr Hs); lia].
  apply goes_setup; [intros Hs tr; apply Hs|]. intros r2 Hr2. apply goes_ret. intros Hs. specialize (Hr2 Hs). lia.
Qed.

Lemma goes_pipe_fails rd wr : goes (sig_pipe_fails rd wr) (λ fails, setup_succeeds → fails = false).
Proof.
  apply goes_setup; [intros Hs tr; apply Hs|]. intros r Hr.
  destruct (Z.ltb_spec (ret r) 0); [apply goes_ret; intros Hs; specialize (Hr Hs); lia|].
  apply goes_setup; [intros Hs tr; apply Hs|]. intros r2 Hr2.
  destruct (Z.ltb_spec (ret r2) 0); [apply goes_ret; intros Hs; specialize (Hr2 Hs); lia|].
  eapply goes_seq; [apply goes_nonblock|]. intros [] Hc; cbn [negb]; [|apply goes_ret; intros Hs; by specialize (Hc Hs)].
  eapply goes_seq; [apply goes_nonblock|]. intros d Hd. apply goes_ret. intros Hs. by rewrite (Hd Hs).
Qed.

(** ** How [fatal] can end while the options are [o] *)

Variable o : opt_t.

(** It ends the process with one of [codes], only without the guard, or becomes the
    program of exec-on-exit, or returns a result with [Q] to a sound daemon; it is
    still running only if [runs] holds.  It never faults. *)
Definition settles {A} (codes : Z → Prop) (runs : Prop) (m : DP A) (Q : A → Prop) : Prop := ∀ g, sound g → g_opt g = o →
  match m g with
  | Done (a, g') => Q a ∧ sound g' ∧ kept g g' ∧ g_opt g' = o
  | Fault => False
  | OutOfFuel => runs
  | Exited c => opt_terminate_guard o = 0 ∧ codes c
  | Execed argv => opt_exec_on_exit o = true ∧ argv = split_on NUL (opt_exec_on_exit_args o)
  end.

Lemma settles_goes {A} codes runs (m : DP A) Q : goes m Q → settles codes runs m Q.
Proof. intros Hm g Hg Ho. destruct (Hm g Hg) as (a & g' & -> & ? & ? & ? & ?). split_and!; [done..|congruence]. Qed.

Lemma settles_seq {A B} codes runs (m : DP A) (f : A → DP B) P Q :
  settles codes runs m P → (∀ a, P a → settles codes runs (f a) Q) → settles codes runs (m ≫= f) Q.
Proof.
  intros Hm Hf g Hg Ho. specialize (Hm g Hg Ho). unfold mbind, M_bind. destruct (m g) as [[a g1]| | | |]; try done.
  destruct Hm as (Ha & Hg1 & K1 & Ho1). specialize (Hf a Ha g1 Hg1 Ho1). destruct (f a g1) as [[b g2]| | | |]; try done.
  destruct Hf as (? & ? & K2 & ?). split_and!; [done..|by etransitivity|done].
Qed.

Lemma settles_step {A B} codes runs (m : DP A) (f : A → DP B) P Q :
  goes m P → (∀ a, P a → settles codes runs (f a) Q) → settles codes runs (m ≫= f) Q.
Proof. intros Hm. by apply settles_seq, settles_goes. Qed.

Lemma settles_ret {A} codes runs (a : A) (Q : A → Prop) : Q a → settles codes runs (mret a) Q.
Proof. intros Ha. by apply settles_goes, goes_ret. Qed.

Lemma settles_opts {B} codes runs (f : opt_t → DP B) Q : settles codes runs (f o) Q → settles codes runs (gets g_opt ≫= f) Q.
Proof. intros Hf g Hg Ho. specialize (Hf g Hg Ho). unfold mbind, M_bind, gets. by rewrite Ho. Qed.

Lemma settles_opt {A B} codes runs (p : opt_t → A) (f : A → DP B) Q : settles codes runs (f (p o)) Q →
  settles codes runs (gets (λ g, p (g_opt g)) ≫= f) Q.
Proof. intros Hf g Hg Ho. specialize (Hf g Hg Ho). unfold mbind, M_bind, gets. by rewrite Ho. Qed.

Lemma settles_mono {A} (codes codes' : Z → Prop) (runs runs' : Prop) (m : DP A) Q : settles codes runs m Q →
  (∀ c, codes c → codes' c) → (runs → runs') → settles codes' runs' m Q.
Proof. intros Hm Hc Hr g Hg Ho. specialize (Hm g Hg Ho). destruct (m g) as [[]| | | |]; naive_solver. Qed.

Lemma settles_any {A} codes runs (m : DP A) Q : settles codes runs m Q → settles codes runs m (λ _, True).
Proof. intros Hm g Hg Ho. specialize (Hm g Hg Ho). destruct (m g) as [[]| | | |]; naive_solver. Qed.

(** ** Setting the signals up again *)

Section init.
Variables (codes : Z → Prop) (runs : Prop) (fatal : Z → list Z → DP unit).
Hypothesis Hfatal : ¬ setup_succeeds → ∀ msg, settles codes runs (fatal EXIT_IMPOSSIBLE_SCENARIO msg) (λ _, True).

Lemma fatal_errno_settles what : ¬ setup_succeeds →
  settles codes runs (e ← gets g_errno; fatal EXIT_IMPOSSIBLE_SCENARIO (what ++ strerror e)) (λ _, True).
Proof. intros Hn. eapply settles_step; [apply goes_gets|]. intros e _. by apply Hfatal. Qed.

Lemma handlers_settle l : settles codes runs (sig_set_handlers fatal l) (λ _, True).
Proof.
  induction l as [|[signum h] l IH]; cbn [sig_set_handlers]; [by apply settles_ret|].
  eapply (settles_step _ _ _ _ (λ r, setup_succeeds → ret r = 0)); [apply goes_sys; intros tr Hs; apply Hs|]. intros r Hr.
  eapply (settles_seq _ _ _ _ (λ _, True)); [|done]. destruct (Z.eqb_spec (ret r) 0); cbn [negb]; [by apply settles_ret|].
  apply fatal_errno_settles. tauto.
Qed.

Lemma sig_init_settles : settles codes runs (sig_init_with fatal) (λ _, True).
Proof.
  unfold sig_init_with. eapply settles_step; [apply goes_gets|]. intros s _. do 2 (eapply settles_step; [apply goes_close|]; intros _ _).
  eapply (settles_step _ _ _ _ (λ _, True)).
  { destruct (_ =? 0); [|by apply goes_ret]. eapply goes_seq; [apply goes_call|]. intros p _. by apply goes_sig. }
  intros _ _. eapply settles_step; [apply goes_reset_slots|]. intros _ _.
  eapply (settles_step _ _ _ _ (λ r, setup_succeeds → 0 ≤ ret r)); [apply goes_sys; intros tr Hs; apply Hs|]. intros p Hp. cbv zeta.
  eapply (settles_step _ _ _ _ (λ fails, setup_succeeds → fails = false)).
  { destruct (Z.ltb_spec (ret p) 0); [apply goes_ret; intros Hs; specialize (Hp Hs); lia|apply goes_pipe_fails]. }
  intros fails Hfails. eapply (settles_seq _ _ _ _ (λ _, True)).
  { destruct fails; [apply fatal_errno_settles; intros Hs; by specialize (Hfails Hs)|by apply settles_ret]. }
  intros _ _. do 2 (eapply settles_step; [by apply goes_sig|]; intros _ _).
  eapply settles_seq; [apply handlers_settle|]. intros _ _. eapply settles_step; [apply goes_call|]. intros _ _. by apply settles_ret.
Qed.
End init.

(** ** The end of the process *)

Lemma goes_exec_args : goes (lift (exec_args (opt_exec_on_exit_args o))) (λ argv, argv = split_on NUL (opt_exec_on_exit_args o)).
Proof. rewrite exec_args_ok. intros g Hg. by apply returns_ret. Qed.

Section body.
Variables (codes : Z → Prop) (runs : Prop) (init : DP unit).
Hypothesis Hinit : opt_exec_on_exit o = true → settles codes runs init (λ _, True).

Lemma fatal_exec_settles code msg : settles codes runs (fatal_exec init code msg) (λ _, True).
Proof.
  unfold fatal_exec. apply settles_opts. destruct (opt_exec_on_exit o) eqn:Hexec; [|by apply settles_ret].
  do 2 (eapply settles_step; [apply goes_call|]; intros _ _). eapply settles_step; [apply goes_exec_args|]. intros argv Hargv.
  eapply settles_step; [apply goes_log|]. intros _ _. eapply settles_step; [apply goes_reset|]. intros _ _.
  eapply settles_step; [apply goes_log|]. intros _ _. eapply settles_step; [apply goes_running|]. intros _ _.
  eapply settles_step; [apply goes_call|]. intros r _. destruct (ret r >=? 0); [by intros g Hg Ho|].
  eapply settles_seq; [by apply Hinit|]. intros _ _. eapply settles_step; [apply goes_gets|]. intros e _. apply settles_goes, goes_log.
Qed.

Lemma fatal_body_settles code msg : codes code →
  settles codes runs (fatal_body init code msg) (λ _, opt_terminate_guard o ≠ 0).
Proof.
  intros Hc. unfold fatal_body. cbv zeta. eapply settles_seq; [apply fatal_exec_settles|]. intros _ _.
  apply (settles_opt _ _ opt_terminate_guard). eapply settles_step; [apply goes_when, goes_log|]. intros _ _.
  destruct (Z.eqb_spec (opt_terminate_guard o) 0) as [E|Hn]; [|by apply settles_ret].
  eapply settles_step; [apply goes_running|]. intros _ _. by intros g Hg Ho.
Qed.
End body.

(** Which codes the process can end with: an error of [sig_init] has its own. *)
Definition fatal_codes (code c : Z) : Prop := c = code ∨ opt_exec_on_exit o = true ∧ c = EXIT_IMPOSSIBLE_SCENARIO.

Lemma nested_codes code c : opt_exec_on_exit o = true → fatal_codes EXIT_IMPOSSIBLE_SCENARIO c → fatal_codes code c.
Proof. intros He [->|[_ ->]]; by right. Qed.

Lemma fatal_at_settles depth code msg : settles (fatal_codes code) True (fatal_at depth code msg) (λ _, opt_terminate_guard o ≠ 0).
Proof.
  revert code msg. induction depth as [|depth IH]; intros code msg; cbn [fatal_at]; [by intros g Hg Ho|].
  apply fatal_body_settles; [|by left]. intros Hexec. apply sig_init_settles. intros _ msg2.
  eapply settles_mono; [eapply settles_any, IH|intros c; by apply nested_codes|done].
Qed.

(** It can go on for ever only by setting up the signals for another program. *)
Lemma fatal_runs_exec depth code msg :
  settles (fatal_codes code) (opt_exec_on_exit o = true) (fatal_at (S depth) code msg) (λ _, opt_terminate_guard o ≠ 0).
Proof.
  apply fatal_body_settles; [|by left]. intros Hexec. apply sig_init_settles. intros _ msg2.
  eapply settles_mono; [eapply settles_any, fatal_at_settles|intros c; by apply nested_codes|done].
Qed.

(** And it ends at once when that succeeds. *)
Lemma fatal_ends depth code msg : setup_succeeds →
  settles (fatal_codes code) False (fatal_at (S depth) code msg) (λ _, opt_terminate_guard o ≠ 0).
Proof. intros Hs. apply fatal_body_settles; [|by left]. intros Hexec. by apply sig_init_settles. Qed.

(** ** The recursion without end *)

(** Every run of [m] is still running when the fuel is used up. *)
Definition endless {A} (m : DP A) : Prop := ∀ g, sound g → g_opt g = o → m g = OutOfFuel.

Lemma endless_head {A B} (m : DP A) (f : A → DP B) : endless m → endless (m ≫= f).
Proof. intros Hm g Hg Ho. unfold mbind, M_bind. by rewrite Hm. Qed.

Lemma endless_step {A B} (m : DP A) (f : A → DP B) P : goes m P → (∀ a, P a → endless (f a)) → endless (m ≫= f).
Proof.
  intros Hm Hf g Hg Ho. destruct (Hm g Hg) as (a & g1 & E & Ha & Hg1 & _ & E1). rewrite (bind_done _ _ _ _ _ E).
  apply Hf; [done..|congruence].
Qed.

Section endless.
Hypothesis Hpipe : ∀ tr, ret (os tr CPipe) < 0.
Hypothesis Hexecs : ∀ tr argv, ret (os tr (CExec argv)) < 0.

Lemma sig_init_endless fatal : (∀ code msg, endless (fatal code msg)) → endless (sig_init_with fatal).
Proof.
  intros Hf. unfold sig_init_with. eapply endless_step; [apply goes_gets|]. intros s _.
  do 2 (eapply endless_step; [apply goes_close|]; intros _ _). eapply (endless_step _ _ (λ _, True)).
  { destruct (_ =? 0); [|by apply goes_ret]. eapply goes_seq; [apply goes_call|]. intros p _. by apply goes_sig. }
  intros _ _. eapply endless_step; [apply goes_reset_slots|]. intros _ _.
  eapply (endless_step _ _ (λ r, ret r < 0)); [by apply goes_sys|]. intros p Hp. cbv zeta. rewrite (proj2 (Z.ltb_lt _ _) Hp).
  eapply (endless_step _ _ (λ fails, fails = true)); [by apply goes_ret|]. intros fails ->.
  apply endless_head. eapply endless_step; [apply goes_gets|]. intros e _. apply Hf.
Qed.

Lemma endless_opts {B} (f : opt_t → DP B) : endless (f o) → endless (gets g_opt ≫= f).
Proof. intros Hf g Hg Ho. unfold mbind, M_bind, gets. rewrite Ho. by apply Hf. Qed.

Lemma fatal_at_endless depth code msg : opt_exec_on_exit o = true → endless (fatal_at depth code msg).
Proof.
  intros Hexec. revert code msg. induction depth as [|depth IH]; intros code msg; cbn [fatal_at]; [done|].
  unfold fatal_body. cbv zeta. apply endless_head. unfold fatal_exec. apply endless_opts. rewrite Hexec.
  do 2 (eapply endless_step; [apply goes_call|]; intros _ _). eapply endless_step; [apply goes_exec_args|]. intros argv Hargv.
  eapply endless_step; [apply goes_log|]. intros _ _. eapply endless_step; [apply goes_reset|]. intros _ _.
  eapply endless_step; [apply goes_log|]. intros _ _. eapply endless_step; [apply goes_running|]. intros _ _.
  eapply (endless_step _ _ (λ r, ret r < 0)); [by apply goes_sys|]. intros r Hr.
  destruct (Z.geb_spec (ret r) 0); [lia|]. apply endless_head, sig_init_endless, IH.
Qed.
End endless.
End running.

(** ** Properties *)

Section theorems.
Context `{OS} `{!WriteOk}.

(** C4. A fatal error never runs into undefined behaviour.  The process ends with the
    given code, only if there is no terminate guard; or with exec-on-exit it becomes
    that program, whose arguments are the parts of the stored string; or with the guard
    set the call returns, and the daemon is as sound as before, with the same services
    and options.  A failure to set up the signals again after a failed [exec] has its
    own code.  If the calls for that do not fail, [fatal] ends within one level. *)
Theorem fatal_safe depth code msg g : sound g →
  match fatal_at (S depth) code msg g with
  | Done (_, g') => opt_terminate_guard (g_opt g) ≠ 0 ∧ sound g' ∧ kept g g' ∧ g_opt g' = g_opt g
  | Fault => False
  | OutOfFuel => opt_exec_on_exit (g_opt g) = true ∧ ¬ setup_succeeds
  | Exited c => opt_terminate_guard (g_opt g) = 0 ∧ fatal_codes (g_opt g) code c
  | Execed argv => opt_exec_on_exit (g_opt g) = true ∧ argv = split_on NUL (opt_exec_on_exit_args (g_opt g))
  end.
Proof.
  intros Hg. pose proof (fatal_runs_exec (g_opt g) depth code msg g Hg eq_refl) as H1.
  pose proof (fatal_ends (g_opt g) depth code msg) as H2. destruct (fatal_at (S depth) code msg g) as [[[] g']| | | |] eqn:E; try done.
  split; [done|]. intros Hs. specialize (H2 Hs g Hg eq_refl). by rewrite E in H2.
Qed.

(** C38. When neither the program of exec-on-exit nor the pipe of the signals can be had
    (no memory, no free descriptor), [fatal] and [sig_init] call each other without end:
    no depth of the stack is enough. *)
Theorem fatal_unbounded depth code msg g : sound g → opt_exec_on_exit (g_opt g) = true →
  (∀ tr, ret (os tr CPipe) < 0) → (∀ tr argv, ret (os tr (CExec argv)) < 0) → fatal_at depth code msg g = OutOfFuel.
Proof. intros Hg He Hp Hx. by apply (fatal_at_endless (g_opt g)). Qed.
End theorems.

(** ** Examples *)

Lemma fatal_safe_witness : @fatal_at ideal_os 1 EXIT_BAD_OPTIONS (str "x") boot = Exited EXIT_BAD_OPTIONS ∧
  opt_terminate_guard (g_opt boot) = 0.
Proof.
  assert (E : @fatal_at ideal_os 1 EXIT_BAD_OPTIONS (str "x") boot = Exited EXIT_BAD_OPTIONS) by (vm_compute; reflexivity).
  pose proof (@fatal_safe ideal_os _ 0 EXIT_BAD_OPTIONS (str "x") boot boot_sound) as Hsafe. rewrite E in Hsafe.
  split; [exact E|apply Hsafe].
Defined.

(** A system on which every call fails but writing. *)
Definition broken_os : OS := {|
  os _ c := match c with CWrite _ data => mkRet (Z.of_nat (length data)) 0 [] [] | _ => mkRet (-1) 24 [] [] end;
  strerror _ := str "Too many open files";
  alloca_cap n := n;
  sig_list := [];
|}.

#[export] Instance broken_write_ok : @WriteOk broken_os.
Proof. split; intros; cbn; [lia|]. destruct data; cbn; [done|lia]. Qed.

Definition exec_boot : G := on_opt (set_opt_exec_on_exit_args (str "/bin/sh")) (on_opt (set_opt_exec_on_exit true) boot).

Lemma exec_boot_sound : sound exec_boot.
Proof. apply (sound_same boot); [apply boot_sound|by split|vm_compute; done]. Qed.

Lemma fatal_unbounded_witness : @fatal_at broken_os 1000 EXIT_BROKEN_PROGRAM_STATE (str "x") exec_boot = OutOfFuel.
Proof.
  apply (@fatal_unbounded broken_os broken_write_ok); [apply exec_boot_sound|reflexivity|intros tr; cbn; lia|intros tr argv; cbn; lia].
Defined.
