(* ===== verification/GuardThms.v ===== *)
(** * What it takes to end the daemon

    What the commands terminate and terminate.guard do with the fields of the command
    line.  What the rest of the daemon does is the subject of GuardLoop. *)

From S2P Require Import Prelude Strseg State RBTree RBTreeRep OrdIndex RBTreeIndex Table Log Signal SignalSpec CtlOut CtlOutSpec SvcVars Fd FdSpec FdThms CtlObj Service Dll ServiceSpec SvcRun SvcActive SvcNew SvcThms Walk SvcLists Sound SoundSvc CtlArg CtlSock Fatal Options CtlCmd CtlObjCmd SoundFd SoundArg SoundSock SoundCmd CtlIn Preserves Frame CtlFrame SoundCtl SoundDump SoundThms.

(** ** Computations that change nothing but controllers *)

Definition ctl_only (g g' : G) : Prop := ∃ l, g' = set_g_ctl l g.

#[export] Instance ctl_only_preorder : PreOrder ctl_only.
Proof.
  split; [intros g; exists (g_ctl g); by destruct g|]. intros g1 g2 g3 [l1 ->] [l2 ->]. by exists l2.
Qed.

Section arg.
Context `{OS}.

Lemma ctl_only_upd i f : preserves ctl_only (upd_ctl i f).
Proof. intros g a g'. unfold upd_ctl. destruct (g_ctl g !! i); [|done]. intros [= _ <-]. by eexists. Qed.

Lemma ctl_only_get i : preserves ctl_only (get_ctl i).
Proof. intros g a g'. unfold get_ctl. destruct (g_ctl g !! i); [|done]. intros [= _ ->]. reflexivity. Qed.

Create HintDb ctl_only.
#[local] Hint Resolve ctl_only_upd ctl_only_get : ctl_only.
Ltac ctl_only := repeat first [preserves_step | solve [auto 2 with ctl_only nocore]].

Lemma ctl_only_fail {A} i msg (a : A) : preserves ctl_only (fail_with i msg a).
Proof. unfold fail_with. ctl_only. Qed.

Lemma ctl_only_tok i : preserves ctl_only (tok_command i).
Proof. unfold tok_command. ctl_only. Qed.
#[local] Hint Resolve ctl_only_fail ctl_only_tok : ctl_only.

Lemma ctl_only_arg i : preserves ctl_only (ctl_get_arg i).
Proof. unfold ctl_get_arg. ctl_only. Qed.

Lemma ctl_only_int i : preserves ctl_only (ctl_get_arg_int i).
Proof. unfold ctl_get_arg_int. ctl_only. Qed.
#[local] Hint Resolve ctl_only_arg ctl_only_int : ctl_only.

Section command.
Context `{!WriteOk}.
Variables (i n : nat).

(** A command that starts with the fields [fs] is at the fields [fs'], and nothing
    but its controller has changed. *)
Definition moved (fs' : list (list Z)) (g g' : G) : Prop := at_cmd i n fs' g' ∧ ctl_only g g'.

Lemma moved_int {B} fs g0 g (k : option Z → DP B) Q : moved fs g0 g →
  (∀ g', moved (tl fs) g0 g' → returns (k (head fs ≫= int_field)) g' Q) → returns (ctl_get_arg_int i ≫= k) g Q.
Proof.
  intros [Hat Hc] Hk. eapply returns_seq; [apply (returns_and ctl_only _ _ _ (step_int i n fs g Hat)), ctl_only_int|].
  intros v g1 ((-> & [Hat1 _]) & Hc1). apply Hk. split; [done|by etransitivity].
Qed.

Lemma moved_arg {B} fs g0 g (k : option strseg_t → DP B) Q : moved fs g0 g →
  (∀ arg g', takes fs arg → moved (tl fs) g0 g' → returns (k arg) g' Q) → returns (ctl_get_arg i ≫= k) g Q.
Proof.
  intros [Hat Hc] Hk. eapply returns_seq; [apply (returns_and ctl_only _ _ _ (step_arg i n fs g Hat)), ctl_only_arg|].
  intros v g1 ((Ht & [Hat1 _]) & Hc1). apply Hk; [done|]. split; [done|by etransitivity].
Qed.

Lemma moved_fail fs g0 g msg (Q : bool → G → Prop) : moved fs g0 g → (∀ g', moved fs g0 g' → Q false g') →
  returns (fail_with i msg false) g Q.
Proof.
  intros [Hat Hc] HQ. eapply returns_mono; [apply (returns_and ctl_only _ _ _ (step_fail i n fs g msg false Hat)), ctl_only_fail|].
  intros b g1 ((-> & [Hat1 _]) & Hc1). apply HQ. split; [done|by etransitivity].
Qed.

(** ** terminate *)

Lemma guard_arg_ok guard fs g0 g : moved fs g0 g → returns (terminate_guard_ok i guard) g (λ ok g',
  ok = bool_decide (guard = 0 ∨ head fs ≫= int_field = Some guard) ∧ ∃ fs', moved fs' g0 g').
Proof.
  intros Hm. unfold terminate_guard_ok. destruct (Z.eqb_spec guard 0) as [->|Hne].
  { apply returns_ret. rewrite bool_decide_true by auto. eauto. }
  apply (moved_int fs g0 g); [done|]. intros g1 H1. destruct (_ ≫= _) as [v|].
  - destruct (Z.eqb_spec guard v) as [->|Hv]; cbn [negb].
    + apply returns_ret. rewrite bool_decide_true by auto. eauto.
    + eapply moved_fail; [done|]. intros g2 H2. rewrite bool_decide_false by naive_solver. eauto.
  - eapply moved_fail; [done|]. intros g2 H2. rewrite bool_decide_false by naive_solver. eauto.
Qed.

(** The exit code, if the daemon is to end: the first field, which must be a number;
    with a guard the second field must be its code and exec-on-exit must be on. *)
Definition terminate_code (o : opt_t) (fs : list (list Z)) : option Z :=
  code ← (head fs ≫= int_field);
  if bool_decide (opt_terminate_guard o = 0 ∨
                  head (tl fs) ≫= int_field = Some (opt_terminate_guard o) ∧ opt_exec_on_exit o = true)
  then Some code else None.

Definition terminated (g g' : G) (code : option Z) : Prop :=
  match code with
  | Some code =>
      main_terminate (g_main g') = true ∧ main_exitcode (g_main g') = wrap32 code ∧
      wake_next (g_wake g') = wake_now (g_wake g')
  | None => g_main g' = g_main g ∧ g_wake g' = g_wake g
  end.

Definition terminate_post (g : G) (code : option Z) (ok : bool) (g' : G) : Prop :=
  sound g' ∧ g_opt g' = g_opt g ∧ ok = bool_decide (is_Some code) ∧ terminated g g' code.

Lemma terminate_refused fs' g g' : moved fs' g g' → terminate_post g None false g'.
Proof. intros [Hat [l ->]]. split; [apply Hat|done]. Qed.

Lemma terminate_granted fs' g g' x : moved fs' g g' →
  returns (modify (on_main (set_main_terminate true));; modify (on_main (set_main_exitcode (wrap32 x)));;
           wake_now_again;; mret true) g' (terminate_post g (Some x)).
Proof.
  intros [Hat [l ->]]. eexists true, _. split; [reflexivity|]. split; [|done].
  eapply (sound_same _ _ (ac_sound _ _ _ _ Hat)); [by split|]. apply (sd_sock _ (ac_sound _ _ _ _ Hat)).
Qed.

Lemma terminate_ok fs g : at_cmd i n fs g →
  returns (ctl_cmd_terminate i) g (terminate_post g (terminate_code (g_opt g) fs)).
Proof.
  intros Hat. unfold ctl_cmd_terminate, terminate_code. apply (moved_int fs g g); [by split|]. intros g1 H1.
  destruct (head fs ≫= int_field) as [x|]; cbn [mbind option_bind]; [|apply returns_ret; by eapply terminate_refused].
  assert (Ho : g_opt g1 = g_opt g) by by destruct H1 as [_ [l ->]].
  eapply returns_done; [reflexivity|]. rewrite Ho. generalize (g_opt g) as o. intros o.
  eapply returns_seq; [by apply guard_arg_ok|]. intros ok g2 (-> & fs2 & H2).
  destruct (Z.eqb_spec (opt_terminate_guard o) 0) as [E0|Hne]; cbn [negb andb].
  - rewrite !bool_decide_true by auto. cbn [negb]. by eapply terminate_granted.
  - destruct (decide (head (tl fs) ≫= int_field = Some (opt_terminate_guard o))) as [Ev|Hv].
    + rewrite (bool_decide_true (_ ∨ _ = _)) by auto. cbn [negb]. destruct (opt_exec_on_exit o); cbn [negb].
      * rewrite bool_decide_true by auto. by eapply terminate_granted.
      * rewrite bool_decide_false by naive_solver. eapply moved_fail; [done|]. intros g3 H3. by eapply terminate_refused.
    + rewrite !bool_decide_false by naive_solver. cbn [negb]. apply returns_ret. by eapply terminate_refused.
Qed.

(** ** terminate.guard *)

(** What the guard becomes, if the command succeeds. *)
Definition guard_after (guard : Z) (fs : list (list Z)) : option Z :=
  code ← (head (tl fs) ≫= int_field);
  if code =? 0 then None
  else if bool_decide (head fs = Some (str "+")) then if guard =? 0 then Some code else None
  else if bool_decide (head fs = Some (str "-")) then if guard =? code then Some 0 else None
  else None.

Definition guard_post (g : G) (guard : option Z) (ok : bool) (g' : G) : Prop :=
  sound g' ∧ g_main g' = g_main g ∧ ok = bool_decide (is_Some guard) ∧
  g_opt g' = match guard with Some v => set_opt_terminate_guard v (g_opt g) | None => g_opt g end.

Lemma guard_refused fs' g g' : moved fs' g g' → guard_post g None false g'.
Proof. intros [Hat [l ->]]. split; [apply Hat|done]. Qed.

Lemma guard_granted fs' g g' v : moved fs' g g' →
  returns (modify (on_opt (set_opt_terminate_guard v));; mret true) g' (guard_post g (Some v)).
Proof.
  intros [Hat [l ->]]. eexists true, _. split; [reflexivity|]. split; [|done].
  eapply (sound_same _ _ (ac_sound _ _ _ _ Hat)); [by split|]. apply (sd_sock _ (ac_sound _ _ _ _ Hat)).
Qed.

Lemma guard_sign_ok fs arg : takes fs arg →
  guard_sign arg = Done (if bool_decide (head fs = Some (str "+")) then Some true
                         else if bool_decide (head fs = Some (str "-")) then Some false else None).
Proof.
  change (str "+") with [ch "+"]. change (str "-") with [ch "-"].
  destruct fs as [|f fs]; cbn [takes head]; [intros ->; done|]. intros (s & -> & [Hwf _ _] & <- & _). cbn [guard_sign].
  pose proof (seg_view_length s Hwf) as Hlen. destruct (Z.eqb_spec (seg_len s) 1) as [E1|Hn]; cbn [negb].
  - destruct (seg_view s) as [|c l] eqn:Ev; [cbn in Hlen; lia|]. destruct l; [|cbn in Hlen; lia].
    rewrite (seg_at_lookup s 0 c Hwf) by (try lia; by rewrite Ev). cbn [mbind outcome_bind].
    destruct (Z.eqb_spec c (ch "+")) as [->|H1]; [by rewrite bool_decide_true|]. rewrite (bool_decide_false (_ = Some [ch "+"])) by congruence.
    destruct (Z.eqb_spec c (ch "-")) as [->|H2]; [by rewrite bool_decide_true|]. by rewrite bool_decide_false by congruence.
  - rewrite !bool_decide_false; [done|..]; intros [= E]; rewrite E in Hlen; cbn in Hlen; lia.
Qed.

Lemma terminate_guard_cmd_ok fs g : at_cmd i n fs g →
  returns (ctl_cmd_terminate_guard i) g (guard_post g (guard_after (opt_terminate_guard (g_opt g)) fs)).
Proof.
  intros Hat. unfold ctl_cmd_terminate_guard, guard_after. apply (moved_arg fs g g); [by split|]. intros arg g1 Ht H1.
  rewrite (guard_sign_ok _ _ Ht). eapply step_lift; [reflexivity|]. clear Ht. set (plus := bool_decide (_ = Some (str "+"))).
  set (minus := bool_decide (_ = Some (str "-"))).
  destruct plus; [|destruct minus].
  3: { eapply moved_fail; [exact H1|]. intros g2 H2. destruct (head (tl fs) ≫= int_field) as [code|]; cbn [mbind option_bind]; [|by eapply guard_refused].
       destruct (code =? 0); by eapply guard_refused. }
  all: apply (moved_int (tl fs) g g1 _ _ H1); intros g2 H2.
  all: destruct (head (tl fs) ≫= int_field) as [code|]; cbn [mbind option_bind]; [|apply returns_ret; by eapply guard_refused].
  all: assert (Ho : g_opt g2 = g_opt g) by by destruct H2 as [_ [l ->]].
  all: eapply returns_done; [reflexivity|]; rewrite Ho; generalize (opt_terminate_guard (g_opt g)); intros guard.
  all: destruct (Z.eqb_spec code 0) as [|Hcode]; [eapply moved_fail; [exact H2|]; intros g3 H3; by eapply guard_refused|].
  - destruct (guard =? 0); cbn [negb]; [by eapply guard_granted|].
    eapply moved_fail; [exact H2|]. intros g3 H3. by eapply guard_refused.
  - destruct (Z.eqb_spec guard 0) as [->|Hg].
    + rewrite (proj2 (Z.eqb_neq 0 code)) by done. eapply moved_fail; [exact H2|]. intros g3 H3. by eapply guard_refused.
    + rewrite (Z.eqb_sym guard code). destruct (code =? guard); cbn [negb]; [by eapply guard_granted|].
      eapply moved_fail; [exact H2|]. intros g3 H3. by eapply guard_refused.
Qed.
End command.
End arg.

(** ** An example: the guard is 42, and "3 42" is given *)

Definition guard_ctl : controller_t := set_command (STRSEG (str "3" ++ TAB :: str "42")) controller_0.
Definition guard_state : G :=
  on_opt (λ o, set_opt_terminate_guard 42 (set_opt_exec_on_exit true o)) (set_g_ctl (<[0%nat := guard_ctl]> (g_ctl boot)) boot).

Lemma guard_state_at : at_cmd 0 (length (g_ctl boot)) [str "3"; str "42"] guard_state.
Proof.
  split.
  - apply (sound_same (set_g_ctl (<[0%nat := guard_ctl]> (g_ctl boot)) boot)); [|by split|vm_compute; done].
    apply (sound_set_ctl boot 0 controller_0); [apply boot_sound|done| |done]. split; [done|]. by left.
  - done.
  - exists guard_ctl. split; [reflexivity|]. split; [|reflexivity].
    split; [cbn; lia|vm_compute; done|vm_compute; done|apply (bool_decide_unpack _); vm_compute; done|reflexivity].
Qed.
