(* ===== verification/Main.v ===== *)
(** * daemonproxy.c: start-up and the main loop

    [main_iteration] is the body of the main loop: log, signals, zombies, services,
    new connections, controllers, and the wait for the next event. *)

From S2P Require Import Prelude Strseg State Log Signal CtlOut Fd CtlObj Service CtlArg CtlSock Fatal Options CtlCmd CtlIn.

Definition CONFIG_FILE_DEFAULT_PATH : list Z := str "/etc/daemonproxy.conf".
Definition WNOHANG : Z := 1.

(** version.autogen.c: the first line an interactive session shows. *)
Class Version := version_line : list Z.

Definition copyright : list Z := str "Copyright (C) 2014-2015  Michael Conrad".
Definition license : list Z :=
  str "Distributed under GPLv2.  See LICENSE." ++ LF ::
  str "This is free software: you are free to change and redistribute it." ++ LF ::
  str "There is NO WARRANTY, to the extent permitted by law." ++ [LF].

Section main.
Context `{OS, Inet, CmdTable, OptTable, Version}.

(** ** Start-up *)

Definition fd_to_dev_null (fd : Z) : DP unit :=
  dev_null ← gets (λ g, fd_dev_null (g_fd g));
  fdnum ← sys (CDup dev_null);
  fd_set_fdnum fd (ret fdnum).

(** The loop over the lines of the licence. *)
Fixpoint write_lines (fuel : nat) (i : nat) (text : strseg_t) : DP unit :=
  match fuel with
  | O => nofuel
  | S fuel =>
      '(more, text, line) ← lift (strseg_tok_next text LF);
      if (more : bool) && (seg_len line >? 0) then
        l ← lift (seg_fmt line);
        ctl_write (Some i) (tab_join [str "info"; l]);;
        write_lines fuel i text
      else mret tt
  end.

Definition setup_interactive_mode : DP bool :=
  stdin_fd ← fd_by_name (STRSEG (str "stdin"));
  stdout_fd ← fd_by_name (STRSEG (str "stdout"));
  if (stdin_fd =? 0) || (stdout_fd =? 0) then
    log_error (str "stdin/stdout not available");;
    mret false
  else
    ctl ← ctl_new 0 1;
    match ctl with
    | None => log_error (str "Failed to allocate controller");; mret false
    | Some i =>
        modify (on_main (set_interactive_controller (Some i)));;
        ctl_set_auto_final_newline i false;;
        fd_to_dev_null stdin_fd;;
        fd_to_dev_null stdout_fd;;
        ctl_write (Some i) (tab_join [str "info"; version_line]);;
        ctl_write (Some i) (tab_join [str "info"; copyright]);;
        write_lines (length license + 3) i (STRSEG license);;
        ctl_write (Some i) (tab_join [str "info";
          str "Interactive mode.  Use ^D or 'exit' to terminate.  See 'man daemonproxy' for command syntax."]);;
        mret true
    end.

(** The descriptor of the config file and the object "stdin" if it is standard
    input; [None] when there is none. *)
Definition open_config (path : list Z) : DP (option (Z * Z)) :=
  if bool_decide (path = str "-") then
    stdin_fd ← fd_by_name (STRSEG (str "stdin"));
    n ← (if stdin_fd =? 0 then mret (-1) else fd_get_fdnum stdin_fd);
    if (stdin_fd =? 0) || negb (n =? 0) then
      log_error (str "stdin not available");;
      mret None
    else mret (Some (0, stdin_fd))
  else
    f ← sys (COpen path (Z.lor (Z.lor O_RDONLY O_NONBLOCK) O_NOCTTY));
    if ret f =? -1 then
      e ← strerror_errno;
      log_error (str "Failed to open config file " ++ quoted path ++ str ": " ++ e);;
      mret None
    else mret (Some (ret f, 0)).

Definition setup_config_file (path : list Z) : DP bool :=
  r ← open_config path;
  match r with
  | None => mret false
  | Some (f, stdin_fd) =>
      ctl ← ctl_new f (-1);
      match ctl with
      | None =>
          when (negb (f =? 0)) (sys (CClose f);; mret tt);;
          log_error (str "Failed to allocate controller");;
          mret false
      | Some i =>
          ctl_set_auto_final_newline i true;;
          when (negb (stdin_fd =? 0)) (fd_to_dev_null stdin_fd);;
          mret true
      end
  end.

Definition std_name (i : Z) : list Z :=
  if i =? 0 then str "stdin" else if i =? 1 then str "stdout" else str "stderr".

(** The loop of [daemonize] over the standard descriptors, [n] rounds from [i]. *)
Fixpoint daemonize_close (n : nat) (i : Z) : DP unit :=
  match n with
  | O => mret tt
  | S n =>
      fd ← fd_by_name (STRSEG (std_name i));
      (if negb (fd =? 0) then
         fdnum ← fd_get_fdnum fd;
         when (fdnum =? i) (fd_to_dev_null fd;; sys (CClose i);; mret tt)
       else mret tt);;
      daemonize_close n (i + 1)
  end.

(** The parent prints the number of its child and ends. *)
Definition daemonize : DP unit :=
  pid ← sys CFork;
  if ret pid <? 0 then
    e ← strerror_errno;
    fatal EXIT_INVALID_ENVIRONMENT (str "fork: " ++ e)
  else if ret pid >? 0 then exited 0
  else
    daemonize_close 3 0;;
    r ← sys CSetsid;
    if ret r =? -1 then
      e ← strerror_errno;
      fatal EXIT_INVALID_ENVIRONMENT (str "setsid: " ++ e)
    else mret tt.

(** The loop of [register_open_fds], [n] rounds from [i]. *)
Fixpoint register_loop (n : nat) (i : Z) (result : bool) : DP bool :=
  match n with
  | O => mret result
  | S n =>
      dev_null ← gets (λ g, fd_dev_null (g_fd g));
      is_open ← (if negb (i =? dev_null) then r ← sys (CGetfl i); mret (negb (ret r =? -1)) else mret false);
      result ←
        (if (is_open : bool) || (i <? 3) then
           fdnum ← (if (is_open : bool) then mret i else r ← sys (CDup dev_null); mret (ret r));
           f ← fd_new_unknown (STRSEG (if i <? 3 then std_name i else str "fd_" ++ fmt_d i)) fdnum;
           mret (negb (f =? 0) && result)
         else mret result);
      register_loop n (i + 1) result
  end.

Definition register_open_fds : DP bool := register_loop 1024 0 true.

(** A step of [main] that must succeed. *)
Definition or_fatal (m : DP bool) (exitcode : Z) (msg : list Z) : DP unit :=
  ok ← m;
  when (negb ok) (fatal exitcode msg).

Definition when_some {A} (o : option A) (f : A → DP unit) : DP unit :=
  match o with Some a => f a | None => mret tt end.

(** [main] up to the call of [parse_opts]. *)
Definition main_before_opts : DP unit :=
  now ← gettime_mon_frac;
  modify (on_wake (λ _, set_wake_now now wake_0));;
  log_init;;
  svc_init;;
  fd_init;;
  ctl_init;;
  pid ← sys CGetpid;
  when (ret pid =? 1)
    (modify (on_opt (set_opt_config_file (Some CONFIG_FILE_DEFAULT_PATH)));;
     modify (on_opt (set_opt_terminate_guard 1)));;
  sys (CUmask 63);;
  mret tt.

(** [main] from there to the main loop. *)
Definition main_after_opts : DP unit :=
  o ← gets g_opt;
  when (negb (opt_interactive o) && negb (bool_decide (is_Some (opt_config_file o)))
        && negb (bool_decide (is_Some (opt_socket_path o))))
    (fatal EXIT_BAD_OPTIONS (str "require -i or -c or -S"));;
  when ((opt_fd_pool_count o >? 0) && (opt_fd_pool_size_each o >? 0))
    (or_fatal (fd_preallocate (opt_fd_pool_count o) (opt_fd_pool_size_each o))
       EXIT_INVALID_ENVIRONMENT (str "Unable to preallocate file descriptor objects"));;
  or_fatal fd_init_special_handles EXIT_BROKEN_PROGRAM_STATE (str "Can't initialize all special handles");;
  or_fatal register_open_fds EXIT_BAD_OPTIONS (str "Not enough FD objects to register all open FDs");;
  sig_init;;
  when ((opt_svc_pool_count o >? 0) && (opt_svc_pool_size_each o >? 0))
    (or_fatal (svc_preallocate (opt_svc_pool_count o) (opt_svc_pool_size_each o))
       EXIT_INVALID_ENVIRONMENT (str "Unable to preallocate service objects"));;
  control_socket_init;;
  when_some (opt_socket_path o) (λ p,
    or_fatal (control_socket_start (STRSEG p)) EXIT_INVALID_ENVIRONMENT (str "Can't create controller socket"));;
  when (opt_interactive o)
    (or_fatal setup_interactive_mode EXIT_INVALID_ENVIRONMENT (str "stdin/stdout are not usable!"));;
  when_some (opt_config_file o) (λ p,
    or_fatal (setup_config_file p) EXIT_INVALID_ENVIRONMENT (str "Unable to process config file"));;
  (if opt_mlockall o then
     r ← sys CMlockall;
     when (negb (ret r =? 0)) (e ← strerror_errno; log_error (str "mlockall: " ++ e))
   else mret tt);;
  (if opt_daemonize o then
     pid ← sys CGetpid;
     if (ret pid =? 1) || opt_interactive o then log_warn (str "Ignoring --daemonize (see manual)")
     else daemonize
   else mret tt);;
  now ← gettime_mon_frac;
  modify (on_wake (set_wake_now now)).

(** ** The main loop *)

(** [while ((pid= waitpid(-1, &wstat, WNOHANG)) > 0)]; the answer holds the status.
    [fuel] bounds the number of zombies. *)
Fixpoint reap_loop (fuel : nat) : DP unit :=
  match fuel with
  | O => nofuel
  | S fuel =>
      r ← sys CWaitpid;
      if ret r >? 0 then
        svc ← svc_by_pid (ret r);
        when (negb (svc =? 0)) (svc_handle_reaped svc (nth 0 (out r) 0));;
        reap_loop fuel
      else mret tt
  end.

(** The time [select] may wait: seconds and microseconds, as one number of
    microseconds. *)
Definition select_timeout (w : wake_t) : Z :=
  let d := wrap64 (wake_next w - wake_now w) in
  if d >? 0 then
    Z.shiftr d 32 * 1000000 + Z.shiftr (wrap64 (Z.land d 0xFFFFFFFF * 1000000)) 32
  else 0.

(** The answer of [select] lists the ready descriptors: [3 * fd] for reading,
    [3 * fd + 1] for writing, [3 * fd + 2] for exceptions. *)
Definition ready_set (k : Z) (asked : gset Z) (answer : list Z) : gset Z :=
  filter (λ fd, 3 * fd + k ∈ answer) asked.

(** [select] and what follows it: the sets of an error are those that were asked. *)
Definition main_select : DP unit :=
  w ← gets g_wake;
  r ← sys (CSelect (wake_max_fd w + 1) (wake_fd_read w) (wake_fd_write w) (wake_fd_err w) (select_timeout w));
  (if ret r <? 0 then
     e ← gets g_errno;
     when (negb (e =? EINTR))
       (log_error (str "select: " ++ strerror e);; sys (CUsleep 500000);; mret tt)
   else mret tt);;
  let ready k s := if ret r <? 0 then s else ready_set k s (out r) in
  modify (on_wake (λ v,
    set_wake_fd_read ∅ (set_wake_fd_write ∅ (set_wake_fd_err ∅
      (set_wake_fd_ready_read (ready 0 (wake_fd_read v))
        (set_wake_fd_ready_write (ready 1 (wake_fd_write v))
          (set_wake_fd_ready_err (ready 2 (wake_fd_err v)) v))))))).

Definition main_iteration (fuel : nat) : DP unit :=
  modify (on_wake (λ w, set_wake_max_fd (-1) (set_wake_next (wrap64 (wake_now w + 200 * 2 ^ 32)) w)));;
  log_run;;
  sig_run fuel;;
  reap_loop fuel;;
  svc_run_active;;
  control_socket_run;;
  ctl_run;;
  log_run;;
  now ← gettime_mon_frac;
  modify (on_wake (set_wake_now now));;
  main_select;;
  now ← gettime_mon_frac;
  modify (on_wake (set_wake_now now)).

(** [iterations] bounds the rounds of the loop, [fuel] what a round reads and reaps. *)
Fixpoint main_loop (iterations fuel : nat) : DP unit :=
  match iterations with
  | O => nofuel
  | S iterations =>
      m ← gets g_main;
      if main_terminate m then mret tt
      else
        main_iteration fuel;;
        main_loop iterations fuel
  end.

(** The end of [main]. *)
Definition main_end : DP Z :=
  o ← gets g_opt;
  m ← gets g_main;
  when (opt_exec_on_exit o) (fatal (main_exitcode m) (str "terminated normally"));;
  log_info (str "daemonproxy exiting");;
  log_running_services;;
  mret (main_exitcode m).

(** [argv] without the name of the program. *)
Definition main (iterations fuel : nat) (argv : list (list Z)) : DP Z :=
  main_before_opts;;
  parse_opts argv;;
  main_after_opts;;
  main_loop iterations fuel;;
  main_end.
End main.
