(* ===== verification/Machine.v ===== *)
(** * The controllers as a machine that never gets stuck

    [ready] says what holds of the daemon between the steps of the main loop that
    concern controllers: it is sound, and each controller's buffer, descriptors and
    state fit together.  Every step can be made in a ready state and leads to a ready
    state. *)

From S2P Require Import Prelude Strseg State RBTree RBTreeRep OrdIndex RBTreeIndex Table Log Signal SignalSpec CtlOut CtlOutSpec SvcVars Fd FdSpec FdThms CtlObj Service Dll ServiceSpec SvcRun SvcActive SvcNew SvcThms Walk SvcLists Sound SoundSvc CtlArg CtlSock Fatal Options CtlCmd CtlObjCmd SoundFd SoundArg SoundSock SoundCmd SoundObjCmd SoundSvcCmd CtlIn CtlTable Preserves Frame CtlFrame CtlFraming SoundCtl SoundDump SoundThms.

(** ** What a controller is like between two steps *)

(** The line that is being carried out is in the buffer. *)
Definition has_text (c : controller_t) : Prop := 1 ≤ line_len c ≤ Z.of_nat (length (recv_buf c)).

Definition state_fits (s : ctl_state_fn_t) (c : controller_t) : Prop :=
  match s with
  | ctl_state_next_command => recv_fd c < 0 → Z.of_nat (length (recv_buf c)) < CONTROLLER_RECV_BUF_SIZE
  | ctl_state_run_command => ∃ text rest, line_in c text rest
  | ctl_state_end_command | ctl_state_dump_services | ctl_state_dump_signals => has_text c
  | ctl_state_dump_fds => has_text c ∧ Z.of_nat (length (statedump_current c)) < NAME_BUF_SIZE
  | ctl_state_close | ctl_state_free => True
  end.

Definition fits (c : controller_t) : Prop :=
  match state_fn c with None => True | Some s => room_ok c ∧ state_fits s c end.

Definition fds_fit (c : controller_t) : Prop := recv_fd c < FD_SETSIZE ∧ send_fd c < FD_SETSIZE.

(** What the other parts of the main loop need: the pipe of the signals can be waited for,
    the signals that arrived are in order, services were told of signals up to a time that
    can be, and the log has a name. *)
Record rest_ready (g : G) : Prop := {
  re_pipe : 0 ≤ sig_wake_rd (g_sig g) < FD_SETSIZE;
  re_new : sig_inv (new_signals (g_sig g)) ∧ ∀ s, s ∈ new_signals (g_sig g) → signum s ≠ 0 → 0 < number_pending s;
  re_last : 0 ≤ svc_last_signal_ts (g_svc g) < 2 ^ 62;
  re_name : Z.of_nat (length (log_dest_fd_name (g_log g))) < NAME_BUF_SIZE;
}.

Lemma rest_ready_same g g' : settings_same g g' → rest_ready g → rest_ready g'.
Proof. intros [Ep En El Hn] []. split; rewrite ?Ep, ?En, ?El; auto. Qed.

Record ready (g : G) : Prop := {
  rd_sound : sound g;
  rd_len : length (g_ctl g) = CONTROLLER_MAX_CLIENTS;
  rd_fds i c : g_ctl g !! i = Some c → fds_fit c;
  rd_fits i c : g_ctl g !! i = Some c → fits c;
  rd_rest : rest_ready g;
}.

(** Nothing of this is touched. *)
Record undisturbed (c c' : controller_t) : Prop := {
  un_input : input_of c' = input_of c;
  un_state : state_fn c' = state_fn c;
  un_recv : recv_fd c' = recv_fd c;
  un_dump : statedump_current c' = statedump_current c;
  un_send : send_fd c' = send_fd c ∨ send_fd c' = -1;
}.

#[export] Instance undisturbed_preorder : PreOrder undisturbed.
Proof.
  split; [intros c; split; auto|]. intros c1 c2 c3 [] []. split; try congruence. destruct un_send0, un_send1; [left|right..]; congruence.
Qed.

Lemma fits_undisturbed c c' : undisturbed c c' → fits c → fits c'.
Proof.
  intros [Ei Es Er Ed _]. injection Ei as Eb Eo El Ea. unfold fits, room_ok, state_fits, has_text, line_in.
  by rewrite Es, Er, Ed, Eb, El.
Qed.

(** Every controller but [i] is undisturbed, and none comes or goes. *)
Definition others (i : option nat) (g g' : G) : Prop := length (g_ctl g') = length (g_ctl g) ∧
  ∀ j c, Some j ≠ i → g_ctl g !! j = Some c → ∃ c', g_ctl g' !! j = Some c' ∧ undisturbed c c'.

#[export] Instance others_preorder i : PreOrder (others i).
Proof.
  split; [intros g; split; [done|]; intros j c Hj Hc; by exists c|]. intros g1 g2 g3 [L1 H1] [L2 H2]. split; [congruence|].
  intros j c Hj Hc. destruct (H1 j c Hj Hc) as (c2 & Hc2 & U). destruct (H2 j c2 Hj Hc2) as (c3 & Hc3 & U3).
  exists c3. split; [done|by etransitivity].
Qed.

Lemma others_update i j g c c' : g_ctl g !! j = Some c → (Some j ≠ i → undisturbed c c') → others i g (set_g_ctl (<[j := c']> (g_ctl g)) g).
Proof.
  intros Hc Hu. split; [cbn; apply length_insert|]. intros k ck Hk Hck. cbn. destruct (decide (k = j)) as [->|Hne].
  - rewrite list_lookup_insert_eq by (by eapply lookup_lt_Some). exists c'. split; [done|]. assert (ck = c) as -> by congruence. by apply Hu.
  - rewrite list_lookup_insert_ne by done. by exists ck.
Qed.

#[export] Instance others_frame i : Frame (others i).
Proof.
  split; [apply _| |].
  - intros g g' E _. split; [by rewrite E|]. intros j c _ Hc. rewrite E. by exists c.
  - intros j f g c Hf Hc. eapply others_update; [exact Hc|]. intros _. destruct (Hf c) as (? & ? & ? & ? & ?). by split.
Qed.

Lemma others_upd i f : preserves (others (Some i)) (upd_ctl i f).
Proof.
  intros g a g'. unfold upd_ctl. destruct (g_ctl g !! i) as [c|] eqn:Hc; [|done]. intros [= _ <-]. by eapply others_update.
Qed.

(** No operation but the constructor assigns a descriptor to a controller. *)
Definition fewer (c c' : controller_t) : Prop :=
  (recv_fd c' = recv_fd c ∨ recv_fd c' = -1) ∧ (send_fd c' = send_fd c ∨ send_fd c' = -1).

#[export] Instance fewer_preorder : PreOrder fewer.
Proof.
  split; [intros c; split; auto|]. intros c1 c2 c3 [R1 S1] [R2 S2].
  split; [destruct R1, R2|destruct S1, S2]; first [left; congruence|right; congruence].
Qed.

Definition fewer_fds (g g' : G) : Prop := Forall2 fewer (g_ctl g) (g_ctl g').

#[export] Instance fewer_fds_preorder : PreOrder fewer_fds.
Proof. unfold fewer_fds. split; [by intros g|]. intros g1 g2 g3 H1 H2. by etransitivity. Qed.

Lemma fewer_update f i g c : (∀ c, fewer c (f c)) → g_ctl g !! i = Some c → fewer_fds g (set_g_ctl (<[i := f c]> (g_ctl g)) g).
Proof.
  intros Hf Hi. unfold fewer_fds. cbn. rewrite <-(list_insert_id (g_ctl g) i c) at 1 by done. apply Forall2_insert; [done|apply Hf].
Qed.

#[export] Instance fewer_frame : Frame fewer_fds.
Proof.
  split; [apply _|intros g g' E _; unfold fewer_fds; by rewrite E|]. intros i f g c Hf Hi. apply fewer_update; [|done].
  intros x. destruct (Hf x) as (_ & _ & E & _ & Hs). split; [by left|done].
Qed.

Lemma fewer_upd i f : (∀ c, fewer c (f c)) → preserves fewer_fds (upd_ctl i f).
Proof.
  intros Hf g a g'. unfold upd_ctl. destruct (g_ctl g !! i) as [c|] eqn:Hc; [|done]. intros [= _ <-]. by apply fewer_update.
Qed.

Lemma fds_fit_fewer c c' : fewer c c' → fds_fit c → fds_fit c'.
Proof. intros [Hr Hs] [? ?]. unfold fds_fit, FD_SETSIZE in *. destruct Hr as [->| ->], Hs as [->| ->]; lia. Qed.

(** What an operation on the controller [i] leaves alone, or any operation if there is
    none. *)
Record around (i : option nat) (g g' : G) : Prop := {
  ar_others : others i g g';
  ar_fewer : fewer_fds g g';
  ar_settings : settings_same g g';
}.

#[export] Instance around_preorder i : PreOrder (around i).
Proof. split; [by split|]. intros g1 g2 g3 [] []. split; by etransitivity. Qed.

#[export] Instance around_frame i : Frame (around i).
Proof.
  split; [apply _|intros g g' E S; split; [by apply frame_same..|done]|].
  intros j f g c Hf Hc. split; [by apply frame_update..|done].
Qed.

Lemma around_upd i f : (∀ c, fewer c (f c)) → preserves (around (Some i)) (upd_ctl i f).
Proof.
  intros Hf g a g' E. split; [by eapply others_upd|by eapply fewer_upd|].
  unfold upd_ctl in E. destruct (g_ctl g !! i); [|done]. by injection E as _ <-.
Qed.

(** An operation on the controller [i] keeps the daemon ready if that controller fits. *)
Lemma ready_op i g g' : ready g → sound g' → around (Some i) g g' → (∀ c, g_ctl g' !! i = Some c → fits c) → ready g'.
Proof.
  intros [_ Hlen Hfds Hr Hrest] Hg [[Hl Ho] Hfew Hset] Hi. split; [done|congruence|..|by eapply rest_ready_same].
  - intros j c' Hc'. eapply Forall2_lookup_r in Hc' as (c & Hc & F); [|exact Hfew]. eapply fds_fit_fewer; [exact F|]. by eapply Hfds.
  - intros j c' Hc'. destruct (decide (j = i)) as [->|Hne]; [by apply Hi|].
    destruct (lookup_lt_is_Some_2 (g_ctl g) j) as [c Hc]; [rewrite <-Hl; by eapply lookup_lt_Some|].
    destruct (Ho j c ltac:(congruence) Hc) as (c2 & Hc2 & U). assert (c2 = c') as -> by congruence.
    eapply fits_undisturbed; [exact U|]. by eapply Hr.
Qed.

(** An operation that leaves all controllers alone. *)
Lemma ready_around g g' : ready g → sound g' → around None g g' → ready g'.
Proof.
  intros [_ Hlen Hfds Hr Hrest] Hg [[Hl Ho] Hfew Hset]. split; [done|congruence|..|by eapply rest_ready_same].
  - intros j c' Hc'. eapply Forall2_lookup_r in Hc' as (c & Hc & F); [|exact Hfew]. eapply fds_fit_fewer; [exact F|]. by eapply Hfds.
  - intros j c' Hc'. destruct (lookup_lt_is_Some_2 (g_ctl g) j) as [c Hc]; [rewrite <-Hl; by eapply lookup_lt_Some|].
    destruct (Ho j c ltac:(done) Hc) as (c2 & Hc2 & U). assert (c2 = c') as -> by congruence.
    eapply fits_undisturbed; [exact U|]. by eapply Hr.
Qed.

Lemma after_undisturbed {A} i (m : DP A) (Q : A → controller_t → Prop) c : preserves (others None) m →
  (∀ a c', undisturbed c c' → Q a c') → after i m Q c.
Proof.
  intros Hm HQ g a g' Hi E. destruct (Hm g a g' E) as [_ Ho]. destruct (Ho i c ltac:(done) Hi) as (c' & Hi' & U).
  exists c'. split; [done|]. by apply HQ.
Qed.

Create HintDb machine.

(** Computations about the controller [i]: the others are left alone, and descriptors
    only go away. *)
Ltac machine :=
  repeat first
    [ frame_step
    | solve [auto 2 with machine nocore]
    | apply around_upd; intros []; split; auto; done
    | unfold_call ].

Section machine.
Context `{OS, Inet, CmdTable}.
Variable i : nat.

Lemma around_command cmd : preserves (around (Some i)) (ctl_cmd_fn cmd i).
Proof.
  destruct (quiet_command cmd) eqn:Hq; [by apply frame_command; [apply _|]|]. destruct cmd; try done; cbn [ctl_cmd_fn]; machine.
Qed.
#[local] Hint Resolve around_command : machine.

Lemma around_state s : preserves (around (Some i)) (ctl_state s i).
Proof. destruct s; cbn [ctl_state]; machine. Qed.

Lemma around_try_read : preserves (around (Some i)) (ctl_try_read i).
Proof. machine. Qed.

Lemma around_run_two : preserves (around (Some i)) (ctl_run_two i).
Proof. machine. Qed.

(** ** The state functions, on their controller *)

(** A step that leaves the controller alone. *)
Lemma after_still {A B} (m : DP A) (f : A → DP B) Q c : preserves (others None) m →
  (∀ a c', undisturbed c c' → after i (f a) Q c') → after i (m ≫= f) Q c.
Proof. intros Hm Hf. apply after_bind. eapply after_undisturbed; [exact Hm|]. auto. Qed.

Lemma fits_got_line c eol : room_ok c → (eol < length (recv_buf c))%nat → after i (ctl_got_line i eol) (λ _, fits) c.
Proof.
  intros Hr He. unfold ctl_got_line. apply after_bind, after_upd, after_bind, after_upd, after_bind, after_get.
  apply after_still; [machine|]. intros _ c1 U. apply after_bind, after_upd, after_ret.
  destruct U as [Ei _ _ _ _]. injection Ei as Eb _ El _. cbn in Eb, El. unfold fits. cbn [set_state_fn state_fn state_fits].
  unfold room_ok, line_in. cbn [set_state_fn recv_buf line_len]. rewrite Eb, El. split; [by rewrite length_insert|].
  exists (take eol (recv_buf c)), (drop (S eol) (recv_buf c)). split; [by apply insert_take_drop|]. rewrite length_take. lia.
Qed.

Lemma after_next_command c : fits c → state_fn c = Some ctl_state_next_command → after i (next_command i) (λ _, fits) c.
Proof.
  intros Hf Hst. unfold next_command. apply after_still; [machine|]. intros ok c1 U.
  rewrite <-(un_state _ _ U) in Hst. apply (fits_undisturbed _ _ U) in Hf. clear c U.
  destruct ok; cbn [negb]; [|by apply after_ret]. apply after_bind, after_get.
  unfold fits in Hf. rewrite Hst in Hf. destruct Hf as [Hr Hl]. cbn [state_fits] in Hl.
  pose proof (find_eol_spec (recv_buf c1)) as He. destruct (Z.ltb_spec (recv_fd c1) 0) as [Hfd|Hfd].
  - unfold ctl_next_at_eof. apply after_bind, after_get. destruct (length (recv_buf c1) =? 0)%nat; [by apply after_bind, after_upd, after_ret|].
    apply after_bind. eapply (after_mono _ _ (λ eol' c2, room_ok c2 ∧ ∀ k, eol' = Some k → (k < length (recv_buf c2))%nat)).
    + destruct (_ && _).
      * apply after_still; [machine|]. intros _ c2 U. apply after_bind, after_assert. intros Hn.
        apply after_bind, after_upd, after_ret. destruct U as [Ei _ _ _ _]. injection Ei as Eb _ _ _.
        unfold room_ok. cbn [set_recv_buf recv_buf]. rewrite Eb, length_app. cbn [length]. split; [lia|]. intros k [= <-]. lia.
      * apply after_ret. split; [done|]. intros k Hk. rewrite Hk in He. apply He.
    + intros [k|] c2 [Hr2 Hk]; [by apply fits_got_line, Hk|]. apply after_still; [machine|]. intros _ c3 U.
      apply after_bind, after_upd, after_bind, after_upd, after_ret. unfold fits, room_ok. cbn. unfold CONTROLLER_RECV_BUF_SIZE. lia.
  - destruct (find_eol (recv_buf c1)) as [eol|]; [by apply fits_got_line; [|apply He]|].
    destruct (_ >=? _); [|apply after_ret; unfold fits; by rewrite Hst].
    apply after_bind, after_upd, after_bind, after_upd. apply after_still; [machine|]. intros _ c2 U. apply after_ret.
    eapply fits_undisturbed; [exact U|]. unfold fits. cbn [set_recv_buf set_recv_overflow state_fn]. rewrite Hst.
    unfold room_ok. cbn -[take]. split; [|lia]. rewrite length_take. unfold CONTROLLER_RECV_BUF_SIZE. lia.
Qed.

(** What a command does to its controller: nothing, or it closes it, or it starts a
    statedump. *)
Definition commanded (c c' : controller_t) : Prop :=
  input_of c' = input_of c ∧
  (state_fn c' = state_fn c ∨ state_fn c' = Some ctl_state_close ∨
   state_fn c' = Some ctl_state_dump_fds ∧ statedump_current c' = []).

Lemma commanded_undisturbed c c' : undisturbed c c' → commanded c c'.
Proof. intros []. by split; [|left]. Qed.

Lemma after_command cmd c : after i (ctl_cmd_fn cmd i) (λ _, commanded c) c.
Proof.
  destruct (quiet_command cmd) eqn:Hq.
  - eapply after_undisturbed; [by apply frame_command; [apply _|]|]. intros _ c'. apply commanded_undisturbed.
  - destruct cmd; try done; cbn [ctl_cmd_fn].
    + unfold ctl_cmd_statedump. apply after_bind, after_upd, after_bind, after_upd, after_bind, after_upd, after_ret.
      split; [done|]. right. by right.
    + unfold ctl_cmd_exit. apply after_bind, after_get. apply after_still; [machine|]. intros _ c1 [Ei _ _ _ _].
      apply after_bind, after_upd, after_bind, after_upd, after_ret. split; [exact Ei|]. right. by left.
Qed.

Lemma commanded_from c c1 c' : undisturbed c c1 → commanded c1 c' → commanded c c'.
Proof. intros [Ei Es _ _ _] [Ei' Es']. split; [congruence|]. by rewrite <-Es. Qed.

Lemma after_dispatch c : after i (dispatch i) (λ _, commanded c) c.
Proof.
  unfold dispatch. apply after_bind, after_get.
  apply after_still; [machine|]. intros _ c1 U1. apply after_still; [machine|]. intros _ c2 U2.
  apply after_still; [machine|]. intros name c3 U3. apply after_still; [machine|]. intros _ c4 U4.
  apply after_bind, after_get. apply after_still; [machine|]. intros cmd c5 U5.
  pose proof (transitivity U1 (transitivity U2 (transitivity U3 (transitivity U4 U5)))) as U.
  eapply (after_mono _ _ (λ _, commanded c5)); [|intros ? c6 Hc; by eapply commanded_from]. destruct cmd as [cmd|].
  - apply after_bind. eapply after_mono; [apply after_command|]. intros ok c6 Hc6.
    eapply after_undisturbed; [machine|]. intros _ c7 [Ei Es _ Ed _]. destruct Hc6 as [Ei6 Es6]. split; [congruence|]. by rewrite Es, Ed.
  - eapply after_undisturbed; [machine|]. intros _ c6. apply commanded_undisturbed.
Qed.

Lemma line_has_text c text rest : line_in c text rest → has_text c.
Proof. intros [Hb Hl]. unfold has_text. rewrite Hb, length_app. cbn [length]. lia. Qed.

Lemma fits_commanded c c' : room_ok c → has_text c → state_fn c = Some ctl_state_end_command → commanded c c' → fits c'.
Proof.
  intros Hr Ht Hst [Ei Es]. injection Ei as Eb _ El _. assert (Ht' : has_text c') by (unfold has_text; by rewrite Eb, El).
  assert (Hr' : room_ok c') by (unfold room_ok; by rewrite Eb). unfold fits.
  destruct Es as [Es|[Es|[Es Ed]]]; rewrite Es; [by rewrite Hst|by split|]. split; [done|]. cbn [state_fits]. split; [done|]. rewrite Ed. cbn. unfold NAME_BUF_SIZE. lia.
Qed.

Lemma after_run_command c : fits c → state_fn c = Some ctl_state_run_command → after i (run_command i) (λ _, fits) c.
Proof.
  intros Hf Hst. unfold run_command. apply after_still; [machine|]. intros ok c1 U.
  rewrite <-(un_state _ _ U) in Hst. apply (fits_undisturbed _ _ U) in Hf. clear c U.
  destruct ok; cbn [negb]; [|by apply after_ret]. unfold fits in Hf. rewrite Hst in Hf. destruct Hf as [Hr (text & rest & Hl)].
  apply after_bind, after_upd, after_bind, after_get, after_bind.
  eapply (after_mono _ _ (λ _ c', ∃ c2, room_ok c2 ∧ has_text c2 ∧ state_fn c2 = Some ctl_state_end_command ∧ commanded c2 c')).
  2: { intros _ c' (c2 & ? & ? & ? & ?). apply after_ret. by eapply fits_commanded. }
  assert (Ht : has_text c1) by by eapply line_has_text.
  destruct (recv_overflow _).
  - apply after_bind, after_upd. eapply after_undisturbed; [machine|]. intros ? c' U. eexists. split_and!; [| | |by apply commanded_undisturbed]; [exact Hr|exact Ht|done].
  - eapply after_mono; [apply after_dispatch|]. intros ? c' Hc'. eexists. split_and!; [| | |exact Hc']; [exact Hr|exact Ht|done].
Qed.

Lemma after_end_command c : fits c → state_fn c = Some ctl_state_end_command → after i (end_command i) (λ _, fits) c.
Proof.
  intros Hf Hst. unfold fits in Hf. rewrite Hst in Hf. destruct Hf as [Hr [Hl Hb]]. unfold end_command.
  apply after_bind, after_get. rewrite (proj2 (Z.gtb_lt _ _)) by lia. cbn [when].
  apply after_bind, after_bind, after_upd, after_upd, after_bind, after_upd, after_ret.
  unfold fits, room_ok in *. cbn -[drop]. rewrite length_drop. lia.
Qed.
End machine.
