(* ===== verification/MachineCtl.v ===== *)
(** * The operations on one controller

    They return from every ready state, and the state they return is ready. *)

From S2P Require Import Prelude Strseg State RBTree RBTreeRep OrdIndex RBTreeIndex Table Log Signal SignalSpec CtlOut CtlOutSpec SvcVars Fd FdSpec FdThms CtlObj Service Dll ServiceSpec SvcRun SvcActive SvcNew SvcThms Walk SvcLists Sound SoundSvc CtlArg CtlSock Fatal Options CtlCmd CtlObjCmd SoundFd SoundArg SoundSock SoundCmd SoundObjCmd SoundSvcCmd CtlIn CtlTable Preserves Frame CtlFrame CtlFraming SoundCtl SoundDump SoundThms Machine.

(** ** Reading, flushing and waiting return *)

(** The controller [i] is there, with descriptors that fit the sets of [select]. *)
Record in_range (i : nat) (g : G) : Prop := {
  ir_sound : sound g;
  ir_there : (i < length (g_ctl g))%nat;
  ir_fds : ∀ c, g_ctl g !! i = Some c → fds_fit c;
}.

Section fine.
Context `{OS} `{!WriteOk} `{Inet} `{CmdTable}.
Variable i : nat.

(** The computation returns and the controller is still in range. *)
Definition fine {A} (m : DP A) (P : A → Prop) : Prop := ∀ g, in_range i g → returns m g (λ a g', in_range i g' ∧ still g g' ∧ P a).

Lemma fine_ret {A} (a : A) (P : A → Prop) : P a → fine (mret a) P.
Proof. intros HP g Hg. apply returns_ret. split_and!; [done| |done]. split; [apply Hg|done]. Qed.

Lemma fine_seq {A B} (m : DP A) (f : A → DP B) P Q : fine m P → (∀ a, P a → fine (f a) Q) → fine (m ≫= f) Q.
Proof.
  intros Hm Hf g Hg. eapply returns_seq; [by apply Hm|]. intros a g1 (Hg1 & S1 & Ha).
  eapply returns_mono; [by apply (Hf a Ha)|]. intros b g2 (Hg2 & S2 & Hb). split_and!; [done| |done]. by eapply still_trans.
Qed.

Lemma fine_any {A} (m : DP A) P : fine m P → fine m (λ _, True).
Proof. intros Hm g Hg. eapply returns_mono; [by apply Hm|]. by intros a g' (? & ? & _). Qed.

Lemma fine_from {A} (m : DP A) (P : A → Prop) : preserves (around (Some i)) m →
  (∀ g c, sound g → g_ctl g !! i = Some c → returns m g (λ a g', still g g' ∧ P a)) → fine m P.
Proof.
  intros Hf Hm g [Hg Hi Hfds]. destruct (lookup_lt_is_Some_2 _ _ Hi) as [c Hc].
  destruct (Hm g c Hg Hc) as (a & g' & E & Hs & Ha). exists a, g'. split; [done|]. split_and!; [|done|done].
  split; [apply Hs|by rewrite (proj2 Hs)|]. intros c' Hc'. apply Hf in E as [_ E _].
  eapply Forall2_lookup_r in Hc' as (c1 & Hc1 & F); [|exact E]. eapply fds_fit_fewer; [exact F|]. by apply Hfds.
Qed.

Lemma fine_keeps {A} (m : DP A) P : keeps m P → preserves (around (Some i)) m → fine m P.
Proof.
  intros Hm Hf. apply fine_from; [done|]. intros g c Hg _. eapply returns_mono; [by apply Hm|].
  intros a g' (? & ? & ?). split; [by apply kept_still|done].
Qed.

Lemma fine_get : fine (get_ctl i) fds_fit.
Proof.
  intros g Hg. destruct (lookup_lt_is_Some_2 _ _ (ir_there _ _ Hg)) as [c Hc]. exists c, g. split; [by apply get_ctl_eq|].
  split_and!; [done| |by eapply ir_fds]. split; [apply Hg|done].
Qed.

Lemma fine_upd f : (∀ c, fewer c (f c)) → (∀ c, send_buf (f c) = send_buf c) →
  (∀ c, last_signal_ts (f c) = last_signal_ts c) → fine (upd_ctl i f) (λ _, True).
Proof.
  intros Hf E1 E2. apply fine_from; [by apply around_upd|]. intros g c Hg Hc.
  eapply returns_mono; [apply (still_upd i f g c Hg Hc (E1 c)); rewrite E2; exact (sd_seen _ Hg _ _ Hc)|]. by intros ? ? [? _].
Qed.

Lemma fine_when b (m : DP unit) : (b = true → fine m (λ _, True)) → fine (when b m) (λ _, True).
Proof. destruct b; intros Hm; [by apply Hm|by apply fine_ret]. Qed.

Lemma fine_flush : fine (ctl_flush_outbuf i) (λ _, True).
Proof.
  apply fine_from; [machine|]. intros g c Hg Hc. eapply returns_mono; [by eapply sound_flush|].
  intros a g' (? & ? & _). split; [by apply kept_still|done].
Qed.

Lemma fine_assert fd : 0 ≤ fd < FD_SETSIZE → fine (assert (fd_fits fd)) (λ _, True).
Proof. intros Hfd. apply fine_keeps; [|machine]. apply keeps_assert. unfold fd_fits. lia. Qed.

Lemma fine_gets {A} (f : G → A) : fine (gets f) (λ _, True).
Proof. apply fine_keeps; [by apply keeps_gets|machine]. Qed.

Lemma fine_wake f : fine (modify (on_wake f)) (λ _, True).
Proof. apply fine_keeps; [apply keeps_set_wake|machine]. Qed.

Lemma fine_log level msg : fine (log_write level msg;; mret tt) (λ _, True).
Proof. apply fine_keeps; [apply keeps_log|machine]. Qed.

Lemma fine_sys call : fine (sys call) (λ _, True).
Proof. apply fine_keeps; [apply keeps_sys|machine]. Qed.

Lemma fine_errno e : fine (modify (set_g_errno e)) (λ _, True).
Proof. apply fine_keeps; [apply keeps_set_errno|machine]. Qed.

Lemma fine_dtor : fine (ctl_dtor i) (λ _, True).
Proof.
  apply fine_from; [machine|]. intros g c Hg Hc. eapply returns_mono; [by eapply dtor_still|]. done.
Qed.

Lemma fine_free : fine (ctl_free (Some i)) (λ _, True).
Proof.
  apply fine_from; [machine|]. intros g c Hg Hc. eapply returns_mono; [by eapply ctl_free_still|]. done.
Qed.

Lemma fine_then {A B} (m : DP A) (f : A → DP B) Q : fine m (λ _, True) → (∀ a, fine (f a) Q) → fine (m ≫= f) Q.
Proof. intros Hm Hf. eapply fine_seq; [exact Hm|]. auto. Qed.

Lemma fine_free_ret {A} (a : A) : fine (mret a) (λ _, True).
Proof. by apply fine_ret. Qed.

Lemma fine_get_then {B} (k : controller_t → DP B) Q : (∀ c, fds_fit c → fine (k c) Q) → fine (get_ctl i ≫= k) Q.
Proof. intros Hk. eapply fine_seq; [apply fine_get|exact Hk]. Qed.

(** One step of a proof that a computation is [fine]; the descriptors are left to [lia]. *)
Ltac fine_step :=
  match goal with
  | |- fine (get_ctl i ≫= _) _ => apply fine_get_then; intros ? [? ?]
  | |- fine (_ ≫= _) _ => first [apply fine_log | apply fine_then; [|intros ?]]
  | |- fine (match ?x with _ => _ end) _ => destruct x
  | |- fine (mret _) _ => apply fine_free_ret
  | |- fine (log_error _) _ => apply fine_log
  | |- fine (log_warn _) _ => apply fine_log
  | |- fine (log_debug _) _ => apply fine_log
  | |- fine (sys _) _ => apply fine_sys
  | |- fine (modify (set_g_errno _)) _ => apply fine_errno
  | |- fine (modify (on_wake _)) _ => apply fine_wake
  | |- fine (gets _) _ => apply fine_gets
  | |- fine (assert _) _ => apply fine_assert; unfold fds_fit in *; lia
  | |- fine (upd_ctl i _) _ => apply fine_upd; [intros []; split; auto; done|done|done]
  | |- fine (when _ _) _ => apply fine_when; intros ?
  end.
Ltac fine := repeat first [fine_step | solve [auto 2 with machine nocore]].
#[local] Hint Resolve fine_flush fine_dtor fine_free : machine.

(** ** The operations *)

Lemma fine_read_ancillary l : fine (ctl_read_ancillary_fds i l) (λ _, True).
Proof. induction l as [|fd l IH]; cbn [ctl_read_ancillary_fds]; fine. Qed.
#[local] Hint Resolve fine_read_ancillary : machine.

Lemma fine_read_more : fine (ctl_read_more i) (λ _, True).
Proof. unfold ctl_read_more, ctl_read_failed. fine. Qed.
#[local] Hint Resolve fine_read_more : machine.

Lemma fine_try_read : fine (ctl_try_read i) (λ _, True).
Proof.
  unfold ctl_try_read, woke_on_readable. apply fine_get_then; intros c [Hr Hs].
  destruct (Z.geb_spec (recv_fd c) 0); fine.
Qed.

Lemma fine_try_flush : fine (ctl_try_flush i) (λ _, True).
Proof.
  unfold ctl_try_flush, woke_on_writeable. apply fine_get_then; intros c [Hr Hs].
  destruct (Z.geb_spec (send_fd c) 0); fine.
Qed.

(** A controller that is looked up twice. *)
Lemma fine_get_again {B} (b : controller_t → bool) (k e : controller_t → DP B) Q :
  (∀ c, fds_fit c → fine (if b c then k c else e c) Q) → fine (get_ctl i ≫= λ c, if b c then get_ctl i ≫= k else e c) Q.
Proof.
  intros Hk g Hg. destruct (lookup_lt_is_Some_2 _ _ (ir_there _ _ Hg)) as [c Hc].
  eapply returns_done; [by apply get_ctl_eq|]. specialize (Hk c (ir_fds _ _ Hg c Hc) g Hg).
  destruct (b c); [|done]. eapply returns_done; [by apply get_ctl_eq|exact Hk].
Qed.

Lemma fine_run_two : fine (ctl_run_two i) (λ _, True).
Proof.
  unfold ctl_run_two, ctl_check_blocked, wake_on_writeable, wake_on_readable, wake_now_again.
  apply fine_get_then; intros c1 _. destruct (state_fn c1); [|fine]. apply fine_then; [|intros closed].
  - destruct (_ && _); [|fine]. apply fine_then; [fine|intros flushed].
    apply fine_get_again. intros c2 [Hr Hs]. destruct (negb flushed); cbn [andb]; [|fine].
    destruct (Z.geb_spec (send_fd c2) 0); fine.
  - destruct closed; [fine|]. apply fine_get_then; intros c2 [Hr Hs].
    destruct (Z.geb_spec (recv_fd c2) 0); fine.
Qed.
End fine.

(** ** What they leave of their controller *)

(** Bytes were added to the buffer; the reader is at the end of the input only when there
    is room. *)
Lemma fits_more c c' bytes : fits c → recv_buf c' = recv_buf c ++ bytes → line_len c' = line_len c → state_fn c' = state_fn c →
  statedump_current c' = statedump_current c → Z.of_nat (length (recv_buf c')) ≤ CONTROLLER_RECV_BUF_SIZE →
  (recv_fd c' < 0 → Z.of_nat (length (recv_buf c')) < CONTROLLER_RECV_BUF_SIZE) → fits c'.
Proof.
  intros Hf Eb El Es Ed Hr Hl. unfold fits in *. rewrite Es. destruct (state_fn c) as [s|]; [|done]. destruct Hf as [_ Hf].
  split; [done|]. assert (Hgrow : has_text c → has_text c') by (unfold has_text; rewrite Eb, El, length_app; lia).
  destruct s; cbn [state_fits] in *; auto.
  - destruct Hf as (text & rest & Hb & Hll). exists text, (rest ++ bytes). split; [by rewrite Eb, Hb, <-app_assoc|congruence].
  - by rewrite Ed; destruct Hf; split; [apply Hgrow|].
Qed.

Section left.
Context `{OS, Inet, CmdTable}.
Variable i : nat.

Lemma after_read_failed c n : fits c → Z.of_nat (length (recv_buf c)) < CONTROLLER_RECV_BUF_SIZE → after i (ctl_read_failed i n) (λ _, fits) c.
Proof.
  intros Hf Hl. unfold ctl_read_failed. apply after_bind, after_get. apply after_still; [machine|]. intros e c1 U1.
  apply (fits_undisturbed _ _ U1) in Hf. assert (Hl1 : Z.of_nat (length (recv_buf c1)) < CONTROLLER_RECV_BUF_SIZE).
  { destruct U1 as [Ei _ _ _ _]. injection Ei as Eb _ _ _. by rewrite Eb. }
  clear U1 Hl. apply after_bind. eapply (after_mono _ _ (λ _, fits)); [|intros ? c2 Hf2; eapply after_undisturbed; [machine|]; intros ? c3 U; by eapply fits_undisturbed].
  destruct (_ || _); cbn [when]; [|by apply after_ret].
  apply after_still; [machine|]. intros _ c2 U2. apply after_still; [machine|]. intros _ c3 U3. apply after_upd.
  pose proof (transitivity U2 U3) as [Ei Es _ Ed _]. injection Ei as Eb _ El _.
  eapply (fits_more c1 _ []); [done|by rewrite app_nil_r|done..| |]; cbn [set_recv_fd recv_buf]; rewrite Eb; lia.
Qed.

Lemma after_read_more `{!ReadOk} c s : fits c → state_fn c = Some s → after i (ctl_read_more i) (λ _, fits) c.
Proof.
  intros Hf Hst. assert (Hr : room_ok c) by (unfold fits in Hf; rewrite Hst in Hf; apply Hf).
  unfold ctl_read_more. apply after_bind, after_get. cbv zeta.
  destruct (_ || _)%bool eqn:E; [by apply after_ret|]. apply orb_false_iff in E as [Efd E]. apply Z.leb_gt in E. apply Z.ltb_ge in Efd.
  apply after_bind, (after_mono _ _ (λ n c', ret n ≤ CONTROLLER_RECV_BUF_SIZE - Z.of_nat (length (recv_buf c)) ∧ undisturbed c c')).
  { destruct (recv_is_socket c).
    - apply after_bind, after_sys. intros h. apply after_still; [machine|]. intros _ c' U. apply after_ret.
      split; [apply recvmsg_ok; lia|done].
    - apply after_sys. intros h. split; [apply read_ok; lia|reflexivity]. }
  intros n c1 [Hn U]. pose proof (fits_undisturbed _ _ U Hf) as Hf1. pose proof U as [Ei Es Er Ed _]. injection Ei as Eb _ El _.
  destruct (Z.leb_spec (ret n) 0).
  - apply after_bind. eapply after_mono; [apply after_read_failed; [done|rewrite Eb; lia]|]. intros ? c2 Hf2. by apply after_ret.
  - apply after_bind, after_upd, after_ret. eapply (fits_more c1); [done|done..| |]; cbn -[take].
    + rewrite length_app, length_take, Eb. lia.
    + rewrite Er. lia.
Qed.

Lemma after_try_read `{!ReadOk} c s : fits c → state_fn c = Some s → after i (ctl_try_read i) (λ _, fits) c.
Proof.
  intros Hf Hst. unfold ctl_try_read. apply after_bind, after_get. destruct (_ >=? _); [|by apply after_ret].
  apply after_still; [machine|]. intros r c1 U. rewrite <-(un_state _ _ U) in Hst. apply (fits_undisturbed _ _ U) in Hf.
  destruct r; cbn [when]; [|by apply after_ret]. apply after_bind. eapply after_mono; [by eapply after_read_more|].
  intros ? c2 Hf2. by apply after_ret.
Qed.

(** A controller that is closed. *)
Lemma after_dtor c : room_ok c → after i (ctl_dtor i) (λ _, fits) c.
Proof.
  intros Hr. unfold ctl_dtor. apply after_bind, after_get.
  apply after_still; [machine|]. intros _ c1 U1. apply after_still; [machine|]. intros _ c2 U2.
  apply after_still; [machine|]. intros _ c3 U3. apply after_still; [machine|]. intros _ c4 U4. apply after_upd.
  pose proof (transitivity U1 (transitivity U2 (transitivity U3 U4))) as [Ei _ _ _ _]. injection Ei as Eb _ _ _.
  split; [|done]. unfold room_ok in *. cbn [set_state_fn recv_buf]. by rewrite Eb.
Qed.

Lemma after_free c : after i (ctl_free (Some i)) (λ _, fits) c.
Proof.
  cbn [ctl_free]. apply after_bind, after_upd. eapply after_undisturbed; [machine|]. intros _ c' [_ Es _ _ _].
  unfold fits. by rewrite Es.
Qed.

Lemma after_close c : room_ok c → fits c → after i (close_controller i) (λ _, fits) c.
Proof.
  intros Hr Hf. unfold close_controller. apply after_bind, after_get. apply after_still; [machine|]. intros fl c1 U.
  destruct fl; cbn [negb]; [|apply after_ret; by eapply fits_undisturbed].
  apply after_bind. eapply after_mono; [apply after_dtor|]; [|intros ? c2 Hc2; by apply after_ret].
  destruct U as [Ei _ _ _ _]. injection Ei as Eb _ _ _. unfold room_ok. by rewrite Eb.
Qed.

Lemma after_free_controller c : after i (free_controller i) (λ _, fits) c.
Proof. unfold free_controller. apply after_bind. eapply after_mono; [apply after_free|]. intros ? c' Hc. by apply after_ret. Qed.

Lemma after_check_blocked c : room_ok c → fits c → after i (ctl_check_blocked i) (λ _, fits) c.
Proof.
  intros Hr Hf. unfold ctl_check_blocked. apply after_bind, after_get. apply after_still; [machine|]. intros w c1 U1. cbv zeta.
  assert (Hr1 : room_ok c1) by (destruct U1 as [Ei _ _ _ _]; injection Ei as Eb _ _ _; unfold room_ok; by rewrite Eb).
  destruct (_ >=? _).
  - apply after_still; [machine|]. intros _ c2 U2. apply after_bind. eapply after_mono; [apply after_dtor|].
    + destruct U2 as [Ei _ _ _ _]; injection Ei as Eb _ _ _. unfold room_ok. by rewrite Eb.
    + intros ? c3 ?. apply after_bind. eapply after_mono; [apply after_free|]. intros ? c4 Hc4. by apply after_ret.
  - eapply after_undisturbed; [machine|]. intros _ c2 U2. eapply fits_undisturbed; [exact U2|]. by eapply fits_undisturbed.
Qed.

Lemma after_run_two c : fits c → after i (ctl_run_two i) (λ _, fits) c.
Proof.
  intros Hf. unfold ctl_run_two. apply after_bind, after_get. destruct (state_fn c) as [s|] eqn:Hst; [|by apply after_ret].
  assert (Hr : room_ok c) by (unfold fits in Hf; rewrite Hst in Hf; apply Hf).
  apply after_bind. eapply (after_mono _ _ (λ _, fits)).
  - destruct (_ && _); [|by apply after_ret]. apply after_still; [machine|]. intros fl c1 U.
    apply after_bind, after_get. destruct (_ && _).
    + apply after_check_blocked; [|by eapply fits_undisturbed]. destruct U as [Ei _ _ _ _]. injection Ei as Eb _ _ _. unfold room_ok. by rewrite Eb.
    + eapply after_undisturbed; [machine|]. intros ? c2 U2. eapply fits_undisturbed; [exact U2|]. by eapply fits_undisturbed.
  - intros closed c1 Hf1. destruct closed; [by apply after_ret|].
    eapply after_undisturbed; [machine|]. intros ? c2 U2. by eapply fits_undisturbed.
Qed.

Lemma after_try_flush c : fits c → after i (ctl_try_flush i) (λ _, fits) c.
Proof. intros Hf. eapply after_undisturbed; [machine|]. intros ? c2 U2. by eapply fits_undisturbed. Qed.

(** The statedump, once its descriptors are done. *)
Lemma fits_calm k s s' c c' : goes_to k = (λ x, x = Some s') → state_fn c = Some s →
  (room_ok c' → has_text c' → state_fn c' = Some s ∨ state_fn c' = Some s' → fits c') →
  room_ok c → has_text c → calm k i c c' → fits c'.
Proof.
  intros Hk Hst Hd Hr Ht [Ei Es]. injection Ei as Eb _ El _. apply Hd.
  - unfold room_ok. by rewrite Eb.
  - unfold has_text. by rewrite Eb, El.
  - rewrite Hk in Es. destruct Es as [->|[_ Es]]; [left; congruence|by right].
Qed.

Lemma after_dump_services c : fits c → state_fn c = Some ctl_state_dump_services → after i (dump_services i) (λ _, fits) c.
Proof.
  intros Hf Hst. unfold fits in Hf. rewrite Hst in Hf. destruct Hf as [Hr Ht].
  eapply (after_calm _ (next_state i ctl_state_dump_signals)); [apply same_input_dump_services|].
  intros ? c' Hc. eapply (fits_calm (next_state i ctl_state_dump_signals)); [reflexivity|exact Hst| |done..|exact Hc].
  intros Hrd Htd [E|E]; unfold fits; rewrite E; by split.
Qed.

Lemma after_dump_signals c : fits c → state_fn c = Some ctl_state_dump_signals → after i (dump_signals i) (λ _, fits) c.
Proof.
  intros Hf Hst. unfold fits in Hf. rewrite Hst in Hf. destruct Hf as [Hr Ht].
  eapply (after_calm _ (next_state i ctl_state_end_command)); [apply same_input_dump_signals|].
  intros ? c' Hc. eapply (fits_calm (next_state i ctl_state_end_command)); [reflexivity|exact Hst| |done..|exact Hc].
  intros Hrd Htd [E|E]; unfold fits; rewrite E; by split.
Qed.
End left.

(** ** Which lines are excepted *)

#[export] Instance count_ok_dec fs : Decision (count_ok fs).
Proof.
  unfold count_ok. destruct (head (tl fs) ≫= int_field) as [v|]; [|by left].
  destruct (decide (0 ≤ wrap32 v)); [left; by intros ? [= <-]|right; auto].
Defined.

#[export] Instance tame_dec cmd fs : Decision (tame cmd fs).
Proof.
  destruct cmd; cbn [tame]; try (by left); [| |apply _].
  - destruct fs as [|a [|b fs]]; cbn [ends_differ]; [by left..|]. apply _.
  - destruct fs as [|a [|b [|c fs]]]; cbn [mkdir_has_address]; apply _.
Defined.

#[export] Instance tame_line_dec line : Decision (tame_line line).
Proof.
  unfold tame_line. destruct (split_on TAB line) as [|name args]; [by left|]. destruct (find_command ctl_commands name) as [cmd|]; [|by left].
  destruct (decide (tame cmd args)); [left; by intros ? [= <-]|right; auto].
Defined.

(** The controller is about to run a line with a NUL byte or with one of the arguments on
    which the program goes wrong. *)
Definition wild_line (c : controller_t) : Prop :=
  state_fn c = Some ctl_state_run_command ∧ recv_overflow c = false ∧
  let text := take (Z.to_nat (line_len c - 1)) (recv_buf c) in NUL ∈ text ∨ ¬ tame_line text.

#[export] Instance wild_line_dec c : Decision (wild_line c).
Proof. unfold wild_line. cbv zeta. apply _. Defined.

Lemma fits_ready c s : fits c → state_fn c = Some s → ¬ wild_line c → state_ready s c.
Proof.
  intros Hf Hst Hw. unfold fits in Hf. rewrite Hst in Hf. destruct Hf as [_ Hf]. destruct s; cbn [state_fits state_ready] in *; try done.
  - destruct Hf as (text & rest & Hb & Hl). exists text, rest. split; [done|]. intros Ho.
    assert (Et : take (Z.to_nat (line_len c - 1)) (recv_buf c) = text).
    { rewrite Hb, Hl. replace (Z.to_nat _) with (length text) by lia. by rewrite take_app_length. }
    destruct (decide (NUL ∈ text)) as [Hn|Hn]; [|destruct (decide (tame_line text)) as [Ht|Ht]; [done|]].
    all: destruct Hw; split; [done|split; [done|]]; cbv zeta; rewrite Et; auto.
  - apply Hf.
Qed.

(** ** Ready states *)

Section ops.
Context `{OS} `{!WriteOk} `{!SocketOk} `{!ReadOk} `{Inet} `{CmdTableOk}.

(** A computation on the controller [i] that returns leaves a ready state. *)
Lemma ready_returns {A} i (m : DP A) g c P : ready g → g_ctl g !! i = Some c → preserves (around (Some i)) m →
  after i m (λ _, fits) c → returns m g (λ a g', still g g' ∧ P a) → returns m g (λ a g', ready g' ∧ P a).
Proof.
  intros Hr Hi Hf Ha (a & g' & E & [Hg' _] & HP). exists a, g'. split; [done|]. split; [|done].
  destruct (Ha g a g' Hi E) as (c' & Hi' & Hc'). eapply ready_op; [exact Hr|done|by eapply Hf|].
  intros c2 Hc2. congruence.
Qed.

Lemma ready_range g i c : ready g → g_ctl g !! i = Some c → in_range i g.
Proof. intros Hr Hi. split; [apply Hr|by eapply lookup_lt_Some|]. apply Hr. Qed.

Lemma ready_fine {A} i (m : DP A) g c : ready g → g_ctl g !! i = Some c → preserves (around (Some i)) m →
  after i m (λ _, fits) c → fine i m (λ _, True) → returns m g (λ _ g', ready g').
Proof.
  intros Hr Hi Hf Ha Hm. eapply returns_mono; [eapply (ready_returns i _ _ c (λ _, True)); try done|by intros ? ? [? _]].
  eapply returns_mono; [apply Hm; by eapply ready_range|]. by intros ? ? (_ & ? & _).
Qed.

(** What a state function leaves, but for the statedump of the descriptors. *)
Lemma after_state i s c : fits c → state_fn c = Some s → s ≠ ctl_state_dump_fds → after i (ctl_state s i) (λ _, fits) c.
Proof.
  intros Hf Hst Hne. assert (Hr : room_ok c) by (unfold fits in Hf; rewrite Hst in Hf; apply Hf).
  destruct s; cbn [ctl_state]; try done.
  - by apply after_next_command.
  - by apply after_run_command.
  - by apply after_end_command.
  - by apply after_close.
  - apply after_free_controller.
  - by apply after_dump_services.
  - by apply after_dump_signals.
Qed.

Lemma dump_fds_ready i g c : ready g → g_ctl g !! i = Some c → state_fn c = Some ctl_state_dump_fds →
  returns (dump_fds i) g (λ _ g', ready g').
Proof.
  intros Hr Hi Hst. pose proof (rd_fits _ Hr i c Hi) as Hf. unfold fits in Hf. rewrite Hst in Hf. destruct Hf as (Hroom & Ht & Hn).
  destruct (dump_fds_ok i g (lookup_lt_Some _ _ _ Hi) c (rd_sound _ Hr) Hi Hn) as (a & g' & E & [Hg' _] & Hres).
  exists a, g'. split; [done|].
  eapply (ready_op i); [done|done|by apply (around_state i ctl_state_dump_fds) in E|].
  intros c' Hc'. destruct (same_input_dump_fds i g a g' E) as [_ Hs]. destruct (Hs i c Hi) as (c2 & Hc2 & Hcalm).
  assert (c2 = c') as -> by congruence.
  eapply (fits_calm i (next_state i ctl_state_dump_services)); [reflexivity|exact Hst| |done..|exact Hcalm].
  intros Hrd Htd [Es|Es]; unfold fits; rewrite Es; split; [done| |done|done]. split; [done|by apply Hres].
Qed.

Lemma state_ready_ok i g c s : ready g → g_ctl g !! i = Some c → state_fn c = Some s → ¬ wild_line c →
  returns (ctl_state s i) g (λ _ g', ready g').
Proof.
  intros Hr Hi Hst Hw. pose proof (rd_fits _ Hr i c Hi) as Hf. destruct (decide (s = ctl_state_dump_fds)) as [->|Hne]; [by eapply dump_fds_ready|].
  eapply returns_mono; [eapply (ready_returns i _ _ c (λ _, True)); [done|done|apply around_state|by apply after_state|]|by intros ? ? [? _]].
  eapply returns_mono; [by apply (ctl_state_ok s i g c); [apply Hr| |eapply fits_ready]|]. done.
Qed.

(** ** A new controller *)

Lemma ready_quiet {A} (m : DP A) g P : keeps m P → preserves (around None) m → ready g → returns m g (λ a g', ready g' ∧ others None g g' ∧ P a).
Proof.
  intros Hm Hf Hr. destruct (Hm g (rd_sound _ Hr)) as (a & g' & E & Hg' & _ & HP). exists a, g'. split; [done|].
  pose proof (Hf g a g' E) as Har. split_and!; [|apply Har|done]. by eapply ready_around.
Qed.

(** A controller is replaced by one that fits. *)
Lemma ready_set i g c c' : ready g → g_ctl g !! i = Some c → out_ok c' → 0 ≤ last_signal_ts c' < 2 ^ 62 →
  fds_fit c' → fits c' → ready (set_g_ctl (<[i := c']> (g_ctl g)) g).
Proof.
  intros [Hg Hlen Hfds Hfits Hrest] Hi Ho Ht Hfd Hft. split; [by eapply sound_set_ctl|cbn; by rewrite length_insert|..|by apply (rest_ready_same g)]; cbn.
  - intros j d [(-> & <- & _)|[_ Hd]]%list_lookup_insert_Some; [done|by eapply Hfds].
  - intros j d [(-> & <- & _)|[_ Hd]]%list_lookup_insert_Some; [done|by eapply Hfits].
Qed.

(** The controller [i] has not read anything. *)
Definition blank (i : nat) (g : G) : Prop := ready g ∧ ∃ c, g_ctl g !! i = Some c ∧ recv_buf c = [].

Lemma alloc_loop_ready n k g : ready g → (k + n ≤ CONTROLLER_MAX_CLIENTS)%nat →
  returns (ctl_alloc_loop n k) g (λ o g', ready g' ∧ ∀ i, o = Some i → blank i g').
Proof.
  intros Hr. revert k. induction n as [|n IH]; intros k Hk; cbn [ctl_alloc_loop]; [by apply returns_ret|].
  destruct (lookup_lt_is_Some_2 (g_ctl g) k) as [c Hc]; [rewrite (rd_len _ Hr); lia|].
  eapply returns_done; [by apply get_ctl_eq|]. destruct (state_fn c); [apply IH; lia|].
  eapply returns_done; [by apply upd_ctl_eq|].
  set (g' := set_g_ctl _ g). assert (Hr' : ready g').
  { eapply ready_set; [exact Hr|exact Hc| |done|done|]; [split; [done|by left]|split; done]. }
  apply returns_ret. split; [done|]. intros i [= <-]. split; [done|]. eexists. split; [apply list_lookup_insert_eq; by eapply lookup_lt_Some|done].
Qed.

Lemma blank_seq {A B} (m : DP A) (k : A → DP B) i g Q : keeps m (λ _, True) → preserves (around None) m →
  blank i g → (∀ a g', blank i g' → returns (k a) g' Q) → returns (m ≫= k) g Q.
Proof.
  intros Hm Hf [Hr (c & Hi & Hb)] Hk. eapply returns_seq; [by eapply ready_quiet|]. intros a g' (Hr' & [_ Hoth] & _). apply Hk.
  split; [done|]. destruct (Hoth i c ltac:(done) Hi) as (c' & Hi' & [Ei _ _ _ _]). exists c'. split; [done|]. injection Ei. congruence.
Qed.

Lemma ctor_ready i recv send g : recv < FD_SETSIZE → send < FD_SETSIZE → blank i g → returns (ctl_ctor i recv send) g (λ _ g', blank i g').
Proof.
  intros Hrf Hsf Hg. pose proof Hg as [_ (c0 & Hc0 & _)]. unfold ctl_ctor. eapply returns_done; [by apply get_ctl_eq|].
  eapply blank_seq; [by apply keeps_log|machine|exact Hg|]. intros _ g1 Hg1.
  eapply blank_seq; [by keeps_tac|machine|exact Hg1|]. intros [is_socket ok] g2 Hg2.
  destruct (negb ok); [by apply returns_ret|].
  eapply blank_seq; [by keeps_tac|machine|exact Hg2|]. intros ok' g3 [Hr3 (c & Hi & Hb)].
  destruct (negb ok'); [by apply returns_ret; split; [|exists c]|].
  eapply returns_done; [by apply upd_ctl_eq|]. apply returns_ret. split.
  - eapply ready_set; [exact Hr3|exact Hi|exact (proj2 (sound_ctls _ (rd_sound _ Hr3)) i c Hi)|exact (sd_seen _ (rd_sound _ Hr3) _ _ Hi)|done|].
    split; unfold room_ok; cbn; rewrite Hb; done.
  - eexists. split; [apply list_lookup_insert_eq; by eapply lookup_lt_Some|done].
Qed.

Lemma new_ready recv send g : recv < FD_SETSIZE → send < FD_SETSIZE → ready g →
  returns (ctl_new recv send) g (λ r g', ready g' ∧ ∀ i, r = Some i → blank i g').
Proof.
  intros Hrf Hsf Hr. eapply returns_seq; [by apply (alloc_loop_ready CONTROLLER_MAX_CLIENTS 0)|]. intros [i|] g1 (Hr1 & Hb); [|by apply returns_ret].
  eapply returns_seq; [by apply ctor_ready, Hb|]. intros ok g2 Hb2. pose proof Hb2 as [Hr2 (c & Hi & _)].
  destruct ok; [apply returns_ret; split; [done|by intros ? [= <-]]|].
  eapply (returns_seq _ _ _ (λ _ g', ready g')); [|intros ? g3 Hr3; by apply returns_ret].
  eapply (ready_fine i); [done|exact Hi|machine|apply after_free|apply fine_free].
Qed.
End ops.

(** ** Controllers stay in use *)

Definition running (c : controller_t) : Prop := is_Some (state_fn c).

(** A controller in use stays in use. *)
Definition in_use (g g' : G) : Prop :=
  ∀ i c, g_ctl g !! i = Some c → running c → ∃ c', g_ctl g' !! i = Some c' ∧ running c'.

#[export] Instance in_use_preorder : PreOrder in_use.
Proof.
  split; [intros g i c; eauto|]. intros g1 g2 g3 H12 H23 i c Hi Hc. destruct (H12 i c Hi Hc) as (c' & Hi' & Hc'). by apply (H23 i c').
Qed.

Lemma in_use_update f i g c : (running c → running (f c)) → g_ctl g !! i = Some c → in_use g (set_g_ctl (<[i := f c]> (g_ctl g)) g).
Proof.
  intros Hf Hi j d Hj Hd. cbn. destruct (decide (j = i)) as [->|Hne].
  - rewrite list_lookup_insert_eq by (by eapply lookup_lt_Some). simplify_eq. eauto.
  - rewrite list_lookup_insert_ne by done. eauto.
Qed.

#[export] Instance in_use_frame : Frame in_use.
Proof.
  split; [apply _|intros g g' E _ i c; rewrite E; eauto|]. intros i f g c Hf Hi. apply in_use_update; [|done].
  destruct (Hf c) as (_ & Es & _). unfold running. by rewrite Es.
Qed.

Lemma in_use_upd i f : (∀ c, running c → running (f c)) → preserves in_use (upd_ctl i f).
Proof.
  intros Hf g a g'. unfold upd_ctl. destruct (g_ctl g !! i) as [c|] eqn:Hc; [|done]. intros [= _ <-]. apply in_use_update; [apply Hf|done].
Qed.

Ltac in_use :=
  repeat first
    [ frame_step
    | solve [auto 2 with machine nocore]
    | apply in_use_upd; intros []; unfold running; cbn; by eauto
    | unfold_call ].

Section in_use.
Context `{OS, Inet, CmdTable}.
Variable i : nat.

Lemma in_use_command cmd : preserves in_use (ctl_cmd_fn cmd i).
Proof.
  destruct (quiet_command cmd) eqn:Hq; [by apply frame_command; [apply _|]|]. destruct cmd; try done; cbn [ctl_cmd_fn]; in_use.
Qed.
#[local] Hint Resolve in_use_command : machine.

Lemma in_use_state s : s ≠ ctl_state_free → preserves in_use (ctl_state s i).
Proof. intros Hs. destruct s; try done; cbn [ctl_state]; in_use. Qed.

Lemma in_use_try_read : preserves in_use (ctl_try_read i).
Proof. in_use. Qed.

Lemma in_use_try_flush : preserves in_use (ctl_try_flush i).
Proof. in_use. Qed.

(** Only [ctl_state_free] takes a controller out of use, and it asks not to be called
    again. *)
Lemma goes_on s g g' c : ctl_state s i g = Done (true, g') → g_ctl g !! i = Some c → running c →
  ∃ c', g_ctl g' !! i = Some c' ∧ running c'.
Proof.
  intros E Hi Hrun. destruct (decide (s = ctl_state_free)) as [->|Hne].
  - cbn [ctl_state] in E. unfold free_controller, mbind, M_bind in E. destruct (ctl_free (Some i) g) as [[[] g1]| | | |]; by simplify_eq/=.
  - apply (in_use_state s Hne) in E. by eapply E.
Qed.
End in_use.
