(* ===== verification/MachineParts.v ===== *)
(** * The other parts of the main loop

    Services, zombies, signals, the log, new connections and the wait: each leaves the
    daemon ready. *)

From S2P Require Import Prelude Strseg State RBTree RBTreeRep OrdIndex RBTreeIndex Table Log Signal SignalSpec CtlOut CtlOutSpec SvcVars Fd FdSpec FdThms CtlObj Service Dll ServiceSpec SvcRun SvcActive SvcNew SvcThms Walk SvcLists Sound SoundSvc CtlArg CtlSock Fatal Options CtlCmd CtlObjCmd SoundFd SoundArg SoundSock SoundCmd SoundObjCmd SoundSvcCmd CtlIn CtlTable Preserves Frame CtlFrame CtlFraming SoundCtl SoundDump SoundThms Machine MachineCtl Main.

(** ** Running services leaves the settings alone *)

(** A frame that sees nothing of the controllers. *)
Class Blind (R : G → G → Prop) : Prop := {
  #[global] blind_frame :: Frame R;
  blind_ctl g l : R g (set_g_ctl l g);
}.

(** A computation that does not return: it faults or ends the process. *)
Definition never {A} (m : DP A) : Prop := ∀ g a g', m g ≠ Done (a, g').

Lemma never_bind {A B} (m : DP A) (f : A → DP B) : (∀ a, never (f a)) → never (m ≫= f).
Proof. intros Hf g b g' E. unfold mbind, M_bind in E. destruct (m g) as [[a g1]| | | |]; try done. by eapply Hf. Qed.

Lemma do_exec_never `{OS} svc : never (svc_do_exec svc).
Proof. unfold svc_do_exec. repeat (apply never_bind; intros ?). destruct (_ >=? 0); [done|]. repeat (apply never_bind; intros ?). done. Qed.

Section blind.
Context `{OS} (R : G → G → Prop) `{!Blind R}.

Lemma blind_upd i f : preserves R (upd_ctl i f).
Proof. intros g a g'. unfold upd_ctl. destruct (_ !! _); [|done]. intros [= _ <-]. apply blind_ctl. Qed.

Lemma blind_do_exec svc : preserves R (svc_do_exec svc).
Proof. intros g a g' E. by apply do_exec_never in E. Qed.

Ltac blind :=
  repeat first
    [ frame_step
    | apply blind_upd
    | solve [auto 2 with machine nocore]
    | unfold_call ].
#[local] Hint Resolve blind_do_exec : machine.

Lemma blind_alloc n i : preserves R (ctl_alloc_loop n i).
Proof. revert i. induction n; intros; cbn [ctl_alloc_loop]; blind. Qed.
#[local] Hint Resolve blind_alloc : machine.

Lemma blind_run_switch fuel svc : preserves R (svc_run_switch fuel svc).
Proof. induction fuel; cbn [svc_run_switch]; blind. Qed.
#[local] Hint Resolve blind_run_switch : machine.

Lemma blind_sigwake_all fuel svc sig : preserves R (svc_sigwake_all fuel svc sig).
Proof. revert svc. induction fuel; intros; cbn [svc_sigwake_all]; blind. Qed.

Lemma blind_run_all fuel svc : preserves R (svc_run_all fuel svc).
Proof. revert svc. induction fuel; intros; cbn [svc_run_all]; blind. Qed.
End blind.

(** The length of the name of the log's descriptor. *)
Definition name_kept (g g' : G) : Prop := Z.of_nat (length (log_dest_fd_name (g_log g))) < NAME_BUF_SIZE →
  Z.of_nat (length (log_dest_fd_name (g_log g'))) < NAME_BUF_SIZE.

#[export] Instance name_kept_blind : Blind name_kept.
Proof.
  split; [|intros g l Hn; exact Hn].
  split; [split; [intros g Hn; exact Hn|intros g1 g2 g3; unfold name_kept; auto]|intros g g' _ S; exact (st_name _ _ S)|intros i f g c _ _ Hn; exact Hn].
Qed.

#[export] Instance settings_same_blind : Blind settings_same.
Proof. split; [|by intros g l]. split; [apply _|by intros|by intros]. Qed.

Section services.
Context `{OS} `{!WriteOk}.

(** Some service that is in use has control descriptors. *)
Definition controlled (g : G) : Prop := Exists (λ o, match svc_objs (g_svc g) !! o with Some s => ¬ no_control s | None => False end)
  (take (Z.to_nat (svc_list_count (g_svc g))) (svc_list (g_svc g))).

#[export] Instance controlled_dec g : Decision (controlled g).
Proof.
  unfold controlled. apply Exists_dec. intros o. destruct (svc_objs (g_svc g) !! o) as [s|]; [|right; intros []].
  unfold no_control. apply _.
Defined.

Lemma not_controlled g names pids act sigw : good g names pids act sigw → ¬ controlled g → no_controls g names.
Proof.
  intros [Hok _] Hc o s Ho Hs. apply (is_svc_names _ _ _ _ _ _ Hok) in Ho. unfold controlled in Hc. rewrite <-Forall_Exists_neg, Forall_forall in Hc.
  specialize (Hc o Ho). cbn in Hc. rewrite Hs in Hc. unfold no_control in *. by apply dec_stable.
Qed.

(** An operation on services that touches controllers only to write to them. *)
Lemma ready_svc g g' : ready g → sound g' → svc_frame g g' → rest_ready g' → ready g'.
Proof.
  intros [_ Hlen Hfds Hr _] Hg F Hrest. pose proof (sf_ctl _ _ F) as Hc. split; [done|by rewrite <-(Forall2_length _ _ _ Hc)|..|done].
  - intros j c' Hc'. eapply Forall2_lookup_r in Hc' as (c & Hi & F'); [|exact Hc]. destruct F' as [E S]. eapply fds_fit_fewer; [|by eapply Hfds].
    split; [left; by rewrite E|done].
  - intros j c' Hc'. eapply Forall2_lookup_r in Hc' as (c & Hi & F'); [|exact Hc]. destruct F' as [E S]. eapply fits_undisturbed; [|by eapply Hr].
    by split; [rewrite E..|].
Qed.

Lemma preserves_last g names pids act sigw g' : good g names pids act sigw → sigs_ok (signals (g_sig g)) →
  0 ≤ svc_last_signal_ts (g_svc g) < 2 ^ 62 → svc_run_active g = Done (tt, g') → 0 ≤ svc_last_signal_ts (g_svc g') < 2 ^ 62.
Proof.
  intros Hg Hsig Hl E. destruct (svc_wake_ok g names pids act sigw Hg Hsig Hl) as (g1 & ? & ? & E1 & _ & _ & L1).
  unfold svc_run_active in E. rewrite (bind_done (gets g_svc) _ _ _ _ eq_refl), (bind_done _ _ _ _ _ E1),
    (bind_done (gets g_svc) _ _ _ _ eq_refl) in E.
  apply (blind_run_all settings_same) in E. by rewrite (st_last _ _ E).
Qed.

Lemma preserves_name : preserves name_kept svc_run_active.
Proof.
  unfold svc_run_active. assert (Hl : ∀ fuel, preserves name_kept (svc_signals_loop fuel)).
  { induction fuel as [|fuel IH]; cbn [svc_signals_loop]; [by frame|].
    apply preserves_bind; [apply _|by frame|intros last]. apply preserves_bind; [apply _|by frame|intros [[[sig ts] n]|]]; [|by frame].
    apply preserves_bind; [apply _|by frame|intros m]. apply preserves_bind; [apply _|by apply blind_sigwake_all, _|intros _].
    apply preserves_bind; [apply _|apply preserves_modify; intros ? Hn; exact Hn|intros _; exact IH]. }
  apply preserves_bind; [apply _|frame_step|intros m]. apply preserves_bind; [apply _|apply preserves_when; [apply _|apply Hl]|intros _].
  apply preserves_bind; [apply _|frame_step|intros m']. apply blind_run_all, _.
Qed.

Lemma services_ready g : fork_in_parent → ready g → ¬ controlled g → returns svc_run_active g (λ _ g', ready g').
Proof.
  intros Hp Hr Hc. pose proof (rd_sound _ Hr) as Hg. destruct (sd_svc _ Hg) as (names & pids & act & sigw & Hgood).
  destruct (rd_rest _ Hr) as [R1 R2 R3 R4]. pose proof (sd_sig _ Hg) as Hsig.
  destruct (svc_run_active_ok g names pids act sigw Hp Hgood) as (g' & pids' & act' & E & Hgood' & F & _); [by eapply not_controlled|done..|].
  exists tt, g'. split; [done|]. eapply ready_svc; [done|by eapply sound_svc|done|].
  split; rewrite ?(sf_sig _ _ F); [done..|exact (preserves_last _ _ _ _ _ _ Hgood Hsig R3 E)|exact (preserves_name _ _ _ E R4)].
Qed.

(** ** Zombies *)

Lemma reaped_ready svc wstat g : ready g → is_svc g svc → returns (svc_handle_reaped svc wstat) g (λ _ g', ready g').
Proof.
  intros Hr Ho. pose proof (rd_sound _ Hr) as Hg.
  destruct (sound_is_svc g svc Hg Ho) as (names & pids & act & sigw & s & Hgood & Hin & Es & _).
  destruct (decide (svc_state s = SVC_STATE_UP)) as [Hst|Hst].
  - destruct (svc_handle_reaped_ok _ _ _ _ _ _ _ wstat Hgood Hin Es Hst) as (g' & s' & E & Hgood' & T & _).
    exists tt, g'. split; [done|]. eapply ready_around; [done|eapply sound_svc; [done|apply T|done]|].
    assert (Hp : preserves (around None) (svc_handle_reaped svc wstat)) by machine. by apply Hp in E.
  - exists tt, g. split; [|done]. unfold svc_handle_reaped.
    rewrite (bind_done _ _ _ _ _ (svc_obj_eq _ _ _ Es)), (bind_done (gets _) _ _ _ _ eq_refl). by rewrite (proj2 (Z.eqb_neq _ _) Hst).
Qed.

(** The loop ends with a ready state, or its fuel runs out. *)
Definition in_time {A} (m : DP A) (g : G) (Q : A → G → Prop) : Prop := m g = OutOfFuel ∨ returns m g Q.

Lemma in_time_seq {A B} (m : DP A) (f : A → DP B) g P Q : returns m g P → (∀ a g', P a g' → in_time (f a) g' Q) → in_time (m ≫= f) g Q.
Proof.
  intros (a & g1 & E & HP) Hf. destruct (Hf a g1 HP) as [E1|Hr]; [left; by rewrite (bind_done _ _ _ _ _ E)|right].
  by eapply returns_done.
Qed.

Lemma in_time_done {A B} (m : DP A) (f : A → DP B) g a g' Q : m g = Done (a, g') → in_time (f a) g' Q → in_time (m ≫= f) g Q.
Proof. intros E [E1|Hr]; [left; by rewrite (bind_done _ _ _ _ _ E)|right]. by eapply returns_done. Qed.

Lemma quiet_returns {A} (m : DP A) g P : keeps m P → preserves (around None) m → ready g → returns m g (λ a g', ready g' ∧ P a).
Proof. intros Hm Hf Hr. eapply returns_mono; [by apply ready_quiet|]. by intros a g' (? & _ & ?). Qed.

Lemma reap_ready fuel g : ready g → in_time (reap_loop fuel) g (λ _ g', ready g').
Proof.
  revert g. induction fuel as [|fuel IH]; intros g Hr; [by left|]. cbn [reap_loop].
  eapply in_time_seq; [apply (quiet_returns _ _ (λ _, True)); [apply keeps_sys|machine|done]|]. intros r g1 [Hr1 _].
  destruct (ret r >? 0); [|right; by apply returns_ret].
  destruct (sd_svc _ (rd_sound _ Hr1)) as (names & pids & act & sigw & Hgood).
  destruct (svc_by_pid_ok g1 _ _ _ _ (ret r) (proj1 Hgood)) as (o & E & Ho).
  eapply in_time_done; [exact E|]. eapply (in_time_seq _ _ _ (λ _ g', ready g')); [|intros _ g2 Hr2; by apply IH].
  destruct (Z.eqb_spec o 0) as [|Hne]; cbn [negb when]; [by apply returns_ret|].
  apply reaped_ready; [done|]. apply (is_svc_names _ _ _ _ _ _ (proj1 Hgood)).
  destruct Ho as [(Ho & _)|[? _]]; [|done]. by apply (so_pid_iff _ _ _ _ _ (proj1 Hgood)) in Ho as [? _].
Qed.

(** ** Signals *)

(** When the signals that arrived are merged with those that are known, two that are
    pending have the same time, or one is pending too often to be counted. *)
Definition distinct_times (a : list sig_status_t) : Prop :=
  Forall (λ s1, Forall (λ s2, 0 < number_pending s1 → last_received_ts s1 = last_received_ts s2 → 0 < number_pending s2 → s1 = s2) a) a.

Definition muddled (g : G) : Prop :=
  match merge_loop (new_signals (g_sig g)) (signals (g_sig g)) with
  | Done a => ¬ (Forall ts_ok a ∧ distinct_times a)
  | _ => False
  end ∨ Exists (λ s, 2 ^ 31 - 1 ≤ number_pending s) (signals (g_sig g)).

#[export] Instance muddled_dec g : Decision (muddled g).
Proof. unfold muddled, distinct_times. destruct (merge_loop _ _); apply _. Defined.

Lemma merge_ready g : ready g → ¬ muddled g → ∃ a, merge_loop (new_signals (g_sig g)) (signals (g_sig g)) = Done a ∧ sigs_ok a.
Proof.
  intros Hr Hm. destruct (re_new _ (rd_rest _ Hr)) as [(used & Hu & Hf & Hnd) Hpos]. destruct (sd_sig _ (rd_sound _ Hr)) as [Hinv _ _].
  unfold muddled in Hm. destruct (merge_loop_inv used (signals (g_sig g)) (16 - length used) Hinv) as (a & E & Ha & _); [|done|..].
  - rewrite Hu in Hpos. rewrite !Forall_forall in *. intros s Hs. destruct (Hf s Hs) as [Hh _]. split; [done|].
    apply Hpos; [apply elem_of_app; by left|by apply handled_nz].
  - intros s Hs. destruct (Z.lt_ge_cases (number_pending s) (2 ^ 31 - 1)); [done|]. destruct Hm. right. apply Exists_exists. by exists s.
  - rewrite Hu. exists a. split; [done|]. rewrite Hu, E in Hm. destruct (decide (Forall ts_ok a ∧ distinct_times a)) as [[Ht Hd]|Hn]; [|by destruct Hm; left].
    split; [done|done|]. intros s1 s2 H1 H2. unfold distinct_times in Hd. rewrite Forall_forall in Hd. specialize (Hd s1 H1). rewrite Forall_forall in Hd. by apply Hd.
Qed.

(** Steps that leave the signals alone. *)
Definition same_sig (g g' : G) : Prop := ready g' ∧ signals (g_sig g') = signals (g_sig g) ∧ new_signals (g_sig g') = new_signals (g_sig g) ∧
  sig_wake_rd (g_sig g') = sig_wake_rd (g_sig g).

Lemma same_sig_log level msg g : ready g → returns (log_write level msg;; mret tt) g (λ _ g', same_sig g g').
Proof.
  intros Hr. destruct (log_output level msg g (sound_ctls _ (rd_sound _ Hr))) as (g' & E & F & C). exists tt, g'. split; [done|].
  unfold same_sig. rewrite (io_sig _ _ F). split; [|done]. eapply ready_around; [done|by eapply sound_io; [apply Hr|..]|].
  assert (Hp : preserves (around None) (log_write level msg;; mret tt)) by machine. by apply Hp in E.
Qed.

Lemma same_sig_sys c g : ready g → returns (sys c) g (λ _ g', same_sig g g').
Proof.
  intros Hr. eapply returns_mono; [apply (returns_and (λ g g', g_sig g' = g_sig g)); [apply (quiet_returns _ _ (λ _, True)); [apply keeps_sys|machine|done]|]|].
  - by intros g1 r g2 [= _ <-].
  - intros r g' [[Hr' _] E]. split; [done|]. by rewrite E.
Qed.

Lemma same_sig_trans g1 g2 g3 : same_sig g1 g2 → same_sig g2 g3 → same_sig g1 g3.
Proof. intros (_ & ? & ? & ?) (? & ? & ? & ?). split_and!; [done|congruence..]. Qed.

Lemma same_sig_seq {A B} (m : DP A) (f : A → DP B) g0 g Q : same_sig g0 g → returns m g (λ _ g', same_sig g g') →
  (∀ a g', same_sig g0 g' → in_time (f a) g' Q) → in_time (m ≫= f) g Q.
Proof. intros Hs0 Hm Hf. eapply in_time_seq; [exact Hm|]. intros a g' Hs. apply Hf. by eapply same_sig_trans. Qed.

Lemma ready_on_sig f g : ready g → sigs_ok (signals (f (g_sig g))) → rest_ready (on_sig f g) → ready (on_sig f g).
Proof.
  intros [Hg Hl Hfd Hft _] Hs Hrest. split; try done. by apply sound_on_sig.
Qed.

Lemma ready_on_wake f g : ready g → ready (on_wake f g).
Proof.
  intros Hr. destruct (quiet_returns (modify (on_wake f)) g (λ _, True)) as (? & g' & E & Hr' & _); [apply keeps_set_wake|machine|done|].
  by injection E as _ <-.
Qed.

Lemma drain_ready fuel fd g : ready g → in_time (drain_loop fuel fd) g (λ _ g', same_sig g g').
Proof.
  revert g. induction fuel as [|fuel IH]; intros g Hr; [by left|]. cbn [drain_loop].
  eapply in_time_seq; [by apply same_sig_sys|]. intros r g1 Hs1.
  destruct (ret r >? 0); [|right; by apply returns_ret].
  destruct (IH g1 (proj1 Hs1)) as [E|(a & g2 & E & Hs2)]; [by left|right]. exists a, g2. split; [done|]. eapply same_sig_trans; [exact Hs1|exact Hs2].
Qed.

Lemma sigprocmask_ready g : ready g → returns sigprocmask_logged g (λ _ g', same_sig g g').
Proof.
  intros Hr. unfold sigprocmask_logged. eapply returns_seq; [by apply same_sig_sys|]. intros r g1 Hs1.
  destruct (negb _); [|by apply returns_ret]. eapply returns_done; [reflexivity|].
  eapply returns_mono; [by apply same_sig_log, Hs1|]. intros ? g2 Hs2. eapply same_sig_trans; [exact Hs1|exact Hs2].
Qed.

Lemma merge_signals_ready g : ready g → ¬ muddled g → returns merge_new_signals g (λ _ g', ready g').
Proof.
  intros Hr Hm. destruct (merge_ready g Hr Hm) as (a & Ea & Ha). unfold merge_new_signals.
  eapply returns_seq; [by apply sigprocmask_ready|]. intros _ g1 (Hr1 & E1 & E2 & E3).
  eapply returns_done; [reflexivity|]. eapply returns_done; [unfold lift; rewrite E1, E2, Ea; reflexivity|].
  eapply returns_done; [reflexivity|]. eapply returns_done; [reflexivity|].
  eapply returns_mono; [apply sigprocmask_ready|by intros ? ? []].
  destruct (rd_rest _ Hr1) as [R1 R2 R3 R4].
  apply ready_on_sig; [apply ready_on_sig; [exact Hr1|exact Ha|split; [exact R1|exact R2|exact R3|exact R4]]|exact Ha|].
  split; [exact R1| |exact R3|exact R4]. split; [apply sig_inv_empty|]. cbn. by intros s [-> _]%elem_of_replicate.
Qed.

Lemma signals_ready fuel g : ready g → ¬ muddled g → in_time (sig_run fuel) g (λ _ g', ready g').
Proof.
  intros Hr Hm. destruct (rd_rest _ Hr) as [Hfd _ _ _].
  assert (Hdone : ∀ g', same_sig g g' → ¬ muddled g') by (intros g' (_ & E1 & E2 & _); unfold muddled; by rewrite E1, E2).
  assert (Hfits : fd_fits (sig_wake_rd (g_sig g)) = true) by (unfold fd_fits; lia).
  unfold sig_run. eapply in_time_done; [reflexivity|].
  eapply (in_time_seq _ _ _ (λ _ g', same_sig g g')).
  { destruct (negb _); cbn [when]; [|by apply returns_ret]. eapply returns_seq; [by apply same_sig_log|]. intros _ g1 (Hr1 & E1 & E2 & E3).
    eexists tt, _. split; [reflexivity|]. split; [|done]. apply ready_on_sig; [done|by apply (sd_sig _ (rd_sound _ Hr1))|]. by destruct (rd_rest _ Hr1); split. }
  intros _ g1 Hs1. unfold woke_on_readable. rewrite Hfits. eapply in_time_done; [reflexivity|].
  match goal with |- in_time (when ?b _ ≫= _) _ _ => assert (Hd : in_time (when b (drain_loop fuel (sig_wake_rd (g_sig g)))) g1 (λ _ g', same_sig g g')) end.
  { destruct (_ || _); cbn [when]; [|right; by apply returns_ret].
    destruct (drain_ready fuel (sig_wake_rd (g_sig g)) g1 (proj1 Hs1)) as [E|(a & g2 & E & Hs2)]; [by left|right].
    exists a, g2. split; [done|]. eapply same_sig_trans; [exact Hs1|exact Hs2]. }
  destruct Hd as [E|(? & g2 & E & Hs2)]; [left; unfold mbind, M_bind; by rewrite E|].
  eapply in_time_done; [exact E|]. unfold wake_on_readable. rewrite Hfits. eapply in_time_done; [reflexivity|].
  set (g3 := on_wake _ g2). assert (Hs3 : same_sig g g3).
  { destruct Hs2 as (Hr2 & ?). split; [by apply ready_on_wake|done]. }
  right. apply merge_signals_ready; [apply Hs3|by apply Hdone].
Qed.

(** ** The log *)

(** The descriptor of the log, or one that it may come to write to, is too large to wait
    for. *)
Definition unwaitable (g : G) : Prop := FD_SETSIZE ≤ log_fd (g_log g) ∨
  Exists (λ o, match fd_objs (g_fd g) !! o with Some f => FD_SETSIZE ≤ fd_fd f | None => False end)
    (take (Z.to_nat (fd_list_count (g_fd g))) (fd_list (g_fd g))).

#[export] Instance unwaitable_dec g : Decision (unwaitable g).
Proof.
  unfold unwaitable. apply or_dec; [apply _|]. apply Exists_dec. intros o. destruct (fd_objs (g_fd g) !! o) as [f|]; [apply _|right; intros []].
Defined.

Lemma waitable g g' : ¬ unwaitable g → log_fd_from g g' → log_fd (g_log g') < FD_SETSIZE.
Proof.
  intros Hu [E|(o & f & Ho & Ef & E)]; rewrite E; apply Z.nle_gt; intros Hle; apply Hu; [by left|right].
  apply Exists_exists. exists o. split; [exact Ho|]. by rewrite Ef.
Qed.

Lemma ready_on_log f g : ready g → (log_ok (g_log g) → log_ok (f (g_log g))) →
  (Z.of_nat (length (log_dest_fd_name (g_log g))) < NAME_BUF_SIZE → Z.of_nat (length (log_dest_fd_name (f (g_log g)))) < NAME_BUF_SIZE) → ready (on_log f g).
Proof.
  intros Hr Hok Hn. destruct (sound_on_log g f (rd_sound _ Hr) Hok) as [Hg _]. destruct Hr as [_ Hl Hfd Hft [R1 R2 R3 R4]].
  split; try done. split; try done. by apply Hn.
Qed.

Lemma attach_ready g : ready g → returns log_fd_attach g (λ b g', ready g' ∧ (b = true → 0 ≤ log_fd (g_log g') ∧ log_fd_from g g')).
Proof.
  intros Hr. destruct (keeps_log_attach g (rd_sound _ Hr) (re_name _ (rd_rest _ Hr))) as (b & g' & E & Hg' & _ & HP). exists b, g'.
  split; [done|]. split; [|done]. eapply ready_around; [done|done|]. assert (Hp : preserves (around None) log_fd_attach) by machine. by apply Hp in E.
Qed.

Lemma flush_ready g : ready g → returns log_flush g (λ _ g', ready g' ∧ log_fd (g_log g') = log_fd (g_log g)).
Proof.
  intros Hr. destruct (keeps_log_flush_fd g (rd_sound _ Hr)) as (b & g' & E & Hg' & _ & HP). exists b, g'.
  split; [done|]. split; [|done]. eapply ready_around; [done|done|]. assert (Hp : preserves (around None) log_flush) by machine. by apply Hp in E.
Qed.

Lemma log_blocked_ready g : ready g → 0 ≤ log_fd (g_log g) < FD_SETSIZE → returns log_run_blocked g (λ _ g', ready g').
Proof.
  intros Hr Hfd. assert (Hfits : ∀ g', log_fd (g_log g') = log_fd (g_log g) → fd_fits (log_fd (g_log g')) = true) by (intros g' ->; unfold fd_fits; lia).
  unfold log_run_blocked. eapply returns_done; [reflexivity|]. eapply returns_done; [reflexivity|].
  unfold woke_on_writeable_only. rewrite (Hfits g eq_refl). eapply returns_done; [reflexivity|].
  eapply (returns_seq _ _ _ (λ _ g', ready g' ∧ log_fd (g_log g') = log_fd (g_log g))).
  - destruct (_ || _); [|by apply returns_ret]. eapply returns_done; [reflexivity|].
    eapply returns_seq; [apply flush_ready; by apply ready_on_log|]. intros _ g1 [Hr1 E1]. eapply returns_done; [reflexivity|].
    destruct (log_blocked (g_log g1)); cbn [when]; [|by apply returns_ret].
    eexists tt, _. split; [reflexivity|]. split; [by apply ready_on_log|done].
  - intros _ g1 [Hr1 E1]. eapply returns_done; [reflexivity|]. destruct (log_blocked (g_log g1)); [|by apply returns_ret].
    destruct (negb _); [eexists tt, _; split; [reflexivity|by apply ready_on_wake]|].
    unfold wake_on_writeable_only. rewrite Hfits by done. eexists tt, _. split; [reflexivity|]. by apply ready_on_wake.
Qed.

Lemma log_ready g : ready g → ¬ unwaitable g → returns log_run g (λ _ g', ready g').
Proof.
  intros Hr Hu. unfold log_run. eapply returns_done; [reflexivity|].
  eapply (returns_seq _ _ _ (λ b g', ready g' ∧ (b = true → 0 ≤ log_fd (g_log g') ∧ log_fd_from g g'))).
  - destruct (Z.ltb_spec (log_fd (g_log g)) 0); [by apply attach_ready|]. apply returns_ret. split; [done|]. intros _. by split; [|left].
  - intros b g1 [Hr1 Hb]. destruct b; cbn [negb]; [|by apply returns_ret]. destruct (Hb eq_refl) as [Hpos Hfrom].
    eapply returns_done; [reflexivity|]. destruct (log_blocked (g_log g1)); cbn [when]; [|by apply returns_ret].
    apply log_blocked_ready; [done|]. split; [done|]. by eapply waitable.
Qed.
End services.

(** ** New connections *)

(** The descriptor of a connection that is accepted fits the sets of [select]. *)
Class AcceptOk `{OS} : Prop :=
  accept_fits tr fd : ret (os tr (CAccept fd)) < FD_SETSIZE.

#[export] Instance ideal_accept_ok : @AcceptOk ideal_os.
Proof. by intros tr fd. Qed.

(** What cannot be seen from the control socket, the descriptors and the options. *)
Class Outer (R : G → G → Prop) : Prop := {
  #[global] outer_preorder :: PreOrder R;
  outer_same g g' : control_socket (g_main g') = control_socket (g_main g) → g_opt g' = g_opt g → g_fd g' = g_fd g → R g g';
}.

Definition same_socket (g g' : G) : Prop := control_socket (g_main g') = control_socket (g_main g).
Definition same_options (g g' : G) : Prop := g_opt g' = g_opt g.
Definition same_files (g g' : G) : Prop := g_fd g' = g_fd g.

#[export] Instance same_socket_outer : Outer same_socket.
Proof. split; [|done]. unfold same_socket. split; [done|]. intros g1 g2 g3. congruence. Qed.

#[export] Instance same_options_outer : Outer same_options.
Proof. split; [|done]. unfold same_options. split; [done|]. intros g1 g2 g3. congruence. Qed.

#[export] Instance same_files_outer : Outer same_files.
Proof. split; [|done]. unfold same_files. split; [done|]. intros g1 g2 g3. congruence. Qed.

Create HintDb outer.

Section outer.
Context `{OS} (R : G → G → Prop) `{!Outer R}.

Lemma outer_modify f : (∀ g, control_socket (g_main (f g)) = control_socket (g_main g)) → (∀ g, g_opt (f g) = g_opt g) →
  (∀ g, g_fd (f g) = g_fd g) → preserves R (modify f).
Proof. intros Hs Ho Hf. apply preserves_modify. intros g. by apply outer_same. Qed.

Lemma outer_upd i f : preserves R (upd_ctl i f).
Proof. intros g a g'. unfold upd_ctl. destruct (_ !! _); [|done]. intros [= _ <-]. by apply outer_same. Qed.

Lemma outer_rb {A} (m : RB A) : preserves R (rb m).
Proof. intros g a g'. unfold rb. destruct (m (g_rb g)) as [[]| | | |]; try done. intros [= _ <-]. by apply outer_same. Qed.

Lemma outer_sys c : preserves R (sys c).
Proof. intros g a g' [= _ <-]. by apply outer_same. Qed.
End outer.
#[export] Hint Resolve outer_upd outer_rb outer_sys : outer.
#[export] Hint Extern 0 (Outer _) => apply _ : outer.

(** What a computation on other parts leaves alone. *)
Ltac outer :=
  repeat first
    [ preserves_step
    | solve [auto 2 with outer nocore]
    | apply outer_modify; [apply _|done..]
    | unfold_call ].

Section outer_loops.
Context `{OS} (R : G → G → Prop) `{!Outer R}.

Lemma outer_flush_loop fuel : preserves R (log_flush_loop fuel).
Proof. induction fuel; cbn [log_flush_loop]; outer. Qed.
#[local] Hint Resolve outer_flush_loop : outer.

Lemma outer_log level msg : preserves R (log_write level msg).
Proof. outer. Qed.
#[local] Hint Resolve outer_log : outer.

Lemma outer_alloc n i : preserves R (ctl_alloc_loop n i).
Proof. revert i. induction n; intros; cbn [ctl_alloc_loop]; outer. Qed.

Lemma outer_ctl_flush fuel i : preserves R (ctl_flush_loop fuel i).
Proof. induction fuel; cbn [ctl_flush_loop]; outer. Qed.
#[local] Hint Resolve outer_ctl_flush : outer.

Lemma outer_write_one fuel i msg : preserves R (ctl_write_one fuel i msg).
Proof. induction fuel; cbn [ctl_write_one]; outer. Qed.
#[local] Hint Resolve outer_write_one : outer.

Lemma outer_write_all dest msg : preserves R (ctl_write_all dest msg).
Proof. induction dest; cbn [ctl_write_all]; outer. Qed.

Lemma outer_ancillary l : preserves R (ctl_close_ancillary l).
Proof. induction l; cbn [ctl_close_ancillary]; outer. Qed.
End outer_loops.
#[export] Hint Resolve outer_flush_loop outer_log outer_alloc outer_ctl_flush outer_write_one outer_write_all outer_ancillary : outer.

Section connections.
Context `{OS} `{!WriteOk} `{!SocketOk} `{!AcceptOk}.

Lemma returns_after {A} i (m : DP A) g c Q P : returns m g Q → g_ctl g !! i = Some c → after i m P c →
  returns m g (λ a g', Q a g' ∧ ∃ c', g_ctl g' !! i = Some c' ∧ P a c').
Proof. intros (a & g' & E & HQ) Hi Ha. exists a, g'. split; [done|]. split; [done|]. by eapply Ha. Qed.

Lemma free_blank `{Inet} `{CmdTable} i g : blank i g → returns (ctl_free (Some i)) g (λ _ g', blank i g').
Proof.
  intros [Hr (c & Hi & Hb)]. eapply returns_mono; [eapply (returns_after i _ _ c _ (λ _ c', recv_buf c' = [])); [|exact Hi|]|].
  - eapply (ready_fine i); [done|exact Hi|machine|apply after_free|apply fine_free].
  - cbn [ctl_free]. apply after_bind, after_upd. eapply after_undisturbed; [machine|]. intros _ c' [Ei _ _ _ _]. injection Ei as Eb _ _ _. by rewrite Eb.
  - intros ? g' [Hr' Hc']. by split.
Qed.

Lemma keeps_accept fd : keeps (sys (CAccept fd)) (λ r, ret r < FD_SETSIZE).
Proof.
  intros g Hg. destruct (keeps_sys (CAccept fd) g Hg) as (r & g' & E & ? & ? & _). exists r, g'. split; [done|]. split_and!; [done..|].
  injection E as <- _. apply accept_fits.
Qed.

Lemma blank_returns {A} (m : DP A) P i g : keeps m P → preserves (around None) m → blank i g → returns m g (λ a g', blank i g' ∧ P a).
Proof.
  intros Hm Hf [Hr (c & Hi & Hb)]. eapply returns_mono; [by apply ready_quiet|]. intros a g' (Hr' & [_ Ho] & HP). split; [|done].
  split; [done|]. destruct (Ho i c ltac:(done) Hi) as (c' & Hi' & [Ei _ _ _ _]). exists c'. split; [done|]. injection Ei. congruence.
Qed.

(** What is done with a controller that was allocated for a connection. *)
Lemma client_ready `{Inet} `{CmdTable} i fd g : blank i g → returns (client ← sys (CAccept fd);
    (if ret client <? 0 then e ← strerror_errno; log_debug (str "accept: " ++ e);; ctl_free (Some i) else mret tt);;
    ok ← ctl_ctor i (ret client) (ret client);
    (if negb ok then ctl_dtor i;; ctl_free (Some i);; sys (CClose (ret client));; mret tt else mret tt);;
    mret true) g (λ _ g', ready g').
Proof.
  intros Hg. eapply returns_seq; [by apply blank_returns; [apply keeps_accept|machine|]|]. intros client g1 [Hg1 Hclient]. cbn beta in Hclient.
  eapply (returns_seq _ _ _ (λ _ g', blank i g')).
  { destruct (ret client <? 0); [|by apply returns_ret].
    eapply blank_seq; [apply keeps_errno|machine|exact Hg1|]. intros e g2 Hg2.
    eapply blank_seq; [apply keeps_log|machine|exact Hg2|]. intros _ g3 Hg3. by apply free_blank. }
  intros _ g2 Hg2. eapply returns_seq; [by apply ctor_ready|]. intros ok g3 [Hr3 (c & Hi & Hb)].
  eapply (returns_seq _ _ _ (λ _ g', ready g')); [|intros ? g4 Hr4; by apply returns_ret].
  destruct ok; cbn [negb]; [by apply returns_ret|].
  eapply returns_seq; [eapply (ready_fine i); [done|exact Hi|machine|apply after_dtor; unfold room_ok; by rewrite Hb|apply fine_dtor]|]. intros ? g4 Hr4.
  destruct (lookup_lt_is_Some_2 (g_ctl g4) i) as [c4 Hi4]; [rewrite (rd_len _ Hr4), <-(rd_len _ Hr3); by eapply lookup_lt_Some|].
  eapply returns_seq; [eapply (ready_fine i); [done|exact Hi4|machine|apply after_free|apply fine_free]|]. intros ? g5 Hr5.
  eapply returns_seq; [apply (quiet_returns _ _ (λ _, True)); [apply keeps_sys|machine|done]|]. intros ? g6 [Hr6 _]. by apply returns_ret.
Qed.

(** A connection is accepted, or not. *)
Lemma accept_ready `{Inet} `{CmdTable} g : ready g → returns control_socket_run g (λ _ g', ready g').
Proof.
  intros Hr. unfold control_socket_run. eapply returns_done; [reflexivity|].
  destruct (Z.geb_spec (control_socket (g_main g)) 0) as [Hpos|]; [|by apply returns_ret].
  assert (Hfits : ∀ g', ready g' → same_socket g g' → fd_fits (control_socket (g_main g')) = true).
  { intros g' Hr' E. unfold fd_fits. rewrite E. pose proof (sd_sock _ (rd_sound _ Hr)). lia. }
  unfold woke_on_readable. rewrite (Hfits g) by done. eapply returns_done; [reflexivity|].
  eapply (returns_seq _ _ _ (λ _ g', ready g' ∧ same_socket g g')).
  2: { intros ran g1 [Hr1 E1]. eapply returns_done; [reflexivity|]. destruct ran; cbn [when]; [|by apply returns_ret].
       unfold wake_on_readable. rewrite Hfits by done. eexists tt, _. split; [reflexivity|]. by apply ready_on_wake. }
  destruct (_ || _); [|by apply returns_ret].
  apply (returns_and same_socket).
  - eapply returns_seq; [apply (quiet_returns _ _ (λ _, True)); [apply keeps_log|machine|done]|]. intros _ g1 [Hr1 _].
    eapply returns_seq; [by apply (alloc_loop_ready CONTROLLER_MAX_CLIENTS 0)|]. intros [i|] g2 [Hr2 Hb].
    + by apply client_ready, Hb.
    + eapply returns_seq; [apply (quiet_returns _ _ (λ _, True)); [apply keeps_log|machine|done]|]. intros _ g3 [Hr3 _].
      eapply returns_done; [reflexivity|]. apply returns_ret. by apply ready_on_wake.
  - outer.
Qed.

(** ** The clock and the wait *)

Lemma clock_ready g : ready g → returns (now ← gettime_mon_frac; modify (on_wake (set_wake_now now))) g (λ _ g', ready g').
Proof.
  intros Hr. eapply returns_seq; [apply (quiet_returns _ _ (λ _, True)); [unfold gettime_mon_frac; by keeps_tac|machine|done]|].
  intros now g1 [Hr1 _]. eexists tt, _. split; [reflexivity|]. by apply ready_on_wake.
Qed.

Lemma select_ready g : ready g → returns main_select g (λ _ g', ready g').
Proof.
  intros Hr. unfold main_select. eapply returns_done; [reflexivity|].
  eapply returns_seq; [apply (quiet_returns _ _ (λ _, True)); [apply keeps_sys|machine|done]|]. intros r g1 [Hr1 _].
  eapply returns_seq; [apply (quiet_returns _ _ (λ _, True)); [by keeps_tac|machine|done]|]. intros _ g2 [Hr2 _].
  eexists tt, _. split; [reflexivity|]. by apply ready_on_wake.
Qed.
End connections.
