(* ===== verification/MachineThms.v ===== *)
(** * The daemon does not get stuck

    The operations of the main loop are the steps of a machine: each returns from every
    ready state and leads to a ready state.  The main loop is a plan of such operations,
    which it carries out one after another, but for the situations that [excepted]
    names. *)

From S2P Require Import Prelude Strseg State RBTree RBTreeRep OrdIndex RBTreeIndex Table Log Signal SignalSpec CtlOut CtlOutSpec SvcVars Fd FdSpec FdThms CtlObj Service Dll ServiceSpec SvcRun SvcActive SvcNew SvcThms Walk SvcLists Sound SoundSvc CtlArg CtlSock Fatal Options CtlCmd CtlObjCmd SoundFd SoundArg SoundSock SoundCmd SoundObjCmd SoundSvcCmd CtlIn CtlTable Preserves Frame CtlFrame CtlFraming SoundCtl SoundDump SoundThms Machine MachineCtl Main MachineParts.

(** ** The operations *)

Inductive op :=
  | op_new (recv send : Z)
  | op_read (i : nat)
  | op_flush (i : nat)
  | op_state (i : nat)
  | op_wait (i : nat)
  | op_wake (f : wake_t → wake_t)
  | op_clock
  | op_log
  | op_signals (fuel : nat)
  | op_reap (fuel : nat)
  | op_services
  | op_accept
  | op_select.

(** The situations that are not covered: a line on which the program goes wrong, a service
    with control descriptors, signals that cannot be told apart, and a log whose
    descriptor [select] cannot wait for. *)
Definition wild (g : G) : Prop := ∃ i c, g_ctl g !! i = Some c ∧ wild_line c.

Definition excepted (g : G) : Prop := wild g ∨ controlled g ∨ muddled g ∨ unwaitable g.

Section ops.
Context `{OS} `{!WriteOk} `{!SocketOk} `{!AcceptOk} `{!ReadOk} `{Inet} `{CmdTableOk}.

(** What the operation does.  A round over the states of a controller answers whether
    there is more to do. *)
Definition exec (o : op) : DP bool :=
  match o with
  | op_new recv send => ctl_new recv send;; mret false
  | op_read i => ctl_try_read i;; mret false
  | op_flush i => ctl_try_flush i;; mret false
  | op_state i => c ← get_ctl i; match state_fn c with None => fault | Some s => ctl_state s i end
  | op_wait i => ctl_run_two i;; mret false
  | op_wake f => modify (on_wake f);; mret false
  | op_clock => now ← gettime_mon_frac; modify (on_wake (set_wake_now now));; mret false
  | op_log => log_run;; mret false
  | op_signals fuel => sig_run fuel;; mret false
  | op_reap fuel => reap_loop fuel;; mret false
  | op_services => svc_run_active;; mret false
  | op_accept => control_socket_run;; mret false
  | op_select => main_select;; mret false
  end.

(** The descriptors of a new controller fit the sets of [select], a controller is in use
    when it is read from or stepped, and the loops over bytes and zombies have the fuel
    that they need. *)
Definition allowed (g : G) (o : op) : Prop :=
  match o with
  | op_new recv send => recv < FD_SETSIZE ∧ send < FD_SETSIZE
  | op_read i => ∃ c s, g_ctl g !! i = Some c ∧ state_fn c = Some s
  | op_flush i | op_wait i => (i < CONTROLLER_MAX_CLIENTS)%nat
  | op_state i => ∃ c s, g_ctl g !! i = Some c ∧ state_fn c = Some s ∧ ¬ wild_line c
  | op_log => ¬ unwaitable g
  | op_signals fuel => ¬ muddled g ∧ sig_run fuel g ≠ OutOfFuel
  | op_reap fuel => reap_loop fuel g ≠ OutOfFuel
  | op_services => ¬ controlled g
  | op_wake _ | op_clock | op_accept | op_select => True
  end.

Hypothesis parent : fork_in_parent.

Lemma in_time_returns {A} (m : DP A) g Q : in_time m g Q → m g ≠ OutOfFuel → returns m g Q.
Proof. by intros [E|Hr]. Qed.

Lemma answers {A B} (m : DP A) (b : B) g Q : returns m g (λ _ g', Q g') → returns (m;; mret b) g (λ _ g', Q g').
Proof. intros Hm. eapply returns_seq; [exact Hm|]. intros ? g1 HQ. by apply returns_ret. Qed.

Lemma exec_ready o g : ready g → allowed g o → returns (exec o) g (λ _ g', ready g').
Proof.
  intros Hr Ha. destruct o as [recv send|i|i|i|i|f| | |fuel|fuel| | |]; cbn [exec allowed] in *; try apply answers.
  - destruct Ha as [Hrf Hsf]. eapply returns_mono; [by apply new_ready|]. by intros ? ? [? _].
  - destruct Ha as (c & s & Hi & Hst). eapply (ready_fine i); [done|done|apply around_try_read| |apply fine_try_read].
    apply (after_try_read i c s); [by eapply rd_fits|done].
  - destruct (lookup_lt_is_Some_2 (g_ctl g) i) as [c Hi]; [by rewrite (rd_len _ Hr)|].
    eapply (ready_fine i); [done|done|machine| |apply fine_try_flush].
    by apply after_try_flush; eapply rd_fits.
  - destruct Ha as (c & s & Hi & Hst & Hw). eapply returns_done; [by apply get_ctl_eq|]. rewrite Hst. by eapply state_ready_ok.
  - destruct (lookup_lt_is_Some_2 (g_ctl g) i) as [c Hc]; [by rewrite (rd_len _ Hr)|].
    eapply (ready_fine i); [done|done|apply around_run_two| |apply fine_run_two].
    by apply after_run_two; eapply rd_fits.
  - eexists tt, _. split; [reflexivity|]. by apply ready_on_wake.
  - destruct (answers _ false _ _ (clock_ready g Hr)) as (b & g1 & E & Hr1). rewrite bind_bind in E. by exists b, g1.
  - by apply log_ready.
  - destruct Ha as [Hm Hf]. apply in_time_returns; [by apply signals_ready|done].
  - apply in_time_returns; [by apply reap_ready|done].
  - by apply services_ready.
  - by apply accept_ready.
  - by apply select_ready.
Qed.

(** ** Plans *)

(** A plan performs operations, each chosen by the answer of the one before it and the
    state; it ends, or gives up when the bound on its rounds is used up. *)
Inductive plan :=
  | finish
  | give_over
  | perform (o : op) (next : bool → G → plan).

Fixpoint run (p : plan) : DP unit :=
  match p with
  | finish => mret tt
  | give_over => nofuel
  | perform o next => more ← exec o; g ← gets id; run (next more g)
  end.

(** The states in which the plan performs its operations, and that it ends in. *)
Inductive passes : plan → G → G → Prop :=
  | passes_here p g : passes p g g
  | passes_on o next g more g1 g2 : exec o g = Done (more, g1) → passes (next more g1) g1 g2 → passes (perform o next) g g2.

(** Part of a plan: it is told how to go on after it.  Such parts are composed like the
    computations of the program. *)
Definition Part (A : Type) : Type := (A → G → plan) → G → plan.

#[local] Instance Part_ret : MRet Part := λ A a next, next a.
#[local] Instance Part_bind : MBind Part := λ A B f p next, p (λ a, f a next).

Definition look {A} (f : G → A) : Part A := λ next g, next (f g) g.
Definition act (o : op) : Part bool := λ next _, perform o next.
Definition over {A} : Part A := λ _ _, give_over.

(** *** The plan of the main loop *)

Fixpoint steps_plan (n i : nat) : Part bool :=
  match n with
  | O => mret true
  | S n => more ← act (op_state i); if (more : bool) then steps_plan n i else mret false
  end.

Definition idle (i : nat) (g : G) : bool :=
  match g_ctl g !! i with Some c => match state_fn c with None => true | Some _ => false end | None => false end.

Definition one_plan (i : nat) : Part unit :=
  free ← look (idle i);
  if (free : bool) then mret tt
  else
    act (op_read i);;
    act (op_flush i);;
    more ← steps_plan ctl_run_steps i;
    if (more : bool) then act (op_wake (λ w, set_wake_next (wake_now w) w));; mret tt else mret tt.

Fixpoint all_plan (f : nat → Part unit) (n i : nat) : Part unit :=
  match n with
  | O => mret tt
  | S n => f i;; all_plan f n (S i)
  end.

Definition run_plan : Part unit :=
  all_plan one_plan CONTROLLER_MAX_CLIENTS 0;;
  all_plan (λ i, act (op_wait i);; mret tt) CONTROLLER_MAX_CLIENTS 0.

Definition iteration_plan (fuel : nat) : Part unit :=
  act (op_wake (λ w, set_wake_max_fd (-1) (set_wake_next (wrap64 (wake_now w + 200 * 2 ^ 32)) w)));;
  act op_log;;
  act (op_signals fuel);;
  act (op_reap fuel);;
  act op_services;;
  act op_accept;;
  run_plan;;
  act op_log;;
  act op_clock;;
  act op_select;;
  act op_clock;;
  mret tt.

Fixpoint loop_part (iterations fuel : nat) : Part unit :=
  match iterations with
  | O => over
  | S iterations =>
      m ← look g_main;
      if main_terminate m then mret tt else iteration_plan fuel;; loop_part iterations fuel
  end.

Definition loop_plan (iterations fuel : nat) : G → plan := loop_part iterations fuel (λ _ _, finish).

(** *** It is what the main loop does *)

(** The part of a plan does what the computation does. *)
Definition plans {A} (p : Part A) (m : DP A) : Prop :=
  ∀ next (k : A → DP unit) g, (∀ a g', run (next a g') g' = k a g') → run (p next g) g = (m ≫= k) g.

Lemma plans_ret {A} (a : A) : plans (mret a) (mret a).
Proof. intros next k g Hk. apply Hk. Qed.

Lemma plans_look {A} (f : G → A) : plans (look f) (gets f).
Proof. intros next k g Hk. apply Hk. Qed.

Lemma plans_over {A} : plans (A := A) over nofuel.
Proof. done. Qed.

Lemma plans_bind {A B} p (m : DP A) p' (m' : A → DP B) : plans p m → (∀ a, plans (p' a) (m' a)) → plans (p ≫= p') (m ≫= m').
Proof. intros Hp Hp' next k g Hk. rewrite bind_bind. apply Hp. intros a g'. by apply Hp'. Qed.

Lemma plans_exec o : plans (act o) (exec o).
Proof. intros next k g Hk. cbn. unfold mbind, M_bind. destruct (exec o g) as [[more g1]| | | |]; [|done..]. apply Hk. Qed.

(** An operation without an answer. *)
Lemma plans_act o (m : DP unit) : exec o = (m;; mret false) → plans (act o;; mret tt) m.
Proof.
  intros E next k g Hk. transitivity ((exec o ≫= λ _, k tt) g); [apply (plans_exec o (λ _, next tt)); intros; apply Hk|].
  rewrite E, bind_bind. unfold mbind, M_bind. by destruct (m g) as [[[] g1]| | | |].
Qed.

Lemma plans_then {B} o (m : DP unit) p (k : DP B) : exec o = (m;; mret false) → plans p k → plans (act o;; p) (m;; k).
Proof.
  intros E Hp. exact (plans_bind (act o;; mret tt) m (λ _, p) (λ _, k) (plans_act o m E) (λ _, Hp)).
Qed.

Lemma plans_if {A} (b : bool) p p' (m m' : DP A) : plans p m → plans p' m' → plans (if b then p else p') (if b then m else m').
Proof. by destruct b. Qed.

Lemma plans_steps n i : plans (steps_plan n i) (ctl_steps n i).
Proof.
  induction n as [|n IH]; cbn [steps_plan ctl_steps]; [apply plans_ret|]. intros next k g Hk.
  etransitivity; [eapply (plans_bind _ (exec (op_state i))); [apply plans_exec|intros more; apply plans_if; [exact IH|apply plans_ret]|exact Hk]|].
  cbn [exec]. rewrite !bind_bind. unfold mbind, M_bind. destruct (get_ctl i g) as [[c g1]| | | |]; [|done..]. destruct (state_fn c) as [s0|]; [|done]. by destruct (ctl_state s0 i g1) as [[]| | | |].
Qed.

Lemma plans_one i : plans (one_plan i) (ctl_run_one i).
Proof.
  assert (Hbusy : plans (act (op_read i);; act (op_flush i);; more ← steps_plan ctl_run_steps i;
    if (more : bool) then act (op_wake (λ w, set_wake_next (wake_now w) w));; mret tt else mret tt)
    (ctl_try_read i;; ctl_try_flush i;; more ← ctl_steps ctl_run_steps i; when more wake_now_again)).
  { apply plans_then; [done|]. apply plans_then; [done|]. eapply plans_bind; [apply plans_steps|]. intros [|]; [by apply plans_act|apply plans_ret]. }
  intros next k g Hk. pose proof (Hbusy next k g Hk) as E. unfold one_plan, ctl_run_one. rewrite bind_bind.
  unfold mbind at 1, Part_bind, look, idle. destruct (g_ctl g !! i) as [c|] eqn:Hi.
  - rewrite (bind_done _ _ _ _ _ (get_ctl_eq _ _ _ Hi)). destruct (state_fn c); [exact E|apply Hk].
  - assert (Ef : get_ctl i g = Fault) by (unfold get_ctl, gets, mbind, M_bind; cbn; by rewrite Hi).
    etransitivity; [exact E|]. unfold ctl_try_read, mbind, M_bind. by rewrite Ef.
Qed.

Lemma plans_all p f n i : (∀ i, plans (p i) (f i)) → plans (all_plan p n i) (ctl_for_all f n i).
Proof. intros Hp. revert i. induction n as [|n IH]; intros i; cbn [all_plan ctl_for_all]; [apply plans_ret|]. by apply plans_bind. Qed.

Lemma plans_run : plans run_plan ctl_run.
Proof.
  apply plans_bind; [apply plans_all, plans_one|]. intros _. apply plans_all. intros i. by apply plans_act.
Qed.

Lemma plans_ext {A} p (m m' : DP A) : (∀ g, m g = m' g) → plans p m → plans p m'.
Proof. intros E Hp next k g Hk. rewrite (Hp next k g Hk). unfold mbind, M_bind. by rewrite E. Qed.

Lemma plans_clock : plans (act op_clock;; mret tt) (now ← gettime_mon_frac; modify (on_wake (set_wake_now now))).
Proof.
  intros next k g Hk. transitivity ((exec op_clock ≫= λ _, k tt) g); [apply (plans_exec _ (λ _, next tt)); intros; apply Hk|].
  cbn [exec]. rewrite !bind_bind. unfold mbind, M_bind. by destruct (gettime_mon_frac g) as [[]| | | |].
Qed.

Lemma plans_iteration fuel : plans (iteration_plan fuel) (main_iteration fuel).
Proof.
  assert (Hwait : plans (act op_select;; act op_clock;; mret tt) (main_select;; now ← gettime_mon_frac; modify (on_wake (set_wake_now now)))).
  { apply plans_then; [done|apply plans_clock]. }
  unfold iteration_plan, main_iteration. do 6 (apply plans_then; [done|]). apply plans_bind; [apply plans_run|]. intros _.
  apply plans_then; [done|]. eapply plans_ext; [intros g; apply bind_bind|].
  exact (plans_bind _ _ _ _ plans_clock (λ _, Hwait)).
Qed.

Lemma loop_plan_runs iterations fuel g : run (loop_plan iterations fuel g) g = main_loop iterations fuel g.
Proof.
  assert (Hp : plans (loop_part iterations fuel) (main_loop iterations fuel)).
  { induction iterations as [|n IH]; cbn [loop_part main_loop]; [apply plans_over|]. apply plans_bind; [apply plans_look|].
    intros m. apply plans_if; [apply plans_ret|]. apply plans_bind; [apply plans_iteration|done]. }
  unfold loop_plan. rewrite (Hp _ mret); [|by intros []]. unfold mbind, M_bind. by destruct (main_loop iterations fuel g) as [[]| | | |].
Qed.

(** ** Plans that can be carried out *)

(** Every operation of the plan is allowed when its turn comes, unless the state is one
    that is excepted or the operation needs more fuel. *)
Fixpoint feasible (p : plan) (g : G) : Prop :=
  match p with
  | finish | give_over => True
  | perform o next => excepted g ∨ exec o g = OutOfFuel ∨
      allowed g o ∧ ∀ more g', exec o g = Done (more, g') → feasible (next more g') g'
  end.

Lemma feasible_ready p g : ready g → feasible p g →
  run p g = OutOfFuel ∨ (∃ g', run p g = Done (tt, g') ∧ ready g') ∨ ∃ g', passes p g g' ∧ excepted g'.
Proof.
  revert g. induction p as [| |o next IH]; intros g Hr; [right; left; by exists g|by left|].
  intros [He|[E|[Ha Hnext]]]; [right; right; exists g; split; [constructor|done]|left; by cbn; unfold mbind, M_bind; rewrite E|].
  destruct (exec_ready o g Hr Ha) as (more & g1 & E & Hr1). cbn [run]. rewrite (bind_done _ _ _ _ _ E).
  destruct (IH more g1 g1 Hr1 (Hnext more g1 E)) as [E1|[Hd|(g2 & Hp & He)]]; [by left|by right; left|].
  right. right. exists g2. split; [by eapply passes_on|done].
Qed.

(** A part that is feasible leads to what is told of it. *)
Definition leads {A} (p : Part A) (g : G) (P : A → G → Prop) : Prop :=
  ready g → ∀ next, (∀ a g', ready g' → P a g' → feasible (next a g') g') → feasible (p next g) g.

Lemma leads_ret {A} (a : A) g (P : A → G → Prop) : P a g → leads (mret a) g P.
Proof. intros HP Hr next Hnext. by apply Hnext. Qed.

Lemma leads_bind {A B} (p : Part A) (p' : A → Part B) g P Q :
  leads p g P → (∀ a g', P a g' → leads (p' a) g' Q) → leads (p ≫= p') g Q.
Proof. intros Hp Hp' Hr next Hnext. apply Hp; [done|]. intros a g' Hr' HP. by apply Hp'. Qed.

Lemma leads_look {A B} (f : G → A) (p : A → Part B) g Q : leads (p (f g)) g Q → leads (look f ≫= p) g Q.
Proof. done. Qed.

Lemma leads_act o g (P : bool → G → Prop) : (ready g → excepted g ∨ exec o g = OutOfFuel ∨ allowed g o) →
  (∀ more g', exec o g = Done (more, g') → P more g') → leads (act o) g P.
Proof.
  intros Ha HP Hr next Hnext. cbn. destruct (Ha Hr) as [He|[E|Ho]]; [by left|by right; left|]. right; right. split; [done|].
  intros more g' E. apply Hnext; [|by apply HP]. destruct (exec_ready o g Hr Ho) as (more' & g1 & E' & Hr1). congruence.
Qed.

(** Only that it can be done matters. *)
Lemma leads_op {B} o (p : Part B) g Q :
  (ready g → excepted g ∨ exec o g = OutOfFuel ∨ allowed g o) → (∀ g', leads p g' Q) → leads (act o;; p) g Q.
Proof. intros Ha Hp. eapply (leads_bind _ _ _ (λ _ _, True)); [by apply leads_act|]. intros ? g' _. apply Hp. Qed.

(** Whether a loop has enough fuel can be told. *)
Lemma fueled {A} (m : DP A) g : m g = OutOfFuel ∨ m g ≠ OutOfFuel.
Proof. destruct (m g); [by right|by right|by left|by right|by right]. Qed.

Lemma out_of_fuel (m : DP unit) g : m g = OutOfFuel → (m;; mret false) g = OutOfFuel.
Proof. intros E. unfold mbind, M_bind. by rewrite E. Qed.

(** The operations of a round that are not always allowed. *)
Lemma log_allowed g : ready g → excepted g ∨ exec op_log g = OutOfFuel ∨ allowed g op_log.
Proof. intros _. destruct (decide (unwaitable g)) as [Hu|Hu]; [left; unfold excepted; tauto|by right; right]. Qed.

Lemma services_allowed g : ready g → excepted g ∨ exec op_services g = OutOfFuel ∨ allowed g op_services.
Proof. intros _. destruct (decide (controlled g)) as [Hu|Hu]; [left; unfold excepted; tauto|by right; right]. Qed.

Lemma signals_allowed fuel g : ready g → excepted g ∨ exec (op_signals fuel) g = OutOfFuel ∨ allowed g (op_signals fuel).
Proof.
  intros _. destruct (decide (muddled g)) as [Hu|Hu]; [left; unfold excepted; tauto|right].
  destruct (fueled (sig_run fuel) g) as [E|E]; [left; by apply out_of_fuel|by right].
Qed.

Lemma reap_allowed fuel g : ready g → excepted g ∨ exec (op_reap fuel) g = OutOfFuel ∨ allowed g (op_reap fuel).
Proof. intros _. right. destruct (fueled (reap_loop fuel) g) as [E|E]; [left; by apply out_of_fuel|by right]. Qed.

(** A controller that is in use stays so until it is told not to be called again. *)
Definition used (i : nat) (g : G) : Prop := ∃ c, g_ctl g !! i = Some c ∧ running c.

Lemma leads_use {B} o i (m : DP unit) (p : Part B) g Q : exec o = (m;; mret false) → preserves in_use m → used i g → allowed g o →
  (∀ g', used i g' → leads p g' Q) → leads (act o;; p) g Q.
Proof.
  intros Eo Hm (c & Hi & Hc) Ha Hp. eapply (leads_bind _ _ _ (λ _ g', used i g')); [|intros ? g'; apply Hp].
  apply leads_act; [by right; right|]. intros more g' E. rewrite Eo in E. unfold mbind, M_bind in E.
  destruct (m g) as [[[] g1]| | | |] eqn:Em; try done. injection E as _ <-. exact (Hm _ _ _ Em i c Hi Hc).
Qed.

Lemma leads_steps n i g : used i g → leads (steps_plan n i) g (λ _ _, True).
Proof.
  revert g. induction n as [|n IH]; intros g Hu; cbn [steps_plan]; [by apply leads_ret|]. destruct Hu as (c & Hi & s & Hst).
  eapply (leads_bind _ _ _ (λ more g', (more : bool) = true → used i g')).
  - apply leads_act; [|intros [|] g' E; [intros _|done]].
    + intros _. destruct (decide (wild_line c)) as [Hw|Hw]; [left; left; by exists i, c|right; right; by exists c, s].
    + cbn [exec] in E. rewrite (bind_done _ _ _ _ _ (get_ctl_eq _ _ _ Hi)), Hst in E.
      by eapply goes_on; [exact E|exact Hi|exists s].
  - intros [|] g' Hu; [by apply IH, Hu|by apply leads_ret].
Qed.

Lemma leads_one i g : (i < CONTROLLER_MAX_CLIENTS)%nat → leads (one_plan i) g (λ _ _, True).
Proof.
  intros Hlt Hr. destruct (lookup_lt_is_Some_2 (g_ctl g) i) as [c Hi]; [by rewrite (rd_len _ Hr)|]. revert Hr. apply leads_look. unfold idle. rewrite Hi.
  destruct (state_fn c) as [s|] eqn:Hst; [|by apply leads_ret].
  assert (Hu : used i g) by (exists c; split; [done|by exists s]).
  eapply leads_use; [done|apply in_use_try_read|done|by exists c, s|]. intros g1 Hu1.
  eapply leads_use; [done|apply in_use_try_flush|done|done|]. intros g2 Hu2.
  eapply leads_bind; [by apply leads_steps|]. intros [|] g3 _; [|by apply leads_ret]. apply leads_op; [by right; right|]. intros g4. by apply leads_ret.
Qed.

Lemma leads_all p n k g : (∀ i g, (i < CONTROLLER_MAX_CLIENTS)%nat → leads (p i) g (λ _ _, True)) → (k + n ≤ CONTROLLER_MAX_CLIENTS)%nat →
  leads (all_plan p n k) g (λ _ _, True).
Proof.
  intros Hp. revert k g. induction n as [|n IH]; intros k g Hk; cbn [all_plan]; [by apply leads_ret|].
  eapply leads_bind; [apply Hp; lia|]. intros ? g1 _. apply IH. lia.
Qed.

Lemma leads_run g : leads run_plan g (λ _ _, True).
Proof.
  eapply leads_bind; [apply leads_all; [apply leads_one|done]|]. intros ? g1 _. apply leads_all; [|done].
  intros i g2 Hi. apply leads_op; [by right; right|]. intros g3. by apply leads_ret.
Qed.

Lemma leads_iteration fuel g : leads (iteration_plan fuel) g (λ _ _, True).
Proof.
  apply leads_op; [by right; right|]. intros g1. apply leads_op; [apply log_allowed|]. intros g2.
  apply leads_op; [apply signals_allowed|]. intros g3. apply leads_op; [apply reap_allowed|]. intros g4.
  apply leads_op; [apply services_allowed|]. intros g5. apply leads_op; [by right; right|]. intros g6.
  eapply leads_bind; [apply leads_run|]. intros ? g7 _. apply leads_op; [apply log_allowed|]. intros g8.
  do 3 (apply leads_op; [by right; right|]; intros ?). by apply leads_ret.
Qed.

Lemma loop_feasible iterations fuel g : ready g → feasible (loop_plan iterations fuel g) g.
Proof.
  intros Hr. assert (Hl : leads (loop_part iterations fuel) g (λ _ _, True)); [|by apply Hl].
  revert g Hr. induction iterations as [|n IH]; intros g Hr; cbn [loop_part]; [done|]. apply leads_look.
  destruct (main_terminate (g_main g)); [by apply leads_ret|].
  intros Hr1 next Hnext. apply (leads_iteration fuel g Hr1). intros ? g' Hr' _. by apply IH.
Qed.

(** The loop ends with the flag that asks for it. *)
Lemma loop_terminates iterations fuel g g' : main_loop iterations fuel g = Done (tt, g') → main_terminate (g_main g') = true.
Proof.
  revert g. induction iterations as [|n IH]; intros g; cbn [main_loop]; [done|]. rewrite (bind_done _ _ _ _ _ eq_refl).
  destruct (main_terminate (g_main g)) eqn:Et; [by injection 1 as <-|]. unfold mbind, M_bind.
  destruct (main_iteration fuel g) as [[]| | | |]; [|done..]. apply IH.
Qed.

(** C3. The daemon is a machine that does not get stuck.  In a ready state every operation
    of the main loop that is allowed returns: a new connection, a read, a round over the
    states of a controller, a flush, the end of its turn, the services, the zombies, the
    signals, the log, the wait.  The state it returns is ready again, whatever the system
    answers: all tables and lists are well formed, each buffer is within its bounds and
    agrees with the state its controller is in.  [main_loop] performs the operations of its
    plan one after another; from a ready state it ends with the flag that asks for it in a
    ready state, or is still running when its fuel is used up, unless one of the states in
    which it performs them is a situation that [excepted] names. *)
Theorem main_loop_type_safe g : ready g →
  (∀ o, allowed g o → ∃ more g', exec o g = Done (more, g') ∧ ready g') ∧
  ∀ iterations fuel, run (loop_plan iterations fuel g) g = main_loop iterations fuel g ∧
    (main_loop iterations fuel g = OutOfFuel ∨
     (∃ g', main_loop iterations fuel g = Done (tt, g') ∧ ready g' ∧ main_terminate (g_main g') = true) ∨
     ∃ g', passes (loop_plan iterations fuel g) g g' ∧ excepted g').
Proof.
  intros Hr. split; [intros o Ha; apply (exec_ready o g Hr Ha)|]. intros iterations fuel.
  pose proof (loop_plan_runs iterations fuel g) as E. split; [exact E|].
  destruct (feasible_ready _ g Hr (loop_feasible iterations fuel g Hr)) as [Ef|[(g' & Ed & Hr')|Hx]]; rewrite ?E in *; [by left| |by right; right].
  right; left. exists g'. split_and!; [done|done|by eapply loop_terminates].
Qed.
End ops.

(** ** A ready state *)

#[local] Instance parent_socket_ok : @SocketOk parent_os.
Proof. by intros tr d t. Qed.

#[local] Instance parent_accept_ok : @AcceptOk parent_os.
Proof. by intros tr fd. Qed.

#[local] Instance parent_read_ok : @ReadOk parent_os.
Proof. by split. Qed.

(** A controller has a whole line in its buffer, and the pipe of the signals is open. *)
Definition awake_state : G := on_sig (set_sig_wake_rd 3) line_state.

Lemma awake_state_ready : ready awake_state.
Proof.
  assert (Hc : ∀ i c, g_ctl awake_state !! i = Some c → c = line_ctl ∨ state_fn c = None ∧ recv_fd c = 0 ∧ send_fd c = 0).
  { intros i c Hi. destruct i as [|[|i]]; cbn in Hi; [left|right|done]; injection Hi as <-; done. }
  split.
  - apply sound_on_sig; [apply line_state_sound|]. apply (sd_sig _ line_state_sound).
  - done.
  - intros i c [->|(_ & Er & Ew)]%Hc; [done|]. unfold fds_fit. by rewrite Er, Ew.
  - intros i c [->|(Es & _)]%Hc; [|unfold fits; by rewrite Es]. split; [done|].
    exists (str "fd.pipe" ++ TAB :: str "a" ++ TAB :: str "b-c"), (str "ec"). by split.
  - split; [done| |done|done]. split; [apply sig_inv_empty|]. cbn. by intros s [-> _]%elem_of_replicate.
Qed.

Lemma main_loop_type_safe_witness :
  let loop := @main_loop parent_os (λ _, None) generated_table in
  (∀ o, @allowed parent_os awake_state o →
    ∃ more g', @exec parent_os (λ _, None) generated_table o awake_state = Done (more, g') ∧ ready g') ∧
  ∀ iterations fuel,
    @run parent_os (λ _, None) generated_table (loop_plan iterations fuel awake_state) awake_state = loop iterations fuel awake_state ∧
    (loop iterations fuel awake_state = OutOfFuel ∨
     (∃ g', loop iterations fuel awake_state = Done (tt, g') ∧ ready g' ∧ main_terminate (g_main g') = true) ∨
     ∃ g', @passes parent_os (λ _, None) generated_table (loop_plan iterations fuel awake_state) awake_state g' ∧ excepted g').
Proof.
  apply (@main_loop_type_safe parent_os parent_write_ok parent_socket_ok parent_accept_ok parent_read_ok (λ _, None)
    generated_table generated_table_ok parent_forks).
  apply awake_state_ready.
Defined.
