(* ===== verification/Startup.v ===== *)
(** * Starting the daemon

    What [main] does before its loop: every way through it ends the process with an
    error code, becomes the program of exec-on-exit, or leads to a [ready] state, in
    which the main loop can go on. *)

From S2P Require Import Prelude Strseg State RBTree RBTreeRep OrdIndex RBTreeIndex Table Log Signal SignalSpec CtlOut CtlOutSpec SvcVars Fd FdSpec FdThms CtlObj Service Dll ServiceSpec SvcRun SvcActive SvcNew SvcThms Walk SvcLists Sound SoundSvc CtlArg CtlSock Fatal Options CtlCmd CtlObjCmd SoundFd SoundArg SoundSock SoundCmd SoundObjCmd SoundSvcCmd CtlIn CtlTable Preserves Frame CtlFrame CtlFraming SoundCtl SoundDump SoundThms FatalThms Machine MachineCtl Main MachineParts MachineThms.

(** ** The state before the pipe of the signals is open *)

(** It would be ready if the pipe were open. *)
Definition almost (g : G) : Prop := ready (on_sig (set_sig_wake_rd 0) g).

Lemma almost_sound g : almost g → sound g.
Proof.
  intros [Hg _ _ _ _]. pose proof (sound_on_sig (λ _, g_sig g) _ Hg (sd_sig _ Hg)) as Hg'. by destruct g.
Qed.

(** The pipe is opened. *)
Lemma almost_ready rd g : almost g → 0 ≤ rd < FD_SETSIZE → ready (on_sig (set_sig_wake_rd rd) g).
Proof.
  intros Hg Hrd. apply (ready_on_sig (set_sig_wake_rd rd)) in Hg; [done|apply (sd_sig _ (rd_sound _ Hg))|].
  destruct (rd_rest _ Hg). by split.
Qed.

Lemma almost_on_sig f g : almost g → sigs_ok (signals (f (g_sig g))) → new_signals (f (g_sig g)) = new_signals (g_sig g) →
  almost (on_sig f g).
Proof.
  intros Hg Hs Hn. apply (ready_on_sig (λ _, set_sig_wake_rd 0 (f (g_sig g)))) in Hg; [done|exact Hs|].
  destruct (rd_rest _ Hg) as [R1 R2 R3 R4]. split; [done| |exact R3|exact R4]. cbn in R2 |- *. by rewrite Hn.
Qed.

(** What operations leave alone, but for the pipe. *)
Record calm (g g' : G) : Prop := {
  ca_others : others None g g';
  ca_fewer : fewer_fds g g';
  ca_new : new_signals (g_sig g') = new_signals (g_sig g);
  ca_last : svc_last_signal_ts (g_svc g') = svc_last_signal_ts (g_svc g);
  ca_name : name_kept g g';
}.

#[export] Instance calm_frame : Frame calm.
Proof.
  split.
  - split; [by split|]. intros g1 g2 g3 [] []. split; [by etransitivity..|congruence|congruence|]. unfold name_kept in *. auto.
  - intros g g' E S. split; [by apply frame_same..|apply S|apply S|]. by apply frame_same.
  - intros i f g c Hf Hc. split; [by apply frame_update..|done|done|by intros Hn].
Qed.

Lemma almost_calm g g' : almost g → sound g' → calm g g' → almost g'.
Proof.
  intros Hg Hs [Ho Hf En El Hn]. eapply ready_around; [exact Hg|apply sound_on_sig, sd_sig; done|]. by split.
Qed.

(** ** The first steps *)

(** Nothing has been set up but the clock, the log and the options. *)
Record unset (g : G) : Prop := {
  us_svc : g_svc g = g_svc G_0;
  us_fd : g_fd g = g_fd G_0;
  us_sig : g_sig g = g_sig G_0;
  us_rb : g_rb g = g_rb G_0;
  us_ctl : g_ctl g = g_ctl G_0;
  us_next : g_next g = g_next G_0;
  us_main : g_main g = g_main G_0;
  us_buf : log_buffer (g_log g) = [];
  us_lost : log_msg_lost (g_log g) = 0;
  us_name : log_dest_fd_name (g_log g) = [];
}.

Lemma rb_like {A} (m : RB A) g g' a g2 : rb m g = Done (a, g') → g_rb g2 = g_rb g → rb m g2 = Done (a, set_g_rb (g_rb g') g2).
Proof. intros E Erb. unfold rb in *. rewrite Erb. destruct (m (g_rb g)) as [[b h]| | | |]; try done. by injection E as <- <-. Qed.

Lemma init_boots : (svc_init;; fd_init) G_1 = Done (tt, boot).
Proof. vm_compute. reflexivity. Qed.

(** The state after [svc_init] and [fd_init]. *)
Lemma init_like g : g_rb g = g_rb G_0 → (svc_init;; fd_init) g = Done (tt, set_g_rb (g_rb boot) g).
Proof.
  intros Erb. pose proof init_boots as E. unfold svc_init, fd_init in *. rewrite bind_bind in *.
  unfold mbind, M_bind in *. destruct (rb (RBTree_Init svc_by_name_index) G_1) as [[[] g1]| | | |] eqn:E1; try done.
  rewrite (rb_like _ _ _ _ g E1) by done.
  destruct (rb (RBTree_Init svc_by_pid_index) g1) as [[[] g2]| | | |] eqn:E2; try done.
  rewrite (rb_like _ _ _ _ _ E2) by done. rewrite (rb_like _ _ _ _ _ E) by done. done.
Qed.

Lemma unset_almost g : unset g → almost (set_g_rb (g_rb boot) g).
Proof.
  intros [Esvc Efd Esig Erb Ectl Enext Emain Ebuf Elost Ename].
  assert (Hb : sound (on_log (λ _, g_log g) boot)).
  { apply sound_on_log; [apply boot_sound|]. intros _. split; [by rewrite Ebuf|by rewrite Elost]. }
  assert (Hs : sound (set_g_rb (g_rb boot) g)).
  { eapply (sound_same _ _ Hb); [split; cbn -[boot G_0]; rewrite ?Esig, ?Efd, ?Esvc, ?Ectl, ?Enext; done|cbn; by rewrite Emain]. }
  assert (Hc : ∀ i c, g_ctl g !! i = Some c → c = controller_0).
  { rewrite Ectl. intros i c Hi. by apply lookup_replicate in Hi as [-> _]. }
  split; cbn.
  - by apply sound_on_sig, sd_sig.
  - by rewrite Ectl.
  - by intros i c ->%Hc.
  - by intros i c ->%Hc.
  - split; cbn; [done| |by rewrite Esvc|by rewrite Ename]. rewrite Esig. split; [apply sig_inv_empty|]. by intros s [-> _]%(elem_of_replicate 16 (mkSigStatus 0 0 0)).
Qed.

(** The controllers are idle already. *)
Lemma ctl_init_idle g : g_ctl g = g_ctl G_0 → ctl_init g = Done (tt, set_g_ctl (g_ctl G_0) g).
Proof.
  intros E. unfold ctl_init. erewrite bind_done by reflexivity. destruct g as [w l s r f v c o m e t n]. cbn in E. subst c. reflexivity.
Qed.

Section before.
Context `{OS} `{!WriteOk}.

Lemma unset_sys c g : unset g → returns (sys c) g (λ _ g', unset g').
Proof. intros []. eexists _, _. split; [reflexivity|]. by split. Qed.

Lemma log_init_unset g : unset g → returns log_init g (λ _ g', unset g').
Proof.
  intros [Esvc Efd Esig Erb Ectl Enext Emain Ebuf Elost Ename]. unfold log_init. eapply returns_done; [reflexivity|].
  eapply (returns_seq _ _ _ (λ _ g', unset g')); [|intros ? g' Hg'; by apply returns_ret]. unfold log_fd_attach.
  eapply returns_done; [reflexivity|]. eapply returns_done; [reflexivity|]. do 2 (eapply returns_done; [reflexivity|]). 
  replace (log_buffer _) with (@nil Z) by (symmetry; exact Ebuf). eapply returns_done; [reflexivity|]. apply returns_ret. by split.
Qed.

Lemma init_then {B} (k : DP B) g Q : g_rb g = g_rb G_0 → returns k (set_g_rb (g_rb boot) g) Q → returns (svc_init;; fd_init;; k) g Q.
Proof.
  intros Erb Hk. pose proof (returns_done _ (λ _, k) _ _ _ Q (init_like g Erb) Hk) as (b & g' & E & HQ).
  rewrite bind_bind in E. by exists b, g'.
Qed.

Lemma almost_quiet {A} (m : DP A) P g : keeps m P → preserves calm m → almost g → returns m g (λ a g', almost g' ∧ P a).
Proof.
  intros Hm Hc Hg. destruct (Hm g (almost_sound _ Hg)) as (a & g' & E & Hg' & _ & HP). exists a, g'. split; [done|]. split; [|done].
  eapply almost_calm; [done|done|by eapply Hc].
Qed.

Lemma before_almost g : unset g → returns main_before_opts g (λ _ g', almost g').
Proof.
  intros Hg. unfold main_before_opts. eapply (returns_seq _ _ _ (λ _ g', unset g')).
  { unfold gettime_mon_frac. eapply returns_seq; [by apply unset_sys|]. intros r g1 Hg1. destruct (negb _); [|by apply returns_ret].
    eapply returns_seq; [by apply unset_sys|]. intros t g2 Hg2. by apply returns_ret. }
  intros now g1 Hg1. eapply returns_done; [reflexivity|].
  eapply returns_seq; [apply log_init_unset; by destruct Hg1; split|]. intros ? g2 Hg2. apply init_then; [apply Hg2|].
  eapply returns_done; [apply ctl_init_idle, Hg2|].
  assert (Hg3 : almost (set_g_ctl (g_ctl G_0) (set_g_rb (g_rb boot) g2))) by (apply (unset_almost (set_g_ctl (g_ctl G_0) g2)); by destruct Hg2; split).
  eapply returns_seq; [apply (almost_quiet _ (λ _, True)); [apply keeps_sys|machine|exact Hg3]|]. intros pid g4 [Hg4 _].
  eapply returns_seq; [apply (almost_quiet _ (λ _, True)); [by keeps_tac|machine|exact Hg4]|]. intros ? g5 [Hg5 _].
  eapply returns_seq; [apply (almost_quiet _ (λ _, True)); [apply keeps_sys|machine|exact Hg5]|]. intros ? g6 [Hg6 _]. by apply returns_ret.
Qed.
End before.

(** ** The command line *)

Lemma calm_modify f : (∀ g, calm g (f g)) → preserves calm (modify f).
Proof. apply preserves_modify. Qed.

Section calm.
Context `{OS}.

Lemma calm_pipe rd : preserves calm (modify (on_sig (set_sig_wake_rd rd))).
Proof.
  apply calm_modify. intros g. pose proof (reflexivity (R := calm) g) as [Ho Hf _ _ _]. by split; [exact Ho|exact Hf|..|intros Hn].
Qed.
#[local] Hint Resolve calm_pipe : machine.

Lemma calm_running fuel svc : preserves calm (log_running_loop fuel svc).
Proof. revert svc. induction fuel; intros; cbn [log_running_loop]; machine. Qed.

Lemma calm_reset l : preserves calm (sig_reset_loop l).
Proof. induction l; cbn [sig_reset_loop]; machine. Qed.
#[local] Hint Resolve calm_running calm_reset : machine.

Lemma calm_handlers f l : (∀ code msg, preserves calm (f code msg)) → preserves calm (sig_set_handlers f l).
Proof. intros Hf. induction l as [|[s h] l IH]; cbn [sig_set_handlers]; machine; apply Hf. Qed.

Lemma calm_sig_init f : (∀ code msg, preserves calm (f code msg)) → preserves calm (sig_init_with f).
Proof.
  intros Hf. pose proof (calm_handlers f (zip signal_spec signal_handlers) Hf) as Hh. unfold sig_init_with.
  repeat first [apply Hh | apply Hf | frame_step | solve [auto 2 with machine nocore] | unfold_call].
Qed.

Lemma calm_running_services : preserves calm log_running_services.
Proof. machine. Qed.
#[local] Hint Resolve calm_running_services : machine.

Lemma calm_reset_exec : preserves calm sig_reset_for_exec.
Proof. unfold sig_reset_for_exec. generalize signal_spec. intros l. machine. Qed.
#[local] Hint Resolve calm_reset_exec : machine.

Lemma calm_body init code msg : preserves calm init → preserves calm (fatal_body init code msg).
Proof.
  intros Hi. unfold fatal_body, fatal_exec. repeat first [solve [auto 2 with machine nocore] | frame_step | unfold_call].
Qed.

Lemma calm_fatal depth code msg : preserves calm (fatal_at depth code msg).
Proof.
  revert code msg. induction depth as [|depth IH]; intros code msg; cbn [fatal_at]; [apply preserves_nofuel|]. by apply calm_body, calm_sig_init.
Qed.
End calm.

(** If the state is almost ready, it stays so. *)
Definition stays (g g' : G) : Prop := almost g → almost g'.

#[export] Instance stays_preorder : PreOrder stays.
Proof. unfold stays. split; [by intros g|]. intros g1 g2 g3. auto. Qed.

Create HintDb stays.

Section options.
Context `{OS} `{!WriteOk} `{OptTable}.

Lemma stays_quiet {A} (m : DP A) P : keeps m P → preserves calm m → preserves stays m.
Proof. intros Hm Hc g a g' E Hg. destruct (almost_quiet m P g Hm Hc Hg) as (b & g2 & E2 & Hg2 & _). congruence. Qed.

Lemma stays_fatal code msg : preserves stays (fatal code msg).
Proof.
  intros g [] g' E Hg. eapply almost_calm; [done| |by eapply calm_fatal].
  pose proof (fatal_at_settles (g_opt g) fatal_depth code msg g (almost_sound _ Hg) eq_refl) as Hs. unfold fatal in E. rewrite E in Hs. apply Hs.
Qed.

Lemma stays_log level msg : preserves stays (log_write level msg;; mret tt).
Proof. eapply stays_quiet; [apply keeps_log|machine]. Qed.

Lemma stays_opt f : preserves stays (modify (on_opt f)).
Proof. eapply stays_quiet; [apply keeps_set_opt|machine]. Qed.

Lemma stays_sys c : preserves stays (sys c).
Proof. eapply stays_quiet; [apply keeps_sys|machine]. Qed.

Lemma stays_filter v : preserves stays (log_set_filter v).
Proof.
  eapply (stays_quiet _ (λ _, True)); [|machine]. intros g Hg. eexists tt, _. split; [reflexivity|].
  edestruct (sound_on_log g) as [Hs K]; [exact Hg| |split_and!; [exact Hs|exact K|done]]. done.
Qed.
#[local] Hint Resolve stays_fatal stays_log stays_opt stays_sys stays_filter : stays.

Ltac stays := repeat first [solve [auto 2 with stays nocore] | preserves_step | unfold_call].

Lemma stays_exec_arg args : preserves stays (set_exec_on_exit args).
Proof. stays. Qed.
#[local] Hint Resolve stays_exec_arg : stays.

Lemma stays_handler h arg : preserves stays (run_handler h arg).
Proof. unfold run_handler. cbv zeta. stays. Qed.
#[local] Hint Resolve stays_handler : stays.

Lemma stays_option short long argv : preserves stays (parse_option short long argv).
Proof. unfold parse_option. stays. Qed.
#[local] Hint Resolve stays_option : stays.

Lemma stays_short letters argv : preserves stays (parse_short letters argv).
Proof. revert argv. induction letters; intros; cbn [parse_short]; stays. Qed.
#[local] Hint Resolve stays_short : stays.

Lemma stays_opts_loop fuel argv : preserves stays (parse_opts_loop fuel argv).
Proof. revert argv. induction fuel; intros; cbn [parse_opts_loop]; stays. Qed.

(** The options change nothing else. *)
Lemma opts_almost argv g g' : almost g → parse_opts argv g = Done (tt, g') → almost g'.
Proof. intros Hg E. by eapply stays_opts_loop. Qed.
End options.

(** ** After the command line *)

(** The descriptor of a file that is opened fits the sets of [select], and so does the end
    of a pipe. *)
Class OpenOk `{OS} : Prop := {
  open_fits tr path flags : ret (os tr (COpen path flags)) < FD_SETSIZE;
  pipe_fits tr : 0 ≤ ret (os tr CPipe) → 0 ≤ nth 0 (fds (os tr CPipe)) 0 < FD_SETSIZE;
}.

(** The codes that the start can end with; 0 is that of a parent whose child goes on. *)
Definition start_codes : list Z := [0; EXIT_BAD_OPTIONS; EXIT_INVALID_ENVIRONMENT; EXIT_BROKEN_PROGRAM_STATE; EXIT_IMPOSSIBLE_SCENARIO].

(** A descriptor gets another number. *)
Lemma sound_set_fdnum g o n : sound g → is_fd g o → returns (fd_set_fdnum o n) g (λ _ g', (sound g' ∧ kept g g') ∧ ∀ p, is_fd g p → is_fd g' p).
Proof.
  intros Hg Ho. destruct (sd_fd _ Hg) as (fds & Hok & Hu). pose proof Ho as Hin. apply (is_fd_names _ _ _ Hok) in Hin.
  destruct (fo_objs _ _ Hok o Hin) as (f & Ef & _ & Hpeer). set (f' := set_fd_fd n f). set (objs := fd_objs (g_fd g)) in *.
  set (g' := on_fd (set_fd_objs (<[o := f']> objs)) g). assert (Hsame : ∀ p fp, objs !! p = Some fp → ∃ fp', <[o := f']> objs !! p = Some fp' ∧
    fl_pipe (fd_flags fp') = fl_pipe (fd_flags fp) ∧ fd_attr fp' = fd_attr fp).
  { intros p fp Ep. destruct (decide (p = o)) as [->|Hne]; [|exists fp; by rewrite lookup_insert_ne].
    exists f'. rewrite lookup_insert_eq. by simplify_eq. }
  assert (Hok' : fd_ok g' fds).
  { apply (fd_ok_update g fds o f f' Hok Hin Ef); [done|]. intros p fp' Hp Ep' Hpipe.
    destruct (fo_objs _ _ Hok p Hp) as (fp & Ep & _ & Hpp). destruct (Hsame p fp Ep) as (fp2 & Ep2 & E1 & E2).
    change (<[o := f']> objs !! p = Some fp') in Ep'. assert (fp2 = fp') as -> by congruence.
    rewrite E2. destruct (Hpp ltac:(congruence)) as [?|[?|(q & fq & Ea & Hq & Hqp & Eq & Q1 & Q2)]]; [by left|by right; left|].
    right; right. destruct (Hsame q fq Eq) as (fq2 & Eq2 & E3 & E4). exists q, fq2. split_and!; [done..|congruence|congruence]. }
  exists tt, g'. split; [apply (upd_fd_eq o (set_fd_fd n) g f Ef)|]. split; [|done].
  apply (sound_fd g g' fds [o] Hg); [|done| | |].
  - split; try done; [by left|by exists []].
  - unfold fd_unique. erewrite list_fmap_ext; [exact Hu|]. intros k p _. unfold fd_key. cbn. fold objs.
    destruct (decide (p = o)) as [->|Hne]; [by rewrite lookup_insert_eq, Ef|by rewrite lookup_insert_ne].
  - intros p Hp. destruct (decide (p = o)) as [->|Hne]; [left; by apply list_elem_of_singleton|right]. split; [by apply (is_fd_names _ _ _ Hok)|].
    destruct (fo_objs _ _ Hok p Hp) as (fp & Ep & _). exists fp, fp. split_and!; [done| |apply looks_like_refl]. cbn. by rewrite lookup_insert_ne.
  - intros p fp ->%list_elem_of_singleton Ep. cbn in Ep. rewrite lookup_insert_eq in Ep. injection Ep as <-. exact (sd_files _ Hg o f Ho Ef).
Qed.

(** What is outside of the options. *)
Lemma options_upd_fd p f : preserves same_options (upd_fd p f).
Proof. intros g a g'. unfold upd_fd. destruct (_ !! _); [|done]. by intros [= _ <-]. Qed.

Lemma options_modify f : (∀ g, g_opt (f g) = g_opt g) → preserves same_options (modify f).
Proof. intros Hf. by apply preserves_modify. Qed.
#[export] Hint Resolve options_upd_fd : outer.

Ltac options := repeat first [preserves_step | solve [auto 2 with outer nocore] | apply options_modify; done | unfold_call].

Section after.
Context `{OS} `{!WriteOk} `{!SocketOk} `{!ReadOk} `{!OpenOk} `{Inet} `{CmdTableOk} `{OptTable} `{Version}.
Variable o : opt_t.

(** A fatal error ends the process, or there is no program to become and the pipe of the
    signals can be had. *)
Definition settled : Prop :=
  opt_terminate_guard o = 0 ∨ opt_exec_on_exit o = false ∧ ∀ tr, 0 ≤ ret (os tr CPipe).

Hypothesis options_settled : settled.

(** The computation does not fault, and ends the process only with one of the codes.  It
    becomes another program, or runs on, only with exec-on-exit. *)
Definition starts {A} (m : DP A) (g : G) (Q : A → G → Prop) : Prop :=
  match m g with
  | Done (a, g') => Q a g'
  | Fault => False
  | OutOfFuel | Execed _ => opt_exec_on_exit o = true
  | Exited c => c ∈ start_codes
  end.

Lemma starts_mono {A} (m : DP A) g (P Q : A → G → Prop) : starts m g P → (∀ a g', P a g' → Q a g') → starts m g Q.
Proof. unfold starts. intros Hm HPQ. destruct (m g) as [[a g']| | | |]; auto. Qed.

Lemma starts_returns {A} (m : DP A) g Q : returns m g Q → starts m g Q.
Proof. intros (a & g' & E & HQ). unfold starts. by rewrite E. Qed.

Lemma starts_seq {A B} (m : DP A) (f : A → DP B) g P Q : starts m g P → (∀ a g', P a g' → starts (f a) g' Q) → starts (m ≫= f) g Q.
Proof.
  intros Hm Hf. unfold starts, mbind, M_bind in *. destruct (m g) as [[a g1]| | | |]; [by apply Hf|done..].
Qed.

Lemma starts_done {A B} (m : DP A) (f : A → DP B) g a g' Q : m g = Done (a, g') → starts (f a) g' Q → starts (m ≫= f) g Q.
Proof. intros E Hf. unfold starts. by rewrite (bind_done _ _ _ _ _ E). Qed.

Lemma starts_ret {A} (a : A) g (Q : A → G → Prop) : Q a g → starts (mret a) g Q.
Proof. done. Qed.

(** Before and after the pipe of the signals is open. *)
Definition soon (g : G) : Prop := almost g ∧ g_opt g = o.
Definition now_ready (g : G) : Prop := ready g ∧ g_opt g = o.

Lemma soon_do {A} (m : DP A) P g : keeps m P → preserves calm m → preserves same_options m → soon g → returns m g (λ a g', soon g' ∧ P a).
Proof.
  intros Hm Hc Ho [Hg Hgo]. destruct (almost_quiet m P g Hm Hc Hg) as (a & g' & E & Hg' & HP). exists a, g'. split; [done|].
  split; [split; [done|]|done]. rewrite <-Hgo. by eapply Ho.
Qed.

Lemma ready_do {A} (m : DP A) P g : keeps m P → preserves (around None) m → preserves same_options m → now_ready g →
  returns m g (λ a g', now_ready g' ∧ P a).
Proof.
  intros Hm Hc Ho [Hg Hgo]. destruct (quiet_returns m g P Hm Hc Hg) as (a & g' & E & Hg' & HP). exists a, g'. split; [done|].
  split; [split; [done|]|done]. rewrite <-Hgo. by eapply Ho.
Qed.

(** A step, when only its effect matters. *)
Lemma soon_step {A B} (m : DP A) P (k : A → DP B) g Q : keeps m P → preserves calm m → preserves same_options m → soon g →
  (∀ a g', P a → soon g' → starts (k a) g' Q) → starts (m ≫= k) g Q.
Proof.
  intros Hm Hc Ho Hg Hk. eapply starts_seq; [apply starts_returns; by apply (soon_do m P)|]. intros a g' [Hg' HP]. by apply Hk.
Qed.

Lemma ready_step {A B} (m : DP A) P (k : A → DP B) g Q : keeps m P → preserves (around None) m → preserves same_options m → now_ready g →
  (∀ a g', P a → now_ready g' → starts (k a) g' Q) → starts (m ≫= k) g Q.
Proof.
  intros Hm Hc Ho Hg Hk. eapply starts_seq; [apply starts_returns; by apply (ready_do m P)|]. intros a g' [Hg' HP]. by apply Hk.
Qed.

(** What both have in common. *)
Class Phase (I : G → Prop) : Prop := {
  phase_sound g : I g → sound g ∧ g_opt g = o;
  phase_log level msg g : I g → returns (log_write level msg;; mret tt) g (λ _ g', I g');
}.

#[local] Instance soon_phase : Phase soon.
Proof.
  split; [intros g [Hg ?]; split; [by apply almost_sound|done]|]. intros level msg g Hg.
  eapply returns_mono; [apply (soon_do _ (λ _, True)); [apply keeps_log|machine|options|exact Hg]|]. by intros ? ? [? _].
Qed.

#[local] Instance now_phase : Phase now_ready.
Proof.
  split; [intros g [Hg ?]; split; [apply Hg|done]|]. intros level msg g Hg.
  eapply returns_mono; [apply (ready_do _ (λ _, True)); [apply keeps_log|machine|options|exact Hg]|]. by intros ? ? [? _].
Qed.

Lemma soon_sound g : soon g → sound g ∧ g_opt g = o.
Proof. apply phase_sound. Qed.

Lemma now_sound g : now_ready g → sound g ∧ g_opt g = o.
Proof. apply phase_sound. Qed.

Section phase.
Context (I : G → Prop) `{!Phase I}.

Lemma fatal_never code msg g : opt_terminate_guard o = 0 → I g → code ∈ start_codes → starts (fatal code msg) g (λ _ _, False).
Proof.
  intros Hu Hg Hc. destruct (phase_sound g Hg) as [Hs Ho]. pose proof (fatal_runs_exec o 15 code msg g Hs Ho) as Hf.
  unfold starts, fatal, fatal_depth. destruct (fatal_at 16 code msg g) as [[[] g']| | | |]; [by destruct Hf|done|done| |by destruct Hf].
  destruct Hf as [_ [->|[_ ->]]]; [done|]. by apply (bool_decide_unpack _).
Qed.

(** A fatal error without a guard ends the process; with the guard it is logged. *)
Lemma fatal_starts code msg g : I g → code ∈ start_codes → starts (fatal code msg) g (λ _ g', I g').
Proof.
  intros Hg Hc. destruct (phase_sound g Hg) as [Hs Ho]. destruct (decide (opt_terminate_guard o = 0)) as [Hu|Hu].
  - eapply starts_mono; [by apply fatal_never|done].
  - destruct options_settled as [?|[Hx _]]; [done|]. apply starts_returns. unfold fatal, fatal_depth. cbn [fatal_at].
    unfold fatal_body, fatal_exec. cbv zeta.
    eapply (returns_done _ _ _ tt g); [rewrite (bind_done _ _ _ _ _ eq_refl); cbn beta; by rewrite Ho, Hx|].
    eapply returns_done; [reflexivity|]. cbn beta. rewrite Ho, (proj2 (Z.eqb_neq _ _) Hu).
    eapply (returns_seq _ _ _ (λ _ g', I g')); [|intros ? g1 Hg1; by apply returns_ret].
    destruct (negb _); cbn [when]; [by apply phase_log|by apply returns_ret].
Qed.

Lemma or_fatal_starts m code msg g : code ∈ start_codes → starts m g (λ _ g', I g') → starts (or_fatal m code msg) g (λ _ g', I g').
Proof.
  intros Hc Hm. eapply starts_seq; [exact Hm|]. intros ok g1 Hg1.
  destruct ok; cbn [negb when]; [by apply starts_ret|by apply fatal_starts].
Qed.
End phase.

(** *** The special descriptors *)

Lemma sound_fd_settings f g : (∀ m, fd_list_count (f m) = fd_list_count m ∧ fd_list_limit (f m) = fd_list_limit m ∧ fd_list (f m) = fd_list m ∧
    fd_objs (f m) = fd_objs m ∧ fd_obj_pool (f m) = fd_obj_pool m) → sound g → sound (on_fd f g) ∧ kept g (on_fd f g).
Proof.
  intros Hf [(names & pids & act & sigw & Hok & Hc) Hp (fds & Hfd & Hu) Hfiles Hs Hm Hz].
  destruct (Hf (g_fd g)) as (E1 & E2 & E3 & E4 & E5). split; [|by apply kept_svc]. split; try done.
  - exists names, pids, act, sigw. split; [by apply (svc_ok_same g)|done].
  - exists fds. split; [|unfold fd_unique; cbn; by rewrite E4].
    destruct Hfd. split; cbn; rewrite ?E1, ?E2, ?E3, ?E4, ?E5; done.
  - unfold is_fd. cbn. rewrite E1, E3, E4. exact Hfiles.
Qed.

Lemma keeps_dev_null n : keeps (modify (on_fd (set_fd_dev_null n))) (λ _, True).
Proof.
  intros g Hg. eexists tt, _. split; [reflexivity|]. destruct (sound_fd_settings (set_fd_dev_null n) g) as [? ?]; [done|exact Hg|done].
Qed.

Lemma keeps_new_file name n flags path : Z.of_nat (length name) < NAME_BUF_SIZE → fl_pipe flags = false →
  keeps (fd_new_file (STRSEG name) n flags (STRSEG path)) (λ _, True).
Proof.
  intros Hn Hf g Hg. eapply returns_mono; [apply sound_new_file; [done|apply STRSEG_wf|done|apply STRSEG_wf|done]|].
  by intros a g' (? & ? & _).
Qed.

Lemma options_new_file name n flags path : preserves same_options (fd_new_file name n flags path).
Proof. options. Qed.

Ltac code := by apply (bool_decide_unpack _).

Lemma new_file_step {B} name n flags path (k : Z → DP B) g Q : Z.of_nat (length name) < NAME_BUF_SIZE → fl_pipe flags = false → soon g →
  (∀ f g', soon g' → starts (k f) g' Q) → starts (fd_new_file (STRSEG name) n flags (STRSEG path) ≫= k) g Q.
Proof.
  intros Hn Hf Hg Hk. eapply soon_step; [by apply keeps_new_file|machine|apply options_new_file|done|]. intros f g' _. apply Hk.
Qed.

Lemma special_starts g : soon g → starts fd_init_special_handles g (λ _ g', soon g').
Proof.
  intros Hg. unfold fd_init_special_handles.
  eapply (soon_step _ (λ _, True)); [apply keeps_sys|machine|options|done|]. intros n g1 _ Hg1.
  eapply (soon_step _ (λ _, True)); [apply keeps_dev_null|machine|options|done|]. intros _ g2 _ Hg2.
  eapply (starts_seq _ _ _ (λ _ g', soon g')).
  { destruct (ret n <? 0); [|by apply starts_ret]. eapply (soon_step _ (λ _, True)); [by apply keeps_gets|machine|options|done|].
    intros e g3 _ Hg3. eapply starts_seq; [apply (fatal_starts soon); [exact Hg3|code]|]. intros ? g4 Hg4.
    eapply (soon_step _ (λ _, True)); [apply keeps_log|machine|options|exact Hg4|]. intros ? g5 _ Hg5.
    eapply starts_returns, returns_mono; [apply (soon_do _ (λ _, True)); [apply keeps_dev_null|machine|options|exact Hg5]|]. by intros ? ? [? _]. }
  intros _ g3 Hg3. eapply (soon_step _ (λ _, True)); [by apply keeps_gets|machine|options|done|]. intros d g4 _ Hg4.
  do 3 (apply new_file_step; [done|done|done|]; clear; intros ? g4 Hg4; case_match; [by apply starts_ret|]).
  apply new_file_step; [done..|]. clear. intros ? g5 Hg5. by apply starts_ret.
Qed.

(** *** The descriptors that are open already *)

Lemma std_name_short i : Z.of_nat (length (std_name i)) < NAME_BUF_SIZE.
Proof. unfold std_name. by repeat case_match. Qed.

Lemma fd_name_short i : 0 ≤ i < 1024 → Z.of_nat (length (str "fd_" ++ fmt_d i)) < NAME_BUF_SIZE.
Proof.
  intros Hi. assert (Hall : Forall (λ n, (length (fmt_d (Z.of_nat n)) < 20)%nat) (seq 0 1024)) by (apply (bool_decide_unpack _); vm_compute; done).
  rewrite Forall_forall in Hall. specialize (Hall (Z.to_nat i)). rewrite Z2Nat.id in Hall by lia.
  rewrite length_app. unfold NAME_BUF_SIZE. cbn [length str]. cut (length (fmt_d i) < 20)%nat; [intros; cbn; lia|]. apply Hall, elem_of_seq. lia.
Qed.

Lemma keeps_new_unknown name n : Z.of_nat (length name) < NAME_BUF_SIZE → keeps (fd_new_unknown (STRSEG name) n) (λ _, True).
Proof.
  intros Hn g Hg. eapply returns_mono; [apply sound_new_unknown; [done|apply STRSEG_wf|done]|]. by intros a g' (? & ? & _).
Qed.

Lemma register_starts n i b g : soon g → 0 ≤ i → i + Z.of_nat n ≤ 1024 → starts (register_loop n i b) g (λ _ g', soon g').
Proof.
  revert i b g. induction n as [|n IH]; intros i b g Hg Hi Hn; cbn [register_loop]; [by apply starts_ret|].
  eapply (soon_step _ (λ _, True)); [by apply keeps_gets|machine|options|done|]. intros d g1 _ Hg1.
  eapply (soon_step _ (λ _, True)); [by keeps_tac|machine|options|done|]. intros is_open g2 _ Hg2.
  eapply (starts_seq _ _ _ (λ _ g', soon g')); [|intros b' g3 Hg3; apply IH; [done|lia..]].
  destruct (_ || _); [|by apply starts_ret].
  eapply (soon_step _ (λ _, True)); [by keeps_tac|machine|options|done|]. intros fdnum g3 _ Hg3.
  eapply (soon_step _ (λ _, True)); [apply keeps_new_unknown|machine|options|done|].
  - destruct (i <? 3); [apply std_name_short|apply fd_name_short; lia].
  - intros f g4 _ Hg4. by apply starts_ret.
Qed.

(** *** The signals *)

Lemma soon_on_sig f g : (∀ s, sigs_ok (signals s) → sigs_ok (signals (f s))) → (∀ s, new_signals (f s) = new_signals s) →
  soon g → starts (modify (on_sig f)) g (λ _ g', soon g').
Proof.
  intros Hs Hn [Hg Ho]. split; [|done]. apply almost_on_sig; [done|apply Hs, (sd_sig _ (almost_sound _ Hg))|done].
Qed.

Lemma handlers_start l g : now_ready g → starts (sig_set_handlers fatal l) g (λ _ g', now_ready g').
Proof.
  revert g. induction l as [|[signum h] l IH]; intros g Hg; cbn [sig_set_handlers]; [by apply starts_ret|].
  eapply (ready_step _ (λ _, True)); [apply keeps_sys|machine|options|done|]. intros r g1 _ Hg1.
  eapply (starts_seq _ _ _ (λ _ g', now_ready g')); [|intros _; apply IH]. destruct (negb _); [|by apply starts_ret].
  eapply (ready_step _ (λ _, True)); [by apply keeps_gets|machine|options|done|]. intros e g2 _ Hg2.
  apply (fatal_starts now_ready); [done|code].
Qed.

Lemma pipe_starts g : soon g → starts (sys CPipe) g (λ p g', soon g' ∧ ∃ tr, p = os tr CPipe).
Proof.
  intros Hg. destruct (soon_do (sys CPipe) (λ _, True) g) as (p & g' & E & Hg' & _); [apply keeps_sys|machine|options|done|].
  unfold starts. rewrite E. split; [done|]. injection E as <- _. eauto.
Qed.

(** After an error with the pipe the daemon goes on only if there is a pipe. *)
Lemma pipe_fatal code msg p g : code ∈ start_codes → soon g → (∃ tr, p = os tr CPipe) →
  starts (fatal code msg) g (λ _ g', soon g' ∧ 0 ≤ ret p).
Proof.
  intros Hc Hg [tr ->]. destruct options_settled as [Hu|[_ Hpipe]].
  - eapply starts_mono; [by apply (fatal_never soon)|done].
  - eapply starts_mono; [by apply (fatal_starts soon)|]. intros ? g' Hg'. by split.
Qed.

Lemma sig_init_starts g : soon g → starts sig_init g (λ _ g', now_ready g').
Proof.
  intros Hg. unfold sig_init, sig_init_with.
  eapply (soon_step _ (λ _, True)); [by apply keeps_gets|machine|options|done|]. intros s g1 _ Hg1.
  eapply (soon_step _ (λ _, True)); [by keeps_tac|machine|options|done|]. intros _ g2 _ Hg2.
  eapply (soon_step _ (λ _, True)); [by keeps_tac|machine|options|done|]. intros _ g3 _ Hg3.
  eapply (starts_seq _ _ _ (λ _ g', soon g')).
  { destruct (_ =? 0); [|by apply starts_ret]. eapply (soon_step _ (λ _, True)); [apply keeps_sys|machine|options|done|]. intros p g4 _ Hg4.
    by apply soon_on_sig. }
  intros _ g4 Hg4. eapply starts_seq; [apply soon_on_sig; [intros; apply sigs_ok_empty|done|exact Hg4]|]. intros ? g5 Hg5.
  eapply starts_seq; [by apply pipe_starts|]. intros p g6 [Hg6 Hp]. cbv zeta.
  eapply (starts_seq _ _ _ (λ fails g', soon g' ∧ ((fails : bool) = false → 0 ≤ ret p))).
  { destruct (Z.ltb_spec (ret p) 0); [by apply starts_ret|]. eapply starts_returns, returns_mono.
    - apply (soon_do _ (λ _, True)); [by unfold sig_pipe_fails; keeps_tac|machine|options|exact Hg6].
    - by intros fails g7 [Hg7 _]. }
  intros fails g7 [Hg7 Hf]. eapply (starts_seq _ _ _ (λ _ g', soon g' ∧ 0 ≤ ret p)).
  { destruct fails; [|apply starts_ret; split; [done|by apply Hf]].
    eapply (soon_step _ (λ _, True)); [by apply keeps_gets|machine|options|done|]. intros e g8 _ Hg8. apply pipe_fatal; [code|done..]. }
  intros ? g8 [Hg8 Hpos]. eapply (starts_seq _ _ _ (λ _ g', now_ready g')).
  { split; [|apply Hg8]. apply almost_ready; [apply Hg8|]. destruct Hp as [tr ->]. by apply pipe_fits. }
  intros ? g9 Hg9. eapply (ready_step _ (λ _, True)); [by apply keeps_on_sig|machine|options|exact Hg9|]. intros ? g10 _ Hg10.
  eapply starts_seq; [by apply handlers_start|]. intros ? g11 Hg11.
  eapply (ready_step _ (λ _, True)); [apply keeps_sys|machine|options|exact Hg11|]. intros ? g12 _ Hg12. by apply starts_ret.
Qed.

(** *** The first controllers *)

(** A new controller; the descriptors are left alone. *)
Lemma new_starts {B} recv send (k : option nat → DP B) g Q : recv < FD_SETSIZE → send < FD_SETSIZE → now_ready g →
  (∀ r g', now_ready g' → g_fd g' = g_fd g → (∀ i, r = Some i → (i < CONTROLLER_MAX_CLIENTS)%nat) → starts (k r) g' Q) →
  starts (ctl_new recv send ≫= k) g Q.
Proof.
  intros Hrf Hsf [Hr Ho] Hk. destruct (new_ready recv send g Hrf Hsf Hr) as (r & g' & E & Hr' & Hb).
  assert (Eo : preserves same_options (ctl_new recv send)) by options. assert (Ef : preserves same_files (ctl_new recv send)) by outer.
  apply Eo in E as Eo'. apply Ef in E as Ef'. unfold starts, mbind, M_bind. rewrite E. apply Hk; [split; [done|by rewrite Eo']|done|].
  intros i ->. destruct (Hb i eq_refl) as [_ (c & Hi & _)]. rewrite <-(rd_len _ Hr'). by eapply lookup_lt_Some.
Qed.

Lemma newline_starts {B} i b (k : unit → DP B) g Q : now_ready g → (i < CONTROLLER_MAX_CLIENTS)%nat →
  (∀ g', now_ready g' → g_fd g' = g_fd g → starts (k tt) g' Q) → starts (ctl_set_auto_final_newline i b ≫= k) g Q.
Proof.
  intros [Hr Ho] Hi Hk. destruct (lookup_lt_is_Some_2 (g_ctl g) i) as [c Hc]; [by rewrite (rd_len _ Hr)|].
  unfold starts, mbind, M_bind, ctl_set_auto_final_newline. erewrite upd_ctl_eq by exact Hc. apply Hk; [|done]. split; [|done].
  destruct (sound_ctls _ (rd_sound _ Hr)) as [_ Hout]. apply (MachineCtl.ready_set i g c); [done|done|exact (Hout i c Hc)|exact (sd_seen _ (rd_sound _ Hr) i c Hc)|exact (rd_fds _ Hr i c Hc)|].
  exact (rd_fits _ Hr i c Hc).
Qed.

(** Messages for a new controller. *)
Lemma write_starts {B} i fields (k : bool → DP B) g Q : now_ready g → (i < CONTROLLER_MAX_CLIENTS)%nat →
  (∀ b g', now_ready g' → starts (k b) g' Q) → starts (ctl_write (Some i) (tab_join fields) ≫= k) g Q.
Proof.
  intros [Hr Ho] Hi Hk. destruct (sound_write g (Some i) (tab_join fields) (rd_sound _ Hr) (tab_join_lines _)) as (b & g' & E & Hs & _).
  { intros j [= <-]. by rewrite (rd_len _ Hr). }
  assert (Eo : preserves same_options (ctl_write (Some i) (tab_join fields))) by options.
  assert (Ea : preserves (around None) (ctl_write (Some i) (tab_join fields))) by machine.
  unfold starts, mbind, M_bind. rewrite E. apply Hk. split; [|by rewrite (Eo g b g' E)]. eapply ready_around; [done|done|by eapply Ea].
Qed.

Lemma write_lines_start fuel i s g : now_ready g → (i < CONTROLLER_MAX_CLIENTS)%nat → tok_seg s → seg_len s + 1 < Z.of_nat fuel →
  starts (write_lines fuel i s) g (λ _ g', now_ready g').
Proof.
  revert s g. induction fuel as [|fuel IH]; intros s g Hg Hi Hs Hf; [by destruct Hs; unfold seg_wf in *; lia|]. cbn [write_lines].
  destruct (tok_by LF s Hs) as (more & s' & tok & E & Hs' & _ & Hm). eapply starts_done; [unfold lift; rewrite E; reflexivity|].
  destruct (fields_by LF s) as [|l ls]; [subst more; cbn [andb]; by apply starts_ret|]. destruct Hm as (-> & Hw & _ & Hl). cbn [andb].
  destruct (seg_len tok >? 0); [|by apply starts_ret]. destruct (seg_fmt_ok tok Hw) as (txt & Et).
  eapply starts_done; [unfold lift; rewrite Et; reflexivity|]. apply write_starts; [done..|]. intros b g2 Hg2. apply IH; [done..|lia].
Qed.

(** Standard input or output is replaced. *)
Lemma dev_null_starts {B} fd (k : unit → DP B) g Q : now_ready g → is_fd g fd →
  (∀ g', now_ready g' → (∀ p, is_fd g p → is_fd g' p) → starts (k tt) g' Q) → starts (fd_to_dev_null fd ≫= k) g Q.
Proof.
  intros Hg Hfd Hk. eapply (starts_seq _ _ _ (λ _ g', now_ready g' ∧ ∀ p, is_fd g p → is_fd g' p)); [|intros [] g' [? ?]; by apply Hk].
  unfold fd_to_dev_null. eapply starts_done; [reflexivity|].
  destruct (ready_do (sys (CDup (fd_dev_null (g_fd g)))) (λ _, True) g) as (r & g1 & E & [Hr1 Ho1] & _); [apply keeps_sys|machine|options|exact Hg|].
  eapply starts_done; [exact E|]. assert (Ef : g_fd g1 = g_fd g) by by injection E as _ <-.
  assert (Hkeep : ∀ p, is_fd g p → is_fd g1 p) by (intros p; unfold is_fd; by rewrite Ef).
  destruct (sound_set_fdnum g1 fd (ret r) (rd_sound _ Hr1) (Hkeep fd Hfd)) as ([] & g2 & E2 & [Hs2 _] & Hfd2).
  assert (Hm : preserves (around None) (fd_set_fdnum fd (ret r))) by machine. assert (Hop : preserves same_options (fd_set_fdnum fd (ret r))) by options.
  unfold starts. rewrite E2. split; [split|auto].
  - eapply ready_around; [done|done|by eapply Hm].
  - by rewrite (Hop _ _ _ E2).
Qed.

(** A descriptor is looked up. *)
Lemma by_name_starts {B} name (k : Z → DP B) g Q : now_ready g → Z.of_nat (length name) < NAME_BUF_SIZE →
  (∀ f, (f ≠ 0 → is_fd g f) → starts (k f) g Q) → starts (fd_by_name (STRSEG name) ≫= k) g Q.
Proof.
  intros [Hr Ho] Hn Hk. destruct (sound_fd_by_name g (STRSEG name) (rd_sound _ Hr) (STRSEG_wf _) Hn) as (f & g' & E & -> & Hf).
  eapply starts_done; [exact E|by apply Hk].
Qed.

Lemma log_starts {B} level msg (k : unit → DP B) g Q : now_ready g → (∀ g', now_ready g' → starts (k tt) g' Q) →
  starts ((log_write level msg;; mret tt) ≫= k) g Q.
Proof. intros Hg Hk. eapply (ready_step _ (λ _, True)); [apply keeps_log|machine|options|exact Hg|]. intros [] g' _. apply Hk. Qed.

Lemma interactive_starts g : now_ready g → starts setup_interactive_mode g (λ _ g', now_ready g').
Proof.
  intros Hg. unfold setup_interactive_mode. apply by_name_starts; [done..|]. intros f1 Hf1. apply by_name_starts; [done..|]. intros f2 Hf2.
  destruct (Z.eqb_spec f1 0), (Z.eqb_spec f2 0); cbn [orb]; try (apply log_starts; [done|]; intros g1 Hg1; by apply starts_ret).
  apply new_starts; [done..|]. intros [i|] g1 Hg1 E1 Hi; [|apply log_starts; [done|]; intros g2 Hg2; by apply starts_ret].
  specialize (Hi i eq_refl). assert (Hkeep : ∀ p, is_fd g p → is_fd g1 p) by (intros p; unfold is_fd; by rewrite E1).
  destruct Hg1 as [Hr1 Ho1]. eapply starts_done; [reflexivity|]. set (g2 := on_main _ g1).
  assert (Hg2 : now_ready g2).
  { split; [|done]. destruct (quiet_returns (modify (on_main (set_interactive_controller (Some i)))) g1 (λ _, True)) as (a & g' & E & Hr' & _);
      [by apply keeps_set_main|machine|done|]. by injection E as _ <-. }
  apply newline_starts; [done..|]. intros g3 Hg3 E3. assert (Hkeep3 : ∀ p, is_fd g p → is_fd g3 p) by (intros p Hp; unfold is_fd; rewrite E3; by apply Hkeep).
  apply dev_null_starts; [done|by apply Hkeep3, Hf1|]. intros g4 Hg4 Hkeep4.
  apply dev_null_starts; [done|by apply Hkeep4, Hkeep3, Hf2|]. intros g5 Hg5 _.
  apply write_starts; [done..|]. intros ? g6 Hg6. apply write_starts; [done..|]. intros ? g7 Hg7.
  eapply starts_seq; [apply write_lines_start; [done|done|left; apply STRSEG_wf|]|].
  { unfold STRSEG. cbn [seg_len]. lia. }
  intros ? g8 Hg8. apply write_starts; [done..|]. intros ? g9 Hg9. by apply starts_ret.
Qed.

(** The descriptor of the config file, which can be waited for. *)
Lemma open_config_starts path g : now_ready g →
  starts (open_config path) g (λ r g', now_ready g' ∧ ∀ f std, r = Some (f, std) → f < FD_SETSIZE ∧ (std ≠ 0 → is_fd g' std)).
Proof.
  intros Hg. unfold open_config. case_bool_decide.
  - apply by_name_starts; [done..|]. intros std Hstd.
    eapply (starts_seq _ _ _ (λ n g', g' = g)).
    { destruct (Z.eqb_spec std 0) as [|Hne]; [by apply starts_ret|]. destruct (sound_fd_obj g std (proj1 (now_sound g Hg)) (Hstd Hne)) as (f & E & _).
      unfold fd_get_fdnum. eapply starts_done; [exact E|]. by apply starts_ret. }
    intros n g1 ->. destruct (_ || _).
    + apply log_starts; [done|]. intros g1 Hg1. by apply starts_ret.
    + apply starts_ret. split; [done|]. by intros f std' [= <- <-].
  - destruct (ready_do (sys (COpen path (Z.lor (Z.lor O_RDONLY O_NONBLOCK) O_NOCTTY))) (λ _, True) g) as (r & g1 & E & Hg1 & _);
      [apply keeps_sys|machine|options|done|].
    eapply starts_done; [exact E|]. assert (Hr : ret r < FD_SETSIZE) by (injection E as <- _; apply open_fits).
    destruct (ret r =? -1).
    + eapply (ready_step _ (λ _, True)); [apply keeps_errno|machine|options|done|]. intros e g2 _ Hg2.
      apply log_starts; [done|]. intros g3 Hg3. by apply starts_ret.
    + apply starts_ret. split; [done|]. by intros f std [= <- <-].
Qed.

Lemma config_starts path g : now_ready g → starts (setup_config_file path) g (λ _ g', now_ready g').
Proof.
  intros Hg. unfold setup_config_file. eapply starts_seq; [by apply open_config_starts|]. intros [[f std]|] g1 [Hg1 Hr]; [|by apply starts_ret].
  destruct (Hr f std eq_refl) as [Hf Hstd]. apply new_starts; [done|done|done|]. intros [i|] g2 Hg2 E2 Hi.
  - specialize (Hi i eq_refl). apply newline_starts; [done..|]. intros g3 Hg3 E3.
    destruct (Z.eqb_spec std 0) as [|Hne]; cbn [negb when]; [eapply starts_done; [reflexivity|]; by apply starts_ret|].
    apply dev_null_starts; [done| |intros g4 Hg4 _; by apply starts_ret].
    specialize (Hstd Hne). unfold is_fd in *. by rewrite E3, E2.
  - eapply (ready_step _ (λ _, True)); [by keeps_tac|machine|options|done|]. intros ? g3 _ Hg3.
    apply log_starts; [done|]. intros g4 Hg4. by apply starts_ret.
Qed.

(** *** Going into the background *)

Lemma daemonize_close_starts n i g : now_ready g → starts (daemonize_close n i) g (λ _ g', now_ready g').
Proof.
  revert i g. induction n as [|n IH]; intros i g Hg; cbn [daemonize_close]; [by apply starts_ret|].
  apply by_name_starts; [done|apply std_name_short|]. intros fd Hfd.
  eapply (starts_seq _ _ _ (λ _ g', now_ready g')); [|intros ? g' Hg'; by apply IH].
  destruct (Z.eqb_spec fd 0) as [|Hne]; cbn [negb]; [by apply starts_ret|].
  destruct (sound_fd_obj g fd (proj1 (now_sound g Hg)) (Hfd Hne)) as (f & E & _).
  eapply (starts_done _ _ _ (fd_fd f) g); [unfold fd_get_fdnum; by rewrite (bind_done _ _ _ _ _ E)|].
  destruct (_ =? i); cbn [when]; [|by apply starts_ret]. apply dev_null_starts; [done|by apply Hfd|]. intros g1 Hg1 _.
  eapply (ready_step _ (λ _, True)); [apply keeps_sys|machine|options|done|]. intros ? g2 _ Hg2. by apply starts_ret.
Qed.

Lemma failed_starts code what g : now_ready g → code ∈ start_codes →
  starts (e ← strerror_errno; fatal code (what ++ e)) g (λ _ g', now_ready g').
Proof.
  intros Hg Hc. eapply (ready_step _ (λ _, True)); [apply keeps_errno|machine|options|done|]. intros e g1 _ Hg1.
  by apply (fatal_starts now_ready).
Qed.

Lemma daemonize_starts g : now_ready g → starts daemonize g (λ _ g', now_ready g').
Proof.
  intros Hg. unfold daemonize. eapply (ready_step _ (λ _, True)); [apply keeps_sys|machine|options|done|]. intros pid g1 _ Hg1.
  destruct (ret pid <? 0); [apply failed_starts; [done|code]|]. destruct (ret pid >? 0); [change (0 ∈ start_codes); code|].
  eapply starts_seq; [by apply daemonize_close_starts|]. intros ? g2 Hg2.
  eapply (ready_step _ (λ _, True)); [apply keeps_sys|machine|options|done|]. intros r g3 _ Hg3.
  destruct (ret r =? -1); [apply failed_starts; [done|code]|by apply starts_ret].
Qed.

(** *** All of it *)

Lemma soon_or_fatal m code msg g : code ∈ start_codes → starts m g (λ _ g', soon g') → starts (or_fatal m code msg) g (λ _ g', soon g').
Proof. apply or_fatal_starts, _. Qed.

Lemma now_or_fatal m code msg g : code ∈ start_codes → starts m g (λ _ g', now_ready g') → starts (or_fatal m code msg) g (λ _ g', now_ready g').
Proof. apply or_fatal_starts, _. Qed.

Lemma after_starts g : opt_fd_pool_count o ≤ 0 → opt_svc_pool_count o ≤ 0 → soon g → starts main_after_opts g (λ _ g', now_ready g').
Proof.
  intros Hfp Hsp Hg. unfold main_after_opts. eapply starts_done; [reflexivity|]. rewrite (proj2 Hg).
  eapply (starts_seq _ _ _ (λ _ g', soon g')).
  { destruct (_ && _); cbn [when]; [apply (fatal_starts soon); [done|code]|by apply starts_ret]. }
  intros ? g1 Hg1. assert (Ef : (opt_fd_pool_count o >? 0) = false) by (rewrite Z.gtb_ltb; by apply Z.ltb_ge). rewrite Ef. eapply starts_done; [reflexivity|].
  eapply starts_seq; [apply soon_or_fatal; [code|by apply special_starts]|]. intros ? g2 Hg2.
  eapply starts_seq; [apply soon_or_fatal; [code|by apply register_starts]|]. intros ? g3 Hg3.
  eapply starts_seq; [by apply sig_init_starts|]. intros ? g4 Hg4.
  assert (Es : (opt_svc_pool_count o >? 0) = false) by (rewrite Z.gtb_ltb; by apply Z.ltb_ge). rewrite Es. eapply starts_done; [reflexivity|].
  eapply (ready_step _ (λ _, True)); [by apply keeps_set_main|machine|options|exact Hg4|]. intros ? g5 _ Hg5.
  eapply (starts_seq _ _ _ (λ _ g', now_ready g')).
  { unfold when_some. destruct (opt_socket_path o) as [p|]; [|by apply starts_ret]. apply now_or_fatal; [code|]. apply starts_returns.
    eapply returns_mono; [apply (ready_do _ (λ _, True)); [apply keeps_socket_start, STRSEG_wf|machine|options|done]|]. by intros ? ? [? _]. }
  intros ? g6 Hg6. eapply (starts_seq _ _ _ (λ _ g', now_ready g')).
  { destruct (opt_interactive o); cbn [when]; [apply now_or_fatal; [code|by apply interactive_starts]|by apply starts_ret]. }
  intros ? g7 Hg7. eapply (starts_seq _ _ _ (λ _ g', now_ready g')).
  { unfold when_some. destruct (opt_config_file o) as [p|]; [apply now_or_fatal; [code|by apply config_starts]|by apply starts_ret]. }
  intros ? g8 Hg8. eapply (ready_step _ (λ _, True)); [by keeps_tac|machine|options|exact Hg8|]. intros ? g9 _ Hg9.
  eapply (starts_seq _ _ _ (λ _ g', now_ready g')).
  { destruct (opt_daemonize o); [|by apply starts_ret]. eapply (ready_step _ (λ _, True)); [apply keeps_sys|machine|options|done|]. intros pid g10 _ Hg10.
    destruct (_ || _); [|by apply daemonize_starts]. apply starts_returns.
    eapply returns_mono; [apply (ready_do _ (λ _, True)); [apply keeps_log|machine|options|done]|]. by intros ? ? [? _]. }
  intros ? g10 Hg10. eapply (ready_step _ (λ _, True)); [unfold gettime_mon_frac; by keeps_tac|machine|options|exact Hg10|]. intros now g11 _ Hg11.
  apply starts_returns. eapply returns_mono; [apply (ready_do _ (λ _, True)); [apply keeps_set_wake|machine|options|done]|]. by intros ? ? [? _].
Qed.
End after.

(** ** The whole program *)

Section whole.
Context `{OS} `{!WriteOk} `{!SocketOk} `{!AcceptOk} `{!ReadOk} `{!OpenOk} `{Inet} `{CmdTableOk} `{OptTable} `{Version}.

(** The end of [main]. *)
Lemma main_end_ok g : sound g → main_end g ≠ Fault.
Proof.
  intros Hg E. assert (Hs : settles (g_opt g) (λ _, True) True main_end (λ _, True)); [|specialize (Hs g Hg eq_refl); by rewrite E in Hs].
  unfold main_end. apply settles_opts. eapply settles_step; [apply goes_gets|]. intros m _. eapply (settles_seq _ _ _ _ _ (λ _, True)).
  - destruct (opt_exec_on_exit _); cbn [when]; [|by apply settles_ret].
    eapply settles_any, settles_mono; [apply fatal_at_settles|done|done].
  - intros _ _. eapply settles_step; [apply goes_log|]. intros _ _. eapply settles_step; [apply goes_running|]. intros _ _. by apply settles_ret.
Qed.

End whole.

(** ** An example: [daemonproxy -S /run/d] *)

#[local] Instance parent_open : @OpenOk parent_os.
Proof. split; [done|]. intros tr _. cbn. unfold FD_SETSIZE. lia. Qed.

Definition socket_option : list option_table_entry_s := [mkOption (ch "S") (str "socket") true H_opt_set_socket_path].
Definition ex_argv : list (list Z) := [str "-S"; str "/run/d"].

(** The state after the options. *)
Definition ex_parsed : G :=
  match (@main_before_opts parent_os;; @parse_opts parent_os socket_option ex_argv) G_0 with Done (_, g) => g | _ => G_0 end.

