(* ===== verification/GuardLoop.v ===== *)
(** * Who ends the daemon while there is a terminate guard

    A state is [held] by another if the guard, when there is one, keeps its code and
    the daemon is neither told to end nor given an exit code.  Every operation of the
    main loop holds the state but for two commands, terminate and terminate.guard; their
    effect is that of GuardThms. *)

From S2P Require Import Prelude Strseg State RBTree RBTreeRep OrdIndex RBTreeIndex Table Log Signal SignalSpec CtlOut CtlOutSpec SvcVars Fd FdSpec FdThms CtlObj Service Dll ServiceSpec SvcRun SvcActive SvcNew SvcThms Walk SvcLists Preserves Sound SoundSvc CtlArg CtlSock Fatal Options CtlCmd CtlObjCmd SoundFd SoundArg SoundSock SoundCmd CtlIn CtlTable Frame CtlFrame SoundCtl SoundDump SoundThms GuardThms Main MachineParts.

(** The end of the daemon, and its guard. *)
Definition held (g g' : G) : Prop := opt_terminate_guard (g_opt g) ≠ 0 →
  main_terminate (g_main g') = main_terminate (g_main g) ∧ main_exitcode (g_main g') = main_exitcode (g_main g) ∧
  opt_terminate_guard (g_opt g') = opt_terminate_guard (g_opt g).

#[export] Instance held_preorder : PreOrder held.
Proof.
  split; [by intros g _|]. intros g1 g2 g3 H12 H23 Hg. destruct (H12 Hg) as (T1 & X1 & G1).
  destruct (H23 ltac:(congruence)) as (T2 & X2 & G2). split_and!; congruence.
Qed.

(** A relation that sees no more of a state than [held] does. *)
Class Holding (R : G → G → Prop) : Prop := {
  #[global] holding_preorder :: PreOrder R;
  holding_held g g' : held g g' → R g g';
}.

#[export] Instance held_holding : Holding held.
Proof. split; [apply _|done]. Qed.

Create HintDb hold.

(** ** The operations that no command is part of *)

Section hold.
Context `{OS, Inet, CmdTable} (R : G → G → Prop) `{!Holding R}.

Lemma hold_modify f : (∀ g, held g (f g)) → preserves R (modify f).
Proof. intros Hf. apply preserves_modify. intros g. by apply holding_held. Qed.

Lemma hold_sys c : preserves R (sys c).
Proof. intros g a g' [= _ <-]. by apply holding_held. Qed.

Lemma hold_rb {A} (m : RB A) : preserves R (rb m).
Proof. intros g a g'. unfold rb. destruct (m (g_rb g)) as [[]| | | |]; try done. intros [= _ <-]. by apply holding_held. Qed.

Lemma hold_upd i f : preserves R (upd_ctl i f).
Proof. intros g a g'. unfold upd_ctl. destruct (_ !! _); [|done]. intros [= _ <-]. by apply holding_held. Qed.

Lemma hold_upd_fd p f : preserves R (upd_fd p f).
Proof. intros g a g'. unfold upd_fd. destruct (_ !! _); [|done]. intros [= _ <-]. by apply holding_held. Qed.

Lemma hold_upd_svc p f : preserves R (upd_svc p f).
Proof. intros g a g'. unfold upd_svc. destruct (_ !! _); [|done]. intros [= _ <-]. by apply holding_held. Qed.

Lemma hold_do_exec svc : preserves R (svc_do_exec svc).
Proof. intros g a g' E. by apply do_exec_never in E. Qed.
End hold.
#[export] Hint Resolve hold_sys hold_rb hold_upd hold_upd_fd hold_upd_svc hold_do_exec : hold.
#[export] Hint Extern 0 (Holding _) => apply _ : hold.

(** Prove that a computation holds the states. *)
Ltac hold :=
  repeat first
    [ preserves_step
    | solve [auto 2 with hold nocore]
    | apply hold_modify; [apply _|done]
    | unfold_call ].

Section base.
Context `{OS} (R : G → G → Prop) `{!Holding R}.

Lemma hold_flush_loop fuel : preserves R (log_flush_loop fuel).
Proof. induction fuel; cbn [log_flush_loop]; hold. Qed.
#[local] Hint Resolve hold_flush_loop : hold.

Lemma hold_log level msg : preserves R (log_write level msg).
Proof. hold. Qed.
#[local] Hint Resolve hold_log : hold.

Lemma hold_ctl_flush fuel i : preserves R (ctl_flush_loop fuel i).
Proof. induction fuel; cbn [ctl_flush_loop]; hold. Qed.
#[local] Hint Resolve hold_ctl_flush : hold.

Lemma hold_write_one fuel i msg : preserves R (ctl_write_one fuel i msg).
Proof. induction fuel; cbn [ctl_write_one]; hold. Qed.
#[local] Hint Resolve hold_write_one : hold.

Lemma hold_write_all dest msg : preserves R (ctl_write_all dest msg).
Proof. induction dest; cbn [ctl_write_all]; hold. Qed.
#[local] Hint Resolve hold_write_all : hold.

Lemma hold_write dest msg : preserves R (ctl_write dest msg).
Proof. hold. Qed.
End base.
#[export] Hint Resolve hold_flush_loop hold_log hold_ctl_flush hold_write_one hold_write_all hold_write : hold.

(** The end of the interactive session ends the daemon only when there is no guard. *)
Lemma hold_freed `{OS} (R : G → G → Prop) `{!Holding R} i : preserves R (main_notify_controller_freed i).
Proof.
  intros g a g' E. apply holding_held. intros Hg. unfold main_notify_controller_freed in E.
  rewrite (bind_done (gets g_main) _ _ _ _ eq_refl) in E. case_bool_decide; [|by injection E as _ <-].
  rewrite (bind_done (gets _) _ _ _ _ eq_refl), (proj2 (Z.eqb_neq _ _) Hg) in E.
  match type of E with ?m _ = _ => assert (Hh : preserves held m) by hold end. exact (Hh _ _ _ E Hg).
Qed.
#[export] Hint Resolve hold_freed : hold.

(** ** Loops, and functions that are called often *)

Section loops.
Context `{OS, Inet, CmdTable} (R : G → G → Prop) `{!Holding R}.

Lemma hold_fds_loop fuel svc fds : preserves R (svc_fds_loop fuel svc fds).
Proof. revert svc fds. induction fuel; intros; cbn [svc_fds_loop]; hold. Qed.
#[local] Hint Resolve hold_fds_loop : hold.

Lemma hold_sigwake_loop fuel sigs sig_ts : preserves R (svc_sigwake_loop fuel sigs sig_ts).
Proof. revert sigs sig_ts. induction fuel; intros; cbn [svc_sigwake_loop]; hold. Qed.
#[local] Hint Resolve hold_sigwake_loop : hold.

Lemma hold_svc_check svc : preserves R (svc_check svc).
Proof. hold. Qed.
#[local] Hint Resolve hold_svc_check : hold.

Lemma hold_set_active svc b : preserves R (svc_set_active svc b).
Proof. hold. Qed.
#[local] Hint Resolve hold_set_active : hold.

Lemma hold_fd_by_name name : preserves R (fd_by_name name).
Proof. hold. Qed.
#[local] Hint Resolve hold_fd_by_name : hold.

Lemma hold_svc_by_name name create : preserves R (svc_by_name name create).
Proof. hold. Qed.
#[local] Hint Resolve hold_svc_by_name : hold.

Lemma hold_fd_delete fd : preserves R (fd_delete fd).
Proof. hold. Qed.
#[local] Hint Resolve hold_fd_delete : hold.

Lemma hold_set_var svc name value : preserves R (svc_set_var svc name value).
Proof. hold. Qed.
#[local] Hint Resolve hold_set_var : hold.

Lemma hold_tok i : preserves R (tok_command i).
Proof. hold. Qed.
#[local] Hint Resolve hold_tok : hold.

Lemma hold_fail {A} i msg (a : A) : preserves R (fail_with i msg a).
Proof. hold. Qed.
#[local] Hint Resolve @hold_fail : hold.

Lemma hold_arg_service i b : preserves R (ctl_get_arg_service i b).
Proof. hold. Qed.
#[local] Hint Resolve hold_arg_service : hold.

Lemma hold_arg_fd i b1 b2 : preserves R (ctl_get_arg_fd i b1 b2).
Proof. hold. Qed.
#[local] Hint Resolve hold_arg_fd : hold.

Lemma hold_pipe_flags fuel i opts f : preserves R (pipe_flags_loop fuel i opts f).
Proof. revert i opts f. induction fuel; intros; cbn [pipe_flags_loop]; hold. Qed.
#[local] Hint Resolve hold_pipe_flags : hold.

Lemma hold_open_flags fuel i opts f : preserves R (open_flags_loop fuel i opts f).
Proof. revert i opts f. induction fuel; intros; cbn [open_flags_loop]; hold. Qed.
#[local] Hint Resolve hold_open_flags : hold.

Lemma hold_missing_dirs prefix path : preserves R (create_missing_dirs prefix path).
Proof. revert prefix. induction path; intros; cbn [create_missing_dirs]; hold. Qed.
#[local] Hint Resolve hold_missing_dirs : hold.

Lemma hold_sock_flags fuel i opts f : preserves R (sock_flags_loop fuel i opts f).
Proof. revert i opts f. induction fuel; intros; cbn [sock_flags_loop]; hold. Qed.
#[local] Hint Resolve hold_sock_flags : hold.

Lemma hold_check_fds fuel i : preserves R (check_fds_loop fuel i).
Proof. revert i. induction fuel; intros; cbn [check_fds_loop]; hold. Qed.
#[local] Hint Resolve hold_check_fds : hold.

Lemma hold_signal_flags fuel i flags group : preserves R (signal_flags_loop fuel i flags group).
Proof. revert i flags group. induction fuel; intros; cbn [signal_flags_loop]; hold. Qed.
#[local] Hint Resolve hold_signal_flags : hold.

(** Every command but the two that are for the end of the daemon. *)
Definition ends_daemon (cmd : ctl_cmd_t) : bool :=
  match cmd with Cmd_terminate | Cmd_terminate_guard => true | _ => false end.

Lemma hold_command cmd i : ends_daemon cmd = false → preserves R (ctl_cmd_fn cmd i).
Proof. intros Hc. destruct cmd; try done; cbn [ctl_cmd_fn]; hold. Qed.

Lemma hold_deliver_loop fuel i : preserves R (ctl_deliver_loop fuel i).
Proof. induction fuel; cbn [ctl_deliver_loop]; hold. Qed.
#[local] Hint Resolve hold_deliver_loop : hold.

Lemma hold_dump_fds_loop fuel i fd : preserves R (dump_fds_loop fuel i fd).
Proof. revert fd. induction fuel; intros; cbn [dump_fds_loop]; hold. Qed.
#[local] Hint Resolve hold_dump_fds_loop : hold.

Lemma hold_dump_svc_from n i svc sub : preserves R (dump_svc_from n i svc sub).
Proof. revert sub. induction n; intros; cbn [dump_svc_from]; hold. Qed.
#[local] Hint Resolve hold_dump_svc_from : hold.

Lemma hold_dump_services_loop fuel i svc sub : preserves R (dump_services_loop fuel i svc sub).
Proof. revert svc sub. induction fuel; intros; cbn [dump_services_loop]; hold. Qed.
#[local] Hint Resolve hold_dump_services_loop : hold.

Lemma hold_ancillary l : preserves R (ctl_close_ancillary l).
Proof. induction l; cbn [ctl_close_ancillary]; hold. Qed.
#[local] Hint Resolve hold_ancillary : hold.

Lemma hold_read_ancillary i l : preserves R (ctl_read_ancillary_fds i l).
Proof. induction l; cbn [ctl_read_ancillary_fds]; hold. Qed.
#[local] Hint Resolve hold_read_ancillary : hold.

Lemma hold_alloc n i : preserves R (ctl_alloc_loop n i).
Proof. revert i. induction n; intros; cbn [ctl_alloc_loop]; hold. Qed.
#[local] Hint Resolve hold_alloc : hold.

Lemma hold_run_switch fuel svc : preserves R (svc_run_switch fuel svc).
Proof. induction fuel; cbn [svc_run_switch]; hold. Qed.
#[local] Hint Resolve hold_run_switch : hold.

Lemma hold_sigwake_all fuel svc sig : preserves R (svc_sigwake_all fuel svc sig).
Proof. revert svc. induction fuel; intros; cbn [svc_sigwake_all]; hold. Qed.
#[local] Hint Resolve hold_sigwake_all : hold.

Lemma hold_signals_loop fuel : preserves R (svc_signals_loop fuel).
Proof. induction fuel; cbn [svc_signals_loop]; hold. Qed.
#[local] Hint Resolve hold_signals_loop : hold.

Lemma hold_run_all fuel svc : preserves R (svc_run_all fuel svc).
Proof. revert svc. induction fuel; intros; cbn [svc_run_all]; hold. Qed.
#[local] Hint Resolve hold_run_all : hold.

Lemma hold_drain_loop fuel fd : preserves R (drain_loop fuel fd).
Proof. induction fuel; cbn [drain_loop]; hold. Qed.
#[local] Hint Resolve hold_drain_loop : hold.

Lemma hold_reap_loop fuel : preserves R (reap_loop fuel).
Proof. induction fuel; cbn [reap_loop]; hold. Qed.
#[local] Hint Resolve hold_reap_loop : hold.

End loops.
#[export] Hint Resolve hold_fds_loop hold_sigwake_loop hold_svc_check hold_set_active hold_fd_by_name hold_svc_by_name hold_fd_delete hold_set_var hold_tok @hold_fail hold_arg_service hold_arg_fd hold_pipe_flags hold_open_flags hold_missing_dirs hold_sock_flags hold_check_fds hold_signal_flags hold_deliver_loop hold_dump_fds_loop hold_dump_svc_from hold_dump_services_loop hold_ancillary hold_read_ancillary hold_alloc hold_run_switch hold_sigwake_all hold_signals_loop hold_run_all hold_drain_loop hold_reap_loop : hold.

(** ** The main loop, for relations that know what the commands do *)

Section loop.
Context `{OS, Inet, CmdTable} (R : G → G → Prop) `{!Holding R}.
Hypothesis hold_commands : ∀ cmd i, preserves R (ctl_cmd_fn cmd i).
#[local] Hint Resolve hold_commands : hold.

Lemma hold_dispatch i : preserves R (dispatch i).
Proof. hold. Qed.
#[local] Hint Resolve hold_dispatch : hold.

Lemma hold_state st i : preserves R (ctl_state st i).
Proof. destruct st; cbn [ctl_state]; hold. Qed.
#[local] Hint Resolve hold_state : hold.

Lemma hold_steps n i : preserves R (ctl_steps n i).
Proof. induction n; cbn [ctl_steps]; hold. Qed.
#[local] Hint Resolve hold_steps : hold.

Lemma hold_for_all f n i : (∀ j, preserves R (f j)) → preserves R (ctl_for_all f n i).
Proof. intros Hf. revert i. induction n; intros; cbn [ctl_for_all]; hold. Qed.

Lemma hold_ctl_run : preserves R ctl_run.
Proof. unfold ctl_run. apply preserves_bind; [apply _| |intros _]; apply hold_for_all; intros j; hold. Qed.
#[local] Hint Resolve hold_ctl_run : hold.

Lemma hold_iteration fuel : preserves R (main_iteration fuel).
Proof. hold. Qed.
#[local] Hint Resolve hold_iteration : hold.

Lemma hold_main_loop iterations fuel : preserves R (main_loop iterations fuel).
Proof. induction iterations; cbn [main_loop]; hold. Qed.
End loop.

(** ** The two commands *)

Section guard.
Context `{OS, Inet, CmdTable}.

(** A controller's command line gave an exit code and the code of the guard, with
    exec-on-exit on, and the daemon was told to end with that exit code. *)
Definition gave_code (g g' : G) : Prop := ∃ i x g1 g2,
  ctl_get_arg_int i g = Done (Some x, g1) ∧
  ctl_get_arg_int i g1 = Done (Some (opt_terminate_guard (g_opt g)), g2) ∧
  opt_exec_on_exit (g_opt g) = true ∧
  main_terminate (g_main g') = true ∧ main_exitcode (g_main g') = wrap32 x ∧ g_opt g' = g_opt g.

(** A controller's command line gave a minus sign and the code of the guard, and the
    guard was taken away. *)
Definition lifted_guard (g g' : G) : Prop := ∃ i arg g1 g2,
  ctl_get_arg i g = Done (arg, g1) ∧ guard_sign arg = Done (Some false) ∧
  ctl_get_arg_int i g1 = Done (Some (opt_terminate_guard (g_opt g)), g2) ∧
  g_main g' = g_main g ∧ g_opt g' = set_opt_terminate_guard 0 (g_opt g).

Lemma bind_inv {A B} (m : DP A) (f : A → DP B) g r : (m ≫= f) g = Done r → ∃ a g1, m g = Done (a, g1) ∧ f a g1 = Done r.
Proof. unfold mbind, M_bind. destruct (m g) as [[a g1]| | | |]; try done. eauto. Qed.

Lemma ctl_only_held g g' : ctl_only g g' → held g g'.
Proof. by intros [l ->]. Qed.

Lemma fail_inv {A} i msg (a : A) g b g' : fail_with i msg a g = Done (b, g') → b = a ∧ ctl_only g g'.
Proof.
  intros E. split; [|by apply ctl_only_fail in E]. unfold fail_with in E. apply bind_inv in E as (? & g1 & _ & [= -> _]). done.
Qed.

Lemma ctl_only_opt g g' : ctl_only g g' → g_opt g' = g_opt g ∧ g_main g' = g_main g.
Proof. by intros [l ->]. Qed.

(** The guard code was the next field of the command, or the check failed. *)
Lemma guard_ok_inv i guard g b g' : guard ≠ 0 → terminate_guard_ok i guard g = Done (b, g') →
  ctl_only g g' ∧ (b = true → ctl_get_arg_int i g = Done (Some guard, g')).
Proof.
  intros Hne E. unfold terminate_guard_ok in E. rewrite (proj2 (Z.eqb_neq _ _) Hne) in E.
  apply bind_inv in E as (y & g1 & E1 & E). pose proof (ctl_only_int i _ _ _ E1) as C1. destruct y as [v|].
  - destruct (Z.eqb_spec guard v) as [->|Hv]; cbn [negb] in E; [by injection E as <- <-|].
    apply fail_inv in E as [-> C2]. split; [by etransitivity|done].
  - apply fail_inv in E as [-> C2]. split; [by etransitivity|done].
Qed.

Lemma terminate_effect i g ok g' : ctl_cmd_terminate i g = Done (ok, g') → held g g' ∨ gave_code g g'.
Proof.
  destruct (decide (opt_terminate_guard (g_opt g) = 0)) as [E0|Hne]; [by left|].
  unfold ctl_cmd_terminate. intros (x & g1 & E1 & E)%bind_inv. pose proof (ctl_only_int i _ _ _ E1) as C1.
  destruct x as [x|]; [|injection E as _ <-; left; by apply ctl_only_held].
  apply bind_inv in E as (o & g1' & [= <- <-] & E). destruct (ctl_only_opt _ _ C1) as [Eo _]. rewrite Eo in E.
  apply bind_inv in E as (b & g2 & E2 & E). destruct (guard_ok_inv _ _ _ _ _ Hne E2) as [C2 Hb].
  rewrite (proj2 (Z.eqb_neq _ _) Hne) in E. assert (C12 : ctl_only g g2) by by etransitivity.
  destruct b; cbn [negb andb] in E; [|injection E as _ <-; left; by apply ctl_only_held].
  destruct (opt_exec_on_exit (g_opt g)) eqn:Ex; cbn [negb] in E.
  - right. destruct (ctl_only_opt _ _ C12) as [Eo2 _].
    apply bind_inv in E as (? & g3 & [= _ <-] & E). apply bind_inv in E as (? & g4 & [= _ <-] & E).
    apply bind_inv in E as (? & g5 & [= _ <-] & [= _ <-]). exists i, x, g1, g2. by split_and!; auto.
  - left. apply fail_inv in E as [_ C3]. apply ctl_only_held. by etransitivity.
Qed.

Lemma guard_effect i g ok g' : ctl_cmd_terminate_guard i g = Done (ok, g') → held g g' ∨ lifted_guard g g'.
Proof.
  destruct (decide (opt_terminate_guard (g_opt g) = 0)) as [E0|Hne]; [by left|].
  unfold ctl_cmd_terminate_guard. intros (arg & g1 & E1 & E)%bind_inv. pose proof (ctl_only_arg i _ _ _ E1) as C1.
  apply bind_inv in E as (sign & g1' & Es & E).
  assert (guard_sign arg = Done sign ∧ g1' = g1) as [Es' ->].
  { unfold lift in Es. destruct (guard_sign arg); try done. by injection Es as -> ->. }
  destruct sign as [sign|].
  2: { apply fail_inv in E as [_ C2]. left. apply ctl_only_held. by etransitivity. }
  apply bind_inv in E as (code & g2 & E2 & E). pose proof (ctl_only_int i _ _ _ E2) as C2.
  assert (C12 : ctl_only g g2) by by etransitivity. destruct (ctl_only_opt _ _ C12) as [Eo Em].
  destruct code as [code|]; [|injection E as _ <-; left; by apply ctl_only_held].
  apply bind_inv in E as (guard & g2' & [= <- <-] & E). rewrite Eo in E.
  assert (Hfail : ∀ msg, fail_with i msg false g2 = Done (ok, g') → held g g').
  { intros msg [_ C3]%fail_inv. apply ctl_only_held. by etransitivity. }
  rewrite (proj2 (Z.eqb_neq _ _) Hne) in E. cbn [negb] in E.
  destruct (code =? 0); [left; by eapply Hfail|]. destruct sign; [left; by eapply Hfail|].
  destruct (Z.eqb_spec code (opt_terminate_guard (g_opt g))) as [->|Hc]; cbn [negb] in E; [|left; by eapply Hfail].
  right. apply bind_inv in E as (? & g3 & [= _ <-] & [= _ <-]). exists i, arg, g1, g2.
  split_and!; [done|done|done|done|]. cbn. by rewrite Eo.
Qed.

(** ** Runs *)

(** What a step may do while there is a guard. *)
Definition guard_step (g g' : G) : Prop := held g g' ∨ gave_code g g' ∨ lifted_guard g g'.
Definition guard_run : G → G → Prop := rtc guard_step.

#[export] Instance guard_run_holding : Holding guard_run.
Proof. split; [apply _|]. intros g g' Hh. apply rtc_once. by left. Qed.

Lemma guard_run_command cmd i : preserves guard_run (ctl_cmd_fn cmd i).
Proof.
  destruct (ends_daemon cmd) eqn:Ed; [|by apply hold_command; [apply _|]].
  intros g ok g' E. apply rtc_once. destruct cmd; try done; cbn [ctl_cmd_fn] in E.
  - destruct (guard_effect _ _ _ _ E); [by left|by right; right].
  - destruct (terminate_effect _ _ _ _ E); [by left|by right; left].
Qed.

(** The first step that does not hold the state. *)
Lemma guard_run_first g g' : guard_run g g' → opt_terminate_guard (g_opt g) ≠ 0 →
  held g g' ∨ ∃ g1 g2, guard_run g g1 ∧ held g g1 ∧ (gave_code g1 g2 ∨ lifted_guard g1 g2) ∧ guard_run g2 g'.
Proof.
  induction 1 as [g|g g1 g2 Hs Hrun IH]; intros Hg; [by left|].
  destruct Hs as [Hh|Hs]; [|right; exists g, g1; split_and!; [apply rtc_refl|done|done|done]].
  destruct (Hh Hg) as (_ & _ & Eg). destruct IH as [Hh2|(g3 & g4 & R3 & H3 & S & R4)]; [congruence|left; by transitivity g1|].
  right. exists g3, g4. split_and!; [eapply rtc_l; [by left|done]|by transitivity g1|done|done].
Qed.

Lemma main_loop_ends iterations fuel g g' : main_loop iterations fuel g = Done (tt, g') → main_terminate (g_main g') = true.
Proof.
  revert g; induction iterations as [|n IH]; intros g; cbn [main_loop]; [done|]. intros (m & g1 & [= <- <-] & E)%bind_inv.
  destruct (main_terminate (g_main g)) eqn:Et; [by injection E as <-|]. apply bind_inv in E as (? & g2 & _ & E). by eapply IH.
Qed.
End guard.

Section theorem.
Context `{OS, Inet, CmdTable}.

End theorem.

(** ** An example: the guard is 42, and a controller says "terminate 3 42" *)

Definition guard_line_ctl : controller_t :=
  set_recv_buf (str "terminate" ++ TAB :: str "3" ++ TAB :: str "42" ++ [LF])
    (set_state_fn (Some ctl_state_next_command) (set_send_fd (-1) (set_recv_fd 5 controller_0))).
Definition guard_loop_state : G :=
  on_opt (λ o, set_opt_terminate_guard 42 (set_opt_exec_on_exit true o))
    (on_sig (set_sig_wake_rd 3) (set_g_ctl (guard_line_ctl :: replicate 9 controller_0) boot)).

