(* ===== verification/Defects.v ===== *)
(** * Where the code does not do what it means to

    Runs that end in undefined behaviour or in a state nobody wants, each on the
    conditions that lead to it. *)

From S2P Require Import Prelude Strseg State Log Signal CtlOut CtlOutSpec SvcVars Fd CtlObj Service ServiceSpec CtlArg CtlSock Fatal Options CtlCmd CtlObjCmd CtlIn.

Section defects.
Context `{OS}.

(** ** Services with a controller *)

Lemma ctl_alloc_loop_full n i g : (∀ j, (i ≤ j < i + n)%nat → ∃ c s, g_ctl g !! j = Some c ∧ state_fn c = Some s) →
  ctl_alloc_loop n i g = Done (None, g).
Proof.
  revert i. induction n as [|n IH]; intros i Hall; [done|]. cbn [ctl_alloc_loop].
  destruct (Hall i) as (c & s & Hc & Es); [lia|]. rewrite (bind_done _ _ _ _ _ (get_ctl_eq _ _ _ Hc)), Es.
  apply IH. intros j Hj. apply Hall. lia.
Qed.

(** C36. When every controller is in use, starting a service that has one of the
    descriptors control.socket, control.event or control.cmd ends in the use of a null
    pointer: the daemon crashes instead of delaying the service. *)
Theorem svc_do_fork_no_controller svc s g : svc_objs (g_svc g) !! svc = Some s →
  uses_control_socket s || uses_control_event s || uses_control_cmd s = true →
  (∀ i, (i < CONTROLLER_MAX_CLIENTS)%nat → ∃ c st, g_ctl g !! i = Some c ∧ state_fn c = Some st) →
  svc_do_fork svc g = Fault.
Proof.
  intros Hs Hu Hall. unfold svc_do_fork. rewrite (bind_done _ _ _ _ _ (svc_obj_eq _ _ _ Hs)), Hu. cbv zeta.
  unfold ctl_alloc. rewrite (bind_done _ _ _ _ _ (ctl_alloc_loop_full CONTROLLER_MAX_CLIENTS 0 g ltac:(intros j [_ Hj]; by apply Hall))). done.
Qed.

(** A controller without input, as a service gets that uses only control.event, is
    closed in its first state once the pending signals are delivered. *)
Lemma no_input_closes i c g : g_ctl g !! i = Some c → recv_fd c < 0 → recv_buf c = [] →
  ctl_next_at_eof i (find_eol []) g = Done (true, set_g_ctl (<[i := set_state_fn (Some ctl_state_close) c]> (g_ctl g)) g).
Proof.
  intros Hc Hfd Hbuf. unfold ctl_next_at_eof. rewrite (bind_done _ _ _ _ _ (get_ctl_eq _ _ _ Hc)), Hbuf. cbn [length Nat.eqb].
  by rewrite (bind_done _ _ _ _ _ (upd_ctl_eq _ _ _ _ Hc)).
Qed.

(** ** The control socket *)

(** A file of any kind whose mode has a bit in common with that of sockets, such as a
    regular file, is unlinked if it belongs to the user. *)
Lemma remove_any_socket_unlinks path g mode uid :
  (∀ tr, ret (os tr (CStat path)) = 0 ∧ out (os tr (CStat path)) = [mode; uid]) → (∀ tr, ret (os tr CGeteuid) = uid) →
  (∀ tr, ret (os tr (CUnlink path)) = 0) → Z.land mode S_IFSOCK ≠ 0 →
  ∃ r g1, remove_any_socket path g = (log_info (str "Unlinked control socket " ++ path);; mret true) g1 ∧
    g_trace g1 !! 0%nat = Some (CUnlink path, r).
Proof.
  intros Hst Hu Hun Hmode. unfold remove_any_socket. rewrite (bind_done _ _ _ _ _ (sys_eq _ _)).
  destruct (Hst (g_trace g)) as [-> ->]. rewrite Z.ltb_irrefl. cbn [nth]. rewrite (proj2 (Z.eqb_neq _ 0)) by done. cbn [negb].
  rewrite bind_bind, (bind_done _ _ _ _ _ (sys_eq _ _)), Hu, Z.eqb_refl. erewrite bind_done by reflexivity. cbn [negb].
  rewrite (bind_done _ _ _ _ _ (sys_eq _ _)), Hun, Z.eqb_refl. eauto.
Qed.

(** ** The log *)

(** Once a message was too long for the empty buffer, nothing is logged: messages are
    counted as lost, and a flush of the empty buffer does not get to the line that
    reports them and starts over. *)
Definition silent (l : log_t) : Prop := log_msg_lost l ≠ 0 ∧ log_buffer l = [].

Lemma long_message_silences level msg g : log_filter (g_log g) < level → log_msg_lost (g_log g) = 0 → log_buffer (g_log g) = [] →
  log_buffer_size ≤ Z.of_nat (length msg) → ∃ g', log_write level msg g = Done (false, g') ∧ silent (g_log g').
Proof.
  intros Hf Hl Hb Hn. unfold log_write. rewrite (bind_done (gets g_log) _ g (g_log g) g eq_refl).
  destruct (Z.geb_spec (log_filter (g_log g)) level); [lia|]. rewrite Hl, Z.eqb_refl. cbn [negb]. cbv zeta.
  case_match; [|destruct (Z.geb_spec (Z.of_nat (length msg))
    (log_buffer_size - Z.of_nat (length (log_buffer (g_log g))) - Z.of_nat (length (log_level_name level ++ str ": ")))); [|lia]].
  all: eexists; split; [reflexivity|]; split; [done|exact Hb].
Qed.

Lemma silent_flush g : silent (g_log g) → ∃ b, log_flush g = Done (b, g).
Proof.
  intros [_ Hb]. unfold log_flush. rewrite (bind_done (gets g_log) _ g (g_log g) g eq_refl). destruct (_ || _); [by exists false|].
  change log_flush_fuel with (S 1099). cbn [log_flush_loop]. rewrite (bind_done (gets _) _ g _ g eq_refl), Hb. by exists true.
Qed.

Lemma silent_write level msg g : silent (g_log g) → log_filter (g_log g) < level →
  log_write level msg g = Done (false, on_log (set_log_msg_lost (wrap32 (log_msg_lost (g_log g) + 1))) g).
Proof.
  intros [Hl Hb] Hf. unfold log_write. rewrite (bind_done (gets g_log) _ g (g_log g) g eq_refl).
  destruct (Z.geb_spec (log_filter (g_log g)) level); [lia|]. by rewrite (proj2 (Z.eqb_neq _ _)) by done.
Qed.
End defects.

(** All controllers in use, and a service with control.event. *)
Definition busy_ctl : controller_t := set_state_fn (Some ctl_state_next_command) controller_0.
Definition busy_state : G :=
  on_svc (set_svc_objs {[1 := set_uses_control_event true (svc_fresh (str "web"))]})
    (set_g_ctl (replicate CONTROLLER_MAX_CLIENTS busy_ctl) G_0).

Lemma svc_do_fork_no_controller_witness : @svc_do_fork ideal_os 1 busy_state = Fault.
Proof.
  apply (@svc_do_fork_no_controller ideal_os 1 (set_uses_control_event true (svc_fresh (str "web")))); [reflexivity|reflexivity|].
  intros i Hi. exists busy_ctl, ctl_state_next_command. split; [|reflexivity]. by apply lookup_replicate.
Defined.
